(* ===== verification/_CoqProject ===== *)
-Q . S2P
Prelude.v
PyText.v
Codec.v
Sha256.v
PyFloat.v
Config.v
Errors.v
Plans.v
Models.v
Runtime.v
IngressLimits.v
World.v
Schemas.v
Fixtures.v
Quota.v
Hostnames.v
AgentEnv.v
AgentService.v
AgentLifecycle.v
AgentQuota.v
Metering.v
AccessKeys.v
Ingress.v
Invites.v
Auth.v
Billing.v
Scheduler.v
Admin.v
LoginRateLimit.v
Observability.v
Api.v
App.v
Hoare.v
StoredRows.v
System.v
Fleet.v
Ddl.v
Migrations.v
Coroutine.v
Concurrent.v
Races.v
Tables.v
Loops.v
