(* ===== verification/Prelude.v ===== *)
(** * AgntSpark Gateway: a verification development

    The gateway ([agntspark_gateway/]) is the API and control plane of a platform that
    hosts AI agents in containers.  Accounts register (openly or with an invite), log in
    for a session token or mint API keys, and create, deploy, scale and delete agents
    within the limits of their plan.  The edge proxy asks the gateway, for each visitor of
    an agent's hostname, whether and where to route the request.  A background scheduler
    refreshes agents from the health of their containers, meters their use and
    auto-scales them.  Stripe events move accounts between plans.

    The development translates this code into definitions that compute, and proves what
    makes it correct.  Names follow the source; each file's opening comment says which
    Python modules it translates.

    ** How the program is modelled

    A handler is a computation of the state and error monad [M] (below) on a [world]
    ([World.v]): the database session, the container runtime, the clock, the two
    rate-limit tables and the counter of unflushed requests.  An exception is a value of
    [exn] ([Errors.v]); changes made before it was raised stay.  The session has a
    committed database and a working copy: queries read and updates change the copy,
    [commit] publishes it if the constraints of the tables hold and otherwise rolls back
    with [IntegrityError], and [request] runs a handler on a fresh session and drops what
    it did not commit.  The tables are finite maps of records ([Models.v]); [db_ok] is
    what PostgreSQL guarantees of them: primary, unique and foreign keys, column widths and
    text without U+0000 ([pg_text]) where requests supply it.  [Tables.v] derives it from the
    schema that the migrations build.

    Text is a list of code points with Python's operations on it ([PyText.v]); its UTF-8
    bytes, the text of UUIDs ([Codec.v]) and SHA-256 ([Sha256.v]) are computed, not assumed.
    A digest of text with a lone surrogate, which Python cannot encode and the request
    schemas refuse, is that of the empty text.  Numbers
    are exact integers or IEEE binary64 floats with Python's mixed arithmetic, comparison,
    [round] and compensated [sum] ([PyFloat.v]).  Instants are microseconds since the
    epoch, in UTC; the edge's limiter works on ticks of any resolution.

    Code outside the repository is a type class or a record that the definitions take as
    an argument, with its documented behaviour as a separate class of laws that only the
    theorems that need it assume: [CoreRole], [AgentRuntime], [CoreLLM], [CoreErrors] and
    [CoreApiKeys] (the core library), [Fernet] (on text, the encoding included), [Bcrypt] (on
    bytes), [Jwt], [UnicodeTables], [Redis], [StripeClient], [CoreRuntimeInit],
    [CoreMetrics], [PgFunctions] (PostgreSQL's [md5]).  [Fixtures.v] and the ends of
    the files give concrete instances, on which the witnesses run the theorems.

    In most files a request is atomic and happens at one instant.  Interleavings are modelled
    where they matter: [race_step] ([Invites.v]) interleaves the transactions of sign-ups
    that use one invite under the row lock that the query of [claim_invite] asks for,
    [meter_run] ([Metering.v]) interleaves counting requests with a flush that is waiting for
    the database or is cancelled, and [pool_step] ([Races.v]) interleaves any
    number of agent requests and scheduler ticks at their awaits, with tasks that start, are
    cancelled, and other requests in between.  For the latter the operations are written
    again as coroutines ([proc], [Coroutine.v], [Concurrent.v]) whose awaits are the queries,
    commits and runtime calls of the code, on ORM objects that write the columns they
    changed; [coroutines_match_handlers] shows that a coroutine that is left alone does what
    the atomic handler does.  Sequences of requests are the reflexive transitive closures of [api_step],
    [invite_step] and the runs [route_run] and [run_hits].  [sys_step] ([System.v]) puts the
    whole gateway together: every public route with a valid body, the edge, turns of the
    scheduler loop, the maintenance script, restarts and crashes of the process, and
    containers and time that change by themselves, one after the other; a restart cancels the
    scheduler at any of its awaits ([cancelled_turn]).  These definitions are structural
    recursions or folds, so they are total and need no fuel.  The endless loops, that is the
    scheduler's and the generators of the two streams, are interaction trees ([Loops.v]);
    [drive] runs them against any environment, and the theorems hold for every amount of
    fuel, with enough of it proved to exist where something is to be reached.

    ** Files

    - [Prelude]: strings, results, the monad, record updates, sums, tactics and hints.
    - [PyText], [PyFloat]: Python's text and numbers.
    - [Codec], [Sha256]: UTF-8, hexadecimal and UUID text; SHA-256.
    - [Config]: settings and the refusal to start with a production misconfiguration.
    - [Errors]: exceptions and the HTTP responses they become.
    - [Plans]: plan limits, roles.
    - [Models], [World]: tables, constraints, session, the state of the process.
    - [Runtime]: the interface of the core library's container runtime.
    - [Schemas]: request and response records with their field constraints.
    - [Quota]: what an account uses and the checks against its plan.
    - [Hostnames]: slugs, public URLs and the way back from a host.
    - [AgentEnv]: stored deploy configurations, secrets, the API's view of an agent.
    - [AgentService]: the operations on agents; [AgentLifecycle]: their contracts and the
      isolation of accounts; [AgentQuota]: plan limits as an invariant of the API.
    - [IngressLimits], [AccessKeys], [Ingress]: the edge's limiter, the keys of private
      agents, and the routing decision.
    - [Metering]: hour buckets, request counting and flushing, billing periods.
    - [Invites]: invites, registration, login, and races for an invite.
    - [Auth]: session tokens, API keys, principals and role requirements.
    - [Billing]: checkout, portal and Stripe events.
    - [Scheduler]: one tick, for every health report and failure, and a turn that is cancelled.
    - [Admin]: account administration.  [LoginRateLimit]: the Redis counter.
    - [Observability]: request ids and the access log.
    - [Api]: the public routes, authentication included.
    - [App]: the application around them: its set-up, probes, the layers a response passes,
      start and shutdown.
    - [Hoare]: a program logic for handlers, [keeps], with one rule per primitive and the
      tactic [keep]; [StoredRows]: well-formed rows, and every operation and route taken
      through the logic; [System]: the transition system of the whole gateway; [Fleet]: who
      owns which agent along its runs.
    - [Ddl]: relational schemas, rows and the statements of migrations; [Migrations]: the
      nine revisions, the driver, and the schema the models declare.
    - [Coroutine]: coroutines, their database sessions, and simulations between them and
      atomic handlers; [Concurrent]: the agent operations and the tick as coroutines;
      [Races]: a rely-guarantee logic for them ([guarantees], tactic [guar]), pools of tasks
      and what holds and what goes wrong in them.
    - [Tables]: the rows of the six tables as cells, and what PostgreSQL checks of them.
    - [Loops]: the endless loops as interaction trees, and how they run.

    ** What is shown

    - Quotas: the resource check passes exactly when the plan allows it
      ([ensure_resources_iff]); along every sequence of requests no account held to its
      plan, from a start within the plans, exceeds its agents, replicas or memory
      ([quota_never_exceeded]); auto-scaling
      asks for a replica only within the plan ([auto_scale_within_plan]).  The invariant
      assumes that scaling down is asked of active agents and that a scaling leaves no
      more containers than it accounts for; [scale_down_revives_unchecked] shows that the
      code does not enforce the former.
      For the number of agents the limit holds along runs of the whole gateway in which
      requests do not overlap, whatever else happens and whenever plans change
      ([fleet_within_plan]).
      Checks take no lock: with [n] creations of an account in flight it ends at most [n - 1]
      agents over its plan ([quota_overshoot_bounded]), and its witness gets there.
    - Concurrency: however requests and ticks interleave, no account's agents are touched by
      another's requests ([concurrent_accounts_isolated]).  What goes wrong within one account
      is computed on concrete schedules: [delete_during_deploy_orphans],
      [tick_during_deploy_hides_agent], [concurrent_deploys_count_once],
      [concurrent_deploys_break_bounds], [delete_during_tick_ends_it].
    - Agents: creating, deploying, scaling and deleting meet contracts that name every
      outcome with its cause and the database, runtime and answer it leaves, and leave no
      other choice ([deploy_agent_contract],
      [scale_agent_contract], [create_agent_contract], [delete_removes_agent_and_keys]);
      no account touches another's rows ([accounts_isolated]) and agents never change hands
      ([agents_never_change_hands]); configurations and secrets
      round-trip and never leak ([deploy_config_roundtrip], [env_storage_roundtrip],
      [response_hides_secrets]), a provider key survives redeploys
      ([provider_key_survives_redeploys]); listings are complete ([pages_cover_all]);
      a stopped agent cannot be read back ([agent_readable_iff]).
    - The edge: an upstream is revealed only to those allowed, counted once
      ([route_only_when_allowed], [route_frame]); the limiter refines a specification that
      keeps the whole log ([limiter_refines_spec]), which bounds what an agent is served in a
      minute of the clock and in any sixty seconds ([agent_rate_bound]); hostnames are valid labels and lead back to their agent
      ([new_slug_dns_label], [slug_host_roundtrip]); access keys open their agent from
      creation to deletion ([access_key_lifecycle], [private_agent_has_working_key]).
    - Metering: no request is lost or counted twice under any interleaving with flushes
      and their failures, except in batches whose flush is cancelled or whose applied commit
      is reported as failed ([requests_conserved], [flush_parts_run]); a flush writes exactly
      what is pending for the accounts there are, or nothing ([flush_all_or_nothing]); the
      billing month
      starts where it should ([month_start_latest]).
    - Encodings: UTF-8 encoding and decoding are inverse ([utf8_iff]), UUIDs read back as
      printed ([uuid_roundtrip]), SHA-256 agrees with the published examples and its digests
      are 64 hexadecimal digits ([sha256_hex_format]).
    - Accounts: registration is atomic ([register_atomic]), invites are never overused, in
      sequence or in a race ([invite_uses_never_exceed], [invite_race_safe]), which without
      the lock they would be ([unlocked_claims_overshoot]); login,
      sessions and API keys work exactly for whom and while they should ([login_iff],
      [session_lifetime], [api_key_lifecycle]); roles guard every changing route
      ([require_role_sound], [changes_need_developer]); an admin keeps their own access
      ([admin_keeps_own_access]); no public route touches the edge's counters
      ([api_leaves_edge_alone]).
    - Billing: the plan follows the subscription ([plan_follows_subscription]), a paid
      checkout reaches the account that started it ([checkout_grants_pro]), events may
      be repeated ([redelivery_idempotent]) and their snapshots do not matter
      ([snapshots_do_not_matter]); [late_checkout_grants_again] is the exception.
    - Responses, also those to unexpected failures, are sent once, with their request's id
      exactly once and the status the access log shows ([request_id_attached],
      [every_response_identified]).
    - Scheduler: rows reflect health ([tick_reflects_health]) and nothing else changes
      ([scheduler_only_refreshes]); a tick that nothing interferes with cannot fail and asks
      for the health of every active agent ([tick_reaches_every_agent]); the endless loop
      ticks with the time since the tick before, at most three intervals, and sleeps one, until
      it is cancelled ([scheduler_loop_runs]).
    - Streams: they send what their polls call for, each log entry once, end when the client
      is gone and never stop before ([log_stream_runs], [metric_stream_runs]).
    - The whole system: stored rows stay well formed ([rows_stay_well_formed]); every
      request served at the edge is accounted for, through restarts and crashes, or was lost
      in one of the ways the steps name ([served_requests_accounted]), and is in the database
      after the next working turn of the scheduler when nothing was lost
      ([next_turn_writes_all]).
    - Migrations: they lead to the schema the models declare ([migrations_match_models]),
      succeed on every conforming database without losing a cell ([upgrade_keeps_data]) and
      are undone by their downgrades ([downgrade_restores]).  What PostgreSQL then checks of
      the stored rows is [db_ok] and that values fit their columns ([commit_check_is_schema]),
      and it accepts every database the gateway reaches ([reachable_databases_accepted]).

    The other theorems state the same kinds of facts about smaller parts (the login limit,
    error responses, settings, period totals), and some compute behaviour that the code
    does not intend ([lost_expiry_locks_out], [scaling_never_left],
    [stopped_agent_unreadable], [long_passwords_interchangeable], [nul_name_fails]).

    ** What is not modelled

    Framework glue and pure I/O: the matching of routes, CORS headers, structlog's
    processors, what Sentry and Prometheus do, the database engine and its pool, uvicorn,
    parsing of HTTP, JSON and environment variables, the syntax of email addresses.  Texts
    of error messages and their detail dictionaries.  The text of server-sent events.
    Alembic's offline mode, and extensions that the database server lacks.  Interleavings of
    requests other than the ones named above: in [pool_step] the rest of the gateway is any
    change that keeps what the theorem says it keeps.  Lock waits and deadlocks of the
    database, except the lock on an invite.  Failures of the database driver, except in a
    flush, where one is an input and, but in [meter_run], means that nothing was written.  The [updated_at] columns, which only responses show.  SQL leaves the order of
    rows that tie open; lists here break ties in a fixed way, and [pages_cover_all] asks
    for distinct creation times.

    Totals of vCPU are checked in floating point against a limit that is itself a float, so
    along a run of requests their sums hold only up to rounding; the invariant of
    [AgentQuota.v] covers agents, replicas and memory, and each single check is exact
    ([ensure_resources_iff]).  Replicas and memory are not bounded along runs of the whole
    gateway: a plan may be lowered under running agents, and the scheduler records as many
    replicas as there are containers. *)

From stdpp Require Export base list strings gmap fin_maps sorting.
From Stdlib Require Export ZArith Lia ZifyBool ZifyN.

#[export] Set Default Goal Selector "!".
Global Open Scope Z_scope.

(** * Python strings

    A Python [str] is its sequence of code points. *)
Abbreviation pystr := (list N).

Definition str (s : string) : pystr :=
  (λ c, Ascii.N_of_ascii c) <$> String.list_ascii_of_string s.
Arguments str _%_string_scope : simpl never.

Declare Scope py_scope.
Delimit Scope py_scope with py.
Global Open Scope py_scope.

(** Python's [==] on the values of the model, as a boolean. *)
Notation "x == y" := (bool_decide (x = y)) (at level 70, no associativity) : py_scope.
Notation "x != y" := (negb (bool_decide (x = y))) (at level 70, no associativity) : py_scope.

(** Truth values of the optional and sequence types the source tests directly. *)
Definition nonempty {A} (l : list A) : bool := match l with [] => false | _ => true end.
(** What a text column of PostgreSQL stores: Unicode scalar values other than U+0000. *)
Definition pg_char (c : N) : bool := ((0 <? c) && (c <? 55296) || (57344 <=? c) && (c <? 1114112))%N.
Definition pg_text (s : pystr) : Prop := Forall (λ c, pg_char c = true) s.
#[export] Instance pg_text_dec s : Decision (pg_text s).
Proof. unfold pg_text. apply _. Defined.

Definition truthy (o : option pystr) : bool := if o is Some s then nonempty s else false.
(** [s or t] where [s] may be [None] or the empty string. *)
Definition str_or (a b : option pystr) : option pystr := if truthy a then a else b.

(** * Results: a value or the exception that was raised *)
Inductive result (E A : Type) : Type :=
| Ok (a : A)
| Err (e : E).
Arguments Ok {_ _} _.
Arguments Err {_ _} _.

Definition is_ok {E A} (r : result E A) : bool := if r is Ok _ then true else false.

#[export] Instance result_ret {E} : MRet (result E) := λ _ a, Ok a.
#[export] Instance result_bind {E} : MBind (result E) :=
  λ _ _ k r, match r with Ok a => k a | Err e => Err e end.
#[export] Instance result_fmap {E} : FMap (result E) :=
  λ _ _ f r, match r with Ok a => Ok (f a) | Err e => Err e end.

(** * The state and error monad

    A handler runs on a state and ends with the new state and its result.  The
    state survives an exception: what was committed or changed in memory before
    it was raised stays. *)
Definition M (S E A : Type) : Type := S → S * result E A.

#[export] Instance M_ret {S E} : MRet (M S E) := λ _ a s, (s, Ok a).
#[export] Instance M_bind {S E} : MBind (M S E) :=
  λ _ _ k m s, match m s with
               | (s', Ok a) => k a s'
               | (s', Err e) => (s', Err e)
               end.

Section monad.
Context {S E : Type}.

Definition raise {A} (e : E) : M S E A := λ s, (s, Err e).
Definition gets {A} (f : S → A) : M S E A := λ s, (s, Ok (f s)).
Definition modify (f : S → S) : M S E unit := λ s, (f s, Ok tt).
(** A computation that only reads the state. *)
Definition reads {A} (f : S → result E A) : M S E A := λ s, (s, f s).
(** [try: m except e: h e], where [h e = None] lets the exception through. *)
Definition try_except {A} (m : M S E A) (h : E → option (M S E A)) : M S E A :=
  λ s, match m s with
       | (s', Ok a) => (s', Ok a)
       | (s', Err e) => match h e with Some k => k s' | None => (s', Err e) end
       end.
Definition when (b : bool) (m : M S E unit) : M S E unit := if b then m else mret tt.

(** Running a bind. *)
Lemma bind_run {A B} (m : M S E A) (k : A → M S E B) s :
  (m ≫= k) s = match m s with (s', Ok a) => k a s' | (s', Err e) => (s', Err e) end.
Proof. reflexivity. Qed.

Lemma bind_assoc_run {A B C} (m : M S E A) (k : A → M S E B) (h : B → M S E C) s :
  (m ≫= λ a, k a ≫= h) s = ((m ≫= k) ≫= h) s.
Proof. rewrite !bind_run. by destruct (m s) as [? []]. Qed.

Lemma bind_ok {A B} (m : M S E A) (k : A → M S E B) s s2 b :
  (m ≫= k) s = (s2, Ok b) ↔ ∃ s1 a, m s = (s1, Ok a) ∧ k a s1 = (s2, Ok b).
Proof.
  rewrite bind_run. split.
  - destruct (m s) as [s1 [a|e]] eqn:Em; [eauto|done].
  - by intros (s1 & a & -> & ?).
Qed.

Lemma bind_err {A B} (m : M S E A) (k : A → M S E B) s s2 e :
  (m ≫= k) s = (s2, Err e) ↔
  m s = (s2, Err e) ∨ ∃ s1 a, m s = (s1, Ok a) ∧ k a s1 = (s2, Err e).
Proof.
  rewrite bind_run. split.
  - destruct (m s) as [s1 [a|e']] eqn:Em; naive_solver.
  - destruct (m s) as [s1 [a|e']] eqn:Em; naive_solver.
Qed.

(** Frame reasoning: a computation that keeps [f] of the state. *)
Definition preserves {A X} (f : S → X) (m : M S E A) : Prop := ∀ s, f (m s).1 = f s.

Lemma preserves_bind {A B X} (f : S → X) (m : M S E A) (k : A → M S E B) :
  preserves f m → (∀ a, preserves f (k a)) → preserves f (m ≫= k).
Proof.
  intros Hm Hk s. rewrite bind_run. specialize (Hm s).
  destruct (m s) as [s1 [a|e]]; cbn in *; [|done]. by rewrite Hk.
Qed.
Lemma preserves_ret {A X} (f : S → X) (a : A) : preserves f (mret a : M S E A).
Proof. done. Qed.
Lemma preserves_raise {A X} (f : S → X) e : preserves f (raise e : M S E A).
Proof. done. Qed.
Lemma preserves_gets {A X} (f : S → X) (g : S → A) : preserves f (gets g).
Proof. done. Qed.
Lemma preserves_reads {A X} (f : S → X) (g : S → result E A) : preserves f (reads g).
Proof. done. Qed.
Lemma preserves_when {X} (f : S → X) b (m : M S E unit) :
  preserves f m → preserves f (when b m).
Proof. by destruct b. Qed.
Lemma preserves_try {A X} (f : S → X) (m : M S E A) h :
  preserves f m → (∀ e k, h e = Some k → preserves f k) →
  preserves f (try_except m h).
Proof.
  intros Hm Hh s. unfold try_except. specialize (Hm s).
  destruct (m s) as [s1 [a|e]]; cbn in *; [done|].
  destruct (h e) eqn:He; cbn; [|done]. by rewrite (Hh e).
Qed.
End monad.

(** The facts about single steps; [frame] takes a handler apart into them. *)
Create HintDb gateway.
#[export] Hint Resolve preserves_ret preserves_raise preserves_gets preserves_reads : gateway.

Ltac head_of t := lazymatch t with ?f _ => head_of f | _ => t end.
Ltac frame_step :=
  lazymatch goal with
  | |- preserves _ (_ ≫= _) => apply preserves_bind; [|intros ?]
  | |- preserves _ (if ?b then _ else _) => destruct b
  | |- preserves _ (match ?x with _ => _ end) => destruct x
  | |- preserves _ (when _ _) => apply preserves_when
  | |- preserves _ (try_except _ _) => apply preserves_try; [|intros ? ? [= <-]]
  | |- preserves _ ?m => let h := head_of m in progress unfold h
  end.
Ltac frame := intros; repeat (first [solve [auto with gateway nocore]|frame_step]).

(** Unfold the monad on a run and simplify. *)
Ltac mrun :=
  unfold mbind, M_bind, mret, M_ret, raise, gets, modify, reads, when, try_except in *;
  cbn beta iota zeta in *.

(** Split the boolean conjunctions among the hypotheses. *)
Ltac split_andb :=
  repeat match goal with
         | H : (_ && _)%bool = true |- _ =>
             let H1 := fresh H in let H2 := fresh H in apply andb_true_iff in H as [H1 H2]
         end.
(** Use every boolean hypothesis in the goal. *)
Ltac rewrite_bools :=
  repeat match goal with H : ?b = true |- context [?b] => rewrite H end.

(** Prove a decidable closed goal by running its decision procedure. *)
Ltac by_decide := apply (bool_decide_unpack _); vm_compute; exact I.

(** * Sums over rows *)
Definition sumZ {A} (f : A → Z) (l : list A) : Z := foldr (λ a s, f a + s) 0 l.

Arguments sumZ : simpl never.

Lemma sumZ_cons {A} (f : A → Z) x l : sumZ f (x :: l) = f x + sumZ f l.
Proof. reflexivity. Qed.

Lemma sumZ_app {A} (f : A → Z) l k : sumZ f (l ++ k) = sumZ f l + sumZ f k.
Proof. induction l as [|x l IH]; cbn; [done|]. rewrite !sumZ_cons, IH. lia. Qed.

#[export] Instance sumZ_perm {A} (f : A → Z) : Proper ((≡ₚ) ==> (=)) (sumZ f).
Proof. induction 1; rewrite ?sumZ_cons; lia. Qed.

Lemma sumZ_nonneg {A} (f : A → Z) l : (∀ a, a ∈ l → 0 ≤ f a) → 0 ≤ sumZ f l.
Proof.
  induction l as [|x l IH]; intros H; [done|]. rewrite sumZ_cons.
  assert (0 ≤ f x) by (apply H; set_solver).
  assert (0 ≤ sumZ f l) by (apply IH; set_solver). lia.
Qed.

Lemma sumZ_fmap {A B} (g : A → B) (f : B → Z) l : sumZ f (g <$> l) = sumZ (λ a, f (g a)) l.
Proof. induction l as [|x l IH]; [done|]. rewrite fmap_cons, !sumZ_cons. by rewrite IH. Qed.

Lemma sumZ_ext {A} (f g : A → Z) l : (∀ a, a ∈ l → f a = g a) → sumZ f l = sumZ g l.
Proof.
  induction l as [|x l IH]; intros H; [done|]. rewrite !sumZ_cons.
  rewrite H by set_solver. f_equal. apply IH. set_solver.
Qed.

Lemma sumZ_filter {A} (P : A → Prop) `{∀ a, Decision (P a)} (f : A → Z) l :
  sumZ f (filter P l) = sumZ (λ a, if decide (P a) then f a else 0) l.
Proof.
  induction l as [|x l IH]; [done|]. rewrite filter_cons, sumZ_cons.
  case_decide; rewrite ?sumZ_cons; lia.
Qed.

Lemma Forall_filter_keep {A} (P Q : A → Prop) `{∀ a, Decision (P a)} l :
  Forall Q l → Forall Q (filter P l).
Proof. induction 1; [done|]. rewrite filter_cons. case_decide; [by constructor|done]. Qed.

Lemma filter_none {A} (P : A → Prop) `{∀ a, Decision (P a)} l :
  (∀ a, a ∈ l → ¬ P a) → filter P l = [].
Proof.
  induction l as [|x l IH]; intros Hn; [done|]. rewrite filter_cons.
  rewrite decide_False by (apply Hn; set_solver). apply IH. set_solver.
Qed.

(** The values of a table, in the order the table is enumerated. *)
Definition rows {K V} `{Countable K} (m : gmap K V) : list V := (map_to_list m).*2.

Lemma elem_of_rows {K V} `{Countable K} (m : gmap K V) v :
  v ∈ rows m ↔ ∃ k, m !! k = Some v.
Proof.
  unfold rows. rewrite list_elem_of_fmap. split.
  - intros ([k v'] & -> & Hk). exists k. by apply elem_of_map_to_list.
  - intros [k Hk]. exists (k, v). split; [done|]. by apply elem_of_map_to_list.
Qed.

Lemma rows_insert {K V} `{Countable K} (m : gmap K V) k v :
  rows (<[k := v]> m) ≡ₚ v :: rows (delete k m).
Proof.
  unfold rows. rewrite <- insert_delete_eq.
  by rewrite map_to_list_insert by apply lookup_delete_eq.
Qed.

Lemma rows_delete {K V} `{Countable K} (m : gmap K V) k v :
  m !! k = Some v → rows m ≡ₚ v :: rows (delete k m).
Proof.
  intros Hk. rewrite <- (insert_id m k v Hk) at 1. apply rows_insert.
Qed.

Lemma rows_delete_id {K V} `{Countable K} (m : gmap K V) k :
  m !! k = None → rows (delete k m) = rows m.
Proof. intros Hk. by rewrite delete_id. Qed.

(** * Record update

    [r <| f := v |>] is [r] with field [f] set to [v].  A record type declares its
    eta expansion once, as an instance of [Eta]. *)
Class Eta (R : Type) := eta : R → R.
Class Setter {R F : Type} (p : R → F) := setf : F → R → R.

Ltac solve_setter :=
  match goal with
  | |- @Setter ?R ?F ?p =>
      let e := constr:(_ : Eta R) in
      let e := eval hnf in e in
      let b := eval pattern p in e in
      lazymatch b with
      | ?g _ => let s := eval cbv beta in (fun (v : F) (r : R) => g (fun _ : R => v) r) in
                exact s
      end
  end.
#[export] Hint Extern 1 (Setter _) => solve_setter : typeclass_instances.

Notation "r <| p := v |>" := (setf (p := p) v r)
  (at level 1, left associativity, p at level 200, v at level 200,
   format "r  <| p  :=  v |>") : py_scope.
