(* ===== verification/PyText.v ===== *)
(** Python text operations the gateway uses on [str] values: case folding,
    stripping, splitting, prefix and suffix tests, slicing and the one regular
    expression substitution, with the lemmas the components share. *)

From S2P Require Import Prelude.
Local Open Scope N_scope.

Definition chr (s : string) : N := default 0 (head (str s)).
Arguments chr _%_string_scope.

(** ** Character classes *)
Definition is_lower_alpha (c : N) : bool := (97 <=? c) && (c <=? 122).
Definition is_upper_alpha (c : N) : bool := (65 <=? c) && (c <=? 90).
Definition is_digit (c : N) : bool := (48 <=? c) && (c <=? 57).
(** The class [[a-z0-9]]. *)
Definition is_lower_alnum (c : N) : bool := is_lower_alpha c || is_digit c.
(** [str.isspace] of one character: every code point for which it holds. *)
Definition is_space (c : N) : bool :=
  ((9 <=? c) && (c <=? 13)) || ((28 <=? c) && (c <=? 32)) || (c =? 133) || (c =? 160)
  || (c =? 5760) || ((8192 <=? c) && (c <=? 8202)) || (c =? 8232) || (c =? 8233)
  || (c =? 8239) || (c =? 8287) || (c =? 12288).

(** ** Stripping, splitting, slicing *)
Fixpoint drop_while {A} (p : A → bool) (l : list A) : list A :=
  match l with
  | [] => []
  | x :: r => if p x then drop_while p r else l
  end.
Definition rstrip_by {A} (p : A → bool) (l : list A) : list A := reverse (drop_while p (reverse l)).
Definition strip_by {A} (p : A → bool) (l : list A) : list A := rstrip_by p (drop_while p l).
(** [s.strip()] *)
Definition strip (s : pystr) : pystr := strip_by is_space s.

(** A text is no longer without the characters around it. *)
Lemma drop_while_length {A} (p : A → bool) l : (length (drop_while p l) ≤ length l)%nat.
Proof. induction l as [|a l IH]; cbn; [lia|]. destruct (p a); cbn; lia. Qed.
Lemma strip_length s : (length (strip s) ≤ length s)%nat.
Proof.
  unfold strip, strip_by, rstrip_by. rewrite length_reverse.
  etrans; [apply drop_while_length|]. rewrite length_reverse. apply drop_while_length.
Qed.

(** [s.split(c, 1)[0]]: what precedes the first [c], all of [s] without one. *)
Fixpoint before_first (c : N) (s : pystr) : pystr :=
  match s with
  | [] => []
  | x :: r => if x =? c then [] else x :: before_first c r
  end.
(** [s.partition(c)] as the head and the tail around the first [c]. *)
Fixpoint partition_on (c : N) (s : pystr) : pystr * pystr :=
  match s with
  | [] => ([], [])
  | x :: r => if x =? c then ([], r)
              else let '(h, t) := partition_on c r in (x :: h, t)
  end.

Definition startswith (p s : pystr) : bool := bool_decide (p `prefix_of` s).
Definition endswith (p s : pystr) : bool := bool_decide (p `suffix_of` s).
(** [s[:-n]] for a positive [n]. *)
Definition drop_last (n : nat) (s : pystr) : pystr := take (length s - n) s.
(** [c in s] for a one-character string. *)
Definition contains (c : N) (s : pystr) : bool := bool_decide (c ∈ s).
(** [p in s]. *)
Fixpoint substring (p s : pystr) : bool :=
  startswith p s || match s with [] => false | _ :: r => substring p r end.

(** [re.sub(r"[^...]+", rep, s)] where the class is the complement of [keep]:
    every maximal run of other characters becomes one [rep]. *)
Fixpoint sub_runs (keep : N → bool) (rep : N) (inrun : bool) (s : pystr) : pystr :=
  match s with
  | [] => []
  | c :: r => if keep c then c :: sub_runs keep rep false r
              else if inrun then sub_runs keep rep true r
              else rep :: sub_runs keep rep true r
  end.

(** ** Case folding

    [ucd_lower] is the lower-case mapping of the Unicode Character Database for
    the code points beyond ASCII; it is data outside the repository. *)
Definition lower_char (ucd_lower : N → pystr) (c : N) : pystr :=
  if c <? 128 then [if is_upper_alpha c then c + 32 else c] else ucd_lower c.
Definition lower (ucd_lower : N → pystr) (s : pystr) : pystr :=
  mjoin (lower_char ucd_lower <$> s).

(** [s.upper()], likewise. *)
Definition upper_char (ucd_upper : N → pystr) (c : N) : pystr :=
  if c <? 128 then [if is_lower_alpha c then c - 32 else c] else ucd_upper c.
Definition upper (ucd_upper : N → pystr) (s : pystr) : pystr :=
  mjoin (upper_char ucd_upper <$> s).

(** The Unicode tables, as one interface. *)
(** [ucd_decimal] is the value of a decimal digit of another script. *)
Class UnicodeTables := { ucd_lower : N → pystr; ucd_upper : N → pystr; ucd_decimal : N → option N }.

(** ** Lemmas *)
Lemma drop_while_spec {A} (p : A → bool) l :
  ∃ h, l = h ++ drop_while p l ∧ Forall (λ x, p x = true) h.
Proof.
  induction l as [|x l (h & Hh & Hp)]; cbn; [by exists []|].
  destruct (p x) eqn:Hx; [|by exists []].
  exists (x :: h). split; [by cbn; f_equal|by constructor].
Qed.

Lemma drop_while_head {A} (p : A → bool) l x :
  head (drop_while p l) = Some x → p x = false.
Proof.
  induction l as [|y l IH]; cbn; [done|].
  destruct (p y) eqn:Hy; [done|]. by intros [= <-].
Qed.

Lemma drop_while_Forall {A} (p : A → bool) (P : A → Prop) l :
  Forall P l → Forall P (drop_while p l).
Proof. induction 1; cbn; [done|]. destruct (p x); [done|by constructor]. Qed.

Lemma drop_while_id {A} (p : A → bool) l :
  (∀ x, head l = Some x → p x = false) → drop_while p l = l.
Proof. destruct l as [|x l]; cbn; [done|]. intros H. by rewrite (H x eq_refl). Qed.

Lemma drop_while_app_all {A} (p : A → bool) l r :
  Forall (λ x, p x = true) l → drop_while p (l ++ r) = drop_while p r.
Proof. induction 1 as [|x l Hx _ IH]; cbn; [done|]. by rewrite Hx. Qed.

Lemma rstrip_by_Forall {A} (p : A → bool) (P : A → Prop) l :
  Forall P l → Forall P (rstrip_by p l).
Proof.
  intros H. unfold rstrip_by. apply Forall_reverse, drop_while_Forall.
  by apply Forall_reverse.
Qed.

Lemma rstrip_by_spec {A} (p : A → bool) l :
  ∃ t, l = rstrip_by p l ++ t ∧ Forall (λ x, p x = true) t.
Proof.
  destruct (drop_while_spec p (reverse l)) as (h & Hh & Hp).
  exists (reverse h). split; [|by apply Forall_reverse].
  unfold rstrip_by. rewrite <- reverse_app, <- Hh. by rewrite reverse_involutive.
Qed.

Lemma rstrip_by_last {A} (p : A → bool) l x :
  last (rstrip_by p l) = Some x → p x = false.
Proof. unfold rstrip_by. rewrite last_reverse. apply drop_while_head. Qed.

(** A character that is not stripped keeps everything before it. *)
Lemma rstrip_by_app {A} (p : A → bool) l r :
  rstrip_by p r ≠ [] → rstrip_by p (l ++ r) = l ++ rstrip_by p r.
Proof.
  unfold rstrip_by. rewrite reverse_app. intros Hr.
  assert (∀ k, drop_while p k ≠ [] → drop_while p (k ++ reverse l) = drop_while p k ++ reverse l)
    as Hd.
  { induction k as [|x k IH]; cbn; [done|]. destruct (p x); [apply IH|done]. }
  rewrite Hd.
  - by rewrite reverse_app, reverse_involutive.
  - intros Hn. apply Hr. by rewrite Hn.
Qed.

Lemma strip_by_Forall {A} (p : A → bool) (P : A → Prop) l :
  Forall P l → Forall P (strip_by p l).
Proof. intros. by apply rstrip_by_Forall, drop_while_Forall. Qed.

Lemma strip_by_last {A} (p : A → bool) l x :
  last (strip_by p l) = Some x → p x = false.
Proof. apply rstrip_by_last. Qed.

Lemma strip_by_head {A} (p : A → bool) l x :
  head (strip_by p l) = Some x → p x = false.
Proof.
  unfold strip_by. destruct (rstrip_by_spec p (drop_while p l)) as (t & Ht & _).
  destruct (rstrip_by p (drop_while p l)) as [|y r] eqn:E; [done|].
  cbn. intros [= ->]. apply (drop_while_head p l). by rewrite Ht.
Qed.

Lemma strip_by_length {A} (p : A → bool) l : (length (strip_by p l) ≤ length l)%nat.
Proof.
  unfold strip_by. destruct (drop_while_spec p l) as (h & Hh & _).
  destruct (rstrip_by_spec p (drop_while p l)) as (t & Ht & _).
  rewrite Hh at 2. rewrite Ht at 2. rewrite !length_app. lia.
Qed.

Lemma sub_runs_Forall keep rep b s :
  Forall (λ c, keep c = true ∨ c = rep) (sub_runs keep rep b s).
Proof.
  revert b. induction s as [|c s IH]; intros b; cbn; [done|].
  destruct (keep c) eqn:Hc; [constructor; auto|].
  destruct b; [done|constructor; auto].
Qed.

Lemma lower_app ucd a b : lower ucd (a ++ b) = lower ucd a ++ lower ucd b.
Proof. unfold lower. by rewrite fmap_app, join_app. Qed.

Lemma lower_cons ucd c s : lower ucd (c :: s) = lower_char ucd c ++ lower ucd s.
Proof. reflexivity. Qed.

(** Lower-casing an ASCII string is a map on its characters. *)
Lemma lower_ascii ucd s :
  Forall (λ c, c < 128) s →
  lower ucd s = (λ c, if is_upper_alpha c then c + 32 else c) <$> s.
Proof.
  induction 1 as [|c s Hc _ IH]; [done|].
  rewrite lower_cons, IH. unfold lower_char.
  by rewrite (proj2 (N.ltb_lt c 128) Hc).
Qed.

Lemma lower_id ucd s :
  Forall (λ c, c < 128 ∧ is_upper_alpha c = false) s → lower ucd s = s.
Proof.
  intros H. rewrite lower_ascii by (eapply Forall_impl; [done|naive_solver]).
  induction H as [|c s [_ Hc] _ IH]; cbn; [done|]. by rewrite Hc, IH.
Qed.

Lemma drop_while_fmap {A B} (f : A → B) (p : B → bool) (q : A → bool) l :
  Forall (λ x, p (f x) = q x) l → drop_while p (f <$> l) = f <$> drop_while q l.
Proof.
  induction 1 as [|x l Hx _ IH]; cbn; [done|]. rewrite Hx. by destruct (q x).
Qed.

Lemma rstrip_by_fmap {A B} (f : A → B) (p : B → bool) (q : A → bool) l :
  Forall (λ x, p (f x) = q x) l → rstrip_by p (f <$> l) = f <$> rstrip_by q l.
Proof.
  intros H. unfold rstrip_by. rewrite <- fmap_reverse.
  rewrite (drop_while_fmap f p q) by (by apply Forall_reverse).
  by rewrite fmap_reverse.
Qed.

(** Lower-casing ASCII commutes with stripping a character that has no case. *)
Lemma lower_rstrip_ascii ucd p s :
  (∀ c, c < 128 → p (if is_upper_alpha c then c + 32 else c) = p c) →
  Forall (λ c, c < 128) s →
  lower ucd (rstrip_by p s) = rstrip_by p (lower ucd s).
Proof.
  intros Hp Hs. rewrite !lower_ascii by (try apply rstrip_by_Forall; done).
  symmetry. apply rstrip_by_fmap. eapply Forall_impl; [done|]. intros c Hc. by apply Hp.
Qed.

Lemma before_first_app c a b :
  Forall (λ x, x ≠ c) a → before_first c (a ++ b) = a ++ before_first c b.
Proof.
  induction 1 as [|x a Hx _ IH]; cbn; [done|].
  rewrite (proj2 (N.eqb_neq x c) Hx). by rewrite IH.
Qed.

Lemma before_first_id c a : Forall (λ x, x ≠ c) a → before_first c a = a.
Proof.
  intros H. rewrite <- (app_nil_r a) at 1. rewrite before_first_app by done.
  cbn. by rewrite app_nil_r.
Qed.

Lemma drop_last_app a b : drop_last (length b) (a ++ b) = a.
Proof.
  unfold drop_last. rewrite length_app.
  replace (length a + length b - length b)%nat with (length a) by lia.
  by rewrite take_app_length.
Qed.

Lemma startswith_spec p s : startswith p s = true ↔ ∃ t, s = p ++ t.
Proof. unfold startswith. rewrite bool_decide_eq_true. done. Qed.
Lemma endswith_spec p s : endswith p s = true ↔ ∃ t, s = t ++ p.
Proof. unfold endswith. rewrite bool_decide_eq_true. done. Qed.
