(* ===== verification/Codec.v ===== *)
(** The parts of Python's standard library that turn text into bytes and numbers into text:
    UTF-8 ([str.encode], [bytes.decode]), hexadecimal digits, [str(uuid)] and [uuid.UUID],
    and [hashlib.sha256(...).hexdigest()].

    Bytes are numbers below 256 and words numbers below [2^32], with the wrap-around of
    word arithmetic written out. *)

From S2P Require Import Prelude PyText.
Local Open Scope N_scope.
Local Ltac Zify.zify_post_hook ::= Z.to_euclidean_division_equations.

(** ** UTF-8 *)
(** Code points that can be encoded; the others are surrogates. *)
Definition is_scalar (c : N) : bool := (c <? 0xD800) || ((0xE000 <=? c) && (c <? 0x110000)).
Definition utf8_char (c : N) : list N :=
  if c <? 0x80 then [c]
  else if c <? 0x800 then [0xC0 + c / 64; 0x80 + c mod 64]
  else if c <? 0x10000 then [0xE0 + c / 4096; 0x80 + c / 64 mod 64; 0x80 + c mod 64]
  else [0xF0 + c / 262144; 0x80 + c / 4096 mod 64; 0x80 + c / 64 mod 64; 0x80 + c mod 64].
(** [s.encode("utf-8")]; a lone surrogate raises [UnicodeEncodeError]. *)
Definition utf8_encode (s : pystr) : option (list N) :=
  if forallb is_scalar s then Some (mjoin (utf8_char <$> s)) else None.

(** [bs.decode("utf-8")], strict: continuation bytes where they belong, no overlong forms, no
    surrogates, nothing beyond the last code point. *)
Definition cont (b : N) : bool := (0x80 <=? b) && (b <? 0xC0).
Fixpoint utf8_decode (bs : list N) : option pystr :=
  match bs with
  | [] => Some []
  | b0 :: r0 =>
      if b0 <? 0x80 then cons b0 <$> utf8_decode r0
      else match r0 with
      | [] => None
      | b1 :: r1 =>
          if negb (cont b1) then None
          else if (0xC2 <=? b0) && (b0 <? 0xE0) then cons ((b0 - 0xC0) * 64 + (b1 - 0x80)) <$> utf8_decode r1
          else match r1 with
          | [] => None
          | b2 :: r2 =>
              if negb (cont b2) then None
              else if (0xE0 <=? b0) && (b0 <? 0xF0) then
                let c := (b0 - 0xE0) * 4096 + (b1 - 0x80) * 64 + (b2 - 0x80) in
                if (0x800 <=? c) && is_scalar c then cons c <$> utf8_decode r2 else None
              else match r2 with
              | [] => None
              | b3 :: r3 =>
                  if cont b3 && (0xF0 <=? b0) && (b0 <? 0xF8) then
                    let c := (b0 - 0xF0) * 262144 + (b1 - 0x80) * 4096 + (b2 - 0x80) * 64 + (b3 - 0x80) in
                    if (0x10000 <=? c) && is_scalar c then cons c <$> utf8_decode r3 else None
                  else None
              end
          end
      end
  end.

Lemma utf8_char_decode c bs : is_scalar c = true → utf8_decode (utf8_char c ++ bs) = cons c <$> utf8_decode bs.
Proof.
  unfold is_scalar, utf8_char, cont. intros Hc. repeat case_match; cbn [app utf8_decode]; unfold cont.
  all: repeat match goal with |- context [if ?b then _ else _] =>
         first [replace b with true by lia|replace b with false by lia] end.
  - done.
  - replace ((_ - 192) * 64 + _) with c by lia. done.
  - replace ((_ - 224) * 4096 + _ + _) with c by lia. unfold is_scalar.
    replace ((0x800 <=? c) && _) with true by lia. done.
  - replace ((_ - 240) * 262144 + _ + _ + _) with c by lia. unfold is_scalar.
    replace ((0x10000 <=? c) && _) with true by lia. done.
Qed.
Lemma utf8_encode_cons c s :
  utf8_encode (c :: s) = if is_scalar c then app (utf8_char c) <$> utf8_encode s else None.
Proof. unfold utf8_encode. cbn. destruct (is_scalar c); [|done]. by destruct (forallb is_scalar s). Qed.

(** What is decoded encodes back to the same bytes. *)
Lemma utf8_decode_char bs s :
  utf8_decode bs = Some s → bs = [] ∧ s = [] ∨
  ∃ c bs' s', s = c :: s' ∧ bs = utf8_char c ++ bs' ∧ is_scalar c = true ∧ utf8_decode bs' = Some s'.
Proof.
  intros Hd. destruct bs as [|b0 r0]; [injection Hd as <-; by left|right].
  cbn [utf8_decode] in Hd. unfold cont in Hd.
  repeat (case_match; try done); apply fmap_Some in Hd as (s' & Hs' & ->);
    (eexists _, _, s'; split; [reflexivity|split; [|split; [|exact Hs']]]); unfold is_scalar, utf8_char in *.
  all: try lia.
  all: repeat match goal with |- context [if ?b then _ else _] =>
         first [replace b with true by lia|replace b with false by lia] end.
  all: cbn [app]; repeat (f_equal; try lia).
Qed.
(** Encoding and decoding are inverse to each other, on exactly the encodable text and the
    well-formed bytes. *)
Theorem utf8_iff s bs : utf8_encode s = Some bs ↔ utf8_decode bs = Some s.
Proof.
  split.
  - revert bs. induction s as [|c s IH]; intros bs; [by intros [= <-]|]. rewrite utf8_encode_cons.
    destruct (is_scalar c) eqn:Hc; [|done]. intros (bs' & Hbs' & ->)%fmap_Some.
    rewrite utf8_char_decode by done. by rewrite (IH bs').
  - revert bs. induction s as [|c s IH]; intros bs Hd.
    + apply utf8_decode_char in Hd as [[-> _]|(? & ? & ? & [=] & _)]. done.
    + apply utf8_decode_char in Hd as [[_ [=]]|(c' & bs' & s' & [= <- <-] & -> & Hc & Hd)].
      rewrite utf8_encode_cons, Hc. by rewrite (IH bs' Hd).
Qed.

(** Every byte is below 256, and ASCII text is its own encoding. *)
Lemma utf8_char_bytes c : is_scalar c = true → Forall (λ b, b < 256) (utf8_char c).
Proof. unfold is_scalar, utf8_char. intros Hc. repeat case_match; repeat constructor; lia. Qed.
Lemma utf8_encode_bytes s bs : utf8_encode s = Some bs → Forall (λ b, b < 256) bs.
Proof.
  revert bs. induction s as [|c s IH]; intros bs; [by intros [= <-]|]. rewrite utf8_encode_cons.
  destruct (is_scalar c) eqn:Hc; [|done]. intros (bs' & Hbs' & ->)%fmap_Some.
  apply Forall_app. split; [by apply utf8_char_bytes|by apply IH].
Qed.
Lemma utf8_ascii s : Forall (λ c, c < 128) s → utf8_encode s = Some s.
Proof.
  induction 1 as [|c s Hc _ IH]; [done|]. rewrite utf8_encode_cons, IH. unfold is_scalar, utf8_char.
  replace (_ || _) with true by lia. by replace (c <? 128) with true by lia.
Qed.

(** ** Hexadecimal *)
Definition hex_digit (d : N) : N := if d <? 10 then 48 + d else 87 + d.
Definition hex_value (c : N) : option N :=
  if is_digit c then Some (c - 48)
  else if (97 <=? c) && (c <=? 102) then Some (c - 87)
  else if (65 <=? c) && (c <=? 70) then Some (c - 55)
  else None.
(** The last [k] digits of [n], as [format(n, "0kx")] writes a number below [16^k]. *)
Fixpoint hex_text (k : nat) (n : N) : pystr :=
  match k with
  | O => []
  | S k => hex_text k (n / 16) ++ [hex_digit (n mod 16)]
  end.
Definition is_hex (c : N) : bool := is_digit c || ((97 <=? c) && (c <=? 102)).

Lemma hex_digit_value d : d < 16 → hex_value (hex_digit d) = Some d.
Proof.
  unfold hex_digit, hex_value, is_digit. intros Hd. destruct (d <? 10) eqn:E.
  - replace (_ && _) with true by lia. f_equal. lia.
  - replace ((48 <=? 87 + d) && _) with false by lia. replace (_ && _) with true by lia. f_equal. lia.
Qed.
Lemma hex_digit_hex d : d < 16 → is_hex (hex_digit d) = true.
Proof. unfold hex_digit, is_hex, is_digit. intros Hd. destruct (d <? 10) eqn:E; lia. Qed.
Lemma hex_text_length k n : length (hex_text k n) = k.
Proof. revert n. induction k as [|k IH]; intros n; cbn; [done|]. rewrite length_app, IH. cbn. lia. Qed.
Lemma hex_text_hex k n : Forall (λ c, is_hex c = true) (hex_text k n).
Proof.
  revert n. induction k as [|k IH]; intros n; cbn; [done|]. apply Forall_app. split; [done|].
  constructor; [apply hex_digit_hex; lia|done].
Qed.

(** [int(s, 16)]: [s] in ASCII, with the digits and spaces of other scripts replaced. *)
Section int16.
Context `{UnicodeTables}.
Definition int_ascii (c : N) : N :=
  if c <? 128 then c
  else if is_space c then 32
  else match ucd_decimal c with Some d => 48 + d | None => 63 end.
Definition int_space (c : N) : bool := ((9 <=? c) && (c <=? 13)) || (c =? 32).
(** Digits, with single underscores between them. *)
Fixpoint hex_digits (acc : N) (under : bool) (s : pystr) : option N :=
  match s with
  | [] => if under then None else Some acc
  | c :: r =>
      if c =? 95 then if under then None else hex_digits acc true r
      else d ← hex_value c; hex_digits (16 * acc + d) false r
  end.
Definition hex_number (s : pystr) : option N :=
  match s with [] => None | c :: r => d ← hex_value c; hex_digits d false r end.
Definition hex_prefixed (s : pystr) : option N :=
  match s with
  | z :: x :: r =>
      if (z =? 48) && ((x =? 120) || (x =? 88))
      then hex_number (match r with u :: r' => if u =? 95 then r' else r | [] => [] end)
      else hex_number s
  | _ => hex_number s
  end.
Definition int_base16 (s : pystr) : option Z :=
  match strip_by int_space (int_ascii <$> s) with
  | [] => None
  | c :: r =>
      if c =? 43 then Z.of_N <$> hex_prefixed r
      else if c =? 45 then Z.opp <$> (Z.of_N <$> hex_prefixed r)
      else Z.of_N <$> hex_prefixed (c :: r)
  end.
End int16.

(** ** UUIDs

    A UUID is a number below [2^128]. *)
Definition UUID_END : N := 2 ^ 128.
(** [s.replace(p, "")] for a non-empty [p]; [skip] characters of a match are still to go. *)
Fixpoint remove_sub (p : pystr) (skip : nat) (s : pystr) : pystr :=
  match s with
  | [] => []
  | c :: r =>
      match skip with
      | S k => remove_sub p k r
      | O => if startswith p s then remove_sub p (length p - 1) r else c :: remove_sub p 0 r
      end
  end.

(** [str(u)] *)
Definition uuid_str (u : N) : pystr :=
  let h := hex_text 32 u in
  take 8 h ++ [45] ++ take 4 (drop 8 h) ++ [45] ++ take 4 (drop 12 h) ++ [45] ++ take 4 (drop 16 h) ++ [45] ++ drop 20 h.
(** [uuid.UUID(s)]; [None] is its [ValueError]. *)
Definition uuid_parse `{UnicodeTables} (s : pystr) : option N :=
  let h := remove_sub (str "uuid:") 0 (remove_sub (str "urn:") 0 s) in
  let h := remove_sub (str "-") 0 (strip_by (λ c, (c =? 123) || (c =? 125)) h) in
  if (length h =? 32)%nat then
    i ← int_base16 h;
    if ((0 <=? i) && (i <? 2 ^ 128))%Z then Some (Z.to_N i) else None
  else None.
#[global] Arguments uuid_str : simpl never.
#[global] Arguments uuid_parse : simpl never.

Lemma remove_sub_absent p s :
  (∀ c, head p = Some c → Forall (λ x, x ≠ c) s) → p ≠ [] → remove_sub p 0 s = s.
Proof.
  intros Hs Hp. destruct p as [|x p]; [done|]. specialize (Hs x eq_refl). induction Hs as [|c s Hc _ IH]; [done|].
  cbn [remove_sub]. unfold startswith. rewrite bool_decide_eq_false_2; [by rewrite IH|].
  intros Hpre. by apply prefix_cons_inv_1 in Hpre.
Qed.
(** Removing a character that stands alone. *)
Lemma remove_char_app x s s' : remove_sub [x] 0 (s ++ s') = remove_sub [x] 0 s ++ remove_sub [x] 0 s'.
Proof.
  induction s as [|c s IH]; [done|]. cbn [app remove_sub length Nat.sub]. unfold startswith.
  destruct (decide (c = x)) as [->|Hne].
  - rewrite !bool_decide_eq_true_2 by (by eexists). done.
  - rewrite !bool_decide_eq_false_2 by (intros Hpre; by apply prefix_cons_inv_1 in Hpre). cbn. by rewrite IH.
Qed.
Lemma remove_char_self x : remove_sub [x] 0 [x] = [].
Proof. cbn. unfold startswith. by rewrite bool_decide_eq_true_2 by (by eexists). Qed.

Lemma strip_by_none {A} (p : A → bool) s : Forall (λ c, p c = false) s → strip_by p s = s.
Proof.
  intros Hs. unfold strip_by, rstrip_by.
  rewrite (drop_while_id p s) by (destruct Hs; [done|by intros ? [= <-]]).
  rewrite (drop_while_id p (reverse s)); [apply reverse_involutive|].
  apply Forall_reverse in Hs. destruct Hs; [done|by intros ? [= <-]].
Qed.

Section uuid_text.
Context `{UnicodeTables}.

Lemma hex_digits_text k n acc : hex_digits acc false (hex_text k n) = Some (16 ^ N.of_nat k * acc + n mod 16 ^ N.of_nat k).
Proof.
  assert (∀ s a, Forall (λ c, is_hex c = true) s → hex_digits a false s =
    foldl (λ o c, a ← o; d ← hex_value c; Some (16 * a + d)) (Some a) s) as Hfold.
  { intros s a Hs. revert a. induction Hs as [|c s Hc _ IH]; intros a; [done|]. cbn.
    replace (c =? 95) with false by (unfold is_hex, is_digit in Hc; lia).
    destruct (hex_value c) as [d|]; cbn; [apply IH|]. clear. by induction s. }
  rewrite Hfold by apply hex_text_hex. clear Hfold. revert n.
  induction k as [|k IH]; intros n; cbn [hex_text]; [cbn; f_equal; lia|].
  rewrite foldl_app, IH. cbn [foldl mbind option_bind]. rewrite hex_digit_value by lia. cbn [mbind option_bind]. f_equal.
  rewrite Nat2N.inj_succ, N.pow_succ_r'. set (p := 16 ^ N.of_nat k).
  rewrite N.Div0.mod_mul_r. clear IH. nia.
Qed.

Lemma int_ascii_hex s : Forall (λ c, is_hex c = true) s → int_ascii <$> s = s.
Proof.
  induction 1 as [|c s Hc _ IH]; [done|]. cbn. rewrite IH. f_equal. unfold int_ascii.
  by replace (c <? 128) with true by (unfold is_hex, is_digit in Hc; lia).
Qed.
Lemma hex_not_space c : is_hex c = true → int_space c = false.
Proof. unfold is_hex, is_digit, int_space. lia. Qed.
Lemma int_base16_text k n : (0 < k)%nat → n < 16 ^ N.of_nat k → int_base16 (hex_text k n) = Some (Z.of_N n).
Proof.
  intros Hk Hn. pose proof (hex_text_hex k n) as Hhex. pose proof (hex_digits_text k n 0) as Hd.
  rewrite N.mul_0_r, N.mod_small in Hd by done. pose proof (hex_text_length k n) as Hl.
  unfold int_base16. rewrite int_ascii_hex, strip_by_none by (done || (eapply Forall_impl; [done|]; apply hex_not_space)).
  destruct (hex_text k n) as [|c s]; [cbn in Hl; lia|]. apply Forall_cons in Hhex as [Hc Hhex].
  replace (c =? 43) with false by (unfold is_hex, is_digit in Hc; lia).
  replace (c =? 45) with false by (unfold is_hex, is_digit in Hc; lia).
  cbn [hex_digits] in Hd. replace (c =? 95) with false in Hd by (unfold is_hex, is_digit in Hc; lia).
  assert (hex_number (c :: s) = Some n) as Hnum by exact Hd.
  assert (hex_prefixed (c :: s) = hex_number (c :: s)) as ->; [|by rewrite Hnum].
  unfold hex_prefixed. destruct s as [|x s]; [done|]. apply Forall_cons in Hhex as [Hx _].
  by replace ((x =? 120) || (x =? 88)) with false by (unfold is_hex, is_digit in Hx; lia); rewrite andb_false_r.
Qed.

Lemma hex_pieces (h : pystr) :
  take 8 h ++ take 4 (drop 8 h) ++ take 4 (drop 12 h) ++ take 4 (drop 16 h) ++ drop 20 h = h.
Proof.
  rewrite <- (take_drop 8 h) at 6. f_equal. rewrite <- (take_drop 4 (drop 8 h)) at 2. f_equal. rewrite drop_drop.
  rewrite <- (take_drop 4 (drop (8 + 4) h)). f_equal. rewrite drop_drop.
  rewrite <- (take_drop 4 (drop (8 + 4 + 4) h)). f_equal. by rewrite drop_drop.
Qed.
Lemma remove_dash_hex s : Forall (λ c, is_hex c = true) s → remove_sub (str "-") 0 s = s.
Proof.
  intros Hs. apply remove_sub_absent; [|done]. intros c [= <-]. eapply Forall_impl; [exact Hs|].
  intros x Hx ->. done.
Qed.
Lemma uuid_str_chars u : Forall (λ c, is_hex c = true ∨ c = 45) (uuid_str u).
Proof.
  unfold uuid_str. pose proof (hex_text_hex 32 u) as Hh.
  assert (∀ s : pystr, Forall (λ c, is_hex c = true) s → Forall (λ c, is_hex c = true ∨ c = 45) s) as Hor
    by (intros s Hs; eapply Forall_impl; [exact Hs|auto]).
  repeat (apply Forall_app; split); try (by repeat constructor; right); apply Hor;
    repeat (apply Forall_take || apply Forall_drop); done.
Qed.

(** [uuid.UUID(str(u))] is [u]. *)
Theorem uuid_roundtrip u : u < UUID_END → uuid_parse (uuid_str u) = Some u.
Proof.
  intros Hu. unfold uuid_parse. pose proof (uuid_str_chars u) as Hc.
  assert (∀ c, c = 117 ∨ c = 123 ∨ c = 125 → Forall (λ x, x ≠ c) (uuid_str u)) as Hne.
  { intros c Hcs. eapply Forall_impl; [exact Hc|]. intros x Hx ->. unfold is_hex, is_digit in Hx. lia. }
  rewrite (remove_sub_absent (str "urn:")) by (done || (intros c [= <-]; apply Hne; auto)).
  rewrite (remove_sub_absent (str "uuid:")) by (done || (intros c [= <-]; apply Hne; auto)).
  rewrite strip_by_none by (eapply Forall_impl; [exact Hc|]; intros x Hx; unfold is_hex, is_digit in Hx; lia).
  pose proof (hex_text_hex 32 u) as Hh. unfold uuid_str. change (str "-") with [45] in *.
  rewrite !remove_char_app, !remove_char_self, !remove_dash_hex by (repeat (apply Forall_take || apply Forall_drop); done).
  cbn [app]. rewrite hex_pieces, hex_text_length. cbn [Nat.eqb].
  rewrite int_base16_text by (lia || exact Hu). cbn [mbind option_bind].
  unfold UUID_END in Hu. replace ((0 <=? Z.of_N u)%Z && _) with true by lia. by rewrite N2Z.id.
Qed.
End uuid_text.
