(* ===== verification/Sha256.v ===== *)
(** [hashlib.sha256(text.encode()).hexdigest()], which hashes API keys, access keys and invite
    codes ([security/api_keys.py], [services/invite_service.py]).

    The hash is FIPS 180-4 on bytes: padding to blocks of 64 bytes, the message schedule, and
    64 rounds per block on eight 32-bit words. *)

From Stdlib Require Import ZifyNat.
From S2P Require Import Prelude PyText Codec.
Local Open Scope N_scope.

(** ** Words *)
Definition word (x : N) : N := x mod 2 ^ 32.
Definition wadd (x y : N) : N := word (x + y).
Definition rotr (n x : N) : N := N.lor (N.shiftr x n) (word (N.shiftl x (32 - n))).
Definition bsig0 (x : N) : N := N.lxor (N.lxor (rotr 2 x) (rotr 13 x)) (rotr 22 x).
Definition bsig1 (x : N) : N := N.lxor (N.lxor (rotr 6 x) (rotr 11 x)) (rotr 25 x).
Definition ssig0 (x : N) : N := N.lxor (N.lxor (rotr 7 x) (rotr 18 x)) (N.shiftr x 3).
Definition ssig1 (x : N) : N := N.lxor (N.lxor (rotr 17 x) (rotr 19 x)) (N.shiftr x 10).
Definition choose (x y z : N) : N := N.lxor (N.land x y) (N.ldiff z x).
Definition majority (x y z : N) : N := N.lxor (N.lxor (N.land x y) (N.land x z)) (N.land y z).

(** ** Constants

    The round constants are the first 32 bits of the fractional parts of the cube roots of
    the first 64 primes, the initial state those of the square roots of the first eight. *)
(** The integer cube root of a number below [2 ^ (3 * k)], bit by bit from the highest. *)
Fixpoint cube_root (k : nat) (r n : N) : N :=
  match k with
  | O => r
  | S k => let r' := r + 2 ^ N.of_nat k in cube_root k (if r' * r' * r' <=? n then r' else r) n
  end.
Definition is_prime (n : N) : bool :=
  forallb (λ m, negb (n mod N.of_nat m =? 0)) (seq 2 (N.to_nat n - 2)).
Definition primes : list N := filter (λ n, is_prime n = true) (N.of_nat <$> seq 2 310).

Lemma cube_root_spec k r n :
  r * r * r <= n -> n < (r + 2 ^ N.of_nat k) * (r + 2 ^ N.of_nat k) * (r + 2 ^ N.of_nat k) ->
  let c := cube_root k r n in c * c * c <= n < (c + 1) * (c + 1) * (c + 1).
Proof.
  revert r. induction k as [|k IH]; intros r Hlo Hhi; [by split|]. cbn [cube_root].
  assert (2 ^ N.of_nat (S k) = 2 ^ N.of_nat k + 2 ^ N.of_nat k) as Hp
    by (rewrite Nat2N.inj_succ, N.pow_succ_r'; lia).
  destruct (N.leb_spec ((r + 2 ^ N.of_nat k) * (r + 2 ^ N.of_nat k) * (r + 2 ^ N.of_nat k)) n) as [Hle|Hgt].
  - apply IH; [exact Hle|]. by rewrite <- N.add_assoc, <- Hp.
  - by apply IH.
Qed.

Definition round_constants : list N :=
  Eval vm_compute in (λ p, word (cube_root 35 0 (p * 2 ^ 96))) <$> primes.

(** ** Padding and blocks *)
Fixpoint big_endian (k : nat) (n : N) : list N :=
  match k with O => [] | S k => big_endian k (n / 256) ++ [n mod 256] end.
Definition padding (len : nat) : list N :=
  0x80 :: replicate (N.to_nat ((119 - N.of_nat len mod 64) mod 64)) 0 ++ big_endian 8 (8 * N.of_nat len).
Fixpoint words (bs : list N) : list N :=
  match bs with
  | a :: b :: c :: d :: r => (((a * 256 + b) * 256 + c) * 256 + d) :: words r
  | _ => []
  end.
(** At most [n] blocks of sixteen words. *)
Fixpoint blocks (n : nat) (ws : list N) : list (list N) :=
  match n, ws with
  | S n, _ :: _ => take 16 ws :: blocks n (drop 16 ws)
  | _, _ => []
  end.

(** ** Compression *)
Record hash_state := HS { ha : N; hb : N; hc : N; hd : N; he : N; hf : N; hg : N; hh : N }.
Definition initial : hash_state :=
  Eval vm_compute in
    let root i := word (N.sqrt (default 0 (primes !! i) * 2 ^ 64)) in
    HS (root 0%nat) (root 1%nat) (root 2%nat) (root 3%nat) (root 4%nat) (root 5%nat) (root 6%nat) (root 7%nat).

(** The schedule, newest word first: sixteen words of the block, then [n] more. *)
Fixpoint schedule (n : nat) (ws : list N) : list N :=
  match n with
  | O => ws
  | S n =>
      let at_ i := default 0 (ws !! i) in
      schedule n (wadd (wadd (ssig1 (at_ 1%nat)) (at_ 6%nat)) (wadd (ssig0 (at_ 14%nat)) (at_ 15%nat)) :: ws)
  end.
Definition round (s : hash_state) (kw : N * N) : hash_state :=
  let '(HS a b c d e f g h) := s in
  let t1 := wadd (wadd (wadd h (bsig1 e)) (wadd (choose e f g) kw.1)) kw.2 in
  let t2 := wadd (bsig0 a) (majority a b c) in
  HS (wadd t1 t2) a b c (wadd d t1) e f g.
Definition compress (s : hash_state) (block : list N) : hash_state :=
  let '(HS a b c d e f g h) := s in
  let '(HS a' b' c' d' e' f' g' h') :=
    foldl round s (zip round_constants (reverse (schedule 48 (reverse block)))) in
  HS (wadd a a') (wadd b b') (wadd c c') (wadd d d') (wadd e e') (wadd f f') (wadd g g') (wadd h h').

Definition sha256 (bs : list N) : hash_state :=
  let padded := bs ++ padding (length bs) in
  foldl compress initial (blocks (length padded / 64) (words padded)).
Definition hexdigest (s : hash_state) : pystr :=
  mjoin (hex_text 8 <$> [ha s; hb s; hc s; hd s; he s; hf s; hg s; hh s]).

(** Text that cannot be encoded raises before it is hashed; no text from a request is so. *)
Definition sha256_hex (text : pystr) : pystr := hexdigest (sha256 (default [] (utf8_encode text))).
#[global] Arguments sha256_hex : simpl never.

(** ** The published examples *)
Example sha256_empty : sha256_hex [] = str "e3b0c44298fc1c149afbf4c8996fb92427ae41e4649b934ca495991b7852b855".
Proof. vm_compute. reflexivity. Qed.
Example sha256_abc : sha256_hex (str "abc") = str "ba7816bf8f01cfea414140de5dae2223b00361a396177a9cb410ff61f20015ad".
Proof. vm_compute. reflexivity. Qed.
Example sha256_two_blocks :
  sha256_hex (str "abcdbcdecdefdefgefghfghighijhijkijkljklmklmnlmnomnopnopq") =
  str "248d6a61d20638b8e5c026930c3e6039a33ce45964ff2167f6ecedd419db06c1".
Proof. vm_compute. reflexivity. Qed.

(** ** Shape of the digest *)
Lemma big_endian_length k n : length (big_endian k n) = k.
Proof. revert n. induction k as [|k IH]; intros n; cbn; [done|]. rewrite length_app, IH. cbn. lia. Qed.

Local Ltac Zify.zify_post_hook ::= Z.to_euclidean_division_equations.
(** The padded message fills whole blocks, and is the smallest such. *)
Lemma padded_length (bs : list N) :
  let n := length (bs ++ padding (length bs)) in
  (n mod 64 = 0 ∧ length bs + 9 ≤ n < length bs + 9 + 64)%nat.
Proof.
  cbv zeta. rewrite length_app. unfold padding. cbn [length]. rewrite length_app, length_replicate, big_endian_length.
  generalize (length bs) as l. intros l. lia.
Qed.
(** No byte of it is left out. *)
Lemma words_length n bs : length bs = (4 * n)%nat → length (words bs) = n.
Proof.
  revert bs. induction n as [|n IH]; intros bs Hl; [by destruct bs|].
  destruct bs as [|a [|b [|c [|d r]]]]; cbn in Hl; try lia. cbn. rewrite IH; lia.
Qed.
Lemma blocks_concat n ws : length ws = (16 * n)%nat → mjoin (blocks n ws) = ws.
Proof.
  revert ws. induction n as [|n IH]; intros ws Hl; [by destruct ws|].
  destruct ws as [|w ws']; [cbn in Hl; lia|]. set (ws := w :: ws') in *.
  change (blocks (S n) ws) with (take 16 ws :: blocks n (drop 16 ws)). cbn [mjoin list_join].
  rewrite IH by (rewrite length_drop; lia). apply take_drop.
Qed.
Lemma sha256_reads_all (bs : list N) :
  let padded := bs ++ padding (length bs) in mjoin (blocks (length padded / 64) (words padded)) = words padded.
Proof.
  intros padded. destruct (padded_length bs) as [Hm _]. fold padded in Hm. set (n := length padded) in *.
  apply blocks_concat. rewrite (words_length (16 * (n / 64))); [done|]. fold n. lia.
Qed.

Lemma hexdigest_format s : length (hexdigest s) = 64%nat ∧ Forall (λ c, is_hex c = true) (hexdigest s).
Proof.
  unfold hexdigest. cbn [fmap list_fmap mjoin list_join]. split.
  - rewrite !length_app, !hex_text_length. done.
  - rewrite !Forall_app. split_and!; try apply hex_text_hex. done.
Qed.
(** What is stored of a key or code is 64 lower-case hexadecimal digits. *)
Lemma sha256_hex_format text : length (sha256_hex text) = 64%nat ∧ Forall (λ c, is_hex c = true) (sha256_hex text).
Proof. apply hexdigest_format. Qed.
