(* ===== verification/PyFloat.v ===== *)
(** Python numbers: exact integers and IEEE 754 binary64 floats, with the
    arithmetic, comparison, [round], [sum] and [min] of CPython 3.12 that quotas
    and metering rely on.  Floats are the Standard Library's specification floats
    ([SpecFloat]) at precision 53 and maximal exponent 1024, so every operation
    is correctly rounded and computes. *)

From Stdlib Require Import SpecFloat.
From S2P Require Import Prelude.

Definition prec : Z := 53.
Definition emax : Z := 1024.

Abbreviation float := spec_float.

Definition fadd (x y : float) : float := SFadd prec emax x y.
Definition fsub (x y : float) : float := SFsub prec emax x y.
Definition fmul (x y : float) : float := SFmul prec emax x y.
Definition fdiv (x y : float) : float := SFdiv prec emax x y.
(** [float(z)] of an integer, correctly rounded. *)
Definition float_of_Z (z : Z) : float := binary_normalize prec emax z 0 false.
(** The literal [n/d]: both parts are exact, so one division rounds it as the
    parser of float literals does. *)
Definition flit (n d : Z) : float := fdiv (float_of_Z n) (float_of_Z d).

(** ** Exact values

    A finite float is a dyadic rational [m * 2^e]. *)
Inductive extended : Type :=
| Finite (m e : Z)
| PosInf
| NegInf.

Definition float_val (x : float) : option extended :=
  match x with
  | S754_zero _ => Some (Finite 0 0)
  | S754_infinity s => Some (if s then NegInf else PosInf)
  | S754_nan => None
  | S754_finite s m e => Some (Finite (if s then Z.neg m else Z.pos m) e)
  end.

(** Exact comparison of [m1 * 2^e1] and [m2 * 2^e2] at their smaller exponent. *)
Definition ext_ltb (x y : extended) : bool :=
  match x, y with
  | Finite m1 e1, Finite m2 e2 =>
      let e := Z.min e1 e2 in (m1 * 2 ^ (e1 - e) <? m2 * 2 ^ (e2 - e))
  | NegInf, NegInf => false
  | NegInf, _ => true
  | _, PosInf => negb (if x is PosInf then true else false)
  | _, _ => false
  end.

(** ** Python numbers: [int] or [float] *)
Inductive num : Type :=
| NInt (z : Z)
| NFloat (x : float).

Definition num_val (x : num) : option extended :=
  match x with NInt z => Some (Finite z 0) | NFloat f => float_val f end.
Definition to_float (x : num) : float :=
  match x with NInt z => float_of_Z z | NFloat f => f end.

(** [x < y]; comparing an [int] with a [float] is exact, NaN compares false. *)
Definition num_ltb (x y : num) : bool :=
  match num_val x, num_val y with
  | Some a, Some b => ext_ltb a b
  | _, _ => false
  end.
Definition num_gtb (x y : num) : bool := num_ltb y x.

(** [x >= y] *)
Definition num_geb (x y : num) : bool :=
  match num_val x, num_val y with
  | Some a, Some b => negb (ext_ltb a b)
  | _, _ => false
  end.

(** Arithmetic stays in [int] between integers and goes through [float] otherwise. *)
Definition num_add (x y : num) : num :=
  match x, y with
  | NInt a, NInt b => NInt (a + b)
  | _, _ => NFloat (fadd (to_float x) (to_float y))
  end.
Definition num_mul (x y : num) : num :=
  match x, y with
  | NInt a, NInt b => NInt (a * b)
  | _, _ => NFloat (fmul (to_float x) (to_float y))
  end.

(** [x / y], true division, for a non-zero [y]. *)
Definition num_div (x y : num) : float := fdiv (to_float x) (to_float y).
(** [int(x)]: truncation toward zero; infinities and NaN raise. *)
Definition float_trunc (x : float) : option Z :=
  match x with
  | S754_zero _ => Some 0
  | S754_finite s m e =>
      let a := if 0 <=? e then Z.pos m * 2 ^ e else Z.pos m / 2 ^ (- e) in
      Some (if s then - a else a)
  | _ => None
  end.

(** [min(a, b)]: the second argument only when it is smaller. *)
Definition num_min (a b : num) : num := if num_ltb b a then b else a.

(** ** [round(x, nd)]

    Nearest integer to [n/d], ties to even, for [d > 0]. *)
Definition round_half_even (n d : Z) : Z :=
  let q := n / d in
  let r := n mod d in
  match Z.compare (2 * r) d with
  | Lt => q
  | Gt => q + 1
  | Eq => if Z.even q then q else q + 1
  end.

(** CPython rounds the exact binary value to [nd] decimals and converts that
    decimal back to the nearest float. *)
Definition float_round (x : float) (nd : Z) : float :=
  match x with
  | S754_finite s m e =>
      let scaled := Z.pos m * 10 ^ nd in
      let n := if 0 <=? e then scaled * 2 ^ e else round_half_even scaled (2 ^ (- e)) in
      match n with
      | Z.pos p => fdiv (S754_finite s p 0) (S754_finite false (Z.to_pos (10 ^ nd)) 0)
      | _ => S754_zero s
      end
  | _ => x
  end.

(** Rounding an [int] to a non-negative number of decimals returns it. *)
Definition num_round (x : num) (nd : Z) : num :=
  match x with NInt z => NInt z | NFloat f => NFloat (float_round f nd) end.

(** ** [sum(xs)]

    Integers are summed exactly until the first float; from there on floats are
    added with Neumaier's compensation, as CPython 3.12 does. *)
Definition fabs_leb (x y : float) : bool := SFleb (SFabs x) (SFabs y).
Definition is_finite (x : float) : bool :=
  match x with S754_finite _ _ _ | S754_zero _ => true | _ => false end.
Definition is_zero (x : float) : bool := match x with S754_zero _ => true | _ => false end.

Fixpoint sum_float (acc c : float) (xs : list num) : num :=
  match xs with
  | [] => NFloat (if negb (is_zero c) && is_finite c then fadd acc c else acc)
  | NFloat x :: r =>
      let t := fadd acc x in
      let d := if fabs_leb x acc then fadd (fsub acc t) x else fadd (fsub x t) acc in
      sum_float t (fadd c d) r
  | NInt z :: r => sum_float (fadd acc (float_of_Z z)) c r
  end.
Fixpoint sum_int (acc : Z) (xs : list num) : num :=
  match xs with
  | [] => NInt acc
  | NInt z :: r => sum_int (acc + z) r
  | NFloat x :: r => sum_float (fadd (float_of_Z acc) x) (S754_zero false) r
  end.
Definition py_sum (xs : list num) : num := sum_int 0 xs.

(** ** Lemmas *)
Lemma num_ltb_irrefl x : num_ltb x x = false.
Proof.
  unfold num_ltb. destruct (num_val x) as [[m e| |]|]; cbn; [|done..].
  apply Z.ltb_irrefl.
Qed.

Lemma num_gtb_int a b : num_gtb (NInt a) (NInt b) = (b <? a).
Proof.
  unfold num_gtb, num_ltb; cbn. by rewrite !Z.mul_1_r.
Qed.

(** [min] never exceeds its second argument. *)
Lemma num_min_le_r a b : num_gtb (num_min a b) b = false.
Proof.
  unfold num_min, num_gtb. destruct (num_ltb b a) eqn:E; [apply num_ltb_irrefl|done].
Qed.

Lemma sum_int_ints acc zs : sum_int acc (NInt <$> zs) = NInt (acc + foldr Z.add 0 zs).
Proof.
  revert acc. induction zs as [|z zs IH]; intros acc; cbn; [f_equal; lia|].
  rewrite IH. f_equal. lia.
Qed.

Lemma py_sum_ints zs : py_sum (NInt <$> zs) = NInt (foldr Z.add 0 zs).
Proof. apply sum_int_ints. Qed.

(** Concrete runs, as CPython prints them. *)
Example round_eighth : float_round (flit 1005 1000) 2 = flit 1 1.
Proof. vm_compute. reflexivity. Qed.
Example round_tie_even : float_round (flit 125 1000) 2 = flit 12 100.
Proof. vm_compute. reflexivity. Qed.
Example sum_compensated :
  py_sum (replicate 10 (NFloat (flit 1 10))) = NFloat (float_of_Z 1).
Proof. vm_compute. reflexivity. Qed.
