(* ===== verification/Errors.v ===== *)
(** The gateway's exceptions ([exceptions.py], [security/secrets.py]) and how they
    become HTTP responses ([error_handlers.py]).

    An exception carries the data its constructor puts in [details]; the English
    message text is left out.  [AuthenticationError] and [AuthorisationError] come
    from the core library: their [code] strings are parameters of the response. *)

From S2P Require Import Prelude PyFloat.

(** The resources a quota can refuse ([QuotaExceededError._LABELS]). *)
Inductive Resource := RAgents | RReplicas | RVcpu | RMemoryMb | RCpuPerReplica | RMemoryPerReplica.
#[export] Instance Resource_eq : EqDecision Resource.
Proof. solve_decision. Defined.

Inductive exn : Type :=
| AuthenticationError (message : pystr)
| AuthorisationError (principal action : pystr)
| EmailAlreadyRegisteredError (email : pystr)
| ApiKeyNotFoundError (key_id : N)
| AgentNotFoundError (agent_id : pystr)
| AccessKeyNotFoundError (key_id : N)
| UserNotFoundError (user_id : N)
| InviteNotFoundError (invite_id : N)
| NotImplementedStubError (path : pystr)
| BuildNotSupportedError
| RateLimitExceededError (retry_after : Z)
| QuotaExceededError (resource : Resource) (plan : pystr) (limit requested : num) (current : option num)
| BillingNotConfiguredError
| BillingConflictError (code : pystr)
| InvalidWebhookError
| RegistrationClosedError
| InvalidInviteError
| DeploymentFailedError (agent_id reason : pystr)
| SecretDecryptionError
(** Anything that is not an [AgntSparkError]: a database integrity or data error,
    a pydantic [ValidationError] raised while building a response, a [ValueError],
    a [KeyError], or an exception of the runtime, Stripe or Redis clients. *)
| IntegrityError
| ValidationError
| ValueError
| KeyError
| ForeignError (text : pystr).

(** ** Classes and [isinstance] *)
Inductive exc_class :=
| CAgntSpark | CAuthentication | CAuthorisation | CEmailAlreadyRegistered | CNotFound
| CApiKeyNotFound | CAgentNotFound | CAccessKeyNotFound | CUserNotFound | CInviteNotFound
| CNotImplementedStub | CBuildNotSupported | CRateLimitExceeded | CQuotaExceeded
| CBillingNotConfigured | CBillingConflict | CInvalidWebhook | CRegistrationClosed
| CInvalidInvite | CDeploymentFailed | CSecretDecryption.
#[export] Instance exc_class_eq : EqDecision exc_class.
Proof. solve_decision. Defined.

(** The class of an exception; [None] outside the [AgntSparkError] hierarchy. *)
Definition class_of (e : exn) : option exc_class :=
  match e with
  | AuthenticationError _ => Some CAuthentication
  | AuthorisationError _ _ => Some CAuthorisation
  | EmailAlreadyRegisteredError _ => Some CEmailAlreadyRegistered
  | ApiKeyNotFoundError _ => Some CApiKeyNotFound
  | AgentNotFoundError _ => Some CAgentNotFound
  | AccessKeyNotFoundError _ => Some CAccessKeyNotFound
  | UserNotFoundError _ => Some CUserNotFound
  | InviteNotFoundError _ => Some CInviteNotFound
  | NotImplementedStubError _ => Some CNotImplementedStub
  | BuildNotSupportedError => Some CBuildNotSupported
  | RateLimitExceededError _ => Some CRateLimitExceeded
  | QuotaExceededError _ _ _ _ _ => Some CQuotaExceeded
  | BillingNotConfiguredError => Some CBillingNotConfigured
  | BillingConflictError _ => Some CBillingConflict
  | InvalidWebhookError => Some CInvalidWebhook
  | RegistrationClosedError => Some CRegistrationClosed
  | InvalidInviteError => Some CInvalidInvite
  | DeploymentFailedError _ _ => Some CDeploymentFailed
  | SecretDecryptionError => Some CSecretDecryption
  | IntegrityError | ValidationError | ValueError | KeyError | ForeignError _ => None
  end.

(** The declared base class. *)
Definition base_class (c : exc_class) : option exc_class :=
  match c with
  | CAgntSpark => None
  | CApiKeyNotFound | CAgentNotFound | CAccessKeyNotFound | CUserNotFound | CInviteNotFound =>
      Some CNotFound
  | _ => Some CAgntSpark
  end.

(** [issubclass]: the class itself, its base, or the base of that; the hierarchy
    is three levels deep. *)
Definition is_subclass (c d : exc_class) : bool :=
  (c == d) || match base_class c with
              | Some b => (b == d) || match base_class b with
                                      | Some a => a == d
                                      | None => false
                                      end
              | None => false
              end.

(** [_STATUS_MAP], in its order. *)
Definition STATUS_MAP : list (exc_class * Z) :=
  [ (CAuthentication, 401); (CAuthorisation, 403); (CInvalidInvite, 403);
    (CQuotaExceeded, 403); (CInvalidWebhook, 400); (CBillingConflict, 409);
    (CBillingNotConfigured, 503); (CRegistrationClosed, 403); (CNotFound, 404);
    (CApiKeyNotFound, 404); (CEmailAlreadyRegistered, 409); (CRateLimitExceeded, 429);
    (CNotImplementedStub, 501); (CBuildNotSupported, 501); (CDeploymentFailed, 502) ].

(** [_status_for]: the first entry the exception is an instance of, else 500. *)
Fixpoint status_in (m : list (exc_class * Z)) (c : exc_class) : Z :=
  match m with
  | [] => 500
  | (d, code) :: r => if is_subclass c d then code else status_in r c
  end.
Definition status_for (c : exc_class) : Z := status_in STATUS_MAP c.

(** ** Responses *)
Record error_response := {
  er_status : Z;
  er_code : pystr;
  er_retry_after : option Z;
  er_request_id : option pystr;
}.

(** The [code] each constructor passes to [AgntSparkError]; [core_code] is the one
    of the two classes the core library defines. *)
Definition error_code (core_code : exc_class → pystr) (e : exn) : pystr :=
  match e with
  | AuthenticationError _ => core_code CAuthentication
  | AuthorisationError _ _ => core_code CAuthorisation
  | EmailAlreadyRegisteredError _ => str "EMAIL_ALREADY_REGISTERED"
  | ApiKeyNotFoundError _ | AgentNotFoundError _ | AccessKeyNotFoundError _
  | UserNotFoundError _ | InviteNotFoundError _ => str "NOT_FOUND"
  | NotImplementedStubError _ => str "NOT_IMPLEMENTED"
  | BuildNotSupportedError => str "BUILD_NOT_SUPPORTED"
  | RateLimitExceededError _ => str "RATE_LIMIT_EXCEEDED"
  | QuotaExceededError _ _ _ _ _ => str "QUOTA_EXCEEDED"
  | BillingNotConfiguredError => str "BILLING_NOT_CONFIGURED"
  | BillingConflictError code => code
  | InvalidWebhookError => str "INVALID_WEBHOOK_SIGNATURE"
  | RegistrationClosedError => str "REGISTRATION_CLOSED"
  | InvalidInviteError => str "INVALID_INVITE"
  | DeploymentFailedError _ _ => str "DEPLOYMENT_FAILED"
  | SecretDecryptionError => str "SECRET_DECRYPTION_FAILED"
  | IntegrityError | ValidationError | ValueError | KeyError | ForeignError _ =>
      str "INTERNAL_ERROR"
  end.

(** [exc.details.get("retry_after")]: only one constructor puts it there. *)
Definition retry_after_of (e : exn) : option Z :=
  if e is RateLimitExceededError n then Some n else None.

(** [agntspark_error_handler] *)
Definition agntspark_error_handler (core_code : exc_class → pystr) (c : exc_class) (e : exn)
  : error_response :=
  {| er_status := status_for c; er_code := error_code core_code e;
     er_retry_after := retry_after_of e; er_request_id := None |}.

(** [unhandled_error_handler]: the request id and a fixed text, nothing of the exception. *)
Definition unhandled_error_handler (request_id : option pystr) : error_response :=
  {| er_status := 500; er_code := str "INTERNAL_ERROR";
     er_retry_after := None; er_request_id := request_id |}.

(** [register_error_handlers]: the handler is chosen by the exception's class. *)
Definition handle_error (core_code : exc_class → pystr) (request_id : option pystr) (e : exn)
  : error_response :=
  match class_of e with
  | Some c => agntspark_error_handler core_code c e
  | None => unhandled_error_handler request_id
  end.

Definition http_status (e : exn) : Z :=
  match class_of e with Some c => status_for c | None => 500 end.

(** Every lookup of something that does not exist or belongs to someone else,
    whatever its kind, is answered alike: 404 with code NOT_FOUND. *)
Theorem not_found_uniform core_code rid e c :
  class_of e = Some c → is_subclass c CNotFound = true →
  handle_error core_code rid e =
    {| er_status := 404; er_code := str "NOT_FOUND"; er_retry_after := None;
       er_request_id := None |}.
Proof.
  intros Hc Hs. unfold handle_error. rewrite Hc.
  destruct e; cbn in Hc; simplify_eq; vm_compute in Hs; try done; vm_compute; reflexivity.
Qed.

Theorem not_found_uniform_witness :
  handle_error (λ _, []) None (AgentNotFoundError (str "agt_x")) =
    {| er_status := 404; er_code := str "NOT_FOUND"; er_retry_after := None;
       er_request_id := None |}.
Proof. apply (not_found_uniform (λ _, []) None (AgentNotFoundError (str "agt_x")) CAgentNotFound);
  vm_compute; reflexivity. Defined.

(** An error response has status 500 exactly for a failed secret decryption
    and for exceptions outside the gateway's hierarchy; the latter answer with the
    same body whatever the exception carried. *)
Theorem internal_error_opaque core_code rid e :
  (er_status (handle_error core_code rid e) = 500 ↔
   e = SecretDecryptionError ∨ class_of e = None) ∧
  (class_of e = None → handle_error core_code rid e = unhandled_error_handler rid).
Proof.
  split.
  - unfold handle_error. destruct e; cbn; split; naive_solver.
  - intros H. unfold handle_error. by rewrite H.
Qed.
