(* ===== verification/Plans.v ===== *)
(** Plans and their limits ([plans.py]), and roles ([roles.py]). *)

From S2P Require Import Prelude PyFloat Errors.

(** ** Plans *)
Record PlanLimits := {
  max_agents : Z;
  max_replicas : Z;
  max_vcpu : float;
  max_memory_mb : Z;
  max_replica_cpu : float;
  max_replica_memory_mb : Z;
  max_agent_rpm : Z;
}.

Definition FREE : PlanLimits := {|
  max_agents := 3;
  max_replicas := 3;
  max_vcpu := float_of_Z 3;
  max_memory_mb := 1536;
  max_replica_cpu := float_of_Z 1;
  max_replica_memory_mb := 1024;
  max_agent_rpm := 300;
|}.

Definition PRO : PlanLimits := {|
  max_agents := 20;
  max_replicas := 20;
  max_vcpu := float_of_Z 16;
  max_memory_mb := 8192;
  max_replica_cpu := float_of_Z 2;
  max_replica_memory_mb := 4096;
  max_agent_rpm := 3000;
|}.

Definition PLANS : gmap pystr PlanLimits := {[ str "free" := FREE; str "pro" := PRO ]}.
Definition DEFAULT_PLAN : pystr := str "free".

(** [PLANS.get(plan, PLANS[DEFAULT_PLAN])]; the default itself is a key of the table. *)
Definition limits_for (plan : pystr) : PlanLimits :=
  match PLANS !! plan with
  | Some l => l
  | None => default FREE (PLANS !! DEFAULT_PLAN)
  end.

Lemma limits_for_free : limits_for (str "free") = FREE.
Proof. vm_compute. reflexivity. Qed.
Lemma limits_for_pro : limits_for (str "pro") = PRO.
Proof. vm_compute. reflexivity. Qed.
Lemma limits_for_unknown plan :
  plan ≠ str "free" → plan ≠ str "pro" → limits_for plan = FREE.
Proof.
  intros Hf Hp. unfold limits_for.
  assert (PLANS !! plan = None) as ->.
  { unfold PLANS. by rewrite lookup_insert_ne, lookup_singleton_ne by congruence. }
  reflexivity.
Qed.

Lemma max_agent_rpm_pos plan : 0 < max_agent_rpm (limits_for plan).
Proof.
  destruct (decide (plan = str "free")) as [->|]; [by rewrite limits_for_free|].
  destruct (decide (plan = str "pro")) as [->|]; [by rewrite limits_for_pro|].
  by rewrite limits_for_unknown.
Qed.

(** ** Roles

    The members of the core library's [Role] that [roles.py] maps. *)
Inductive Role := VIEWER | OPERATOR | ADMIN.
#[export] Instance Role_eq : EqDecision Role.
Proof. solve_decision. Defined.

(** What the gateway uses of the core library's [Role]: its integer value, the
    constructor [Role(n)], which raises on an unknown integer, and [can]. *)
Class CoreRole := {
  role_int : Role → Z;
  role_of_int : Z → option Role;
  role_can : Role → Role → bool;
}.

(** Documented behaviour: [Role(int(r))] is [r] and only the values of the members
    are accepted; roles are ordered viewer, developer, admin, and [can] asks for at
    least the given one. *)
Class CoreRoleLaws `{CoreRole} : Prop := {
  role_of_int_int r : role_of_int (role_int r) = Some r;
  role_of_int_Some z r : role_of_int z = Some r → z = role_int r;
  role_can_refl r : role_can r r = true;
  role_can_admin r : role_can ADMIN r = true;
  role_operator_viewer : role_can OPERATOR VIEWER = true;
  role_viewer_operator : role_can VIEWER OPERATOR = false;
  role_viewer_admin : role_can VIEWER ADMIN = false;
  role_operator_admin : role_can OPERATOR ADMIN = false;
}.

Definition role_to_str (r : Role) : pystr :=
  match r with
  | VIEWER => str "viewer"
  | OPERATOR => str "developer"
  | ADMIN => str "admin"
  end.

(** The inverted table; an unknown string raises [ValueError]. *)
Definition str_to_role (value : pystr) : result exn Role :=
  if decide (value = str "viewer") then Ok VIEWER
  else if decide (value = str "developer") then Ok OPERATOR
  else if decide (value = str "admin") then Ok ADMIN
  else Err ValueError.

(** The two role tables are inverse to each other: a role survives the round
    trip through its string, and a string that is accepted is the role's own. *)
Theorem role_str_roundtrip r s :
  str_to_role (role_to_str r) = Ok r ∧ (str_to_role s = Ok r ↔ s = role_to_str r).
Proof.
  split; [by destruct r; vm_compute|]. unfold str_to_role.
  repeat case_decide; subst; split; intros; destruct r; simplify_eq; try done.
Qed.
