(* ===== verification/Models.v ===== *)
(** The database: the ORM models of [models/], the tables with their constraints,
    and the lookups the services share.

    A row is a record with the columns of its model, without [updated_at], which the
    database maintains and no decision depends on (see [AgentStamps]), and without the
    agent's [url], which no code reads or writes.  UUIDs are their integer value, instants are microseconds
    since the epoch (UTC). *)

From S2P Require Import Prelude PyFloat Errors Plans.

Abbreviation uuid := N.
Abbreviation datetime := Z.

(** ** Enumerations ([schemas/agents.py]) *)
Inductive AgentStatus :=
| PENDING | BUILDING | STARTING | RUNNING | SCALING | STOPPING | STOPPED | FAILED | CRASHED.
#[export] Instance AgentStatus_eq : EqDecision AgentStatus.
Proof. solve_decision. Defined.

Definition status_value (s : AgentStatus) : pystr :=
  match s with
  | PENDING => str "pending" | BUILDING => str "building" | STARTING => str "starting"
  | RUNNING => str "running" | SCALING => str "scaling" | STOPPING => str "stopping"
  | STOPPED => str "stopped" | FAILED => str "failed" | CRASHED => str "crashed"
  end.

Inductive AgentRuntimeKind :=
| PYTHON_3_12 | PYTHON_3_11 | PYTHON_3_10 | NODE_20 | NODE_22 | CUSTOM.
Definition runtime_value (k : AgentRuntimeKind) : pystr :=
  match k with
  | PYTHON_3_12 => str "python3.12" | PYTHON_3_11 => str "python3.11"
  | PYTHON_3_10 => str "python3.10" | NODE_20 => str "node20" | NODE_22 => str "node22"
  | CUSTOM => str "custom"
  end.

Inductive ScaleDirection := UP | DOWN.
#[export] Instance ScaleDirection_eq : EqDecision ScaleDirection.
Proof. solve_decision. Defined.

Inductive AgentAccess := PUBLIC | PRIVATE.
#[export] Instance AgentAccess_eq : EqDecision AgentAccess.
Proof. solve_decision. Defined.

(** ** Rows *)
Module User.
Record User := {
  id : uuid;
  email : pystr;
  password_hash : pystr;
  name : pystr;
  role : Z;
  plan : pystr;
  stripe_customer_id : option pystr;
  stripe_subscription_id : option pystr;
  subscription_status : option pystr;
  is_active : bool;
  created_at : datetime;
}.
#[global] Instance User_eta : Eta User := λ u, {|
  id := id u; email := email u; password_hash := password_hash u; name := name u;
  role := role u; plan := plan u; stripe_customer_id := stripe_customer_id u;
  stripe_subscription_id := stripe_subscription_id u;
  subscription_status := subscription_status u; is_active := is_active u;
  created_at := created_at u |}.
End User.

(** [User.role_enum]: [Role(self.role)] raises [ValueError] on an unknown integer. *)
Definition role_enum `{CoreRole} (u : User.User) : result exn Role :=
  match role_of_int (User.role u) with Some r => Ok r | None => Err ValueError end.

(** One object of the JSON array [Agent.env]; [value] is ciphertext when [secret]. *)
Record EnvEntry := { env_key : pystr; env_value : pystr; env_secret : bool }.
#[export] Instance EnvEntry_eq : EqDecision EnvEntry.
Proof. solve_decision. Defined.

Module Agent.
Record Agent := {
  id : pystr;
  user_id : uuid;
  slug : pystr;
  name : pystr;
  runtime : AgentRuntimeKind;
  framework : pystr;
  model : pystr;
  system_prompt : option pystr;
  tags : list pystr;
  agent_metadata : gmap pystr pystr;
  status : AgentStatus;
  error : option pystr;
  version : Z;
  access : AgentAccess;
  rate_limit_rpm : option Z;
  replicas : Z;
  cpu : float;
  memory_mb : Z;
  gpu : Z;
  gpu_type : option pystr;
  disk_gb : Z;
  ephemeral_storage_gb : Z;
  env : list EnvEntry;
  image : option pystr;
  build_path : option pystr;
  command : option pystr;
  args : list pystr;
  health_check_path : option pystr;
  auto_scale : bool;
  min_replicas : Z;
  max_replicas : Z;
  port : Z;
  created_at : datetime;
}.
#[global] Instance Agent_eta : Eta Agent := λ a, {|
  id := id a; user_id := user_id a; slug := slug a; name := name a; runtime := runtime a;
  framework := framework a; model := model a; system_prompt := system_prompt a;
  tags := tags a; agent_metadata := agent_metadata a; status := status a; error := error a;
  version := version a; access := access a; rate_limit_rpm := rate_limit_rpm a;
  replicas := replicas a; cpu := cpu a; memory_mb := memory_mb a; gpu := gpu a;
  gpu_type := gpu_type a; disk_gb := disk_gb a;
  ephemeral_storage_gb := ephemeral_storage_gb a; env := env a; image := image a;
  build_path := build_path a; command := command a; args := args a;
  health_check_path := health_check_path a; auto_scale := auto_scale a;
  min_replicas := min_replicas a; max_replicas := max_replicas a; port := port a;
  created_at := created_at a |}.
End Agent.

Module ApiKey.
Record ApiKey := {
  id : uuid;
  user_id : uuid;
  label : pystr;
  key_prefix : pystr;
  key_hash : pystr;
  scopes : list pystr;
  project_id : option pystr;
  created_at : datetime;
  last_used_at : option datetime;
  revoked_at : option datetime;
  expires_at : option datetime;
}.
#[global] Instance ApiKey_eta : Eta ApiKey := λ k, {|
  id := id k; user_id := user_id k; label := label k; key_prefix := key_prefix k;
  key_hash := key_hash k; scopes := scopes k; project_id := project_id k;
  created_at := created_at k; last_used_at := last_used_at k; revoked_at := revoked_at k;
  expires_at := expires_at k |}.

(** The property [ApiKey.is_active], at instant [now]. *)
Definition is_active (now : datetime) (k : ApiKey) : bool :=
  match revoked_at k with
  | Some _ => false
  | None => match expires_at k with None => true | Some t => now <? t end
  end.
End ApiKey.

Module AgentAccessKey.
Record AgentAccessKey := {
  id : uuid;
  agent_id : pystr;
  label : pystr;
  key_prefix : pystr;
  key_hash : pystr;
  created_at : datetime;
}.
End AgentAccessKey.

Inductive InviteStatus := InvActive | InvUsed | InvExpired | InvRevoked.
#[export] Instance InviteStatus_eq : EqDecision InviteStatus.
Proof. solve_decision. Defined.

Module Invite.
Record Invite := {
  id : uuid;
  code_hash : pystr;
  code_prefix : pystr;
  note : pystr;
  created_by : option uuid;
  max_uses : Z;
  use_count : Z;
  expires_at : option datetime;
  revoked_at : option datetime;
  created_at : datetime;
}.
#[global] Instance Invite_eta : Eta Invite := λ i, {|
  id := id i; code_hash := code_hash i; code_prefix := code_prefix i; note := note i;
  created_by := created_by i; max_uses := max_uses i; use_count := use_count i;
  expires_at := expires_at i; revoked_at := revoked_at i; created_at := created_at i |}.

(** The property [Invite.status], at instant [now]. *)
Definition status (now : datetime) (i : Invite) : InviteStatus :=
  match revoked_at i with
  | Some _ => InvRevoked
  | None =>
      if (match expires_at i with Some t => t <=? now | None => false end) then InvExpired
      else if max_uses i <=? use_count i then InvUsed
      else InvActive
  end.
End Invite.

(** A row of [usage_hours]; the table is keyed by its unique pair (agent, hour). *)
Module UsageHour.
Record UsageHour := {
  user_id : uuid;
  replica_seconds : float;
  vcpu_seconds : float;
  memory_mb_seconds : float;
  requests : Z;
}.
#[global] Instance UsageHour_eta : Eta UsageHour := λ h, {|
  user_id := user_id h; replica_seconds := replica_seconds h;
  vcpu_seconds := vcpu_seconds h; memory_mb_seconds := memory_mb_seconds h;
  requests := requests h |}.
End UsageHour.

(** ** Tables *)
Record db := {
  users : gmap uuid User.User;
  agents : gmap pystr Agent.Agent;
  api_keys : gmap uuid ApiKey.ApiKey;
  access_keys : gmap uuid AgentAccessKey.AgentAccessKey;
  invites : gmap uuid Invite.Invite;
  usage_hours : gmap (pystr * datetime) UsageHour.UsageHour;
}.
#[export] Instance db_eta : Eta db := λ d, {|
  users := users d; agents := agents d; api_keys := api_keys d;
  access_keys := access_keys d; invites := invites d; usage_hours := usage_hours d |}.

Definition empty_db : db :=
  {| users := ∅; agents := ∅; api_keys := ∅; access_keys := ∅; invites := ∅; usage_hours := ∅ |}.

(** Writing one row. *)
Definition put_user (u : User.User) (d : db) : db :=
  d <| users := <[User.id u := u]> (users d) |>.
Definition put_agent (a : Agent.Agent) (d : db) : db :=
  d <| agents := <[Agent.id a := a]> (agents d) |>.
Definition put_api_key (k : ApiKey.ApiKey) (d : db) : db :=
  d <| api_keys := <[ApiKey.id k := k]> (api_keys d) |>.
Definition put_access_key (k : AgentAccessKey.AgentAccessKey) (d : db) : db :=
  d <| access_keys := <[AgentAccessKey.id k := k]> (access_keys d) |>.
Definition put_invite (i : Invite.Invite) (d : db) : db :=
  d <| invites := <[Invite.id i := i]> (invites d) |>.
(** Deleting an agent takes its access keys with it (ON DELETE CASCADE). *)
Definition remove_agent (aid : pystr) (d : db) : db :=
  d <| agents := delete aid (agents d) |>
    <| access_keys := filter (λ p, AgentAccessKey.agent_id p.2 ≠ aid) (access_keys d) |>.

(** No two rows share a non-null value of a unique column. *)
Definition unique_by {K V X} `{Countable K} (f : V → option X) (m : gmap K V) : Prop :=
  map_Forall (λ k1 v1, map_Forall (λ k2 v2, f v1 ≠ None → f v1 = f v2 → k1 = k2) m) m.
#[export] Instance unique_by_dec {K V X} `{Countable K} `{EqDecision X}
  (f : V → option X) (m : gmap K V) : Decision (unique_by f m).
Proof. apply _. Defined.

(** A foreign key: every row refers to an existing one. *)
Definition refers {K V J W} `{Countable K} `{Countable J}
  (f : V → J) (m : gmap K V) (n : gmap J W) : Prop :=
  map_Forall (λ _ v, is_Some (n !! f v)) m.
#[export] Instance refers_dec {K V J W} `{Countable K} `{Countable J}
  (f : V → J) (m : gmap K V) (n : gmap J W) : Decision (refers f m n).
Proof. apply _. Defined.

(** A nullable foreign key. *)
Definition refers_opt {K V J W} `{Countable K} `{Countable J}
  (f : V → option J) (m : gmap K V) (n : gmap J W) : Prop :=
  map_Forall (λ _ v, if f v is Some j then is_Some (n !! j) else True) m.
#[export] Instance refers_opt_dec {K V J W} `{Countable K} `{Countable J}
  (f : V → option J) (m : gmap K V) (n : gmap J W) : Decision (refers_opt f m n).
Proof. refine (map_Forall_dec _ m). intros k v. destruct (f v); apply _. Defined.

Definition opt_text (o : option pystr) : Prop := match o with Some s => pg_text s | None => True end.
#[export] Instance opt_text_dec o : Decision (opt_text o).
Proof. destruct o; cbn; apply _. Defined.

(** What a [String(n)] column takes: at most [n] characters, all of which PostgreSQL stores. *)
Definition fits (n : nat) (s : pystr) : Prop := (length s ≤ n)%nat ∧ pg_text s.
Definition fits_opt (n : nat) (o : option pystr) : Prop :=
  match o with Some s => fits n s | None => True end.
#[export] Instance fits_dec n s : Decision (fits n s).
Proof. unfold fits. apply _. Defined.
#[export] Instance fits_opt_dec n o : Decision (fits_opt n o).
Proof. destruct o; cbn; apply _. Defined.

(** The text columns of [agents] that requests fill, which no code bounds itself. *)
Definition agent_widths (a : Agent.Agent) : Prop :=
  fits 32 (Agent.id a) ∧ fits 63 (Agent.slug a) ∧ fits 128 (Agent.name a) ∧
  fits 32 (Agent.framework a) ∧ fits 128 (Agent.model a) ∧
  fits_opt 64 (Agent.gpu_type a) ∧ fits_opt 512 (Agent.image a) ∧
  fits_opt 512 (Agent.build_path a) ∧ fits_opt 512 (Agent.command a) ∧
  fits_opt 256 (Agent.health_check_path a) ∧ opt_text (Agent.system_prompt a) ∧
  Forall pg_text (Agent.tags a) ∧ Forall pg_text (Agent.args a).
#[export] Instance agent_widths_dec a : Decision (agent_widths a).
Proof. unfold agent_widths. apply _. Defined.

(** Rows sit under their primary key. *)
Definition keyed {K V} `{Countable K} (f : V → K) (m : gmap K V) : Prop :=
  map_Forall (λ k v, f v = k) m.
#[export] Instance keyed_dec {K V} `{Countable K} (f : V → K) (m : gmap K V) :
  Decision (keyed f m).
Proof. apply _. Defined.

(** The constraints the database checks when a transaction commits. *)
Record users_ok (d : db) : Prop := {
  ok_user_id : keyed User.id (users d);
  ok_email : unique_by (λ u, Some (User.email u)) (users d);
  ok_customer : unique_by User.stripe_customer_id (users d);
  ok_user_text : map_Forall (λ _ u, pg_text (User.name u)) (users d);
}.
Record agents_ok (d : db) : Prop := {
  ok_agent_id : keyed Agent.id (agents d);
  ok_slug : unique_by (λ a, Some (Agent.slug a)) (agents d);
  ok_agent_owner : refers Agent.user_id (agents d) (users d);
  ok_agent_widths : map_Forall (λ _, agent_widths) (agents d);
}.
Definition api_key_text (k : ApiKey.ApiKey) : Prop :=
  pg_text (ApiKey.label k) ∧ Forall pg_text (ApiKey.scopes k).
#[export] Instance api_key_text_dec k : Decision (api_key_text k).
Proof. unfold api_key_text. apply _. Defined.
Record keys_ok (d : db) : Prop := {
  ok_api_id : keyed ApiKey.id (api_keys d);
  ok_api_hash : unique_by (λ k, Some (ApiKey.key_hash k)) (api_keys d);
  ok_api_owner : refers ApiKey.user_id (api_keys d) (users d);
  ok_access_id : keyed AgentAccessKey.id (access_keys d);
  ok_access_hash : unique_by (λ k, Some (AgentAccessKey.key_hash k)) (access_keys d);
  ok_access_agent : refers AgentAccessKey.agent_id (access_keys d) (agents d);
  ok_api_text : map_Forall (λ _, api_key_text) (api_keys d);
  ok_access_text : map_Forall (λ _ k, pg_text (AgentAccessKey.label k)) (access_keys d);
}.
Record rest_ok (d : db) : Prop := {
  ok_invite_id : keyed Invite.id (invites d);
  ok_invite_hash : unique_by (λ i, Some (Invite.code_hash i)) (invites d);
  ok_invite_creator : refers_opt Invite.created_by (invites d) (users d);
  ok_usage_owner : refers UsageHour.user_id (usage_hours d) (users d);
  ok_invite_text : map_Forall (λ _ i, pg_text (Invite.note i)) (invites d);
}.
Record db_ok (d : db) : Prop := {
  db_users_ok : users_ok d;
  db_agents_ok : agents_ok d;
  db_keys_ok : keys_ok d;
  db_rest_ok : rest_ok d;
}.

(** Each record is decidable because the conjunction of its fields is. *)
Ltac decide_fields P :=
  refine (cast_if (decide P)); [destruct_and?; by constructor|intros []; tauto].

#[export] Instance users_ok_dec d : Decision (users_ok d).
Proof.
  decide_fields (keyed User.id (users d) ∧ unique_by (λ u, Some (User.email u)) (users d) ∧
                 unique_by User.stripe_customer_id (users d) ∧ map_Forall (λ _ u, pg_text (User.name u)) (users d)).
Defined.
#[export] Instance agents_ok_dec d : Decision (agents_ok d).
Proof.
  decide_fields (keyed Agent.id (agents d) ∧ unique_by (λ a, Some (Agent.slug a)) (agents d) ∧
                 refers Agent.user_id (agents d) (users d) ∧
                 map_Forall (λ _, agent_widths) (agents d)).
Defined.
#[export] Instance keys_ok_dec d : Decision (keys_ok d).
Proof.
  decide_fields (keyed ApiKey.id (api_keys d) ∧
                 unique_by (λ k, Some (ApiKey.key_hash k)) (api_keys d) ∧
                 refers ApiKey.user_id (api_keys d) (users d) ∧
                 keyed AgentAccessKey.id (access_keys d) ∧
                 unique_by (λ k, Some (AgentAccessKey.key_hash k)) (access_keys d) ∧
                 refers AgentAccessKey.agent_id (access_keys d) (agents d) ∧
                 map_Forall (λ _, api_key_text) (api_keys d) ∧
                 map_Forall (λ _ k, pg_text (AgentAccessKey.label k)) (access_keys d)).
Defined.
#[export] Instance rest_ok_dec d : Decision (rest_ok d).
Proof.
  decide_fields (keyed Invite.id (invites d) ∧
                 unique_by (λ i, Some (Invite.code_hash i)) (invites d) ∧
                 refers_opt Invite.created_by (invites d) (users d) ∧
                 refers UsageHour.user_id (usage_hours d) (users d) ∧
                 map_Forall (λ _ i, pg_text (Invite.note i)) (invites d)).
Defined.
#[export] Instance db_ok_dec d : Decision (db_ok d).
Proof. decide_fields (users_ok d ∧ agents_ok d ∧ keys_ok d ∧ rest_ok d). Defined.

(** ** Constraints under row updates *)
Section constraints.
Context {K V : Type} `{Countable K}.

Lemma unique_by_replace {X} (f : V → option X) (m : gmap K V) k v v' :
  unique_by f m → m !! k = Some v → f v' = f v → unique_by f (<[k := v']> m).
Proof.
  intros Hu Hk Hf k1 v1 Hk1 k2 v2 Hk2 Hn He.
  assert (∀ k0 v0, <[k := v']> m !! k0 = Some v0 → ∃ v1, m !! k0 = Some v1 ∧ f v1 = f v0) as Hold.
  { intros k0 v0. rewrite lookup_insert. case_decide; naive_solver. }
  destruct (Hold _ _ Hk1) as (w1 & Hw1 & Hf1), (Hold _ _ Hk2) as (w2 & Hw2 & Hf2).
  apply (Hu k1 w1 Hw1 k2 w2 Hw2); congruence.
Qed.

Lemma unique_by_delete {X} (f : V → option X) (m : gmap K V) k :
  unique_by f m → unique_by f (delete k m).
Proof.
  intros Hu k1 v1 Hk1 k2 v2 Hk2. apply lookup_delete_Some in Hk1 as [_ Hk1], Hk2 as [_ Hk2].
  by apply Hu.
Qed.

Lemma unique_by_lookup {X} (f : V → option X) (m : gmap K V) k1 k2 v1 v2 x :
  unique_by f m → m !! k1 = Some v1 → m !! k2 = Some v2 → f v1 = Some x → f v2 = Some x → k1 = k2.
Proof. intros Hu H1 H2 E1 E2. apply (Hu k1 v1 H1 k2 v2 H2); congruence. Qed.

(** Adding a row with a value no row has. *)
Lemma unique_by_new {X} (f : V → option X) (m : gmap K V) k v :
  unique_by f m → (∀ k' v', m !! k' = Some v' → f v ≠ None → f v' ≠ f v) → unique_by f (<[k := v]> m).
Proof.
  intros Hu Hv k1 v1 Hk1 k2 v2 Hk2 Hn He. rewrite lookup_insert in Hk1, Hk2.
  destruct (decide (k = k1)) as [E1|], (decide (k = k2)) as [E2|]; simplify_eq; [done|..].
  - exfalso. by apply (Hv k2 v2).
  - exfalso. apply (Hv k1 v1); congruence.
  - by apply (Hu k1 v1 Hk1 k2 v2 Hk2).
Qed.

Lemma keyed_insert (f : V → K) (m : gmap K V) v : keyed f m → keyed f (<[f v := v]> m).
Proof. intros Hk. apply map_Forall_insert_2; [done|done]. Qed.

Lemma refers_insert {J W} `{Countable J} (f : V → J) (m : gmap K V) (n : gmap J W) k v :
  refers f m n → is_Some (n !! f v) → refers f (<[k := v]> m) n.
Proof. intros Hr Hv. by apply map_Forall_insert_2. Qed.

(** The referenced table may change rows as long as it keeps its keys. *)
Lemma refers_target {J W} `{Countable J} (f : V → J) (m : gmap K V) (n : gmap J W) j w :
  refers f m n → refers f m (<[j := w]> n).
Proof.
  intros Hr k v Hk. rewrite lookup_insert. case_decide; [by eexists|by apply (Hr k)].
Qed.

Lemma refers_opt_insert {J W} `{Countable J} (f : V → option J) (m : gmap K V) (n : gmap J W) k v v' :
  refers_opt f m n → m !! k = Some v → f v' = f v → refers_opt f (<[k := v']> m) n.
Proof. intros Hr Hk Hf. apply map_Forall_insert_2; [|done]. rewrite Hf. by apply (Hr k). Qed.
Lemma refers_opt_target {J W} `{Countable J} (f : V → option J) (m : gmap K V) (n : gmap J W) j w :
  refers_opt f m n → refers_opt f m (<[j := w]> n).
Proof.
  intros Hr k v Hk. pose proof (Hr k v Hk) as Hv. cbn in Hv. destruct (f v); [|done].
  rewrite lookup_insert. case_decide; [by eexists|done].
Qed.
End constraints.

Lemma db_ok_put_user d u u' :
  db_ok d → users d !! User.id u' = Some u → User.email u' = User.email u →
  User.stripe_customer_id u' = User.stripe_customer_id u → User.name u' = User.name u → db_ok (put_user u' d).
Proof.
  intros [[Hi He Hc Ht] [Ai As Ao Aw] [Ka Kb Kc Kd Ke Kf Kg Kh] [Ri Rh Rc Ro Rt]] Hu Hem Hcu Hn. split.
  - split; cbn; [by apply keyed_insert|eapply unique_by_replace; [done|done|cbn; congruence]|
      by eapply unique_by_replace|].
    apply map_Forall_insert_2; [|done]. rewrite Hn. by apply (Ht _ _ Hu).
  - split; cbn; try done. by apply refers_target.
  - split; cbn; try done. by apply refers_target.
  - split; cbn; try done; [by apply refers_opt_target|by apply refers_target].
Qed.

(** Rewriting a row without touching its identity keeps the database consistent. *)
Lemma db_ok_put_agent d a a' :
  db_ok d → agents d !! Agent.id a' = Some a → Agent.slug a' = Agent.slug a →
  Agent.user_id a' = Agent.user_id a → agent_widths a' → db_ok (put_agent a' d).
Proof.
  intros [[] [Hid Hs Ho Hw] [] []] Ha Hslug Howner Hwid.
  split; [by split| | |by split].
  - split; cbn.
    + by apply keyed_insert.
    + eapply unique_by_replace; [done|done|]. cbn. congruence.
    + apply refers_insert; [done|]. rewrite Howner. by apply (Ho _ _ Ha).
    + by apply map_Forall_insert_2.
  - split; cbn; try done. by apply refers_target.
Qed.

Lemma db_ok_widths d k a : db_ok d → agents d !! k = Some a → agent_widths a.
Proof. intros [_ [] _ _] Ha. eauto. Qed.
Lemma db_ok_agent_id d k a : db_ok d → agents d !! k = Some a → Agent.id a = k.
Proof. intros [_ [] _ _] Ha. eauto. Qed.

(** Deleting an agent and its access keys keeps the database consistent. *)
Lemma db_ok_remove_agent d aid : db_ok d → db_ok (remove_agent aid d).
Proof.
  intros [[] [Hid Hs Ho Hw] [Ka Kb Kc Kd Ke Kf Kg Kh] []].
  split; [by split| | |by split].
  - split; cbn; try by apply map_Forall_delete. by apply unique_by_delete.
  - split; cbn; try done; [| | |intros k v [Hk _]%map_lookup_filter_Some; by apply (Kh k)].
    + intros k v [Hk _]%map_lookup_filter_Some. by apply Kd.
    + intros k1 v1 [H1 _]%map_lookup_filter_Some k2 v2 [H2 _]%map_lookup_filter_Some. by apply Ke.
    + intros k v [Hk Hne]%map_lookup_filter_Some. cbn in Hne.
      rewrite lookup_delete_ne by done. by apply (Kf k).
Qed.

(** ** Selecting rows *)
(** [select(T).where(T.column == x)] *)
Definition where_eq {K V X} `{Countable K} `{EqDecision X} (f : V → X) (x : X) (m : gmap K V) : list V :=
  filter (λ v, f v = x) (rows m).
(** [result.scalar_one_or_none()]: more than one row raises [MultipleResultsFound]. *)
Definition scalar_one_or_none {A} (l : list A) : result exn (option A) :=
  match l with
  | [] => Ok None
  | [a] => Ok (Some a)
  | _ => Err (ForeignError (str "MultipleResultsFound"))
  end.

Lemma where_eq_unique {K V X} `{Countable K} `{EqDecision X} (f : V → X) (m : gmap K V) k v :
  unique_by (λ v, Some (f v)) m → m !! k = Some v → where_eq f (f v) m = [v].
Proof.
  intros Hu Hk. apply Permutation_singleton_r. unfold where_eq.
  rewrite (rows_delete m k v Hk), filter_cons, decide_True by done.
  apply Permutation_skip. rewrite filter_none; [done|].
  intros v' [k' Hk']%elem_of_rows Hf. apply lookup_delete_Some in Hk' as [Hne Hk'].
  apply Hne. eapply unique_by_lookup; eauto; cbn; congruence.
Qed.

Lemma where_eq_cases {K V X} `{Countable K} `{EqDecision X} (f : V → X) x (m : gmap K V) :
  unique_by (λ v, Some (f v)) m →
  (∃ k v, m !! k = Some v ∧ f v = x ∧ where_eq f x m = [v]) ∨
  (where_eq f x m = [] ∧ ∀ k v, m !! k = Some v → f v ≠ x).
Proof.
  intros Hu. destruct (where_eq f x m) as [|v l] eqn:E.
  - right. split; [done|]. intros k v Hk Hf.
    assert (v ∈ where_eq f x m) by (apply list_elem_of_filter; split; [done|apply elem_of_rows; eauto]).
    rewrite E in *. set_solver.
  - left. assert (v ∈ where_eq f x m) as Hv by (rewrite E; set_solver).
    apply list_elem_of_filter in Hv as [Hf [k Hk]%elem_of_rows].
    exists k, v. split_and!; [done|done|]. rewrite <- E, <- Hf. by apply (where_eq_unique f m k).
Qed.

Lemma db_ok_put_access_key d k :
  db_ok d → is_Some (agents d !! AgentAccessKey.agent_id k) → pg_text (AgentAccessKey.label k) →
  (∀ kid k', access_keys d !! kid = Some k' → AgentAccessKey.key_hash k' ≠ AgentAccessKey.key_hash k) →
  db_ok (put_access_key k d).
Proof.
  intros [[] [] [Ka Kb Kc Kd Ke Kf Kg Kh] []] Ha Ht Hh. split; [by split|by split| |by split].
  split; cbn; try done.
  - by apply keyed_insert.
  - apply unique_by_new; [done|]. intros kid k' Hk _ [= He]. by apply (Hh kid k').
  - by apply refers_insert.
  - by apply map_Forall_insert_2.
Qed.

Lemma db_ok_user_id d k u : db_ok d → users d !! k = Some u → User.id u = k.
Proof. intros [[] _ _ _] Hu. eauto. Qed.

Lemma db_ok_put_api_key d k :
  db_ok d → is_Some (users d !! ApiKey.user_id k) → api_key_text k →
  (∀ kid k', api_keys d !! kid = Some k' → kid ≠ ApiKey.id k → ApiKey.key_hash k' ≠ ApiKey.key_hash k) →
  db_ok (put_api_key k d).
Proof.
  intros [[] [] [Ka Kb Kc Kd Ke Kf Kg Kh] []] Hu Ht Hh. split; [by split|by split| |by split].
  split; cbn; try done.
  - by apply keyed_insert.
  - intros k1 v1 H1 k2 v2 H2 _ [= He]. rewrite lookup_insert in H1, H2.
    destruct (decide (ApiKey.id k = k1)), (decide (ApiKey.id k = k2)); simplify_eq; [done|..].
    + by destruct (Hh k2 v2).
    + by destruct (Hh k1 v1).
    + apply (Kb k1 v1 H1 k2 v2 H2); [done|congruence].
  - by apply refers_insert.
  - by apply map_Forall_insert_2.
Qed.

(** The same for a nullable unique column. *)
Lemma where_eq_unique_opt {K V X} `{Countable K} `{EqDecision X} (f : V → option X) (m : gmap K V) k v :
  unique_by f m → m !! k = Some v → f v ≠ None → where_eq f (f v) m = [v].
Proof.
  intros Hu Hk Hn. apply Permutation_singleton_r. unfold where_eq.
  rewrite (rows_delete m k v Hk), filter_cons, decide_True by done.
  apply Permutation_skip. rewrite filter_none; [done|].
  intros v' [k' Hk']%elem_of_rows Hf. apply lookup_delete_Some in Hk' as [Hne Hk'].
  apply Hne. symmetry. by apply (Hu k' v' Hk' k v Hk); rewrite Hf.
Qed.

Lemma scalar_where_sound {K V X} `{Countable K} `{EqDecision X} (f : V → X) x (m : gmap K V) v :
  scalar_one_or_none (where_eq f x m) = Ok (Some v) → f v = x ∧ ∃ k, m !! k = Some v.
Proof.
  intros Hs. assert (v ∈ where_eq f x m) as Hv.
  { destruct (where_eq f x m) as [|a [|b l]]; cbn in Hs; [done| |done]. injection Hs as ->. set_solver. }
  apply list_elem_of_filter in Hv as [Hf Hv]. by apply elem_of_rows in Hv.
Qed.
