(* ===== verification/Runtime.v ===== *)
(** The bridge to the core library's Docker-backed [AgentRuntime] ([runtime.py]).

    The core library is not part of the repository: its runtime is an interface,
    a state type with the operations the gateway calls.  Every operation is a
    blocking call that may change the runtime's state and may raise. *)

From S2P Require Import Prelude PyFloat Config Models.

(** The exceptions of the core runtime: the two the gateway catches by class, and
    the rest; each with its [str]. *)
Inductive core_exn :=
| CoreScalingError (text : pystr)
| CoreContainerNotFoundError (text : pystr)
| CoreOtherError (text : pystr).
Definition core_text (e : core_exn) : pystr :=
  match e with
  | CoreScalingError t | CoreContainerNotFoundError t | CoreOtherError t => t
  end.

(** [ContainerInfo], as far as the gateway reads it. *)
Record ContainerInfo := { container_id : pystr; ip_address : option pystr }.

(** The dictionary [health_check] returns; a missing key is [None]. *)
Record ContainerStat := { cpu_percent : option float; stat_memory_mb : option float }.
Record Health := {
  h_containers : option (list ContainerStat);
  h_healthy : option bool;
  h_consecutive_failures : option Z;
}.
(** [health.get("containers", [])] and the like. *)
Definition health_containers (h : Health) : list ContainerStat := default [] (h_containers h).
Definition health_healthy (h : Health) : bool := default false (h_healthy h).
Definition health_failures (h : Health) : Z := default 0 (h_consecutive_failures h).

(** An entry of [get_logs]. *)
Record LogEntry := { le_replica_id : pystr; le_timestamp : datetime; le_message : pystr }.

Inductive LLMProvider := OPENAI | ANTHROPIC | GOOGLE | OtherProvider (tag : N).
#[export] Instance LLMProvider_eq : EqDecision LLMProvider.
Proof. solve_decision. Defined.

(** Resource requests; the core configuration carries the CPU as [str(cpu)] and the
    memory as [f"{int(memory_mb)}m"], kept here as the number that is printed. *)
Inductive cpu_text := CpuDefault | CpuStr (cpu : float).
Inductive memory_text := MemDefault | MemM (mb : Z).
Record CoreResourceLimits := {
  cpu_limit : cpu_text;
  cpu_request : cpu_text;
  memory_limit : memory_text;
  memory_request : memory_text;
}.
Record CoreAgentConfig := {
  cc_name : pystr;
  cc_agent_id : pystr;
  cc_system_prompt : pystr;
  cc_provider : LLMProvider;
  cc_model : pystr;
  cc_resources : CoreResourceLimits;
}.

(** [LLMProvider.for_model] of the core library. *)
Class CoreLLM := for_model : pystr → LLMProvider.

Class AgentRuntime (R : Type) := {
  core_deploy : CoreAgentConfig → Z → gmap pystr pystr → option pystr → R →
    R * result core_exn (list ContainerInfo);
  core_remove : pystr → R → R * result core_exn (list pystr);
  core_scale : pystr → ScaleDirection → Z → R → R * result core_exn unit;
  core_auto_scale : pystr → R → R * result core_exn unit;
  core_health_check : pystr → R → R * result core_exn Health;
  core_get_logs : pystr → option pystr → Z → R → R * result core_exn (list LogEntry);
  core_get_containers : R → pystr → list ContainerInfo;
  core_reconcile : R → R * result core_exn Z;
  core_stop : pystr → R → R * result core_exn (list pystr);
  core_list_all : R → gmap pystr (list ContainerInfo);
}.

(** Documented behaviour of [AgentRuntime.deploy]: it starts the replicas asked for
    and returns them. *)
Class AgentRuntimeLaws (R : Type) `{AgentRuntime R} : Prop := {
  core_deploy_replicas cfg n env image (r r' : R) cs :
    0 ≤ n → core_deploy cfg n env image r = (r', Ok cs) → Z.of_nat (length cs) = n;
}.

(** [_to_core_config] *)
Definition to_core_config `{CoreLLM} (agent_id name model : pystr) (system_prompt : option pystr)
  (resources : option (option float * option Z)) : CoreAgentConfig :=
  let model := if nonempty model then model else str "gpt-4o" in
  let cpu := match resources with Some (Some c, _) => CpuStr c | _ => CpuDefault end in
  let mem := match resources with Some (_, Some m) => MemM m | _ => MemDefault end in
  {| cc_name := name;
     cc_agent_id := agent_id;
     cc_system_prompt := default [] system_prompt;
     cc_provider := for_model model;
     cc_model := model;
     cc_resources := {| cpu_limit := cpu; cpu_request := cpu;
                        memory_limit := mem; memory_request := mem |} |}.

(** [rt.deploy_agent] *)
Definition rt_deploy_agent `{CoreLLM} `{AgentRuntime R} (agent_id name model : pystr)
  (system_prompt : option pystr) (replicas : Z) (env : gmap pystr pystr) (image : option pystr)
  (resources : option (option float * option Z)) : R → R * result core_exn (list ContainerInfo) :=
  core_deploy (to_core_config agent_id name model system_prompt resources) replicas env image.

(** [rt.stop_agent] and [rt.known_agent_ids], which no caller uses yet. *)
Definition rt_stop_agent `{AgentRuntime R} (agent_id : pystr) : R → R * result core_exn (list pystr) :=
  core_stop agent_id.
Definition rt_known_agent_ids `{AgentRuntime R} (r : R) : list pystr := (map_to_list (core_list_all r)).*1.

(** [startup_reconcile] swallows the runtime's failure. *)
Definition startup_reconcile `{AgentRuntime R} (r : R) : R := (core_reconcile r).1.
