(* ===== verification/IngressLimits.v ===== *)
(** In-memory rate limits for agent ingress ([security/ingress_limits.py]).

    [FixedWindowLimiter] counts hits per key in windows aligned to the wall clock.
    The clock is read in ticks, [tps] of them to the second: a reading of
    [time.time()] is a whole number of ticks for a fine enough [tps] (the spacing of
    the floats around it), and the float operations of [hit] on such readings are
    exact, so integer arithmetic on ticks is what the code computes. *)

From S2P Require Import Prelude.

Record FixedWindowLimiter := {
  window_seconds : Z;
  window : Z;
  counts : gmap pystr Z;
}.
#[export] Instance FixedWindowLimiter_eta : Eta FixedWindowLimiter := λ l, {|
  window_seconds := window_seconds l; window := window l; counts := counts l |}.

(** [__init__] *)
Definition new_limiter (w : Z) : FixedWindowLimiter :=
  {| window_seconds := w; window := -1; counts := ∅ |}.

(** [int(now // self._window_seconds)] *)
Definition window_of (tps w now : Z) : Z := now / (w * tps).
(** [max(1, math.ceil((window + 1) * self._window_seconds - now))] *)
Definition retry_after (tps w now : Z) : Z :=
  Z.max 1 (- ((- ((window_of tps w now + 1) * w * tps - now)) / tps)).

Definition hit (tps now : Z) (key : pystr) (limit : Z) (l : FixedWindowLimiter)
  : FixedWindowLimiter * option Z :=
  let w := window_of tps (window_seconds l) now in
  let l := if decide (w = window l) then l else l <| window := w |> <| counts := ∅ |> in
  let count := default 0 (counts l !! key) in
  if limit <=? count then (l, Some (retry_after tps (window_seconds l) now))
  else (l <| counts := <[key := count + 1]> (counts l) |>, None).

Definition reset (l : FixedWindowLimiter) : FixedWindowLimiter := l <| counts := ∅ |>.

(** The two limiters of the module, one minute each. *)
Definition per_client0 : FixedWindowLimiter := new_limiter 60.
Definition per_agent0 : FixedWindowLimiter := new_limiter 60.

(** ** Runs: a sequence of timestamped hits, with the answers *)
Record hit_req := { h_now : Z; h_key : pystr; h_limit : Z }.

Fixpoint run_hits (tps : Z) (l : FixedWindowLimiter) (hs : list hit_req)
  : FixedWindowLimiter * list (option Z) :=
  match hs with
  | [] => (l, [])
  | h :: r => let '(l1, a) := hit tps (h_now h) (h_key h) (h_limit h) l in
              let '(l2, as_) := run_hits tps l1 r in (l2, a :: as_)
  end.

(** ** Specification: the log of admitted hits

    A hit is admitted when fewer than [limit] hits of its key were admitted in the
    window the clock is in. *)
Definition admitted_in (tps w : Z) (win : Z) (key : pystr) (log : list (Z * pystr)) : Z :=
  Z.of_nat (length (filter (λ e, window_of tps w e.1 = win ∧ e.2 = key) log)).

Definition spec_hit (tps w : Z) (h : hit_req) (log : list (Z * pystr))
  : list (Z * pystr) * option Z :=
  if h_limit h <=? admitted_in tps w (window_of tps w (h_now h)) (h_key h) log
  then (log, Some (retry_after tps w (h_now h)))
  else ((h_now h, h_key h) :: log, None).

Fixpoint spec_run (tps w : Z) (log : list (Z * pystr)) (hs : list hit_req)
  : list (Z * pystr) * list (option Z) :=
  match hs with
  | [] => (log, [])
  | h :: r => let '(log1, a) := spec_hit tps w h log in
              let '(log2, as_) := spec_run tps w log1 r in (log2, a :: as_)
  end.

(** ** Invariant relating the table to the log *)
Definition log_before (tps w win : Z) (log : list (Z * pystr)) : Prop :=
  Forall (λ e, window_of tps w e.1 ≤ win) log.

Record refines (tps : Z) (l : FixedWindowLimiter) (log : list (Z * pystr)) : Prop := {
  ref_counts key :
    default 0 (counts l !! key) = admitted_in tps (window_seconds l) (window l) key log;
  ref_before : log_before tps (window_seconds l) (window l) log;
}.

Section limiter.
Context (tps : Z).

Lemma admitted_in_nonneg w win key log : 0 ≤ admitted_in tps w win key log.
Proof. unfold admitted_in. lia. Qed.

Lemma admitted_in_cons w win key e log :
  admitted_in tps w win key (e :: log) =
  admitted_in tps w win key log +
    (if decide (window_of tps w e.1 = win ∧ e.2 = key) then 1 else 0).
Proof.
  unfold admitted_in. rewrite filter_cons. case_decide; cbn [length]; lia.
Qed.

(** Nothing was admitted in a window later than all of the log. *)
Lemma admitted_in_later w win win' key log :
  log_before tps w win log → win < win' → admitted_in tps w win' key log = 0.
Proof.
  unfold log_before. induction 1 as [|e log He _ IH]; intros Hlt; [done|].
  rewrite admitted_in_cons, IH by done. case_decide; [lia|done].
Qed.

Lemma refines_new w : refines tps (new_limiter w) [].
Proof. split; [intros key; cbn; by rewrite lookup_empty|constructor]. Qed.

(** Entering a later window empties both sides. *)
Lemma refines_roll l log win :
  refines tps l log → window l < win →
  refines tps (l <| window := win |> <| counts := ∅ |>) log.
Proof.
  intros [Hc Hb] Hlt. split; cbn.
  - intros key. rewrite lookup_empty. cbn. symmetry. by eapply admitted_in_later.
  - eapply Forall_impl; [exact Hb|]. cbn. lia.
Qed.

(** One step of the simulation, for a clock that does not go back a window. *)
Lemma hit_refines l log h :
  refines tps l log → window l ≤ window_of tps (window_seconds l) (h_now h) →
  let '(l', a) := hit tps (h_now h) (h_key h) (h_limit h) l in
  let '(log', a') := spec_hit tps (window_seconds l) h log in
  a = a' ∧ refines tps l' log' ∧ window_seconds l' = window_seconds l ∧
  window l' = window_of tps (window_seconds l) (h_now h).
Proof.
  intros Href Hmono. unfold hit, spec_hit.
  set (win := window_of tps (window_seconds l) (h_now h)) in *.
  set (l1 := if decide (win = window l) then l else l <| window := win |> <| counts := ∅ |>).
  assert (refines tps l1 log ∧ window_seconds l1 = window_seconds l ∧ window l1 = win)
    as ([Hc Hb] & Hws & Hw).
  { unfold l1. case_decide; [by subst|]. split; [|done]. apply refines_roll; [done|lia]. }
  rewrite Hc, Hws, Hw. destruct (h_limit h <=? _); [done|].
  split; [done|]. split; [|done]. split; cbn.
  - intros key. rewrite Hws, Hw, admitted_in_cons. cbn. rewrite lookup_insert.
    specialize (Hc key). rewrite Hws, Hw in Hc.
    destruct (decide (h_key h = key)) as [->|Hne].
    + rewrite decide_True by done. cbn. lia.
    + rewrite decide_False by naive_solver. rewrite Hc. lia.
  - constructor; [cbn; rewrite Hws, Hw; fold win; lia|done].
Qed.
End limiter.

(** The clock readings of a run, from window [from] on, never go back a window. *)
Fixpoint windows_nondecreasing (tps w from : Z) (hs : list hit_req) : Prop :=
  match hs with
  | [] => True
  | h :: r => from ≤ window_of tps w (h_now h) ∧
              windows_nondecreasing tps w (window_of tps w (h_now h)) r
  end.

Lemma run_refines tps hs l log :
  refines tps l log → windows_nondecreasing tps (window_seconds l) (window l) hs →
  (run_hits tps l hs).2 = (spec_run tps (window_seconds l) log hs).2 ∧
  refines tps (run_hits tps l hs).1 (spec_run tps (window_seconds l) log hs).1.
Proof.
  revert l log. induction hs as [|h hs IH]; intros l log Href Hmono; [done|].
  destruct Hmono as [Hle Hmono]. cbn [run_hits spec_run].
  pose proof (hit_refines tps l log h Href Hle) as Hstep.
  destruct (hit tps (h_now h) (h_key h) (h_limit h) l) as [l1 a] eqn:E1.
  destruct (spec_hit tps (window_seconds l) h log) as [log1 a'] eqn:E2.
  destruct Hstep as (-> & Href1 & Hws & Hw).
  rewrite <- Hw, <- Hws in Hmono. specialize (IH l1 log1 Href1 Hmono).
  rewrite Hws in IH.
  destruct (run_hits tps l1 hs) as [l2 as2]. destruct (spec_run tps (window_seconds l) log1 hs) as [log2 bs2].
  cbn in *. destruct IH as [-> ?]. done.
Qed.

(** C8: the limiter implements its contract: over any sequence of hits whose clock
    never goes back a window, its answers are those of the specification that keeps
    the full log of admitted hits and counts the key's own in the current window. *)
Theorem limiter_refines_spec tps w hs :
  windows_nondecreasing tps w (-1) hs →
  (run_hits tps (new_limiter w) hs).2 = (spec_run tps w [] hs).2.
Proof.
  intros Hmono. by apply (run_refines tps hs (new_limiter w) []); [apply refines_new|].
Qed.

Theorem limiter_refines_spec_witness :
  (run_hits 1 (new_limiter 60)
     [ {| h_now := 0; h_key := str "a"; h_limit := 1 |};
       {| h_now := 59; h_key := str "a"; h_limit := 1 |};
       {| h_now := 60; h_key := str "a"; h_limit := 1 |} ]).2 = [None; Some 1; None].
Proof.
  rewrite limiter_refines_spec; [vm_compute; reflexivity|].
  vm_compute; repeat split; discriminate.
Defined.

(** ** Admission bound *)

(** The admitted hits of a run: those answered [None], with their clock reading. *)
Definition admitted (hs : list hit_req) (ans : list (option Z)) : list (Z * pystr) :=
  omap (λ p, if p.2 is None then Some (h_now p.1, h_key p.1) else None) (zip hs ans).

Lemma spec_run_log tps w hs log :
  (spec_run tps w log hs).1 ≡ₚ admitted hs (spec_run tps w log hs).2 ++ log.
Proof.
  revert log. induction hs as [|h hs IH]; intros log; [done|]. cbn [spec_run].
  destruct (spec_hit tps w h log) as [log1 a] eqn:E. specialize (IH log1).
  destruct (spec_run tps w log1 hs) as [log2 bs]. cbn in *. rewrite IH.
  unfold spec_hit in E. case_match; simplify_eq; cbn; [done|].
  by rewrite Permutation_middle.
Qed.

Lemma admitted_in_perm tps w win key log log' :
  log ≡ₚ log' → admitted_in tps w win key log = admitted_in tps w win key log'.
Proof. intros H. unfold admitted_in. by rewrite H. Qed.

Lemma spec_hit_bound tps w win key L h log :
  (h_key h = key → h_limit h ≤ L) → admitted_in tps w win key log ≤ Z.max 0 L →
  admitted_in tps w win key (spec_hit tps w h log).1 ≤ Z.max 0 L.
Proof.
  intros Hh Hlog. unfold spec_hit. case_match eqn:Hcmp; cbn [fst]; [done|].
  rewrite admitted_in_cons. cbn. case_decide as Hd; [|lia].
  destruct Hd as [<- <-]. specialize (Hh eq_refl). lia.
Qed.

Lemma spec_run_bound tps w win key L hs log :
  Forall (λ h, h_key h = key → h_limit h ≤ L) hs →
  admitted_in tps w win key log ≤ Z.max 0 L →
  admitted_in tps w win key (spec_run tps w log hs).1 ≤ Z.max 0 L.
Proof.
  intros Hl. revert log. induction Hl as [|h hs Hh _ IH]; intros log Hlog; [done|].
  cbn [spec_run]. pose proof (spec_hit_bound tps w win key L h log Hh Hlog) as Hstep.
  destruct (spec_hit tps w h log) as [log1 a]. specialize (IH log1 Hstep).
  by destruct (spec_run tps w log1 hs) as [log2 bs].
Qed.

(** In any one window a key gets at most its limit: over a whole run in which
    no hit on [key] carries a limit above [L], at most [L] hits on it are admitted
    with a clock reading in that window. *)
Theorem limiter_window_bound tps w hs win key L :
  windows_nondecreasing tps w (-1) hs →
  Forall (λ h, h_key h = key → h_limit h ≤ L) hs → 0 ≤ L →
  admitted_in tps w win key (admitted hs (run_hits tps (new_limiter w) hs).2) ≤ L.
Proof.
  intros Hmono Hl HL.
  destruct (run_refines tps hs (new_limiter w) [] (refines_new tps w) Hmono) as [-> _].
  cbn. pose proof (spec_run_log tps w hs []) as Hp. rewrite app_nil_r in Hp.
  rewrite <- (admitted_in_perm _ _ _ _ _ _ Hp).
  rewrite <- (Z.max_r 0 L) by done. apply spec_run_bound; [done|].
  change (0 ≤ Z.max 0 L). lia.
Qed.

Theorem limiter_window_bound_witness :
  admitted_in 1 60 0 (str "a")
    (admitted (replicate 5 {| h_now := 7; h_key := str "a"; h_limit := 2 |})
       (run_hits 1 (new_limiter 60)
          (replicate 5 {| h_now := 7; h_key := str "a"; h_limit := 2 |})).2) ≤ 2.
Proof.
  apply limiter_window_bound.
  - vm_compute; repeat split; discriminate.
  - apply Forall_replicate. cbn. lia.
  - lia.
Defined.

(** ** Waiting out a refusal *)
Lemma retry_after_spec tps w now :
  0 < tps → 0 < w →
  1 ≤ retry_after tps w now ≤ w ∧
  window_of tps w (now + retry_after tps w now * tps) = window_of tps w now + 1.
Proof.
  intros Ht Hw. unfold retry_after, window_of.
  set (q := now / (w * tps)).
  assert (0 < w * tps) as Hwt by nia.
  pose proof (Z.div_mod now (w * tps) ltac:(lia)) as Hdm.
  pose proof (Z.mod_pos_bound now (w * tps) Hwt) as Hm. fold q in Hdm.
  set (m := now mod (w * tps)) in *.
  replace ((q + 1) * w * tps - now) with (w * tps - m) by lia.
  set (c := - (- (w * tps - m) / tps)).
  pose proof (Z.div_mod (- (w * tps - m)) tps ltac:(lia)) as Hc.
  pose proof (Z.mod_pos_bound (- (w * tps - m)) tps Ht) as Hcm.
  assert (c * tps = w * tps - m + (- (w * tps - m)) mod tps) as Hct by (subst c; lia).
  assert (1 ≤ c ≤ w) as Hcw by nia.
  rewrite Z.max_r by lia. split; [done|].
  symmetry. apply Z.div_unique with (r := m + c * tps - w * tps); [nia|lia].
Qed.

(** A refused caller that waits the advertised number of seconds, between one
    and the length of the window, is admitted, whatever the table held. *)
Theorem retry_after_honoured tps now key limit l l' r :
  0 < tps → 0 < window_seconds l → 1 ≤ limit →
  hit tps now key limit l = (l', Some r) →
  1 ≤ r ≤ window_seconds l ∧ (hit tps (now + r * tps) key limit l').2 = None.
Proof.
  intros Ht Hw Hlim Hhit. unfold hit in Hhit.
  destruct (retry_after_spec tps (window_seconds l) now Ht Hw) as [Hr Hwin].
  set (l1 := if decide (_ = window l) then l else _) in Hhit.
  assert (window_seconds l1 = window_seconds l ∧
          window l1 = window_of tps (window_seconds l) now) as [Hws Hwn].
  { unfold l1. by case_decide. }
  case_match; [|done]. injection Hhit as <- <-. rewrite Hws in *. split; [done|].
  unfold hit. rewrite Hws, Hwn, Hwin. rewrite decide_False by lia. cbn.
  rewrite lookup_empty. cbn. by rewrite (proj2 (Z.leb_gt limit 0)) by lia.
Qed.

Theorem retry_after_honoured_witness :
  1 ≤ 55 ≤ 60 ∧ (hit 1 (5 + 55 * 1) (str "a") 1
     {| window_seconds := 60; window := 0; counts := {[ str "a" := 1 ]} |}).2 = None.
Proof.
  apply (retry_after_honoured 1 5 (str "a") 1
    {| window_seconds := 60; window := 0; counts := {[ str "a" := 1 ]} |}
    {| window_seconds := 60; window := 0; counts := {[ str "a" := 1 ]} |} 55);
    [cbn; lia..|vm_compute; reflexivity].
Defined.
