(* ===== verification/World.v ===== *)
(** The state the gateway's handlers run on: the database behind a session, the
    container runtime, the wall clock, and the process memory (rate-limit tables
    and unflushed request counts); and the session operations of [db.py].

    A request runs atomically at one instant.  Its session reads and writes [cur];
    [commit] checks the constraints and publishes [cur], and what was not committed
    when the request ends is dropped, as closing an [AsyncSession] rolls back. *)

From S2P Require Import Prelude PyFloat Errors Plans Models IngressLimits Runtime.

Record session := {
  committed : db;
  cur : db;
  clash : bool;
}.
#[export] Instance session_eta : Eta session := λ s, {|
  committed := committed s; cur := cur s; clash := clash s |}.

Record world (R : Type) := World {
  sess : session;
  runtime : R;
  now : datetime;
  per_client : FixedWindowLimiter;
  per_agent : FixedWindowLimiter;
  pending : gmap (pystr * uuid * datetime) Z;
}.
Arguments World {R}.
Arguments sess {R}.
Arguments runtime {R}.
Arguments now {R}.
Arguments per_client {R}.
Arguments per_agent {R}.
Arguments pending {R}.
#[export] Instance world_eta R : Eta (world R) := λ w, {|
  sess := sess w; runtime := runtime w; now := now w; per_client := per_client w;
  per_agent := per_agent w; pending := pending w |}.

Abbreviation MW R A := (M (world R) exn A).

Section world.
Context {R : Type}.
Implicit Types w : world R.

Definition cur_db w : db := cur (sess w).
Definition committed_db w : db := committed (sess w).

Definition set_cur (d : db) w : world R := w <| sess := (sess w) <| cur := d |> |>.
Definition set_sess (s : session) w : world R := w <| sess := s |>.

(** Read through the session. *)
Definition query {A} (f : db → result exn A) : MW R A := λ w, (w, f (cur_db w)).
Definition select {A} (f : db → A) : MW R A := λ w, (w, Ok (f (cur_db w))).

(** Change rows in the session. *)
Definition update (f : db → db) : MW R unit := λ w, (set_cur (f (cur_db w)) w, Ok tt).

(** [await db.rollback()] *)
Definition rolled_back (s : session) : session :=
  {| committed := committed s; cur := committed s; clash := false |}.
Definition rollback : MW R unit := λ w, (set_sess (rolled_back (sess w)) w, Ok tt).

(** [await db.commit()]: a constraint violation, or a value that PostgreSQL does not store in its
    column, undoes the transaction; no code tells the driver's errors for these apart. *)
Definition commit : MW R unit := λ w,
  let s := sess w in
  if clash s || negb (bool_decide (db_ok (cur s)))
  then (set_sess (rolled_back s) w, Err IntegrityError)
  else (set_sess {| committed := cur s; cur := cur s; clash := false |} w, Ok tt).

(** [db.add(row)]: inserting under a primary key that exists fails at the flush. *)
Definition add_row (put : db → db) (taken : db → bool) : MW R unit := λ w,
  let d := cur_db w in
  (set_sess ((sess w) <| cur := put d |> <| clash := clash (sess w) || taken d |>) w, Ok tt).
Definition add_user (u : User.User) : MW R unit :=
  add_row (put_user u) (λ d, bool_decide (is_Some (users d !! User.id u))).
Definition add_agent (a : Agent.Agent) : MW R unit :=
  add_row (put_agent a) (λ d, bool_decide (is_Some (agents d !! Agent.id a))).
Definition add_api_key (k : ApiKey.ApiKey) : MW R unit :=
  add_row (put_api_key k) (λ d, bool_decide (is_Some (api_keys d !! ApiKey.id k))).
Definition add_access_key (k : AgentAccessKey.AgentAccessKey) : MW R unit :=
  add_row (put_access_key k) (λ d, bool_decide (is_Some (access_keys d !! AgentAccessKey.id k))).
Definition add_invite (i : Invite.Invite) : MW R unit :=
  add_row (put_invite i) (λ d, bool_decide (is_Some (invites d !! Invite.id i))).

(** Write back a changed row that the session loaded. *)
Definition save_agent (a : Agent.Agent) : MW R unit := update (put_agent a).
Definition save_user (u : User.User) : MW R unit := update (put_user u).
Definition save_invite (i : Invite.Invite) : MW R unit := update (put_invite i).
Definition save_api_key (k : ApiKey.ApiKey) : MW R unit := update (put_api_key k).

(** [await db.delete(agent)]: access keys go with their agent (ON DELETE CASCADE). *)
Definition delete_agent_row (aid : pystr) : MW R unit := update (remove_agent aid).
Definition delete_access_key_row (kid : uuid) : MW R unit :=
  update (λ d, d <| access_keys := delete kid (access_keys d) |>).

(** A blocking call of the runtime; its exception becomes the handler's choice. *)
Definition on_runtime {A} (f : R → R * result core_exn A) : MW R (result core_exn A) :=
  λ w, let '(r, a) := f (runtime w) in (w <| runtime := r |>, Ok a).

(** The session of one request: opened on the committed state, closed after. *)
Definition begin_session w : world R := set_sess (rolled_back (sess w)) w.
Definition request {A} (m : MW R A) : MW R A := λ w,
  let '(w', r) := m (begin_session w) in (begin_session w', r).

(** What the edge keeps in memory, with the clock. *)
Definition edge_state w : datetime * FixedWindowLimiter * FixedWindowLimiter * _ :=
  (now w, per_client w, per_agent w, pending w).

Lemma edge_query {A} (f : db → result exn A) : preserves edge_state (query f).
Proof. done. Qed.
Lemma edge_select {A} (f : db → A) : preserves edge_state (select f).
Proof. done. Qed.
Lemma edge_update f : preserves edge_state (update f).
Proof. done. Qed.
Lemma edge_add_row put taken : preserves edge_state (add_row put taken).
Proof. done. Qed.
Lemma edge_commit : preserves edge_state commit.
Proof. intros w. unfold commit. by case_match. Qed.
Lemma edge_on_runtime {A} (f : R → R * result core_exn A) : preserves edge_state (on_runtime f).
Proof. intros w. unfold on_runtime. by destruct (f (runtime w)). Qed.

(** ** Lemmas

    [publish d w] is [w] at rest on database [d]: committed, with an idle session. *)
Definition publish (d : db) w : world R :=
  set_sess {| committed := d; cur := d; clash := false |} w.

Lemma publish_publish d d' w : publish d (publish d' w) = publish d w.
Proof. reflexivity. Qed.
Lemma begin_session_publish d w : begin_session (publish d w) = publish d w.
Proof. reflexivity. Qed.
Lemma begin_session_eq w : begin_session w = publish (committed_db w) w.
Proof. reflexivity. Qed.
Lemma publish_committed d w : committed_db (publish d w) = d.
Proof. reflexivity. Qed.
Lemma publish_runtime d w r : (publish d w) <| runtime := r |> = publish d (w <| runtime := r |>).
Proof. reflexivity. Qed.

(** Changing rows and committing: all or nothing. *)
Lemma update_commit_run d w f :
  (update f;; commit) (publish d w) =
  if decide (db_ok (f d)) then (publish (f d) w, Ok tt) else (publish d w, Err IntegrityError).
Proof.
  unfold commit, update. mrun. cbn. unfold cur_db. cbn.
  destruct (decide (db_ok (f d))) as [Hok|Hno].
  - by rewrite (bool_decide_eq_true_2 _ Hok).
  - by rewrite (bool_decide_eq_false_2 _ Hno).
Qed.

Lemma update_commit_then {A} d w f (k : MW R A) :
  (update f;; commit;; k) (publish d w) =
  if decide (db_ok (f d)) then k (publish (f d) w) else (publish d w, Err IntegrityError).
Proof.
  rewrite (bind_assoc_run (update f) (λ _, commit) (λ _, k)), bind_run, update_commit_run.
  by case_decide.
Qed.

Lemma update_commit_publish {A} d w f (a : A) :
  (update f;; commit;; mret a) (publish d w) =
  if decide (db_ok (f d)) then (publish (f d) w, Ok a) else (publish d w, Err IntegrityError).
Proof. apply update_commit_then. Qed.

(** [stage d0 d w]: database [d0] is committed and the session has [d] on top of it. *)
Definition stage (d0 d : db) w : world R :=
  set_sess {| committed := d0; cur := d; clash := false |} w.

(** Adding a row and committing: the key must be free and the constraints hold. *)
Lemma add_commit_stage d0 d w put taken :
  (add_row put taken;; commit) (stage d0 d w) =
  if decide (taken d = false ∧ db_ok (put d))
  then (publish (put d) w, Ok tt) else (publish d0 w, Err IntegrityError).
Proof.
  unfold commit, add_row. mrun. cbn. unfold cur_db. cbn.
  destruct (taken d) eqn:Ht; cbn; [by rewrite decide_False by naive_solver|].
  destruct (decide (db_ok (put d))) as [Hok|Hno].
  - rewrite (bool_decide_eq_true_2 _ Hok), decide_True by done. done.
  - rewrite (bool_decide_eq_false_2 _ Hno), decide_False by naive_solver. done.
Qed.

Lemma add_commit_stage_then {A} d0 d w put taken (k : MW R A) :
  (add_row put taken;; commit;; k) (stage d0 d w) =
  if decide (taken d = false ∧ db_ok (put d))
  then k (publish (put d) w) else (publish d0 w, Err IntegrityError).
Proof.
  rewrite (bind_assoc_run (add_row put taken) (λ _, commit) (λ _, k)), bind_run, add_commit_stage.
  by case_decide.
Qed.

Lemma add_commit_then {A} d w put taken (k : MW R A) :
  (add_row put taken;; commit;; k) (publish d w) =
  if decide (taken d = false ∧ db_ok (put d))
  then k (publish (put d) w) else (publish d w, Err IntegrityError).
Proof. apply (add_commit_stage_then d d w). Qed.

Lemma on_runtime_publish {A} d w (f : R → R * result core_exn A) :
  on_runtime f (publish d w) =
  (publish d (w <| runtime := (f (runtime w)).1 |>), Ok (f (runtime w)).2).
Proof. unfold on_runtime. cbn. by destruct (f (runtime w)). Qed.

Lemma query_publish {A} d w (f : db → result exn A) :
  query f (publish d w) = (publish d w, f d).
Proof. reflexivity. Qed.

Lemma request_publish {A} (m : MW R A) w d w1 r :
  m (publish (committed_db w) w) = (publish d w1, r) → request m w = (publish d w1, r).
Proof. intros E. unfold request. by rewrite begin_session_eq, E. Qed.

Lemma request_committed {A} (m : MW R A) w :
  committed_db (request m w).1 = committed_db (m (begin_session w)).1.
Proof. unfold request. by destruct (m (begin_session w)). Qed.
End world.

#[export] Hint Resolve edge_query edge_select edge_update edge_add_row edge_commit edge_on_runtime : gateway.
