(* ===== verification/Schemas.v ===== *)
(** Request and response schemas ([schemas/]): the pydantic models with their field
    constraints.  A constraint is a boolean on the parsed record; building a model
    from values that break one raises [ValidationError]. *)

From S2P Require Import Prelude PyFloat Errors Plans Models.

Definition in_range (lo hi z : Z) : bool := (lo <=? z) && (z <=? hi).
Definition length_in (lo hi : Z) (s : pystr) : bool := in_range lo hi (Z.of_nat (length s)).
Definition opt_valid {A} (p : A → bool) (o : option A) : bool :=
  match o with Some a => p a | None => true end.

(** ** Agents ([schemas/agents.py]) *)
Record ResourceLimits := {
  rl_cpu : float;
  rl_memory_mb : Z;
  rl_gpu : Z;
  rl_gpu_type : option pystr;
  rl_disk_gb : Z;
  rl_ephemeral_storage_gb : Z;
}.
Definition ResourceLimits_valid (r : ResourceLimits) : bool :=
  num_geb (NFloat (rl_cpu r)) (NFloat (flit 1 10)) &&
  num_geb (NFloat (float_of_Z 64)) (NFloat (rl_cpu r)) &&
  in_range 128 65536 (rl_memory_mb r) && in_range 0 8 (rl_gpu r) &&
  in_range 1 1000 (rl_disk_gb r) && in_range 1 500 (rl_ephemeral_storage_gb r).

Record EnvVar := { ev_key : pystr; ev_value : pystr; ev_secret : bool }.
Definition EnvVar_valid (e : EnvVar) : bool :=
  length_in 1 256 (ev_key e) && length_in 0 4096 (ev_value e).

Record DeployConfig := {
  dc_replicas : Z;
  dc_resources : ResourceLimits;
  dc_env : list EnvVar;
  dc_image : option pystr;
  dc_build_path : option pystr;
  dc_command : option pystr;
  dc_args : list pystr;
  dc_health_check_path : option pystr;
  dc_auto_scale : bool;
  dc_min_replicas : Z;
  dc_max_replicas : Z;
  dc_port : Z;
}.
(** The field bounds and [_max_ge_min]. *)
Definition DeployConfig_valid (d : DeployConfig) : bool :=
  in_range 1 100 (dc_replicas d) && ResourceLimits_valid (dc_resources d) &&
  forallb EnvVar_valid (dc_env d) && in_range 1 100 (dc_min_replicas d) &&
  in_range 1 100 (dc_max_replicas d) && (dc_min_replicas d <=? dc_max_replicas d) &&
  in_range 1 65535 (dc_port d).

(** Calling the class: [DeployConfig(...)] validates. *)
Definition make_DeployConfig (d : DeployConfig) : result exn DeployConfig :=
  if DeployConfig_valid d then Ok d else Err ValidationError.

Record AgentConfigIn := {
  ci_name : pystr;
  ci_runtime : AgentRuntimeKind;
  ci_framework : pystr;
  ci_model : pystr;
  ci_api_key : option pystr;
  ci_system_prompt : option pystr;
  ci_deploy : option DeployConfig;
  ci_access : AgentAccess;
  ci_tags : list pystr;
  ci_metadata : gmap pystr pystr;
}.
Definition AgentConfigIn_valid (c : AgentConfigIn) : bool :=
  length_in 1 128 (ci_name c) && opt_valid (length_in 0 32000) (ci_system_prompt c) &&
  opt_valid DeployConfig_valid (ci_deploy c) && forallb (length_in 0 64) (ci_tags c).

(** [rate_limit_rpm] is [None] when the field was not sent and [Some None] for an
    explicit null ([model_fields_set]). *)
Record AgentUpdate := {
  up_access : option AgentAccess;
  up_rate_limit_rpm : option (option Z);
}.
Definition AgentUpdate_valid (b : AgentUpdate) : bool :=
  opt_valid (opt_valid (in_range 1 100000)) (up_rate_limit_rpm b).

(** The [updated_at] column of the agents, by agent id: the database maintains it
    ([server_default], [onupdate]) and the gateway only copies it into responses, so it is
    kept apart from the rows. *)
Class AgentStamps := updated_at : pystr → datetime.

Record AgentResponse := {
  ar_id : pystr;
  ar_name : pystr;
  ar_runtime : AgentRuntimeKind;
  ar_framework : pystr;
  ar_model : pystr;
  ar_status : AgentStatus;
  ar_created_at : datetime;
  ar_updated_at : datetime;
  ar_url : option pystr;
  ar_deploy : option DeployConfig;
  ar_tags : list pystr;
  ar_metadata : gmap pystr pystr;
  ar_error : option pystr;
  ar_version : Z;
  ar_replicas : Z;
  ar_access : AgentAccess;
  ar_rate_limit_rpm : option Z;
  ar_access_key : option pystr;
}.
#[export] Instance AgentResponse_eta : Eta AgentResponse := λ r, {|
  ar_id := ar_id r; ar_name := ar_name r; ar_runtime := ar_runtime r;
  ar_framework := ar_framework r; ar_model := ar_model r; ar_status := ar_status r;
  ar_created_at := ar_created_at r; ar_updated_at := ar_updated_at r; ar_url := ar_url r; ar_deploy := ar_deploy r;
  ar_tags := ar_tags r; ar_metadata := ar_metadata r; ar_error := ar_error r;
  ar_version := ar_version r; ar_replicas := ar_replicas r; ar_access := ar_access r;
  ar_rate_limit_rpm := ar_rate_limit_rpm r; ar_access_key := ar_access_key r |}.

Record ScaleRequest := { sr_direction : ScaleDirection; sr_count : Z; sr_reason : option pystr }.
Definition ScaleRequest_valid (r : ScaleRequest) : bool :=
  in_range 1 50 (sr_count r) && opt_valid (length_in 0 500) (sr_reason r).

Record AccessKeyCreate := { akc_label : pystr }.
Definition AccessKeyCreate_valid (b : AccessKeyCreate) : bool := length_in 1 128 (akc_label b).

(** ** Accounts and API keys ([schemas/auth.py], [schemas/api_keys.py])

    [EmailStr] is a library's check of the address, which the record does not repeat. *)
Record RegisterRequest := {
  rr_email : pystr;
  rr_password : pystr;
  rr_name : pystr;
  rr_invite_code : option pystr;
}.
Definition RegisterRequest_valid (b : RegisterRequest) : bool :=
  length_in 8 72 (rr_password b) && length_in 1 255 (rr_name b) &&
  opt_valid (length_in 0 128) (rr_invite_code b).
Record LoginRequest := { lr_email : pystr; lr_password : pystr }.
Definition LoginRequest_valid (b : LoginRequest) : bool := length_in 1 72 (lr_password b).
Record ApiKeyCreateRequest := { kr_label : pystr; kr_scopes : list pystr }.
Definition ApiKeyCreateRequest_valid (b : ApiKeyCreateRequest) : bool := length_in 1 128 (kr_label b).

(** ** Invites ([schemas/invites.py]) *)
Record InviteCreateRequest := {
  icr_note : pystr;
  icr_max_uses : Z;
  icr_expires_in_days : option Z;
}.
Definition InviteCreateRequest_valid (b : InviteCreateRequest) : bool :=
  length_in 0 255 (icr_note b) && in_range 1 1000 (icr_max_uses b) &&
  opt_valid (in_range 1 365) (icr_expires_in_days b).

(** ** Accounts ([schemas/account.py]) *)
Record AdminUserUpdate := {
  au_role : option pystr;
  au_plan : option pystr;
  au_is_active : option bool;
}.
(** The literal type of [role] and [_known_plan]. *)
Definition AdminUserUpdate_valid (b : AdminUserUpdate) : bool :=
  opt_valid (λ r, bool_decide (r ∈ [str "viewer"; str "developer"; str "admin"])) (au_role b) &&
  opt_valid (λ p, bool_decide (is_Some (PLANS !! p))) (au_plan b).
