(* ===== verification/Fixtures.v ===== *)
(** Concrete instances of the interfaces and small concrete rows, used to exhibit
    inputs on which the theorems' hypotheses hold.  Nothing else depends on them. *)

From S2P Require Import Prelude PyText PyFloat Errors Plans Models Runtime IngressLimits World Schemas.

(** ** Core library *)
#[export] Instance fixture_roles : CoreRole := {|
  role_int r := match r with VIEWER => 1 | OPERATOR => 2 | ADMIN => 3 end;
  role_of_int z := if z =? 1 then Some VIEWER else if z =? 2 then Some OPERATOR
                   else if z =? 3 then Some ADMIN else None;
  role_can r m := match r, m with
                  | ADMIN, _ | OPERATOR, (OPERATOR | VIEWER) | VIEWER, VIEWER => true
                  | _, _ => false
                  end;
|}.

#[export] Instance fixture_roles_laws : CoreRoleLaws.
Proof.
  split; cbn; try done; try (by intros []).
  intros z r. repeat case_match; intros; simplify_eq; lia.
Qed.

(** Case mapping of ASCII letters only. *)
#[export] Instance fixture_unicode : UnicodeTables := {|
  ucd_lower c := [if ((65 <=? c) && (c <=? 90))%N then c + 32 else c]%N;
  ucd_upper c := [if ((97 <=? c) && (c <=? 122))%N then c - 32 else c]%N; ucd_decimal _ := None |}.

#[export] Instance fixture_stamps : AgentStamps := λ _, 0.

#[export] Instance fixture_llm : CoreLLM := λ _, OPENAI.

(** A runtime that keeps, per agent, the list of its containers. *)
Definition fixture_rt : Type := gmap pystr (list ContainerInfo).

Definition fixture_containers (n : Z) : list ContainerInfo :=
  replicate (Z.to_nat n) {| container_id := str "c"; ip_address := Some (str "10.89.0.5") |}.

#[export] Instance fixture_runtime : AgentRuntime fixture_rt := {|
  core_deploy cfg n _ _ r :=
    (<[cc_agent_id cfg := fixture_containers n]> r, Ok (fixture_containers n));
  core_remove aid r := (delete aid r, Ok []);
  core_scale aid dir n r :=
    let live := length (default [] (r !! aid)) in
    match dir with
    | UP => (<[aid := fixture_containers (Z.of_nat live + n)]> r, Ok tt)
    | DOWN => (<[aid := fixture_containers (Z.of_nat live - n)]> r, Ok tt)
    end;
  core_auto_scale aid r := (r, Ok tt);
  core_health_check aid r :=
    (r, Ok {| h_containers := Some ((λ _, {| cpu_percent := None; stat_memory_mb := None |})
                                      <$> default [] (r !! aid));
              h_healthy := Some true; h_consecutive_failures := Some 0 |});
  core_get_logs _ _ _ r := (r, Ok []);
  core_get_containers r aid := default [] (r !! aid);
  core_reconcile r := (r, Ok 0);
  core_stop aid r := (delete aid r, Ok []);
  core_list_all r := r;
|}.

#[export] Instance fixture_runtime_laws : AgentRuntimeLaws fixture_rt.
Proof.
  split. intros cfg n env image r r' cs Hn [= <- <-].
  unfold fixture_containers. rewrite length_replicate. lia.
Qed.

(** ** Rows *)
Definition fixture_user : User.User := {|
  User.id := 7%N; User.email := str "dev@example.com"; User.password_hash := str "h";
  User.name := str "Dev"; User.role := 2; User.plan := str "free";
  User.stripe_customer_id := None; User.stripe_subscription_id := None;
  User.subscription_status := None; User.is_active := true; User.created_at := 0 |}.

Definition fixture_agent : Agent.Agent := {|
  Agent.id := str "agt_1"; Agent.user_id := 7%N; Agent.slug := str "bot-abc123";
  Agent.name := str "bot"; Agent.runtime := PYTHON_3_12; Agent.framework := str "custom";
  Agent.model := str "gpt-4o"; Agent.system_prompt := None; Agent.tags := [];
  Agent.agent_metadata := ∅; Agent.status := RUNNING; Agent.error := None;
  Agent.version := 1; Agent.access := PRIVATE; Agent.rate_limit_rpm := None;
  Agent.replicas := 2; Agent.cpu := float_of_Z 1; Agent.memory_mb := 512; Agent.gpu := 0;
  Agent.gpu_type := None; Agent.disk_gb := 10; Agent.ephemeral_storage_gb := 5;
  Agent.env := []; Agent.image := Some (str "nginx"); Agent.build_path := None;
  Agent.command := None; Agent.args := []; Agent.health_check_path := None;
  Agent.auto_scale := false; Agent.min_replicas := 1; Agent.max_replicas := 10;
  Agent.port := 8080; Agent.created_at := 0 |}.

Definition fixture_db (us : list User.User) (ags : list Agent.Agent) : db := {|
  users := list_to_map ((λ u, (User.id u, u)) <$> us);
  agents := list_to_map ((λ a, (Agent.id a, a)) <$> ags);
  api_keys := ∅; access_keys := ∅; invites := ∅; usage_hours := ∅ |}.

Definition fixture_world (d : db) (rt : fixture_rt) : world fixture_rt :=
  World {| committed := d; cur := d; clash := false |} rt 0 per_client0 per_agent0 ∅.
