(* ===== verification/Quota.v ===== *)
(** Plan quotas ([services/quota_service.py]).

    The checks only read the database, so each is a function of it.  A [SELECT]
    without an order returns its rows in the order the table enumerates them;
    integer totals do not depend on it. *)

From S2P Require Import Prelude PyFloat Errors Plans Models Runtime Fixtures.

Definition ACTIVE_STATUSES : list AgentStatus := [RUNNING; SCALING; STARTING].

Record Usage := {
  u_agents : Z;
  u_replicas : Z;
  u_vcpu : num;
  u_memory_mb : Z;
}.

Section quota.
Context `{CoreRole}.

(** [_user] *)
Definition get_user (d : db) (user_id : uuid) : result exn User.User :=
  match users d !! user_id with
  | Some u => Ok u
  | None => Err (AuthenticationError (str "Invalid or expired token."))
  end.

Definition is_exempt (u : User.User) : result exn bool :=
  r ← role_enum u; mret (role_can r ADMIN).

Definition agents_of (d : db) (user_id : uuid) : list Agent.Agent :=
  filter (λ a, Agent.user_id a = user_id) (rows (agents d)).

(** The owner's agents that hold resources, without the excluded one. *)
Definition active_agents (d : db) (user_id : uuid) (exclude : option pystr)
  : list Agent.Agent :=
  filter (λ a, Agent.user_id a = user_id ∧ Agent.status a ∈ ACTIVE_STATUSES ∧
               Some (Agent.id a) ≠ exclude) (rows (agents d)).

Definition current_usage (d : db) (user_id : uuid) (exclude : option pystr) : Usage :=
  let active := active_agents d user_id exclude in
  {| u_agents := Z.of_nat (length (agents_of d user_id));
     u_replicas := sumZ Agent.replicas active;
     u_vcpu := num_round
       (py_sum ((λ a, num_mul (NInt (Agent.replicas a)) (NFloat (Agent.cpu a))) <$> active)) 3;
     u_memory_mb := sumZ (λ a, Agent.replicas a * Agent.memory_mb a) active |}.

Definition usage_report (d : db) (user_id : uuid)
  : result exn (User.User * PlanLimits * Usage) :=
  u ← get_user d user_id;
  mret (u, limits_for (User.plan u), current_usage d user_id None).

Definition ensure_can_create_agent (d : db) (user_id : uuid) : result exn unit :=
  u ← get_user d user_id;
  ex ← is_exempt u;
  if ex : bool then mret tt else
  let limits := limits_for (User.plan u) in
  let usage := current_usage d user_id None in
  if max_agents limits <? u_agents usage + 1
  then Err (QuotaExceededError RAgents (User.plan u) (NInt (max_agents limits)) (NInt 1)
              (Some (NInt (u_agents usage))))
  else mret tt.

(** The loop over [checks]: the first one over its limit raises. *)
Fixpoint run_checks (plan : pystr) (checks : list (Resource * num * num * num))
  : result exn unit :=
  match checks with
  | [] => mret tt
  | (resource, current, requested, limit) :: rest =>
      if num_gtb (num_round (num_add current requested) 3) limit
      then Err (QuotaExceededError resource plan limit requested (Some current))
      else run_checks plan rest
  end.

Definition resource_checks (limits : PlanLimits) (usage : Usage) (replicas : Z) (cpu : float)
  (memory_mb : Z) : list (Resource * num * num * num) :=
  [ (RReplicas, NInt (u_replicas usage), NInt replicas, NInt (max_replicas limits));
    (RVcpu, u_vcpu usage, num_round (num_mul (NInt replicas) (NFloat cpu)) 3,
     NFloat (max_vcpu limits));
    (RMemoryMb, NInt (u_memory_mb usage), NInt (replicas * memory_mb),
     NInt (max_memory_mb limits)) ].

Definition ensure_resources (d : db) (user_id : uuid) (agent_id : option pystr)
  (replicas : Z) (cpu : float) (memory_mb : Z) : result exn unit :=
  u ← get_user d user_id;
  ex ← is_exempt u;
  if ex : bool then mret tt else
  let limits := limits_for (User.plan u) in
  if num_gtb (NFloat cpu) (NFloat (max_replica_cpu limits))
  then Err (QuotaExceededError RCpuPerReplica (User.plan u)
              (NFloat (max_replica_cpu limits)) (NFloat cpu) None)
  else if max_replica_memory_mb limits <? memory_mb
  then Err (QuotaExceededError RMemoryPerReplica (User.plan u)
              (NInt (max_replica_memory_mb limits)) (NInt memory_mb) None)
  else run_checks (User.plan u)
         (resource_checks limits (current_usage d user_id agent_id) replicas cpu memory_mb).

(** Only [QuotaExceededError] is caught. *)
Definition has_headroom_for_replica (d : db) (agent : Agent.Agent) : result exn bool :=
  match ensure_resources d (Agent.user_id agent) (Some (Agent.id agent))
          (Agent.replicas agent + 1) (Agent.cpu agent) (Agent.memory_mb agent) with
  | Ok _ => Ok true
  | Err (QuotaExceededError _ _ _ _ _) => Ok false
  | Err e => Err e
  end.

(** ** Totals under row updates *)
Definition active_total (f : Agent.Agent → Z) (d : db) (user_id : uuid) (exclude : option pystr) : Z :=
  sumZ f (active_agents d user_id exclude).

Definition counts_for (user_id : uuid) (a : Agent.Agent) : Prop :=
  Agent.user_id a = user_id ∧ Agent.status a ∈ ACTIVE_STATUSES.
#[global] Instance counts_for_dec uid a : Decision (counts_for uid a).
Proof. unfold counts_for. apply _. Defined.

(** Excluding an agent is leaving its row out. *)
Lemma active_total_exclude f d uid aid :
  keyed Agent.id (agents d) →
  active_total f d uid (Some aid) =
  sumZ (λ a, if decide (counts_for uid a) then f a else 0) (rows (delete aid (agents d))).
Proof.
  intros Hk. unfold active_total, active_agents.
  assert (∀ a, a ∈ rows (delete aid (agents d)) → Agent.id a ≠ aid) as Hne.
  { intros a [k Hl]%elem_of_rows. apply lookup_delete_Some in Hl as [Hkne Hl].
    by rewrite (Hk k a Hl). }
  destruct (agents d !! aid) as [a|] eqn:Ha.
  - rewrite sumZ_filter. rewrite (rows_delete _ _ _ Ha), sumZ_cons.
    rewrite decide_False by (intros (_ & _ & Hn); apply Hn; by rewrite (Hk aid a Ha)).
    rewrite Z.add_0_l. apply sumZ_ext. intros b Hb. specialize (Hne b Hb).
    unfold counts_for. repeat case_decide; naive_solver.
  - rewrite rows_delete_id in * by done. rewrite sumZ_filter. apply sumZ_ext.
    intros b Hb. specialize (Hne b Hb). unfold counts_for. repeat case_decide; naive_solver.
Qed.

(** After writing one agent's row the total is its own share plus the others'. *)
Lemma active_total_insert f d uid a :
  keyed Agent.id (agents d) →
  active_total f (d <| agents := <[Agent.id a := a]> (agents d) |>) uid None =
  (if decide (counts_for uid a) then f a else 0) + active_total f d uid (Some (Agent.id a)).
Proof.
  intros Hk. rewrite active_total_exclude by done.
  unfold active_total, active_agents. cbn [agents setf]. rewrite sumZ_filter.
  rewrite rows_insert, sumZ_cons. f_equal.
  - unfold counts_for. repeat case_decide; naive_solver.
  - apply sumZ_ext. intros b _. unfold counts_for. repeat case_decide; naive_solver.
Qed.

(** A total is one agent's share plus the others'. *)
Definition share (f : Agent.Agent → Z) (uid : uuid) (o : option Agent.Agent) : Z :=
  match o with
  | Some a => if decide (counts_for uid a) then f a else 0
  | None => 0
  end.

Lemma active_total_split f d uid aid :
  keyed Agent.id (agents d) →
  active_total f d uid None = share f uid (agents d !! aid) + active_total f d uid (Some aid).
Proof.
  intros Hk. destruct (agents d !! aid) as [a|] eqn:Ha; cbn.
  - assert (d = d <| agents := <[Agent.id a := a]> (agents d) |>) as Hd.
    { rewrite (Hk aid a Ha), insert_id by done. by destruct d. }
    rewrite Hd at 1. rewrite active_total_insert by done. by rewrite (Hk aid a Ha).
  - rewrite active_total_exclude, rows_delete_id by done.
    unfold active_total, active_agents. rewrite sumZ_filter. apply sumZ_ext.
    intros b Hb. unfold counts_for. repeat case_decide; naive_solver.
Qed.

(** Replacing a row moves the total by the difference of the two shares. *)
Lemma active_total_put f d uid a :
  keyed Agent.id (agents d) →
  active_total f (put_agent a d) uid None =
  share f uid (Some a) + active_total f d uid None - share f uid (agents d !! Agent.id a).
Proof.
  intros Hk. unfold put_agent. rewrite active_total_insert by done.
  rewrite (active_total_split f d uid (Agent.id a)) by done. cbn [share]. lia.
Qed.

Lemma active_total_remove f d uid aid :
  keyed Agent.id (agents d) →
  active_total f (remove_agent aid d) uid None = active_total f d uid (Some aid).
Proof.
  intros Hk. rewrite active_total_exclude by done. unfold active_total, active_agents.
  rewrite sumZ_filter. apply sumZ_ext. intros b Hb. unfold counts_for.
  repeat case_decide; naive_solver.
Qed.
End quota.

Section quota_theorems.
Context `{CoreRole}.

(** A non-exempt account: it exists, its role is known and below admin. *)
Definition held_to_plan (d : db) (uid : uuid) (u : User.User) : Prop :=
  users d !! uid = Some u ∧ is_exempt u = Ok false.

Lemma num_check_int a b c :
  num_gtb (num_round (num_add (NInt a) (NInt b)) 3) (NInt c) = (c <? a + b).
Proof. apply num_gtb_int. Qed.

Lemma ensure_resources_held d uid u aid replicas cpu memory_mb :
  held_to_plan d uid u →
  ensure_resources d uid aid replicas cpu memory_mb =
  (if num_gtb (NFloat cpu) (NFloat (max_replica_cpu (limits_for (User.plan u))))
   then Err (QuotaExceededError RCpuPerReplica (User.plan u)
               (NFloat (max_replica_cpu (limits_for (User.plan u)))) (NFloat cpu) None)
   else if max_replica_memory_mb (limits_for (User.plan u)) <? memory_mb
   then Err (QuotaExceededError RMemoryPerReplica (User.plan u)
               (NInt (max_replica_memory_mb (limits_for (User.plan u)))) (NInt memory_mb) None)
   else run_checks (User.plan u)
          (resource_checks (limits_for (User.plan u)) (current_usage d uid aid)
             replicas cpu memory_mb)).
Proof.
  intros [Hu Hex]. unfold ensure_resources, get_user. rewrite Hu.
  cbn [mbind result_bind]. by rewrite Hex.
Qed.

Lemma run_checks_resources plan limits usage replicas cpu memory_mb :
  run_checks plan (resource_checks limits usage replicas cpu memory_mb) = Ok tt ↔
  u_replicas usage + replicas ≤ max_replicas limits ∧
  num_gtb (num_round (num_add (u_vcpu usage)
             (num_round (num_mul (NInt replicas) (NFloat cpu)) 3)) 3)
          (NFloat (max_vcpu limits)) = false ∧
  u_memory_mb usage + replicas * memory_mb ≤ max_memory_mb limits.
Proof.
  unfold resource_checks, run_checks. rewrite !num_check_int.
  destruct (max_replicas limits <? _) eqn:E1; [split; [done|lia]|].
  destruct (num_gtb _ _); [naive_solver|].
  destruct (max_memory_mb limits <? _) eqn:E2; [split; [done|lia]|].
  split; [|done]. intros _. split_and!; [lia|done|lia].
Qed.

(** What an accepted request guarantees of the integer resources. *)
Lemma ensure_resources_bounds d uid u aid replicas cpu memory_mb :
  held_to_plan d uid u → ensure_resources d uid aid replicas cpu memory_mb = Ok tt →
  active_total Agent.replicas d uid aid + replicas ≤ max_replicas (limits_for (User.plan u)) ∧
  active_total (λ a, Agent.replicas a * Agent.memory_mb a) d uid aid + replicas * memory_mb
    ≤ max_memory_mb (limits_for (User.plan u)).
Proof.
  intros Hheld. rewrite (ensure_resources_held d uid u) by done.
  destruct (num_gtb (NFloat cpu) _); [done|]. destruct (_ <? memory_mb); [done|].
  rewrite run_checks_resources. by intros (L1 & _ & L3).
Qed.

Lemma ensure_can_create_bounds d uid u :
  held_to_plan d uid u → ensure_can_create_agent d uid = Ok tt →
  Z.of_nat (length (agents_of d uid)) + 1 ≤ max_agents (limits_for (User.plan u)).
Proof.
  intros [Hu Hex]. unfold ensure_can_create_agent, get_user. rewrite Hu.
  cbn [mbind result_bind]. rewrite Hex. cbn.
  destruct (_ <? _) eqn:E; [done|]. intros _. lia.
Qed.

(** The rows the check counts, spelled out: the account's own running, scaling and starting
    agents other than the one the request is for. *)
Lemma active_agents_spec d uid aid :
  active_agents d uid aid =
  filter (λ a, Agent.user_id a = uid ∧ (Agent.status a = RUNNING ∨ Agent.status a = SCALING ∨ Agent.status a = STARTING) ∧
               aid ≠ Some (Agent.id a)) (rows (agents d)).
Proof.
  apply list_filter_iff. intros a. unfold ACTIVE_STATUSES. rewrite !elem_of_cons, elem_of_nil. naive_solver.
Qed.
(** The limits, spelled out. *)
Lemma limits_spec plan :
  let pro := bool_decide (plan = str "pro") in
  limits_for plan = {|
    max_agents := if pro then 20 else 3; max_replicas := if pro then 20 else 3;
    max_vcpu := float_of_Z (if pro then 16 else 3); max_memory_mb := if pro then 8192 else 1536;
    max_replica_cpu := float_of_Z (if pro then 2 else 1); max_replica_memory_mb := if pro then 4096 else 1024;
    max_agent_rpm := if pro then 3000 else 300 |}.
Proof.
  cbv zeta. case_bool_decide as Hp; [by rewrite Hp, limits_for_pro|].
  destruct (decide (plan = str "free")) as [->|]; [by rewrite limits_for_free|by rewrite limits_for_unknown].
Qed.

(** C7: a resource request of a non-exempt account passes exactly when one replica fits the
    plan's caps per replica (1 vCPU and 1024 MB, on pro 2 and 4096) and the account's other
    running, scaling and starting agents together with the request stay within the plan's
    replicas (3, on pro 20), vCPUs (3, on pro 16, in Python's arithmetic rounded to three
    digits) and memory (1536 MB, on pro 8192). *)
Theorem ensure_resources_iff d uid u aid replicas cpu memory_mb :
  held_to_plan d uid u →
  let pro := bool_decide (User.plan u = str "pro") in
  let others := filter (λ a, Agent.user_id a = uid ∧
    (Agent.status a = RUNNING ∨ Agent.status a = SCALING ∨ Agent.status a = STARTING) ∧
    aid ≠ Some (Agent.id a)) (rows (agents d)) in
  let vcpu_of n c := num_mul (NInt n) (NFloat c) in
  let used := num_round (py_sum ((λ a, vcpu_of (Agent.replicas a) (Agent.cpu a)) <$> others)) 3 in
  ensure_resources d uid aid replicas cpu memory_mb = Ok tt ↔
  num_gtb (NFloat cpu) (NFloat (float_of_Z (if pro then 2 else 1))) = false ∧
  memory_mb ≤ (if pro then 4096 else 1024) ∧
  sumZ Agent.replicas others + replicas ≤ (if pro then 20 else 3) ∧
  num_gtb (num_round (num_add used (num_round (vcpu_of replicas cpu) 3)) 3)
    (NFloat (float_of_Z (if pro then 16 else 3))) = false ∧
  sumZ (λ a, Agent.replicas a * Agent.memory_mb a) others + replicas * memory_mb ≤ (if pro then 8192 else 1536).
Proof.
  intros Hheld pro others vcpu_of used. rewrite (ensure_resources_held d uid u) by done.
  rewrite (limits_spec (User.plan u)). fold pro. cbv zeta. cbn [max_replica_cpu max_replica_memory_mb].
  destruct (num_gtb (NFloat cpu) _); [naive_solver|].
  destruct (_ <? memory_mb) eqn:Em; [split; [done|lia]|].
  rewrite run_checks_resources. unfold current_usage. rewrite active_agents_spec. fold others.
  cbn [u_replicas u_vcpu u_memory_mb max_replicas max_vcpu max_memory_mb]. fold used.
  split; intros; destruct_and!; split_and!; (done || lia).
Qed.

(** A refusal is accurate: whatever resource is named, the limit is the plan's
    and what is reported as in use plus what is requested exceeds it (for the
    per-replica caps, the request alone does). *)
Theorem quota_refusal_accurate d uid u aid replicas cpu memory_mb e :
  held_to_plan d uid u →
  ensure_resources d uid aid replicas cpu memory_mb = Err e →
  ∃ resource limit requested current,
    e = QuotaExceededError resource (User.plan u) limit requested current ∧
    match current with
    | None => num_gtb requested limit = true
    | Some c => num_gtb (num_round (num_add c requested) 3) limit = true
    end.
Proof.
  intros Hheld. rewrite (ensure_resources_held d uid u) by done.
  destruct (num_gtb (NFloat cpu) _) eqn:Ec; [naive_solver|].
  destruct (_ <? memory_mb) eqn:Em.
  { intros [= <-]. eexists _, _, _, _. split; [reflexivity|]. by rewrite num_gtb_int. }
  generalize (resource_checks (limits_for (User.plan u)) (current_usage d uid aid)
                replicas cpu memory_mb) as checks.
  induction checks as [|[[[r c] q] l] rest IH]; cbn; [done|].
  destruct (num_gtb _ l) eqn:El; [|done].
  intros [= <-]. eexists _, _, _, _. split; [reflexivity|]. done.
Qed.

(** Admins are exempt: no quota check ever refuses them. *)
Theorem admin_never_refused `{!CoreRoleLaws} d uid u aid replicas cpu memory_mb :
  users d !! uid = Some u → role_enum u = Ok ADMIN →
  ensure_can_create_agent d uid = Ok tt ∧
  ensure_resources d uid aid replicas cpu memory_mb = Ok tt.
Proof.
  intros Hu Hr.
  assert (is_exempt u = Ok true) as Hex.
  { unfold is_exempt. rewrite Hr. cbn. f_equal. apply role_can_admin. }
  unfold ensure_can_create_agent, ensure_resources, get_user. rewrite Hu.
  cbn [mbind result_bind]. by rewrite Hex.
Qed.
End quota_theorems.

(** ** Witnesses *)
Theorem ensure_resources_iff_witness :
  let d := fixture_db [fixture_user] [fixture_agent] in
  ensure_resources d 7%N None 1 (float_of_Z 1) 512 = Ok tt ∧
  ensure_resources d 7%N None 2 (float_of_Z 1) 512 ≠ Ok tt.
Proof.
  intros d. split.
  - apply (ensure_resources_iff d 7%N fixture_user); [split; vm_compute; reflexivity|].
    vm_compute. repeat split; discriminate.
  - intros Hok. apply (ensure_resources_iff d 7%N fixture_user) in Hok;
      [|split; vm_compute; reflexivity].
    destruct Hok as (_ & _ & Hr & _). vm_compute in Hr. by apply Hr.
Defined.

Theorem quota_refusal_accurate_witness :
  let d := fixture_db [fixture_user] [fixture_agent] in
  ∃ resource limit requested current,
    QuotaExceededError RReplicas (str "free") (NInt 3) (NInt 2) (Some (NInt 2)) =
      QuotaExceededError resource (User.plan fixture_user) limit requested current ∧
    match current with
    | None => num_gtb requested limit = true
    | Some c => num_gtb (num_round (num_add c requested) 3) limit = true
    end.
Proof.
  intros d.
  apply (quota_refusal_accurate d 7%N fixture_user None 2 (float_of_Z 1) 512);
    [split|]; vm_compute; reflexivity.
Defined.

Theorem admin_never_refused_witness :
  let d := fixture_db [fixture_user <| User.role := 3 |>] [] in
  ensure_can_create_agent d 7%N = Ok tt ∧
  ensure_resources d 7%N None 1000 (float_of_Z 64) 65536 = Ok tt.
Proof.
  intros d.
  apply (admin_never_refused d 7%N (fixture_user <| User.role := 3 |>)); vm_compute; reflexivity.
Defined.
