(* ===== verification/Hostnames.v ===== *)
(** Agent hostnames: the DNS label given to a new agent and its public URL
    ([_new_slug], [_public_url] of [services/agent_service.py]) and the way back from
    a request's host ([slug_from_host] of [routers/ingress.py]). *)

From S2P Require Import Prelude PyText Config.

Definition DASH : N := 45.
Definition DOT : N := 46.
Definition COLON : N := 58.

Definition is_dash (c : N) : bool := (c =? DASH)%N.
Definition is_dot (c : N) : bool := (c =? DOT)%N.

Definition SLUG_SUFFIX_ALPHABET : pystr := str "abcdefghijklmnopqrstuvwxyz0123456789".

(** [secrets.choice(l)], given the random number it draws. *)
Definition choice (l : pystr) (draw : N) : N := default 0%N (l !! (N.to_nat draw mod length l)%nat).

(** ** Labels *)
Definition label_char (c : N) : Prop := is_lower_alnum c = true ∨ c = DASH.

(** A DNS label: 1 to 63 characters of [a-z0-9-], no dash at either end. *)
Definition dns_label (s : pystr) : Prop :=
  (1 ≤ length s ≤ 63)%nat ∧ Forall label_char s ∧
  (∀ c, head s = Some c → c ≠ DASH) ∧ (∀ c, last s = Some c → c ≠ DASH).

Lemma is_dash_spec c : is_dash c = false ↔ c ≠ DASH.
Proof. apply N.eqb_neq. Qed.

Lemma choice_alnum draw : is_lower_alnum (choice SLUG_SUFFIX_ALPHABET draw) = true.
Proof.
  assert (Forall (λ c, is_lower_alnum c = true) SLUG_SUFFIX_ALPHABET) as Hall.
  { by_decide. }
  unfold choice. destruct (SLUG_SUFFIX_ALPHABET !! _) as [c|] eqn:Hl.
  - rewrite Forall_lookup in Hall. by eapply Hall.
  - apply lookup_ge_None in Hl. change (length SLUG_SUFFIX_ALPHABET) with 36%nat in Hl.
    pose proof (Nat.mod_upper_bound (N.to_nat draw) 36). lia.
Qed.

Lemma label_char_small c :
  label_char c → (c < 128)%N ∧ is_upper_alpha c = false ∧ c ≠ DOT ∧ c ≠ COLON.
Proof.
  unfold label_char, is_lower_alnum, is_lower_alpha, is_digit, is_upper_alpha, DASH, DOT, COLON.
  lia.
Qed.

Lemma is_dot_lower c :
  (c < 128)%N → is_dot (if is_upper_alpha c then c + 32 else c)%N = is_dot c.
Proof.
  intros _. unfold is_dot, is_upper_alpha, DOT.
  destruct ((65 <=? c) && (c <=? 90))%N eqn:E; [|done].
  transitivity false; [|symmetry]; apply N.eqb_neq; lia.
Qed.

Section hostnames.
Context (ucd_lower : N → pystr).

(** The part of the slug that comes from the name. *)
Definition slug_base (name : pystr) : pystr :=
  let s := sub_runs is_lower_alnum DASH false (lower ucd_lower name) in
  let s := strip_by is_dash (take 40 (strip_by is_dash s)) in
  if nonempty s then s else str "agent".

(** [_new_slug]; [rnd i] is the [i]-th random draw. *)
Definition new_slug (name : pystr) (rnd : nat → N) : pystr :=
  slug_base name ++ [DASH] ++ ((λ i, choice SLUG_SUFFIX_ALPHABET (rnd i)) <$> seq 0 6).

(** [_public_url], for the configured base domain. *)
Definition public_url (base : option pystr) (slug : pystr) : option pystr :=
  if truthy base then Some (str "https://" ++ slug ++ [DOT] ++ default [] base) else None.

(** [slug_from_host] *)
Definition slug_from_host (base : option pystr) (host : pystr) : option pystr :=
  match base with
  | None => None
  | Some base =>
      if negb (nonempty base) then None else
      let host := lower ucd_lower (rstrip_by is_dot (before_first COLON host)) in
      let suffix := DOT :: rstrip_by is_dot (lower ucd_lower base) in
      if negb (endswith suffix host) then None else
      let slug := drop_last (length suffix) host in
      if negb (nonempty slug) || contains DOT slug then None else Some slug
  end.

Lemma slug_base_chars name : Forall label_char (slug_base name).
Proof.
  unfold slug_base. case_match.
  - apply strip_by_Forall, Forall_take, strip_by_Forall, sub_runs_Forall.
  - unfold label_char. repeat constructor.
Qed.

Lemma slug_base_length name : (1 ≤ length (slug_base name) ≤ 40)%nat.
Proof.
  unfold slug_base. case_match eqn:E; [|vm_compute; lia].
  set (t := take 40 _) in *. pose proof (strip_by_length is_dash t) as Hl.
  assert (length t ≤ 40)%nat by (unfold t; rewrite length_take; lia).
  destruct (strip_by is_dash t); cbn in *; [done|lia].
Qed.

Lemma slug_base_head name c : head (slug_base name) = Some c → c ≠ DASH.
Proof.
  unfold slug_base. case_match.
  - intros Hh%strip_by_head. by apply is_dash_spec.
  - by intros [= <-].
Qed.

(** The suffix alone decides the last character. *)
Lemma new_slug_last name rnd c : last (new_slug name rnd) = Some c → is_lower_alnum c = true.
Proof.
  unfold new_slug. rewrite !last_app. cbn. intros [= <-]. apply choice_alnum.
Qed.
End hostnames.

(** Every slug is a valid DNS label of at most 47 characters, whatever the
    agent is called (names without an ASCII letter or digit included), however the
    Unicode tables fold its case, and whatever is drawn for the suffix. *)
Theorem new_slug_dns_label ucd_lower name rnd :
  dns_label (new_slug ucd_lower name rnd) ∧ (8 ≤ length (new_slug ucd_lower name rnd) ≤ 47)%nat.
Proof.
  pose proof (slug_base_length ucd_lower name) as Hlen.
  assert (8 ≤ length (new_slug ucd_lower name rnd) ≤ 47)%nat as Hl.
  { unfold new_slug. rewrite !length_app. cbn. lia. }
  split; [|done]. split; [lia|]. split_and!.
  - unfold new_slug. apply Forall_app. split; [by apply slug_base_chars|].
    constructor; [by right|]. apply Forall_fmap, Forall_forall. intros i _. left. apply choice_alnum.
  - intros c Hc. apply (slug_base_head ucd_lower name). revert Hc. unfold new_slug.
    destruct (slug_base ucd_lower name); cbn in *; [lia|done].
  - intros c Hc ->. by apply new_slug_last in Hc.
Qed.

Section host_roundtrip.
Context (ucd_lower : N → pystr).

Lemma label_lower s : Forall label_char s → lower ucd_lower s = s.
Proof.
  intros H. apply lower_id. eapply Forall_impl; [done|].
  intros c Hc%label_char_small. naive_solver.
Qed.

End host_roundtrip.

(** A base domain the edge can be configured with: ASCII, no port, not only dots. *)
Definition plain_domain (base : pystr) : Prop :=
  Forall (λ c, c < 128 ∧ c ≠ COLON)%N base ∧ rstrip_by is_dot base ≠ [].

(** When a host names a slug. *)
Lemma slug_from_host_spec ucd_lower base host slug :
  slug_from_host ucd_lower base host = Some slug ↔
  ∃ b, base = Some b ∧ b ≠ [] ∧ slug ≠ [] ∧ (DOT ∉ slug) ∧
       lower ucd_lower (rstrip_by is_dot (before_first COLON host)) =
       slug ++ DOT :: rstrip_by is_dot (lower ucd_lower b).
Proof.
  unfold slug_from_host. destruct base as [b|]; [|naive_solver].
  set (h := lower ucd_lower (rstrip_by is_dot (before_first COLON host))).
  set (suffix := DOT :: rstrip_by is_dot (lower ucd_lower b)).
  destruct b as [|c b0] eqn:Eb; cbn [nonempty negb]; [naive_solver|].
  split.
  - destruct (endswith suffix h) eqn:He; [|done]. apply endswith_spec in He as [t Ht].
    cbn [negb]. rewrite Ht, drop_last_app.
    destruct t as [|x t]; [done|]. cbn [nonempty negb orb]. unfold contains.
    case_bool_decide as Hd; [done|]. intros [= <-]. eexists. split_and!; done.
  - intros (b' & [= <-] & _ & Hs & Hd & Hh).
    assert (endswith suffix h = true) as -> by (apply endswith_spec; eauto).
    cbn [negb]. rewrite Hh. fold suffix. rewrite drop_last_app.
    destruct slug as [|x t]; [done|]. cbn [nonempty negb orb]. unfold contains.
    by rewrite bool_decide_eq_false_2.
Qed.

(** A host names an agent exactly when, without its port and final dots and in
    lower case, it is one non-empty label followed by the base domain; deeper
    subdomains, other domains and the bare domain name nothing. *)
Theorem slug_from_host_iff ucd_lower base host slug :
  slug_from_host ucd_lower base host = Some slug ↔
  ∃ b, base = Some b ∧ b ≠ [] ∧ slug ≠ [] ∧ (DOT ∉ slug) ∧
       lower ucd_lower (rstrip_by is_dot (before_first COLON host)) =
       slug ++ DOT :: rstrip_by is_dot (lower ucd_lower b).
Proof. apply slug_from_host_spec. Qed.

Theorem slug_from_host_iff_witness :
  slug_from_host (λ c, [c]) (Some (str "run.test.com")) (str "My-Bot.run.test.com.:443")
    = Some (str "my-bot") ∧
  slug_from_host (λ c, [c]) (Some (str "run.test.com")) (str "a.b.run.test.com") = None.
Proof.
  split; [|vm_compute; reflexivity].
  apply slug_from_host_iff. exists (str "run.test.com").
  split_and!; [reflexivity|discriminate|discriminate| |vm_compute; reflexivity].
  by_decide.
Defined.

(** Hostnames round-trip: the host of an agent's public URL, alone or with a
    port, leads back to the agent's slug. *)
Theorem slug_host_roundtrip ucd_lower base slug port :
  plain_domain base → dns_label slug → (port = [] ∨ head port = Some COLON) →
  slug_from_host ucd_lower (Some base) (slug ++ [DOT] ++ base ++ port) = Some slug.
Proof.
  intros [Hb Hdots] (Hlen & Hs & _) Hport.
  assert (Forall (λ c, c < 128)%N base) as Hascii by (eapply Forall_impl; [exact Hb|]; intros c [Hc _]; exact Hc).
  assert (Forall (λ c, c ≠ COLON) base) as Hnoport by (eapply Forall_impl; [exact Hb|]; intros c [_ Hc]; exact Hc).
  assert (Forall (λ x, x ≠ COLON) slug ∧ DOT ∉ slug) as [Hcol Hdot].
  { split.
    - eapply Forall_impl; [done|]. intros c Hc%label_char_small. naive_solver.
    - intros Hin. rewrite Forall_forall in Hs. apply Hs, label_char_small in Hin. naive_solver. }
  apply slug_from_host_spec. exists base.
  split_and!; [done|by intros ->|by destruct slug; [cbn in *; lia|]|done|].
  assert (before_first COLON (slug ++ [DOT] ++ base ++ port) = (slug ++ [DOT]) ++ base) as ->.
  { rewrite app_assoc, before_first_app
      by (apply Forall_app; split; [done|by repeat constructor]).
    rewrite before_first_app by done.
    destruct Hport as [->|Hp]; [by rewrite app_nil_r|].
    destruct port as [|c r]; [done|]. injection Hp as ->. cbn. by rewrite app_nil_r. }
  rewrite rstrip_by_app by done. rewrite !lower_app, label_lower by done.
  rewrite lower_rstrip_ascii by (try done; apply is_dot_lower).
  rewrite <- app_assoc. done.
Qed.

Theorem slug_host_roundtrip_witness :
  slug_from_host (λ c, [c]) (Some (str "run.agntspark.com"))
    (str "bot-abc123" ++ [DOT] ++ str "run.agntspark.com" ++ str ":443") = Some (str "bot-abc123").
Proof.
  apply slug_host_roundtrip.
  - split; [|vm_compute; discriminate].
    by_decide.
  - split; [vm_compute; lia|]. split.
    + unfold label_char. by_decide.
    + split; intros c; vm_compute; congruence.
  - right. reflexivity.
Defined.
