(* ===== verification/AgentEnv.v ===== *)
(** An agent's stored deploy configuration ([services/agent_service.py], the part that
    does not touch the database) and the secret store ([security/secrets.py]).

    The Fernet cipher is an interface.  A ciphertext also depends on the time and a
    random nonce; no code compares ciphertexts, so encryption is a function here. *)

From S2P Require Import Prelude PyText PyFloat Config Errors Plans Models Runtime Schemas Fixtures Hostnames.

Class Fernet := {
  fernet_encrypt : pystr → pystr;
  fernet_decrypt : pystr → option pystr;
}.
(** Decrypting what the same key encrypted gives it back. *)
Class FernetLaws `{Fernet} : Prop :=
  fernet_roundtrip s : fernet_decrypt (fernet_encrypt s) = Some s.

Definition SECRET_MASK : pystr := str "***".

(** [_PROVIDER_KEY_ENV]; another provider is a [KeyError]. *)
Definition PROVIDER_KEY_ENV (p : LLMProvider) : option pystr :=
  match p with
  | OPENAI => Some (str "OPENAI_API_KEY")
  | ANTHROPIC => Some (str "ANTHROPIC_API_KEY")
  | GOOGLE => Some (str "GOOGLE_API_KEY")
  | OtherProvider _ => None
  end.
Definition PROVIDER_KEY_NAMES : list pystr :=
  [str "OPENAI_API_KEY"; str "ANTHROPIC_API_KEY"; str "GOOGLE_API_KEY"].

Section env.
Context `{Fernet}.

Definition encrypt_secret (raw_value : pystr) : pystr := fernet_encrypt raw_value.
Definition decrypt_secret (encrypted_value : pystr) : result exn pystr :=
  match fernet_decrypt encrypted_value with
  | Some s => Ok s
  | None => Err SecretDecryptionError
  end.

(** [_env_to_storage] *)
Definition env_to_storage (env : list EnvVar) : list EnvEntry :=
  (λ e, {| env_key := ev_key e;
           env_value := if ev_secret e then encrypt_secret (ev_value e) else ev_value e;
           env_secret := ev_secret e |}) <$> env.

(** Building an [EnvVar] validates its field lengths. *)
Definition make_EnvVar (e : EnvVar) : result exn EnvVar :=
  if EnvVar_valid e then Ok e else Err ValidationError.

Definition masked (e : EnvEntry) : EnvVar :=
  {| ev_key := env_key e;
     ev_value := if env_secret e then SECRET_MASK else env_value e;
     ev_secret := env_secret e |}.

(** [_env_from_storage_masked] *)
Fixpoint env_from_storage_masked (stored : list EnvEntry) : result exn (list EnvVar) :=
  match stored with
  | [] => mret []
  | e :: r => v ← make_EnvVar (masked e); vs ← env_from_storage_masked r; mret (v :: vs)
  end.

(** [_env_for_container]: the loop that fills the dictionary [plain]. *)
Fixpoint env_for_container_from (plain : gmap pystr pystr) (stored : list EnvEntry)
  : result exn (gmap pystr pystr) :=
  match stored with
  | [] => mret plain
  | e :: r =>
      value ← (if env_secret e then decrypt_secret (env_value e) else Ok (env_value e));
      env_for_container_from (<[env_key e := value]> plain) r
  end.
Definition env_for_container (stored : list EnvEntry) : result exn (gmap pystr pystr) :=
  env_for_container_from ∅ stored.

(** The entries of the old environment a redeploy keeps. *)
Definition kept_entries (new_env old_env : list EnvEntry) : list EnvEntry :=
  let redefined := env_key <$> new_env in
  filter (λ e, env_key e ∈ PROVIDER_KEY_NAMES ∧ env_key e ∉ redefined) old_env.

(** [_apply_deploy_config] *)
Definition apply_deploy_config (agent : Agent.Agent) (deploy : DeployConfig) : Agent.Agent :=
  let new_env := env_to_storage (dc_env deploy) in
  {| Agent.id := Agent.id agent;
     Agent.user_id := Agent.user_id agent;
     Agent.slug := Agent.slug agent;
     Agent.name := Agent.name agent;
     Agent.runtime := Agent.runtime agent;
     Agent.framework := Agent.framework agent;
     Agent.model := Agent.model agent;
     Agent.system_prompt := Agent.system_prompt agent;
     Agent.tags := Agent.tags agent;
     Agent.agent_metadata := Agent.agent_metadata agent;
     Agent.status := Agent.status agent;
     Agent.error := Agent.error agent;
     Agent.version := Agent.version agent;
     Agent.access := Agent.access agent;
     Agent.rate_limit_rpm := Agent.rate_limit_rpm agent;
     Agent.replicas := dc_replicas deploy;
     Agent.cpu := rl_cpu (dc_resources deploy);
     Agent.memory_mb := rl_memory_mb (dc_resources deploy);
     Agent.gpu := rl_gpu (dc_resources deploy);
     Agent.gpu_type := rl_gpu_type (dc_resources deploy);
     Agent.disk_gb := rl_disk_gb (dc_resources deploy);
     Agent.ephemeral_storage_gb := rl_ephemeral_storage_gb (dc_resources deploy);
     Agent.env := new_env ++ kept_entries new_env (Agent.env agent);
     Agent.image := dc_image deploy;
     Agent.build_path := dc_build_path deploy;
     Agent.command := dc_command deploy;
     Agent.args := dc_args deploy;
     Agent.health_check_path := dc_health_check_path deploy;
     Agent.auto_scale := dc_auto_scale deploy;
     Agent.min_replicas := dc_min_replicas deploy;
     Agent.max_replicas := dc_max_replicas deploy;
     Agent.port := dc_port deploy;
     Agent.created_at := Agent.created_at agent |}.

(** [_with_provider_key] *)
Definition with_provider_key `{CoreLLM} (env : list EnvEntry) (model api_key : pystr)
  : result exn (list EnvEntry) :=
  match PROVIDER_KEY_ENV (for_model model) with
  | None => Err KeyError
  | Some key_name =>
      Ok (filter (λ e, env_key e ≠ key_name) env ++
          [{| env_key := key_name; env_value := encrypt_secret api_key; env_secret := true |}])
  end.

(** [_deploy_config_from_agent]: the nested models are built, and so validated,
    innermost first; all failures are [ValidationError]. *)
Definition deploy_config_from_agent (agent : Agent.Agent) : result exn DeployConfig :=
  let resources := {| rl_cpu := Agent.cpu agent;
                      rl_memory_mb := Agent.memory_mb agent;
                      rl_gpu := Agent.gpu agent;
                      rl_gpu_type := Agent.gpu_type agent;
                      rl_disk_gb := Agent.disk_gb agent;
                      rl_ephemeral_storage_gb := Agent.ephemeral_storage_gb agent |} in
  if negb (ResourceLimits_valid resources) then Err ValidationError else
  env ← env_from_storage_masked (Agent.env agent);
  make_DeployConfig
    {| dc_replicas := Agent.replicas agent;
       dc_resources := resources;
       dc_env := env;
       dc_image := Agent.image agent;
       dc_build_path := Agent.build_path agent;
       dc_command := Agent.command agent;
       dc_args := Agent.args agent;
       dc_health_check_path := Agent.health_check_path agent;
       dc_auto_scale := Agent.auto_scale agent;
       dc_min_replicas := Agent.min_replicas agent;
       dc_max_replicas := Agent.max_replicas agent;
       dc_port := Agent.port agent |}.

Definition has_deploy_config (agent : Agent.Agent) : bool :=
  (Agent.status agent != PENDING) || bool_decide (is_Some (Agent.image agent))
  || bool_decide (is_Some (Agent.build_path agent)).

(** [to_agent_response] *)
Definition to_agent_response `{AgentStamps} (cfg : GatewaySettings) (agent : Agent.Agent)
  : result exn AgentResponse :=
  deploy ← (if has_deploy_config agent
            then d ← deploy_config_from_agent agent; mret (Some d) else mret None);
  mret {| ar_id := Agent.id agent;
          ar_name := Agent.name agent;
          ar_runtime := Agent.runtime agent;
          ar_framework := Agent.framework agent;
          ar_model := Agent.model agent;
          ar_status := Agent.status agent;
          ar_created_at := Agent.created_at agent;
          ar_updated_at := updated_at (Agent.id agent);
          ar_url := public_url (agent_base_domain cfg) (Agent.slug agent);
          ar_deploy := deploy;
          ar_tags := Agent.tags agent;
          ar_metadata := Agent.agent_metadata agent;
          ar_error := Agent.error agent;
          ar_version := Agent.version agent;
          ar_replicas := Agent.replicas agent;
          ar_access := Agent.access agent;
          ar_rate_limit_rpm := Agent.rate_limit_rpm agent;
          ar_access_key := None |}.
End env.

(** ** What a container sees *)
Section env_lemmas.
Context `{Fernet}.

(** The plain value of a stored entry, when it can be read. *)
Definition plain_value (e : EnvEntry) : option pystr :=
  if env_secret e then fernet_decrypt (env_value e) else Some (env_value e).
Definition readable (l : list EnvEntry) : Prop := Forall (λ e, is_Some (plain_value e)) l.
Definition entries_for (k : pystr) (l : list EnvEntry) : list EnvEntry :=
  filter (λ e, env_key e = k) l.

Lemma env_step m e l :
  env_for_container_from m (e :: l) =
  match plain_value e with
  | Some v => env_for_container_from (<[env_key e := v]> m) l
  | None => Err SecretDecryptionError
  end.
Proof.
  cbn. unfold plain_value, decrypt_secret. destruct (env_secret e); [|done].
  by destruct (fernet_decrypt (env_value e)).
Qed.

Lemma env_for_container_total m l :
  readable l → ∃ m', env_for_container_from m l = Ok m'.
Proof.
  intros Hl. revert m. induction Hl as [|e l [v Hv] _ IH]; intros m; [by eexists|].
  rewrite env_step, Hv. apply IH.
Qed.

(** The last entry of a key decides its value. *)
Lemma env_for_container_lookup m l m' k :
  env_for_container_from m l = Ok m' →
  m' !! k = match last (entries_for k l) with None => m !! k | Some e => plain_value e end.
Proof.
  revert m. induction l as [|e l IH]; intros m; [by intros [= ->]|].
  rewrite env_step. destruct (plain_value e) as [v|] eqn:Hv; [|done]. intros Hr.
  rewrite (IH _ Hr). unfold entries_for. rewrite filter_cons.
  case_decide as Hk.
  - rewrite last_cons. destruct (last _); [done|]. subst k. by rewrite lookup_insert_eq.
  - destruct (last _); [done|]. by rewrite lookup_insert_ne.
Qed.

Lemma readable_storage `{!FernetLaws} env : readable (env_to_storage env).
Proof.
  apply Forall_fmap, Forall_forall. intros e _. unfold compose, plain_value. cbn.
  destruct (ev_secret e); cbn; [|by eexists]. unfold encrypt_secret.
  rewrite fernet_roundtrip. by eexists.
Qed.

(** A provider key is untouched by a redeploy that does not redefine it. *)
Lemma apply_deploy_entries agent deploy k :
  k ∈ PROVIDER_KEY_NAMES → k ∉ ev_key <$> dc_env deploy →
  entries_for k (Agent.env (apply_deploy_config agent deploy)) = entries_for k (Agent.env agent).
Proof.
  intros Hk Hnew. cbn. unfold entries_for. rewrite filter_app.
  assert (env_key <$> env_to_storage (dc_env deploy) = ev_key <$> dc_env deploy) as Hkeys.
  { unfold env_to_storage. rewrite <- list_fmap_compose. done. }
  assert (filter (λ e, env_key e = k) (env_to_storage (dc_env deploy)) = []) as ->.
  { apply filter_none. intros e He Hek. apply Hnew. rewrite <- Hkeys.
    apply list_elem_of_fmap. by exists e. }
  unfold kept_entries. rewrite list_filter_filter. cbn. apply list_filter_iff. intros e.
  rewrite Hkeys. split; [naive_solver|]. intros ->. done.
Qed.

Lemma apply_deploy_readable `{!FernetLaws} agent deploy :
  readable (Agent.env agent) → readable (Agent.env (apply_deploy_config agent deploy)).
Proof.
  intros Ha. cbn. apply Forall_app. split; [apply readable_storage|].
  unfold kept_entries, readable. by apply Forall_filter_keep.
Qed.
End env_lemmas.

(** The dictionary an environment list denotes: later entries win. *)
Definition env_dict (env : list EnvVar) : gmap pystr pystr :=
  foldl (λ m e, <[ev_key e := ev_value e]> m) ∅ env.

(** C36: storing an environment and injecting it into a container gives every
    variable its original value, secret or not: encryption at rest is transparent. *)
Theorem env_storage_roundtrip `{FernetLaws} env :
  env_for_container (env_to_storage env) = Ok (env_dict env).
Proof.
  unfold env_for_container, env_dict. generalize (∅ : gmap pystr pystr) as m.
  induction env as [|e env IH]; intros m; [done|].
  change (env_to_storage (e :: env)) with
    ({| env_key := ev_key e;
        env_value := if ev_secret e then encrypt_secret (ev_value e) else ev_value e;
        env_secret := ev_secret e |} :: env_to_storage env).
  rewrite env_step. unfold plain_value. cbn [env_secret env_value env_key].
  assert ((if ev_secret e
           then fernet_decrypt (if ev_secret e then encrypt_secret (ev_value e) else ev_value e)
           else Some (if ev_secret e then encrypt_secret (ev_value e) else ev_value e))
          = Some (ev_value e)) as ->.
  { destruct (ev_secret e); [apply fernet_roundtrip|done]. }
  apply IH.
Qed.

(** Two stored environments that differ only in the values of secret entries. *)
Definition same_public (e1 e2 : EnvEntry) : Prop :=
  env_key e1 = env_key e2 ∧ env_secret e1 = env_secret e2 ∧
  (env_secret e1 = false → env_value e1 = env_value e2).

Lemma masked_same_public e1 e2 : same_public e1 e2 → masked e1 = masked e2.
Proof.
  intros (Hk & Hs & Hv). unfold masked. rewrite Hk, <- Hs.
  destruct (env_secret e1); [done|]. by rewrite Hv.
Qed.

Lemma masked_env_same_public l1 l2 :
  Forall2 same_public l1 l2 → env_from_storage_masked l1 = env_from_storage_masked l2.
Proof.
  induction 1 as [|e1 e2 l1 l2 He _ IH]; cbn; [done|].
  by rewrite (masked_same_public _ _ He), IH.
Qed.

(** C34: API responses carry nothing of a stored secret: two agents that differ only
    in secret values have the same response, ciphertext included. *)
Theorem response_hides_secrets `{AgentStamps} cfg agent env' :
  Forall2 same_public (Agent.env agent) env' →
  to_agent_response cfg agent = to_agent_response cfg (agent <| Agent.env := env' |>).
Proof.
  intros Hp. unfold to_agent_response, deploy_config_from_agent. cbn.
  by rewrite (masked_env_same_public _ _ Hp).
Qed.

(** C24: a bring-your-own LLM key given when the agent is created reaches the
    container after any number of redeploys that do not redefine it. *)
Theorem provider_key_survives_redeploys `{FernetLaws} `{CoreLLM} agent model api_key key_name env deploys :
  PROVIDER_KEY_ENV (for_model model) = Some key_name →
  readable (Agent.env agent) →
  with_provider_key (Agent.env agent) model api_key = Ok env →
  Forall (λ dc, key_name ∉ ev_key <$> dc_env dc) deploys →
  ∃ vars, env_for_container
            (Agent.env (foldl apply_deploy_config (agent <| Agent.env := env |>) deploys)) = Ok vars ∧
          vars !! key_name = Some api_key.
Proof.
  intros Hp Hr Hw Hd. unfold with_provider_key in Hw. rewrite Hp in Hw. injection Hw as <-.
  set (e := {| env_key := key_name; env_value := encrypt_secret api_key; env_secret := true |}).
  set (a1 := agent <| Agent.env := _ |>).
  assert (key_name ∈ PROVIDER_KEY_NAMES) as Hn.
  { destruct (for_model model); simplify_eq/=; by_decide. }
  assert (readable (Agent.env a1) ∧ entries_for key_name (Agent.env a1) = [e]) as [Hr1 He1].
  { cbn. split.
    - apply Forall_app. split; [by apply Forall_filter_keep|]. repeat constructor.
      unfold plain_value. cbn. rewrite fernet_roundtrip. by eexists.
    - unfold entries_for. rewrite filter_app, list_filter_filter.
      rewrite filter_cons_True, filter_nil by done.
      replace (filter _ (Agent.env agent)) with (@nil EnvEntry); [done|].
      symmetry. apply filter_none. naive_solver. }
  clearbody a1. revert a1 Hr1 He1. induction Hd as [|dc deploys Hdc _ IH]; intros a1 Hr1 He1.
  - destruct (env_for_container_total ∅ (Agent.env a1) Hr1) as [vars Hv].
    exists vars. split; [done|]. rewrite (env_for_container_lookup _ _ _ key_name Hv), He1. cbn.
    apply fernet_roundtrip.
  - apply IH; [by apply apply_deploy_readable|]. by rewrite apply_deploy_entries.
Qed.

(** ** Reading an agent back *)
Definition agent_resources (a : Agent.Agent) : ResourceLimits :=
  {| rl_cpu := Agent.cpu a; rl_memory_mb := Agent.memory_mb a; rl_gpu := Agent.gpu a;
     rl_gpu_type := Agent.gpu_type a; rl_disk_gb := Agent.disk_gb a;
     rl_ephemeral_storage_gb := Agent.ephemeral_storage_gb a |}.

(** The deploy columns other than [replicas] respect the bounds of the schema. *)
Definition deploy_columns_valid (a : Agent.Agent) : bool :=
  ResourceLimits_valid (agent_resources a) &&
  forallb (λ e, EnvVar_valid (masked e)) (Agent.env a) &&
  in_range 1 100 (Agent.min_replicas a) && in_range 1 100 (Agent.max_replicas a) &&
  (Agent.min_replicas a <=? Agent.max_replicas a) && in_range 1 65535 (Agent.port a).

Definition stored_config (a : Agent.Agent) : DeployConfig :=
  {| dc_replicas := Agent.replicas a; dc_resources := agent_resources a;
     dc_env := masked <$> Agent.env a; dc_image := Agent.image a;
     dc_build_path := Agent.build_path a; dc_command := Agent.command a;
     dc_args := Agent.args a; dc_health_check_path := Agent.health_check_path a;
     dc_auto_scale := Agent.auto_scale a; dc_min_replicas := Agent.min_replicas a;
     dc_max_replicas := Agent.max_replicas a; dc_port := Agent.port a |}.

Lemma env_from_storage_masked_ok l :
  forallb (λ e, EnvVar_valid (masked e)) l = true →
  env_from_storage_masked l = Ok (masked <$> l).
Proof.
  induction l as [|e l IH]; cbn; [done|]. intros [He Hl]%andb_true_iff.
  unfold make_EnvVar. rewrite He. cbn. by rewrite (IH Hl).
Qed.

Lemma forallb_fmap {A B} (f : A → B) (p : B → bool) l :
  forallb p (f <$> l) = forallb (λ x, p (f x)) l.
Proof. induction l as [|x l IH]; cbn; [done|]. by f_equal. Qed.

Lemma deploy_config_from_agent_spec a :
  deploy_columns_valid a = true →
  deploy_config_from_agent a =
    if in_range 1 100 (Agent.replicas a) then Ok (stored_config a) else Err ValidationError.
Proof.
  unfold deploy_columns_valid. intros Hv.
  split_andb.
  unfold deploy_config_from_agent. fold (agent_resources a).
  rewrite env_from_storage_masked_ok by done. rewrite_bools. cbn [negb mbind result_bind].
  unfold make_DeployConfig, DeployConfig_valid. cbn. rewrite forallb_fmap.
  rewrite_bools.
  rewrite ?andb_true_r. done.
Qed.

Lemma env_from_storage_masked_err l e : env_from_storage_masked l = Err e → e = ValidationError.
Proof.
  induction l as [|x l IH]; cbn; [done|]. unfold make_EnvVar. destruct (EnvVar_valid _); cbn; [|by intros [=]].
  destruct (env_from_storage_masked l); cbn; [done|]. intros [= ->]. by apply IH.
Qed.

(** Without replicas a configuration never validates. *)
Lemma deploy_config_no_replicas a :
  Agent.replicas a = 0 → deploy_config_from_agent a = Err ValidationError.
Proof.
  intros Hr. unfold deploy_config_from_agent. destruct (negb _); [done|].
  destruct (env_from_storage_masked (Agent.env a)) as [env|e] eqn:E; cbn.
  - unfold make_DeployConfig, DeployConfig_valid. cbn. by rewrite Hr.
  - f_equal. by eapply env_from_storage_masked_err.
Qed.



(** What a caller sees of a variable it sent. *)
Definition mask_var (e : EnvVar) : EnvVar :=
  {| ev_key := ev_key e; ev_value := if ev_secret e then SECRET_MASK else ev_value e;
     ev_secret := ev_secret e |}.

Lemma masked_storage `{Fernet} env : masked <$> env_to_storage env = mask_var <$> env.
Proof.
  unfold env_to_storage. rewrite <- list_fmap_compose. apply list_fmap_ext.
  intros i e _. unfold masked, mask_var, compose. cbn. by destruct (ev_secret e).
Qed.

Lemma mask_var_valid e : EnvVar_valid e = true → EnvVar_valid (mask_var e) = true.
Proof.
  unfold EnvVar_valid, mask_var. cbn. intros [Hk Hv]%andb_true_iff. rewrite Hk.
  by destruct (ev_secret e).
Qed.

Lemma apply_deploy_columns_valid `{Fernet} a dc :
  DeployConfig_valid dc = true →
  forallb (λ e, EnvVar_valid (masked e)) (Agent.env a) = true →
  deploy_columns_valid (apply_deploy_config a dc) = true.
Proof.
  unfold DeployConfig_valid. intros Hv Ha.
  split_andb.
  unfold deploy_columns_valid. cbn.
  assert (agent_resources (apply_deploy_config a dc) = dc_resources dc) as ->.
  { unfold agent_resources. cbn. by destruct (dc_resources dc). }
  rewrite forallb_app.
  assert (forallb (λ e, EnvVar_valid (masked e)) (env_to_storage (dc_env dc)) = true) as ->.
  { rewrite <- forallb_fmap, masked_storage, forallb_fmap. apply forallb_forall.
    intros e He. apply mask_var_valid.
    by apply (proj1 (forallb_forall EnvVar_valid (dc_env dc))). }
  assert (forallb (λ e, EnvVar_valid (masked e))
            (kept_entries (env_to_storage (dc_env dc)) (Agent.env a)) = true) as ->.
  { unfold kept_entries. apply forallb_forall. intros e He.
    rewrite forallb_forall in Ha. apply Ha. apply list_elem_of_In.
    apply list_elem_of_In, list_elem_of_filter in He. tauto. }
  rewrite_bools. done.
Qed.

Definition with_env (dc : DeployConfig) (env : list EnvVar) : DeployConfig :=
  {| dc_replicas := dc_replicas dc; dc_resources := dc_resources dc; dc_env := env;
     dc_image := dc_image dc; dc_build_path := dc_build_path dc; dc_command := dc_command dc;
     dc_args := dc_args dc; dc_health_check_path := dc_health_check_path dc;
     dc_auto_scale := dc_auto_scale dc; dc_min_replicas := dc_min_replicas dc;
     dc_max_replicas := dc_max_replicas dc; dc_port := dc_port dc |}.

(** A deploy configuration reads back as it was sent, field for field, with
    secret values masked and a kept provider key listed after the caller's own
    variables. *)
Theorem deploy_config_roundtrip `{Fernet} a dc :
  DeployConfig_valid dc = true →
  forallb (λ e, EnvVar_valid (masked e)) (Agent.env a) = true →
  deploy_config_from_agent (apply_deploy_config a dc) =
    Ok (with_env dc ((mask_var <$> dc_env dc) ++
          (masked <$> kept_entries (env_to_storage (dc_env dc)) (Agent.env a)))).
Proof.
  intros Hv Ha. rewrite deploy_config_from_agent_spec by (by apply apply_deploy_columns_valid).
  change (Agent.replicas (apply_deploy_config a dc)) with (dc_replicas dc).
  assert (in_range 1 100 (dc_replicas dc) = true) as ->.
  { unfold DeployConfig_valid in Hv. split_andb. done. }
  unfold stored_config, with_env. f_equal. f_equal.
  - unfold agent_resources. cbn. by destruct (dc_resources dc).
  - cbn [Agent.env apply_deploy_config]. by rewrite fmap_app, masked_storage.
Qed.

(** ** Witnesses *)
#[export] Instance fixture_fernet : Fernet := {|
  fernet_encrypt s := 0%N :: s;
  fernet_decrypt c := match c with 0%N :: s => Some s | _ => None end |}.
#[export] Instance fixture_fernet_laws : FernetLaws.
Proof. done. Qed.

Definition fixture_deploy : DeployConfig :=
  {| dc_replicas := 1;
     dc_resources := {| rl_cpu := float_of_Z 1; rl_memory_mb := 512; rl_gpu := 0;
                        rl_gpu_type := None; rl_disk_gb := 10; rl_ephemeral_storage_gb := 5 |};
     dc_env := [{| ev_key := str "TOKEN"; ev_value := str "t0k"; ev_secret := true |}];
     dc_image := Some (str "nginx:alpine"); dc_build_path := None; dc_command := None;
     dc_args := []; dc_health_check_path := None; dc_auto_scale := false;
     dc_min_replicas := 1; dc_max_replicas := 10; dc_port := 80 |}.

Theorem env_storage_roundtrip_witness :
  env_for_container (env_to_storage (dc_env fixture_deploy)) = Ok {[ str "TOKEN" := str "t0k" ]}.
Proof. rewrite env_storage_roundtrip. vm_compute. reflexivity. Defined.

Theorem response_hides_secrets_witness :
  let secret v := {| env_key := str "TOKEN"; env_value := v; env_secret := true |} in
  let a := fixture_agent <| Agent.env := [secret (str "cipher-1")] |> in
  to_agent_response default_settings a =
  to_agent_response default_settings (a <| Agent.env := [secret (str "cipher-2")] |>).
Proof.
  intros secret a. apply (response_hides_secrets default_settings a).
  constructor; [|constructor]. split_and!; [reflexivity|reflexivity|discriminate].
Defined.

Theorem provider_key_survives_redeploys_witness :
  let env := [{| env_key := str "OPENAI_API_KEY"; env_value := 0%N :: str "sk"; env_secret := true |}] in
  ∃ vars, env_for_container
            (Agent.env (foldl apply_deploy_config (fixture_agent <| Agent.env := env |>)
                          [fixture_deploy; fixture_deploy])) = Ok vars ∧
          vars !! str "OPENAI_API_KEY" = Some (str "sk").
Proof.
  intros env.
  apply (provider_key_survives_redeploys fixture_agent (str "gpt-4o") (str "sk") _ env).
  - reflexivity.
  - constructor.
  - vm_compute. reflexivity.
  - by_decide.
Defined.

Theorem deploy_config_roundtrip_witness :
  deploy_config_from_agent (apply_deploy_config fixture_agent fixture_deploy) =
    Ok (with_env fixture_deploy [{| ev_key := str "TOKEN"; ev_value := str "***"; ev_secret := true |}]).
Proof.
  rewrite (deploy_config_roundtrip fixture_agent fixture_deploy); vm_compute; reflexivity.
Defined.
