(* ===== verification/AgentService.v ===== *)
(** Agent lifecycle ([services/agent_service.py]): create, read, update, list, deploy,
    delete, scale, logs and metrics, on the database and the container runtime.

    Random identifiers are arguments: [tok] is what [secrets.token_urlsafe] returned,
    [rnd] the draws of [secrets.choice]. *)

From S2P Require Import Prelude PyText PyFloat Config Errors Plans Models Runtime IngressLimits.
From S2P Require Import World Schemas Fixtures Quota Hostnames AgentEnv.

(** [str(exc)] of an exception of the core library's hierarchy. *)
Class CoreErrors := exn_str : exn → pystr.

Record AgentLog := {
  al_agent_id : pystr;
  al_replica_id : pystr;
  al_timestamp : datetime;
  al_level : pystr;
  al_message : pystr;
  al_source : pystr;
}.

Record Metrics := {
  m_agent_id : pystr;
  m_timestamp : datetime;
  m_cpu_percent : float;
  m_memory_mb : Z;
  m_memory_percent : float;
  m_replicas : Z;
}.
Definition Metrics_valid (m : Metrics) : bool :=
  num_geb (NFloat (m_cpu_percent m)) (NInt 0) && (0 <=? m_memory_mb m) &&
  num_geb (NFloat (m_memory_percent m)) (NInt 0) &&
  num_geb (NInt 100) (NFloat (m_memory_percent m)).

Section service.
Context {R : Type} `{AgentRuntime R} `{CoreLLM} `{CoreRole} `{Fernet} `{CoreErrors} `{UnicodeTables}.

(** [_new_agent_id] *)
Definition new_agent_id (tok : pystr) : pystr := str "agt_" ++ tok.

(** The row [create_agent] builds, with the column defaults of the model. *)
Definition fresh_agent (id slug : pystr) (user_id : uuid) (body : AgentConfigIn) (at_ : datetime)
  : Agent.Agent := {|
  Agent.id := id;
  Agent.user_id := user_id;
  Agent.slug := slug;
  Agent.name := ci_name body;
  Agent.runtime := ci_runtime body;
  Agent.framework := ci_framework body;
  Agent.model := ci_model body;
  Agent.system_prompt := ci_system_prompt body;
  Agent.tags := ci_tags body;
  Agent.agent_metadata := ci_metadata body;
  Agent.status := PENDING;
  Agent.error := None;
  Agent.version := 1;
  Agent.access := ci_access body;
  Agent.rate_limit_rpm := None;
  Agent.replicas := 0;
  Agent.cpu := float_of_Z 1;
  Agent.memory_mb := 512;
  Agent.gpu := 0;
  Agent.gpu_type := None;
  Agent.disk_gb := 10;
  Agent.ephemeral_storage_gb := 5;
  Agent.env := [];
  Agent.image := None;
  Agent.build_path := None;
  Agent.command := None;
  Agent.args := [];
  Agent.health_check_path := None;
  Agent.auto_scale := false;
  Agent.min_replicas := 1;
  Agent.max_replicas := 10;
  Agent.port := 8080;
  Agent.created_at := at_;
|}.

(** [_get_owned] and [get_agent] *)
Definition get_owned (user_id : uuid) (agent_id : pystr) : MW R Agent.Agent :=
  query (λ d, match agents d !! agent_id with
              | Some a => if decide (Agent.user_id a = user_id) then Ok a
                          else Err (AgentNotFoundError agent_id)
              | None => Err (AgentNotFoundError agent_id)
              end).
Definition get_agent := get_owned.

Definition save_commit (a : Agent.Agent) : MW R Agent.Agent :=
  save_agent a;; commit;; mret a.

(** The guarded call of [rt.deploy_agent]: reading the secrets is inside the [try]. *)
Definition try_deploy (agent : Agent.Agent) : MW R (result pystr (list ContainerInfo)) :=
  match env_for_container (Agent.env agent) with
  | Err e => mret (Err (exn_str e))
  | Ok env =>
      r ← on_runtime (rt_deploy_agent (Agent.id agent) (Agent.name agent) (Agent.model agent)
                        (Agent.system_prompt agent) (Agent.replicas agent) env (Agent.image agent)
                        (Some (Some (Agent.cpu agent), Some (Agent.memory_mb agent))));
      mret (match r with Ok cs => Ok cs | Err e => Err (core_text e) end)
  end.

Definition deploy_agent (user_id : uuid) (agent_id : pystr) (deploy : option DeployConfig)
  : MW R Agent.Agent :=
  agent ← get_owned user_id agent_id;
  query (λ d, match deploy with
              | Some dc => ensure_resources d user_id (Some (Agent.id agent)) (dc_replicas dc)
                             (rl_cpu (dc_resources dc)) (rl_memory_mb (dc_resources dc))
              | None => ensure_resources d user_id (Some (Agent.id agent)) (Agent.replicas agent)
                          (Agent.cpu agent) (Agent.memory_mb agent)
              end);;
  agent ← (match deploy with
           | Some dc => save_commit (apply_deploy_config agent dc)
           | None => mret agent
           end);
  if bool_decide (Agent.image agent = None ∧ is_Some (Agent.build_path agent))
  then raise BuildNotSupportedError
  else
  agent ← save_commit (agent <| Agent.status := STARTING |>);
  r ← try_deploy agent;
  match r with
  | Err reason =>
      save_commit (agent <| Agent.status := FAILED |> <| Agent.error := Some reason |>);;
      raise (DeploymentFailedError (Agent.id agent) reason)
  | Ok containers =>
      save_commit (agent <| Agent.status := RUNNING |>
                         <| Agent.replicas := Z.of_nat (length containers) |>
                         <| Agent.error := None |>
                         <| Agent.version := Agent.version agent + 1 |>)
  end.

Definition create_agent (user_id : uuid) (tok : pystr) (rnd : nat → N) (body : AgentConfigIn)
  : MW R Agent.Agent :=
  query (λ d, ensure_can_create_agent d user_id);;
  query (λ d, match ci_deploy body with
              | Some dc => ensure_resources d user_id None (dc_replicas dc)
                             (rl_cpu (dc_resources dc)) (rl_memory_mb (dc_resources dc))
              | None => Ok tt
              end);;
  at_ ← gets now;
  let agent := fresh_agent (new_agent_id tok) (new_slug ucd_lower (ci_name body) rnd) user_id body at_ in
  let agent := match ci_deploy body with
               | Some dc => apply_deploy_config agent dc
               | None => agent
               end in
  agent ← reads (λ _, if truthy (ci_api_key body)
                      then env ← with_provider_key (Agent.env agent) (ci_model body)
                                   (default [] (ci_api_key body));
                           Ok (agent <| Agent.env := env |>)
                      else Ok agent);
  add_agent agent;;
  commit;;
  match ci_deploy body with
  | Some _ => deploy_agent user_id (Agent.id agent) None
  | None => mret agent
  end.

Definition update_agent (user_id : uuid) (agent_id : pystr) (body : AgentUpdate)
  : MW R Agent.Agent :=
  agent ← get_owned user_id agent_id;
  let agent := match up_access body with
               | Some v => agent <| Agent.access := v |>
               | None => agent
               end in
  let agent := match up_rate_limit_rpm body with
               | Some v => agent <| Agent.rate_limit_rpm := v |>
               | None => agent
               end in
  save_commit agent.

(** [list_agents]: the filter, the total, and one page of the newest first. *)
Definition list_condition (user_id : uuid) (status tag : option pystr) (a : Agent.Agent) : Prop :=
  Agent.user_id a = user_id ∧
  (truthy status = true → Some (status_value (Agent.status a)) = status) ∧
  (truthy tag = true → default [] tag ∈ Agent.tags a).
#[global] Instance list_condition_dec user_id status tag a :
  Decision (list_condition user_id status tag a).
Proof. unfold list_condition. apply _. Defined.

Definition newest_first (a b : Agent.Agent) : Prop := Agent.created_at b ≤ Agent.created_at a.
#[global] Instance newest_first_dec : RelDecision newest_first.
Proof. intros a b. unfold newest_first. apply _. Defined.

Definition matching_agents (d : db) (user_id : uuid) (status tag : option pystr)
  : list Agent.Agent :=
  merge_sort newest_first (filter (list_condition user_id status tag) (rows (agents d))).

Definition list_agents (user_id : uuid) (status tag : option pystr) (page page_size : Z)
  : MW R (list Agent.Agent * Z) :=
  select (λ d,
    let all := matching_agents d user_id status tag in
    (take (Z.to_nat page_size) (drop (Z.to_nat ((page - 1) * page_size)) all),
     Z.of_nat (length (filter (list_condition user_id status tag) (rows (agents d)))))).

Definition delete_agent (user_id : uuid) (agent_id : pystr) : MW R unit :=
  agent ← get_owned user_id agent_id;
  r ← on_runtime (core_remove (Agent.id agent));
  match r with
  | Err e => raise (ForeignError (core_text e))
  | Ok _ => delete_agent_row (Agent.id agent);; commit
  end.

Definition scale_agent (user_id : uuid) (agent_id : pystr) (direction : ScaleDirection) (count : Z)
  : MW R (Agent.Agent * Z) :=
  agent ← get_owned user_id agent_id;
  let previous_replicas := Agent.replicas agent in
  query (λ d, match direction with
              | UP => ensure_resources d user_id (Some (Agent.id agent))
                        (Agent.replicas agent + count) (Agent.cpu agent) (Agent.memory_mb agent)
              | DOWN => Ok tt
              end);;
  agent ← save_commit (agent <| Agent.status := SCALING |>);
  r ← on_runtime (core_scale (Agent.id agent) direction count);
  match r with
  | Err (CoreScalingError reason) | Err (CoreContainerNotFoundError reason) =>
      save_commit (agent <| Agent.status := FAILED |> <| Agent.error := Some reason |>);;
      raise (DeploymentFailedError (Agent.id agent) reason)
  | Err (CoreOtherError reason) => raise (ForeignError reason)
  | Ok _ =>
      live ← gets (λ w, Z.of_nat (length (core_get_containers (runtime w) (Agent.id agent))));
      agent ← save_commit (agent <| Agent.replicas := if live =? 0 then Agent.replicas agent else live |>
                                 <| Agent.status := RUNNING |>);
      mret (agent, previous_replicas)
  end.

(** The filter on [level] and the slice of [get_logs]. *)
Definition log_line_matches (level : pystr) (line : AgentLog) : bool :=
  substring (lower ucd_lower level) (lower ucd_lower (al_message line))
  || (upper ucd_upper level == al_level line).
(** [l[-n:]] *)
Definition last_n {A} (n : Z) (l : list A) : list A :=
  if 0 <? n then drop (length l - Z.to_nat n) l else drop (Z.to_nat (- n)) l.

Definition get_logs (user_id : uuid) (agent_id : pystr) (level replica_id : option pystr) (limit : Z)
  : MW R (list AgentLog) :=
  agent ← get_owned user_id agent_id;
  r ← on_runtime (core_get_logs (Agent.id agent) replica_id limit);
  match r with
  | Err (CoreContainerNotFoundError _) => mret []
  | Err e => raise (ForeignError (core_text e))
  | Ok raw =>
      let logs := (λ e, {| al_agent_id := Agent.id agent; al_replica_id := le_replica_id e;
                           al_timestamp := le_timestamp e; al_level := str "INFO";
                           al_message := le_message e; al_source := str "stdout" |}) <$> raw in
      let logs := if truthy level
                  then filter (λ l, log_line_matches (default [] level) l = true) logs else logs in
      mret (last_n limit logs)
  end.

(** The averages of [get_metrics]; the model it builds validates its bounds. *)
Definition metrics_of (agent : Agent.Agent) (health : Health) (at_ : datetime) : result exn Metrics :=
  let containers := health_containers health in
  let n := if nonempty containers then Z.of_nat (length containers) else 1 in
  let get f := py_sum ((λ c, NFloat (default (float_of_Z 0) (f c))) <$> containers) in
  let avg_cpu := num_div (get cpu_percent) (NInt n) in
  let avg_mem := num_div (get stat_memory_mb) (NInt n) in
  let mem_percent :=
    if Agent.memory_mb agent =? 0 then NFloat (float_of_Z 0)
    else num_min (NFloat (float_of_Z 100))
           (NFloat (fmul (num_div (NFloat avg_mem) (NInt (Agent.memory_mb agent))) (float_of_Z 100))) in
  match float_trunc avg_mem with
  | None => Err ValueError
  | Some mem =>
      let m := {| m_agent_id := Agent.id agent; m_timestamp := at_;
                  m_cpu_percent := float_round avg_cpu 2; m_memory_mb := mem;
                  m_memory_percent := float_round (to_float mem_percent) 2;
                  m_replicas := Z.of_nat (length containers) |} in
      if Metrics_valid m then Ok m else Err ValidationError
  end.

Definition get_metrics (user_id : uuid) (agent_id : pystr) : MW R Metrics :=
  agent ← get_owned user_id agent_id;
  r ← on_runtime (core_health_check (Agent.id agent));
  match r with
  | Err e => raise (ForeignError (core_text e))
  | Ok health => reads (λ w, metrics_of agent health (now w))
  end.
End service.
