(* ===== verification/AgentLifecycle.v ===== *)
(** What the agent lifecycle guarantees ([services/agent_service.py]).

    [deploy_result] and [scale_result] are abstract contracts: for each way a call can
    end, the database it leaves and what it returns.  The services are shown to meet
    them from every state; the guarantees about quotas, ownership and error paths
    follow from the contracts. *)

From S2P Require Import Prelude PyText PyFloat Config Errors Plans Models Runtime IngressLimits.
From S2P Require Import World Schemas Fixtures Quota Hostnames AgentEnv AgentService.

Section lifecycle.
Context {R : Type} `{AgentRuntime R} `{CoreLLM} `{CoreRole} `{Fernet} `{CoreErrors} `{UnicodeTables}.
Implicit Types (w : world R) (d : db).

(** ** Writing one row *)
Lemma put_agent_put d a a' : Agent.id a = Agent.id a' → put_agent a' (put_agent a d) = put_agent a' d.
Proof. intros He. unfold put_agent. cbn. by rewrite He, insert_insert_eq. Qed.

Lemma put_agent_same d a : agents d !! Agent.id a = Some a → put_agent a d = d.
Proof. intros Ha. unfold put_agent. rewrite insert_id by done. by destruct d. Qed.

Lemma save_commit_publish d w a :
  save_commit a (publish d w) =
  if decide (db_ok (put_agent a d)) then (publish (put_agent a d) w, Ok a)
  else (publish d w, Err IntegrityError).
Proof. apply update_commit_publish. Qed.

(** The row an operation may leave in place of [a]: same key, owner and hostname, and
    within the column widths. *)
Definition revises (a a' : Agent.Agent) : Prop :=
  Agent.id a' = Agent.id a ∧ Agent.slug a' = Agent.slug a ∧
  Agent.user_id a' = Agent.user_id a ∧ (agent_widths a → agent_widths a').

Lemma revises_trans a b c : revises a b → revises b c → revises a c.
Proof. unfold revises. intuition congruence. Qed.

Lemma save_commit_revises d w a a' :
  db_ok d → agents d !! Agent.id a = Some a → revises a a' →
  save_commit a' (publish d w) = (publish (put_agent a' d) w, Ok a') ∧ db_ok (put_agent a' d).
Proof.
  intros Hd Ha (Hid & Hs & Hu & Hw).
  assert (db_ok (put_agent a' d)) as Hok.
  { apply (db_ok_put_agent d a); rewrite ?Hid; try done. eapply Hw, db_ok_widths; done. }
  by rewrite save_commit_publish, decide_True.
Qed.

Lemma get_owned_publish d w uid aid :
  get_owned uid aid (publish d w) =
  (publish d w,
   match agents d !! aid with
   | Some a => if decide (Agent.user_id a = uid) then Ok a else Err (AgentNotFoundError aid)
   | None => Err (AgentNotFoundError aid)
   end).
Proof. reflexivity. Qed.

Definition owned d (uid : uuid) (aid : pystr) (a : Agent.Agent) : Prop :=
  agents d !! aid = Some a ∧ Agent.user_id a = uid.

Lemma get_owned_spec d w uid aid :
  (∃ a, owned d uid aid a ∧ get_owned uid aid (publish d w) = (publish d w, Ok a)) ∨
  ((∀ a, ¬ owned d uid aid a) ∧
   get_owned uid aid (publish d w) = (publish d w, Err (AgentNotFoundError aid))).
Proof.
  rewrite get_owned_publish. unfold owned. destruct (agents d !! aid) as [a|]; [|naive_solver].
  case_decide; naive_solver.
Qed.

(** ** The deploy contract *)
Definition requested (deploy : option DeployConfig) (a : Agent.Agent) : Z * float * Z :=
  match deploy with
  | Some dc => (dc_replicas dc, rl_cpu (dc_resources dc), rl_memory_mb (dc_resources dc))
  | None => (Agent.replicas a, Agent.cpu a, Agent.memory_mb a)
  end.
Definition check_requested d uid aid (deploy : option DeployConfig) a : result exn unit :=
  let '(replicas, cpu, memory_mb) := requested deploy a in
  ensure_resources d uid (Some aid) replicas cpu memory_mb.
Definition configured (a : Agent.Agent) (deploy : option DeployConfig) : Agent.Agent :=
  match deploy with Some dc => apply_deploy_config a dc | None => a end.
Definition needs_build (a : Agent.Agent) : Prop :=
  Agent.image a = None ∧ is_Some (Agent.build_path a).
Definition failed (a : Agent.Agent) (reason : pystr) : Agent.Agent :=
  a <| Agent.status := FAILED |> <| Agent.error := Some reason |>.
Definition deployed (a : Agent.Agent) (containers : list ContainerInfo) : Agent.Agent :=
  a <| Agent.status := RUNNING |> <| Agent.replicas := Z.of_nat (length containers) |>
    <| Agent.error := None |> <| Agent.version := Agent.version a + 1 |>.

(** The guarded call of the runtime for the configured agent [a]: a secret that cannot be
    read, a failing runtime, or the containers started. *)
Definition container_call (a : Agent.Agent) (env : gmap pystr pystr) (rt : R) : R * result core_exn (list ContainerInfo) :=
  rt_deploy_agent (Agent.id a) (Agent.name a) (Agent.model a) (Agent.system_prompt a) (Agent.replicas a) env
    (Agent.image a) (Some (Some (Agent.cpu a), Some (Agent.memory_mb a))) rt.
Inductive attempted (a : Agent.Agent) (rt rt' : R) : result pystr (list ContainerInfo) → Prop :=
| attempt_unreadable e :
    env_for_container (Agent.env a) = Err e → rt' = rt → attempted a rt rt' (Err (exn_str e))
| attempt_failed env e :
    env_for_container (Agent.env a) = Ok env → container_call a env rt = (rt', Err e) →
    attempted a rt rt' (Err (core_text e))
| attempt_started env cs :
    env_for_container (Agent.env a) = Ok env → container_call a env rt = (rt', Ok cs) →
    attempted a rt rt' (Ok cs).

(** How a deployment may end, from database [d]. *)
Inductive deploy_result d (uid : uuid) (aid : pystr) (deploy : option DeployConfig) (rt rt' : R)
  : db → result exn Agent.Agent → Prop :=
| deploy_missing :
    (∀ a, ¬ owned d uid aid a) → rt' = rt →
    deploy_result d uid aid deploy rt rt' d (Err (AgentNotFoundError aid))
| deploy_refused a e :
    owned d uid aid a → check_requested d uid aid deploy a = Err e → rt' = rt →
    deploy_result d uid aid deploy rt rt' d (Err e)
| deploy_too_wide a :
    owned d uid aid a → check_requested d uid aid deploy a = Ok tt →
    ¬ agent_widths (configured a deploy) → rt' = rt →
    deploy_result d uid aid deploy rt rt' d (Err IntegrityError)
| deploy_unbuildable a :
    owned d uid aid a → check_requested d uid aid deploy a = Ok tt →
    agent_widths (configured a deploy) → needs_build (configured a deploy) → rt' = rt →
    deploy_result d uid aid deploy rt rt' (put_agent (configured a deploy) d)
      (Err BuildNotSupportedError)
| deploy_failed a reason :
    owned d uid aid a → check_requested d uid aid deploy a = Ok tt →
    agent_widths (configured a deploy) → ¬ needs_build (configured a deploy) →
    attempted (configured a deploy) rt rt' (Err reason) →
    deploy_result d uid aid deploy rt rt'
      (put_agent (failed (configured a deploy) reason) d)
      (Err (DeploymentFailedError aid reason))
| deploy_running a containers :
    owned d uid aid a → check_requested d uid aid deploy a = Ok tt →
    agent_widths (configured a deploy) → ¬ needs_build (configured a deploy) →
    attempted (configured a deploy) rt rt' (Ok containers) →
    deploy_result d uid aid deploy rt rt'
      (put_agent (deployed (configured a deploy) containers) d)
      (Ok (deployed (configured a deploy) containers)).

Lemma attempted_functional a rt rt1 rt2 r1 r2 :
  attempted a rt rt1 r1 → attempted a rt rt2 r2 → rt2 = rt1 ∧ r2 = r1.
Proof. destruct 1; destruct 1; split; congruence. Qed.
Lemma owned_functional d uid aid a b : owned d uid aid a → owned d uid aid b → b = a.
Proof. unfold owned. intros [Ha _] [Hb _]. congruence. Qed.
(** The contract leaves no choice: database, answer and runtime are determined. *)
Lemma deploy_result_functional d uid aid deploy rt rt1 rt2 d1 d2 r1 r2 :
  deploy_result d uid aid deploy rt rt1 d1 r1 → deploy_result d uid aid deploy rt rt2 d2 r2 →
  d2 = d1 ∧ rt2 = rt1 ∧ r2 = r1.
Proof.
  destruct 1; destruct 1;
    try match goal with Hn : ∀ a, ¬ owned d uid aid a, Ho : owned d uid aid _ |- _ => by destruct (Hn _ Ho) end;
    try match goal with Ha : owned d uid aid ?a, Hb : owned d uid aid ?b |- _ =>
      pose proof (owned_functional _ _ _ _ _ Ha Hb); subst b end;
    try match goal with H1 : attempted _ _ _ _, H2 : attempted _ _ _ _ |- _ =>
      destruct (attempted_functional _ _ _ _ _ _ H1 H2) end; try tauto; split_and!; congruence.
Qed.

(** Committing the new configuration succeeds exactly when it fits the columns. *)
Lemma db_ok_put_configured d a a' :
  db_ok d → agents d !! Agent.id a = Some a → Agent.id a' = Agent.id a →
  Agent.slug a' = Agent.slug a → Agent.user_id a' = Agent.user_id a →
  db_ok (put_agent a' d) ↔ agent_widths a'.
Proof.
  intros Hd Ha Hid Hs Hu. split; intros Hok.
  - apply (db_ok_widths _ (Agent.id a') a' Hok). cbn. apply lookup_insert_eq.
  - apply (db_ok_put_agent d a); by rewrite ?Hid.
Qed.

Lemma owned_id d uid aid a : db_ok d → owned d uid aid a → Agent.id a = aid.
Proof. intros Hd [Ha _]. by apply (db_ok_agent_id d). Qed.

Lemma save_configured d w uid aid a deploy :
  db_ok d → owned d uid aid a →
  (match deploy with
   | Some dc => save_commit (apply_deploy_config a dc)
   | None => mret a
   end) (publish d w) =
  if decide (agent_widths (configured a deploy))
  then (publish (put_agent (configured a deploy) d) w, Ok (configured a deploy))
  else (publish d w, Err IntegrityError).
Proof.
  intros Hd Ho. pose proof (owned_id _ _ _ _ Hd Ho) as Hid. destruct Ho as [Ha _].
  destruct deploy as [dc|]; cbn [configured].
  - rewrite save_commit_publish.
    assert (db_ok (put_agent (apply_deploy_config a dc) d) ↔ agent_widths (apply_deploy_config a dc)).
    { apply (db_ok_put_configured d a); rewrite ?Hid; done. }
    repeat case_decide; tauto.
  - rewrite decide_True by (eapply db_ok_widths; done).
    rewrite put_agent_same by (by rewrite Hid). done.
Qed.

(** The guarded call of the runtime always returns, and leaves the database alone. *)
Lemma try_deploy_publish d w a :
  ∃ rt' r, try_deploy a (publish d w) = (publish d (w <| runtime := rt' |>), Ok r) ∧ attempted a (runtime w) rt' r.
Proof.
  unfold try_deploy. destruct (env_for_container (Agent.env a)) as [env|e] eqn:Henv.
  - rewrite bind_run, on_runtime_publish. cbv beta iota. fold (container_call a env (runtime w)).
    destruct (container_call a env (runtime w)) as [rt' [cs|e]] eqn:E; cbn [fst snd];
      exists rt'; eexists; (split; [reflexivity|]); [by eapply attempt_started|by eapply attempt_failed].
  - exists (runtime w), (Err (exn_str e)). split; [by destruct w|by apply attempt_unreadable].
Qed.

(** From the committed configuration on: start, call the runtime, record the outcome. *)
Definition launch (agent : Agent.Agent) : MW R Agent.Agent :=
  agent ← save_commit (agent <| Agent.status := STARTING |>);
  r ← try_deploy agent;
  match r with
  | Err reason =>
      save_commit (agent <| Agent.status := FAILED |> <| Agent.error := Some reason |>);;
      raise (DeploymentFailedError (Agent.id agent) reason)
  | Ok containers =>
      save_commit (agent <| Agent.status := RUNNING |>
                         <| Agent.replicas := Z.of_nat (length containers) |>
                         <| Agent.error := None |>
                         <| Agent.version := Agent.version agent + 1 |>)
  end.

Ltac solve_revises := split_and!; [reflexivity..|]; by unfold agent_widths.

Lemma launch_publish d w a :
  db_ok d → agents d !! Agent.id a = Some a →
  ∃ rt' r, attempted a (runtime w) rt' r ∧
    match r with
    | Err reason => launch a (publish d w) =
        (publish (put_agent (failed a reason) d) (w <| runtime := rt' |>),
         Err (DeploymentFailedError (Agent.id a) reason)) ∧ db_ok (put_agent (failed a reason) d)
    | Ok cs => launch a (publish d w) =
        (publish (put_agent (deployed a cs) d) (w <| runtime := rt' |>), Ok (deployed a cs)) ∧
        db_ok (put_agent (deployed a cs) d)
    end.
Proof.
  intros Hd Ha. unfold launch.
  set (a1 := a <| Agent.status := STARTING |>).
  destruct (save_commit_revises d w a a1 Hd Ha) as [E1 Hd1]; [solve_revises|].
  rewrite bind_run, E1. cbv beta iota.
  destruct (try_deploy_publish (put_agent a1 d) w a1) as (rt' & r & E2 & Hr).
  rewrite bind_run, E2. cbv beta iota. exists rt', r.
  split; [by destruct Hr; econstructor|].
  assert (agents (put_agent a1 d) !! Agent.id a1 = Some a1) as Ha1 by apply lookup_insert_eq.
  destruct r as [cs|reason].
  - edestruct (save_commit_revises (put_agent a1 d) (w <| runtime := rt' |>) a1 (deployed a1 cs))
      as [E3 Hd3]; [done|done|solve_revises|].
    rewrite put_agent_put in E3, Hd3 by done. split; [exact E3|exact Hd3].
  - edestruct (save_commit_revises (put_agent a1 d) (w <| runtime := rt' |>) a1 (failed a1 reason))
      as [E3 Hd3]; [done|done|solve_revises|].
    rewrite put_agent_put in E3, Hd3 by done. split; [|exact Hd3].
    fold (failed a1 reason). rewrite bind_run, E3. reflexivity.
Qed.

(** Running [deploy_agent] from rest always ends at rest, on a consistent database, in
    one of the ways of the contract. *)
Lemma deploy_contract d w uid aid deploy :
  db_ok d →
  ∃ d' rt' r, deploy_agent uid aid deploy (publish d w) =
      (publish d' (w <| runtime := rt' |>), r) ∧
    deploy_result d uid aid deploy (runtime w) rt' d' r ∧ db_ok d'.
Proof.
  intros Hd. unfold deploy_agent.
  assert (w = w <| runtime := runtime w |>) as Hw by (by destruct w).
  rewrite bind_run.
  destruct (get_owned_spec d w uid aid) as [(a & Ho & ->)|[Hn ->]]; cbv beta iota;
    [|exists d, (runtime w); eexists; split_and!; [by rewrite <- Hw|by apply deploy_missing|done]].
  pose proof (owned_id _ _ _ _ Hd Ho) as Hid.
  rewrite bind_run, query_publish. rewrite Hid.
  replace (match deploy with Some dc => _ | None => _ end) with (check_requested d uid aid deploy a)
    by (by destruct deploy).
  destruct (check_requested d uid aid deploy a) as [[]|e] eqn:Hc; cbv beta iota;
    [|exists d, (runtime w); eexists; split_and!; [by rewrite <- Hw|by eapply deploy_refused|done]].
  rewrite bind_run, (save_configured d w uid aid a deploy) by done.
  destruct (decide (agent_widths (configured a deploy))) as [Hwid|Hwid]; cbv beta iota;
    [|exists d, (runtime w); eexists; split_and!; [by rewrite <- Hw|by eapply deploy_too_wide|done]].
  assert (Agent.id (configured a deploy) = aid) as Hid1 by (by destruct deploy).
  assert (db_ok (put_agent (configured a deploy) d)) as Hd1.
  { apply (db_ok_put_agent d a); destruct Ho, deploy; cbn; rewrite ?Hid; done. }
  set (a1 := configured a deploy) in *.
  case_bool_decide as Hb; cbv beta iota.
  { exists (put_agent a1 d), (runtime w). eexists. split_and!; [by rewrite <- Hw| |done].
    by eapply deploy_unbuildable. }
  destruct (launch_publish (put_agent a1 d) w a1 Hd1) as (rt' & r & Hr & E); [apply lookup_insert_eq|].
  destruct r as [cs|rs]; destruct E as [E Hok]; rewrite put_agent_put in E, Hok by done; eexists _, rt', _;
    (split_and!; [exact E| |exact Hok]); rewrite ?Hid1 in *; [by eapply deploy_running|by eapply deploy_failed].
Qed.

(** ** The scale contract *)
Definition rescaled (a : Agent.Agent) (live : Z) : Agent.Agent :=
  a <| Agent.status := RUNNING |>
    <| Agent.replicas := if live =? 0 then Agent.replicas a else live |>.
Definition check_scale d uid aid (direction : ScaleDirection) (count : Z) a : result exn unit :=
  match direction with
  | UP => ensure_resources d uid (Some aid) (Agent.replicas a + count) (Agent.cpu a)
            (Agent.memory_mb a)
  | DOWN => Ok tt
  end.

Inductive scale_result d (uid : uuid) (aid : pystr) (direction : ScaleDirection) (count : Z)
  (rt rt' : R) : db → result exn (Agent.Agent * Z) → Prop :=
| scale_missing :
    (∀ a, ¬ owned d uid aid a) → rt' = rt →
    scale_result d uid aid direction count rt rt' d (Err (AgentNotFoundError aid))
| scale_refused a e :
    owned d uid aid a → check_scale d uid aid direction count a = Err e → rt' = rt →
    scale_result d uid aid direction count rt rt' d (Err e)
| scale_failed a reason :
    owned d uid aid a → check_scale d uid aid direction count a = Ok tt →
    (core_scale aid direction count rt = (rt', Err (CoreScalingError reason)) ∨
     core_scale aid direction count rt = (rt', Err (CoreContainerNotFoundError reason))) →
    scale_result d uid aid direction count rt rt' (put_agent (failed a reason) d)
      (Err (DeploymentFailedError aid reason))
| scale_stuck a reason :
    owned d uid aid a → check_scale d uid aid direction count a = Ok tt →
    core_scale aid direction count rt = (rt', Err (CoreOtherError reason)) →
    scale_result d uid aid direction count rt rt' (put_agent (a <| Agent.status := SCALING |>) d)
      (Err (ForeignError reason))
| scale_done a live :
    owned d uid aid a → check_scale d uid aid direction count a = Ok tt →
    core_scale aid direction count rt = (rt', Ok tt) →
    live = Z.of_nat (length (core_get_containers rt' aid)) →
    scale_result d uid aid direction count rt rt' (put_agent (rescaled a live) d)
      (Ok (rescaled a live, Agent.replicas a)).

Lemma runtime_id w : w = w <| runtime := runtime w |>.
Proof. by destruct w. Qed.

Lemma scale_contract d w uid aid direction count :
  db_ok d →
  ∃ d' rt' r, scale_agent uid aid direction count (publish d w) =
      (publish d' (w <| runtime := rt' |>), r) ∧
    scale_result d uid aid direction count (runtime w) rt' d' r ∧ db_ok d'.
Proof.
  intros Hd. unfold scale_agent. rewrite bind_run.
  destruct (get_owned_spec d w uid aid) as [(a & Ho & ->)|[Hn ->]]; cbv beta iota zeta;
    [|eexists d, (runtime w), _; split_and!; [by rewrite <- runtime_id|by apply scale_missing|done]].
  pose proof (owned_id _ _ _ _ Hd Ho) as Hid.
  rewrite bind_run, query_publish, Hid.
  fold (check_scale d uid aid direction count a).
  destruct (check_scale d uid aid direction count a) as [[]|e] eqn:Hc; cbv beta iota;
    [|eexists d, (runtime w), _; split_and!; [by rewrite <- runtime_id|by eapply scale_refused|done]].
  set (a1 := a <| Agent.status := SCALING |>).
  destruct (save_commit_revises d w a a1) as [E1 Hd1];
    [done|by rewrite Hid; destruct Ho|solve_revises|].
  rewrite bind_run, E1. cbv beta iota. rewrite bind_run, on_runtime_publish. cbv beta iota.
  assert (Agent.id a1 = aid) as Hid1 by done. rewrite Hid1.
  destruct (core_scale aid direction count (runtime w)) as [rt' res] eqn:Ec; cbn [fst snd].
  assert (∀ b, revises a1 b → save_commit b (publish (put_agent a1 d) (w <| runtime := rt' |>)) =
    (publish (put_agent b d) (w <| runtime := rt' |>), Ok b) ∧ db_ok (put_agent b d)) as Hsave.
  { intros b Hb.
    destruct (save_commit_revises (put_agent a1 d) (w <| runtime := rt' |>) a1 b) as [E2 Hd2];
      [done|apply lookup_insert_eq|done|].
    rewrite put_agent_put in E2, Hd2 by (symmetry; apply Hb). done. }
  destruct res as [[]|[rs|rs|rs]].
  - set (live := Z.of_nat (length (core_get_containers rt' aid))).
    destruct (Hsave (rescaled a live)) as [E3 Hd3]; [solve_revises|].
    eexists (put_agent (rescaled a live) d), rt', _. split_and!; [|by eapply scale_done|done].
    transitivity (match save_commit (rescaled a live) (publish (put_agent a1 d) (w <| runtime := rt' |>))
                  with
                  | (s', Ok b) => (s', Ok (b, Agent.replicas a))
                  | (s', Err e) => (s', Err e)
                  end); [reflexivity|by rewrite E3].
  - destruct (Hsave (failed a rs)) as [E3 Hd3]; [solve_revises|].
    eexists _, rt', _. split_and!; [|by eapply scale_failed; [..|left]|exact Hd3].
    rewrite bind_run. change (a1 <| Agent.status := _ |> <| Agent.error := _ |>) with (failed a rs).
    rewrite E3. by rewrite <- Hid1.
  - destruct (Hsave (failed a rs)) as [E3 Hd3]; [solve_revises|].
    eexists _, rt', _. split_and!; [|by eapply scale_failed; [..|right]|exact Hd3].
    rewrite bind_run. change (a1 <| Agent.status := _ |> <| Agent.error := _ |>) with (failed a rs).
    rewrite E3. by rewrite <- Hid1.
  - eexists _, rt', _. split_and!; [reflexivity|by eapply scale_stuck|done].
Qed.

(** ** The create contract *)
Definition check_create d uid (body : AgentConfigIn) : result exn unit :=
  ensure_can_create_agent d uid;;
  match ci_deploy body with
  | Some dc => ensure_resources d uid None (dc_replicas dc) (rl_cpu (dc_resources dc))
                 (rl_memory_mb (dc_resources dc))
  | None => Ok tt
  end.
(** The environment the request describes: the variables of its deployment, the provider's
    key in place of a variable of that name. *)
Definition described_env (body : AgentConfigIn) : result exn (list EnvEntry) :=
  let env := match ci_deploy body with Some dc => env_to_storage (dc_env dc) | None => [] end in
  if truthy (ci_api_key body) then with_provider_key env (ci_model body) (default [] (ci_api_key body)) else Ok env.
(** The row the request describes, column by column. *)
Definition described (uid : uuid) (tok : pystr) (rnd : nat → N) (body : AgentConfigIn) (at_ : datetime)
  (env : list EnvEntry) : Agent.Agent :=
  let dep {A} (f : DeployConfig → A) (default : A) := from_option f default (ci_deploy body) in
  {| Agent.id := str "agt_" ++ tok; Agent.user_id := uid;
     Agent.slug := new_slug ucd_lower (ci_name body) rnd;
     Agent.name := ci_name body; Agent.runtime := ci_runtime body; Agent.framework := ci_framework body;
     Agent.model := ci_model body; Agent.system_prompt := ci_system_prompt body;
     Agent.tags := ci_tags body; Agent.agent_metadata := ci_metadata body;
     Agent.status := PENDING; Agent.error := None; Agent.version := 1;
     Agent.access := ci_access body; Agent.rate_limit_rpm := None;
     Agent.replicas := dep dc_replicas 0;
     Agent.cpu := dep (λ dc, rl_cpu (dc_resources dc)) (float_of_Z 1);
     Agent.memory_mb := dep (λ dc, rl_memory_mb (dc_resources dc)) 512;
     Agent.gpu := dep (λ dc, rl_gpu (dc_resources dc)) 0;
     Agent.gpu_type := dep (λ dc, rl_gpu_type (dc_resources dc)) None;
     Agent.disk_gb := dep (λ dc, rl_disk_gb (dc_resources dc)) 10;
     Agent.ephemeral_storage_gb := dep (λ dc, rl_ephemeral_storage_gb (dc_resources dc)) 5;
     Agent.env := env;
     Agent.image := dep dc_image None; Agent.build_path := dep dc_build_path None;
     Agent.command := dep dc_command None; Agent.args := dep dc_args [];
     Agent.health_check_path := dep dc_health_check_path None;
     Agent.auto_scale := dep dc_auto_scale false;
     Agent.min_replicas := dep dc_min_replicas 1; Agent.max_replicas := dep dc_max_replicas 10;
     Agent.port := dep dc_port 8080;
     Agent.created_at := at_ |}.
(** The row can be inserted: its key is free and the constraints hold with it. *)
Definition insertable d (a : Agent.Agent) : Prop := agents d !! Agent.id a = None ∧ db_ok (put_agent a d).

(** How a creation may end; [row] is the row described for an environment. *)
Inductive create_result d (uid : uuid) (body : AgentConfigIn) (row : list EnvEntry → Agent.Agent) (rt rt' : R)
  : db → result exn Agent.Agent → Prop :=
| create_refused e :
    check_create d uid body = Err e → rt' = rt → create_result d uid body row rt rt' d (Err e)
| create_unknown_provider e :
    check_create d uid body = Ok tt → described_env body = Err e → rt' = rt →
    create_result d uid body row rt rt' d (Err e)
| create_conflict env :
    check_create d uid body = Ok tt → described_env body = Ok env → ¬ insertable d (row env) → rt' = rt →
    create_result d uid body row rt rt' d (Err IntegrityError)
| create_pending env :
    check_create d uid body = Ok tt → described_env body = Ok env → insertable d (row env) →
    ci_deploy body = None → rt' = rt →
    create_result d uid body row rt rt' (put_agent (row env) d) (Ok (row env))
| create_deployed env d' r :
    check_create d uid body = Ok tt → described_env body = Ok env → insertable d (row env) →
    is_Some (ci_deploy body) →
    deploy_result (put_agent (row env) d) uid (Agent.id (row env)) None rt rt' d' r →
    create_result d uid body row rt rt' d' r.

Lemma create_result_functional d uid body row rt rt1 rt2 d1 d2 r1 r2 :
  create_result d uid body row rt rt1 d1 r1 → create_result d uid body row rt rt2 d2 r2 →
  d2 = d1 ∧ rt2 = rt1 ∧ r2 = r1.
Proof.
  destruct 1; destruct 1; simplify_eq;
    try match goal with H1 : described_env body = Ok ?e1, H2 : described_env body = Ok ?e2 |- _ =>
      assert (e2 = e1) by congruence; subst e2 end;
    try match goal with H1 : ci_deploy body = None, H2 : is_Some (ci_deploy body) |- _ =>
      rewrite H1 in H2; by destruct H2 end;
    try congruence; try tauto; try (split_and!; congruence).
  by eapply deploy_result_functional.
Qed.

(** What the code builds is the described row. *)
Lemma described_eq uid tok rnd body at_ :
  let agent := fresh_agent (new_agent_id tok) (new_slug ucd_lower (ci_name body) rnd) uid body at_ in
  let agent := match ci_deploy body with Some dc => apply_deploy_config agent dc | None => agent end in
  (if truthy (ci_api_key body)
   then env ← with_provider_key (Agent.env agent) (ci_model body) (default [] (ci_api_key body));
        Ok (agent <| Agent.env := env |>)
   else Ok agent) =
  (env ← described_env body; Ok (described uid tok rnd body at_ env)).
Proof.
  cbv zeta. unfold described_env, described. destruct (ci_deploy body) as [dc|]; cbn [from_option].
  - unfold apply_deploy_config. cbn [Agent.env fresh_agent]. unfold kept_entries. cbn [filter list_filter].
    rewrite app_nil_r. destruct (truthy (ci_api_key body)); [|reflexivity].
    by destruct (with_provider_key _ _ _).
  - cbn [Agent.env fresh_agent]. destruct (truthy (ci_api_key body)); [|reflexivity].
    by destruct (with_provider_key _ _ _).
Qed.

Lemma add_agent_commit {A} d w a (k : MW R A) :
  (add_agent a;; commit;; k) (publish d w) =
  if decide (agents d !! Agent.id a = None ∧ db_ok (put_agent a d))
  then k (publish (put_agent a d) w) else (publish d w, Err IntegrityError).
Proof.
  unfold add_agent. rewrite add_commit_then.
  pose proof (bool_decide_eq_false (is_Some (agents d !! Agent.id a))) as Hb.
  rewrite <- eq_None_not_Some in Hb. repeat case_decide; tauto.
Qed.

Lemma create_contract d w uid tok rnd body :
  db_ok d →
  ∃ d' rt' r, create_agent uid tok rnd body (publish d w) =
      (publish d' (w <| runtime := rt' |>), r) ∧
    create_result d uid body (described uid tok rnd body (now w)) (runtime w) rt' d' r ∧ db_ok d'.
Proof.
  intros Hd. unfold create_agent. rewrite bind_run, query_publish.
  destruct (ensure_can_create_agent d uid) as [[]|e] eqn:Hc; cbv beta iota;
    [|eexists d, (runtime w), _; split_and!; [by rewrite <- runtime_id| |done];
      apply create_refused; [unfold check_create; by rewrite Hc|done]].
  rewrite bind_run, query_publish.
  assert (check_create d uid body =
    match ci_deploy body with
    | Some dc => ensure_resources d uid None (dc_replicas dc) (rl_cpu (dc_resources dc))
                   (rl_memory_mb (dc_resources dc))
    | None => Ok tt
    end) as Hcheck by (unfold check_create; by rewrite Hc).
  rewrite <- Hcheck. destruct (check_create d uid body) as [[]|e] eqn:Hcc; cbv beta iota;
    [|eexists d, (runtime w), _; split_and!; [by rewrite <- runtime_id|by apply create_refused|done]].
  rewrite bind_run. cbn [gets]. cbv beta iota zeta. rewrite bind_run. unfold reads.
  pose proof (described_eq uid tok rnd body (now (publish d w))) as Hrow. cbv zeta in Hrow. rewrite Hrow. clear Hrow.
  change (now (publish d w)) with (now w).
  destruct (described_env body) as [env|e] eqn:Henv; cbn [mbind result_bind]; cbv beta iota;
    [|eexists d, (runtime w), _; split_and!; [by rewrite <- runtime_id| |done]; by apply create_unknown_provider].
  set (a := described uid tok rnd body (now w) env).
  rewrite add_agent_commit. case_decide as Hok;
    [|eexists d, (runtime w), _; split_and!; [by rewrite <- runtime_id| |done]; by eapply create_conflict].
  destruct (ci_deploy body) as [dc|] eqn:Edep.
  - destruct (deploy_contract (put_agent a d) w uid (Agent.id a) None (proj2 Hok))
      as (d' & rt' & r & -> & Hr & Hd'). eexists _, _, _. split_and!; [done| |done].
    eapply create_deployed; eauto.
  - eexists _, (runtime w), _. split_and!; [by rewrite <- runtime_id| |apply Hok].
    by apply create_pending.
Qed.

(** ** Update and delete *)
Definition updated (a : Agent.Agent) (body : AgentUpdate) : Agent.Agent :=
  a <| Agent.access := default (Agent.access a) (up_access body) |>
    <| Agent.rate_limit_rpm := default (Agent.rate_limit_rpm a) (up_rate_limit_rpm body) |>.

Lemma update_contract d w uid aid body :
  db_ok d →
  (∃ a, owned d uid aid a ∧ db_ok (put_agent (updated a body) d) ∧
     update_agent uid aid body (publish d w) =
       (publish (put_agent (updated a body) d) w, Ok (updated a body))) ∨
  ((∀ a, ¬ owned d uid aid a) ∧
   update_agent uid aid body (publish d w) = (publish d w, Err (AgentNotFoundError aid))).
Proof.
  intros Hd. unfold update_agent. rewrite bind_run.
  destruct (get_owned_spec d w uid aid) as [(a & Ho & ->)|[Hn ->]]; [left|by right].
  exists a. pose proof (owned_id _ _ _ _ Hd Ho) as Hid.
  destruct (save_commit_revises d w a (updated a body)) as [E Hok];
    [done|by rewrite Hid; destruct Ho|solve_revises|].
  split_and!; [done|done|]. rewrite <- E. f_equal. unfold updated.
  destruct a; by destruct (up_access body), (up_rate_limit_rpm body).
Qed.

Lemma delete_contract d w uid aid :
  db_ok d →
  (∃ a rt', owned d uid aid a ∧ delete_agent uid aid (publish d w) =
     match core_remove aid (runtime w) with
     | (_, Err e) => (publish d (w <| runtime := rt' |>), Err (ForeignError (core_text e)))
     | (_, Ok _) => (publish (remove_agent aid d) (w <| runtime := rt' |>), Ok tt)
     end) ∨
  ((∀ a, ¬ owned d uid aid a) ∧
   delete_agent uid aid (publish d w) = (publish d w, Err (AgentNotFoundError aid))).
Proof.
  intros Hd. unfold delete_agent. rewrite bind_run.
  destruct (get_owned_spec d w uid aid) as [(a & Ho & ->)|[Hn ->]]; [left|by right].
  pose proof (owned_id _ _ _ _ Hd Ho) as Hid.
  exists a, (core_remove aid (runtime w)).1. split; [done|].
  rewrite bind_run, on_runtime_publish, Hid.
  destruct (core_remove aid (runtime w)) as [rt' [cs|e]]; [|done]. cbn [fst snd].
  cbv beta iota. unfold delete_agent_row. rewrite update_commit_run.
  by rewrite decide_True by (by apply db_ok_remove_agent).
Qed.

(** ** Operations of an account on its agents *)
Inductive agent_op :=
| OpCreate (tok : pystr) (rnd : nat → N) (body : AgentConfigIn)
| OpUpdate (aid : pystr) (body : AgentUpdate)
| OpDeploy (aid : pystr) (deploy : option DeployConfig)
| OpScale (aid : pystr) (direction : ScaleDirection) (count : Z)
| OpDelete (aid : pystr).

Definition discard {A} (m : MW R A) : MW R unit := m;; mret tt.
Definition run_op (uid : uuid) (op : agent_op) : MW R unit :=
  match op with
  | OpCreate tok rnd body => discard (create_agent uid tok rnd body)
  | OpUpdate aid body => discard (update_agent uid aid body)
  | OpDeploy aid deploy => discard (deploy_agent uid aid deploy)
  | OpScale aid direction count => discard (scale_agent uid aid direction count)
  | OpDelete aid => delete_agent uid aid
  end.

(** What an operation of [uid] may do to the database: nothing, write one agent row of
    its own (new, or in place of one it owns), or delete one it owns. *)
Inductive own_write (uid : uuid) d : db → Prop :=
| own_nothing : own_write uid d d
| own_put a :
    Agent.user_id a = uid → (∀ b, agents d !! Agent.id a = Some b → Agent.user_id b = uid) →
    own_write uid d (put_agent a d)
| own_remove aid a : owned d uid aid a → own_write uid d (remove_agent aid d).

(** A deployment or a scaling writes at most the row of its agent. *)
Definition row_write d (uid : uuid) (aid : pystr) (d' : db) : Prop :=
  d' = d ∨ ∃ a a', owned d uid aid a ∧ Agent.id a' = aid ∧ Agent.user_id a' = uid ∧
                   d' = put_agent a' d.

Lemma deploy_result_row d uid aid deploy rt rt' d' r :
  db_ok d → deploy_result d uid aid deploy rt rt' d' r → row_write d uid aid d'.
Proof.
  intros Hd Hr. destruct Hr as [| | |a Ho|a ? Ho|a ? Ho]; try by left.
  all: right; eexists a, _; pose proof (owned_id _ _ _ _ Hd Ho); pose proof (proj2 Ho).
  all: split_and!; [done| | |reflexivity]; by destruct deploy.
Qed.

Lemma scale_result_row d uid aid direction count rt rt' d' r :
  db_ok d → scale_result d uid aid direction count rt rt' d' r → row_write d uid aid d'.
Proof.
  intros Hd Hr. destruct Hr as [| |a ? Ho|a ? Ho|a ? Ho]; try by left.
  all: right; eexists a, _; pose proof (owned_id _ _ _ _ Hd Ho); pose proof (proj2 Ho).
  all: split_and!; [done| | |reflexivity]; done.
Qed.

Lemma row_write_own d uid aid d' : row_write d uid aid d' → own_write uid d d'.
Proof.
  intros [->|(a & a' & [Ha Hu] & Hid & Hu' & ->)]; [constructor|]. apply own_put; [done|].
  rewrite Hid, Ha. by intros b [= <-].
Qed.

Lemma create_result_own d uid tok rnd body at_ rt rt' d' r :
  db_ok d → create_result d uid body (described uid tok rnd body at_) rt rt' d' r → own_write uid d d'.
Proof.
  intros Hd [| | |env ? ? [Hn _]|env d1 r1 ? ? [Hn Hok] _ Hr]; try constructor; [done|by rewrite Hn|].
  apply deploy_result_row in Hr as [->|(b & b' & _ & Hid & Hu' & ->)]; [| |done].
  - constructor; [done|by rewrite Hn].
  - rewrite put_agent_put by done. constructor; [done|]. by rewrite Hid, Hn.
Qed.

(** Every operation ends at rest on a consistent database, changed only in what the
    account owns. *)
Lemma run_op_contract d w uid op :
  db_ok d →
  ∃ d' rt' r, run_op uid op (publish d w) = (publish d' (w <| runtime := rt' |>), r) ∧
    own_write uid d d' ∧ db_ok d'.
Proof.
  intros Hd. destruct op as [tok rnd body|aid body|aid deploy|aid direction count|aid]; cbn [run_op];
    unfold discard; rewrite ?bind_run.
  - destruct (create_contract d w uid tok rnd body Hd) as (d' & rt' & r & -> & Hr & Hd').
    exists d', rt'. destruct r; eexists; (split_and!; [reflexivity| |done]);
      by eapply create_result_own.
  - destruct (update_contract d w uid aid body Hd) as [(a & Ho & Hok & ->)|[_ ->]];
      eexists _, (runtime w), _; (split_and!; [by rewrite <- runtime_id| |done]); [|constructor].
    apply (row_write_own d uid aid). right. pose proof (owned_id _ _ _ _ Hd Ho).
    eexists a, _. by split_and!; [..|reflexivity]; try apply Ho.
  - destruct (deploy_contract d w uid aid deploy Hd) as (d' & rt' & r & -> & Hr & Hd').
    exists d', rt'. destruct r; eexists; (split_and!; [reflexivity| |done]);
      by eapply row_write_own, deploy_result_row.
  - destruct (scale_contract d w uid aid direction count Hd) as (d' & rt' & r & -> & Hr & Hd').
    exists d', rt'. destruct r; eexists; (split_and!; [reflexivity| |done]);
      by eapply row_write_own, scale_result_row.
  - destruct (delete_contract d w uid aid Hd) as [(a & rt' & Ho & ->)|[_ ->]].
    + destruct (core_remove aid (runtime w)) as [? []]; eexists _, rt', _;
        (split_and!; [reflexivity| |]); [by eapply own_remove|by apply db_ok_remove_agent|constructor|done].
    + eexists _, (runtime w), _; (split_and!; [by rewrite <- runtime_id|constructor|done]).
Qed.
End lifecycle.

Section guarantees.
Context {R : Type} `{AgentRuntime R} `{CoreLLM} `{CoreRole} `{Fernet} `{CoreErrors} `{UnicodeTables}.
Implicit Types (w : world R).

(** C2: whatever the runtime does, a deployment request ends in exactly one of the ways of
    its contract, which determines the database, the answer and the runtime it leaves: an
    unknown or foreign agent is not found and a request over quota is refused with nothing
    changed; a configuration that cannot be stored changes nothing; a build path without
    an image is refused after the configuration is stored; a secret that cannot be read or
    a failure of the runtime leaves the agent failed with that reason; success leaves it
    running with the containers the runtime started, the error cleared and the version one
    higher. *)
Theorem deploy_agent_contract w uid aid deploy :
  db_ok (committed_db w) →
  let '(w', r) := request (deploy_agent uid aid deploy) w in
  deploy_result (committed_db w) uid aid deploy (runtime w) (runtime w') (committed_db w') r ∧
  db_ok (committed_db w') ∧
  ∀ rt2 d2 r2, deploy_result (committed_db w) uid aid deploy (runtime w) rt2 d2 r2 →
    rt2 = runtime w' ∧ d2 = committed_db w' ∧ r2 = r.
Proof.
  intros Hd. destruct (deploy_contract (committed_db w) w uid aid deploy Hd)
    as (d' & rt' & r & E & Hr & Hd').
  rewrite (request_publish _ _ _ _ _ E). split_and!; [done..|]. intros rt2 d2 r2 Hr2.
  by destruct (deploy_result_functional _ _ _ _ _ _ _ _ _ _ _ Hr Hr2) as (-> & -> & ->).
Qed.

(** C32: a scale request ends in one of the ways of its contract; in particular the
    quota is checked against the current replicas plus the request before scaling up,
    and success records the number of live containers. *)
Theorem scale_agent_contract w uid aid direction count :
  db_ok (committed_db w) →
  let '(w', r) := request (scale_agent uid aid direction count) w in
  scale_result (committed_db w) uid aid direction count (runtime w) (runtime w') (committed_db w') r ∧
  db_ok (committed_db w').
Proof.
  intros Hd. destruct (scale_contract (committed_db w) w uid aid direction count Hd)
    as (d' & rt' & r & E & Hr & Hd').
  by rewrite (request_publish _ _ _ _ _ E).
Qed.

(** C33: a creation request ends in exactly one of the ways of its contract, which
    determines the database, the answer and the runtime it leaves: it is refused with nothing
    changed unless the account may have another agent and, when it asks for a deployment, the
    resources; it fails with nothing changed when it brings a key for a model whose provider
    has none, or when the row it describes clashes with a stored one or does not fit; and
    otherwise exactly that row, every column of it determined by the request, is stored
    pending and, when a deployment was asked for, deployed under the deploy contract. *)
Theorem create_agent_contract w uid tok rnd body :
  db_ok (committed_db w) →
  let row := described uid tok rnd body (now w) in
  let '(w', r) := request (create_agent uid tok rnd body) w in
  create_result (committed_db w) uid body row (runtime w) (runtime w') (committed_db w') r ∧
  db_ok (committed_db w') ∧
  ∀ rt2 d2 r2, create_result (committed_db w) uid body row (runtime w) rt2 d2 r2 →
    rt2 = runtime w' ∧ d2 = committed_db w' ∧ r2 = r.
Proof.
  intros Hd row. destruct (create_contract (committed_db w) w uid tok rnd body Hd)
    as (d' & rt' & r & E & Hr & Hd').
  rewrite (request_publish _ _ _ _ _ E). split_and!; [done..|]. intros rt2 d2 r2 Hr2.
  by destruct (create_result_functional _ _ _ _ _ _ _ _ _ _ _ Hr Hr2) as (-> & -> & ->).
Qed.

(** C11: accounts are isolated: no operation of one account, whatever its outcome,
    changes an agent of another, the access keys of such an agent, or any account,
    API key, invite or usage row; and the database stays consistent. *)
Theorem accounts_isolated w uid op :
  db_ok (committed_db w) →
  let d := committed_db w in
  let d' := committed_db (request (run_op uid op) w).1 in
  (∀ aid a, agents d !! aid = Some a → Agent.user_id a ≠ uid →
     agents d' !! aid = Some a ∧
     ∀ kid k, access_keys d !! kid = Some k → AgentAccessKey.agent_id k = aid →
       access_keys d' !! kid = Some k) ∧
  users d' = users d ∧ api_keys d' = api_keys d ∧ invites d' = invites d ∧
  usage_hours d' = usage_hours d ∧ db_ok d'.
Proof.
  intros Hd d d'. subst d'.
  destruct (run_op_contract d w uid op Hd) as (d' & rt' & r & E & Hw & Hd').
  rewrite (request_publish _ _ _ _ _ E). cbn. destruct Hw as [|b Hb Hold|rid b [Hb Hu]].
  - naive_solver.
  - split_and!; [|done..]. intros aid a Ha Hne. cbn. split; [|done].
    rewrite lookup_insert_ne; [done|]. intros <-. by apply Hne, Hold.
  - split_and!; [|done..]. intros aid a Ha Hne. cbn.
    assert (aid ≠ rid) by congruence. split; [by rewrite lookup_delete_ne|].
    intros kid k Hk <-. by apply map_lookup_filter_Some.
Qed.

(** An update changes only what was sent: an omitted field keeps its value, an
    explicit null clears the rate limit, and everything else of the agent stays. *)
Theorem update_only_what_was_sent w uid aid a body :
  db_ok (committed_db w) → owned (committed_db w) uid aid a →
  ∃ a', request (update_agent uid aid body) w = (publish (put_agent a' (committed_db w)) w, Ok a') ∧
    Agent.access a' = default (Agent.access a) (up_access body) ∧
    Agent.rate_limit_rpm a' = default (Agent.rate_limit_rpm a) (up_rate_limit_rpm body) ∧
    a' <| Agent.access := Agent.access a |> <| Agent.rate_limit_rpm := Agent.rate_limit_rpm a |> = a.
Proof.
  intros Hd Ho. destruct (update_contract _ w uid aid body Hd) as [(b & Hb & _ & E)|[Hn _]];
    [|by destruct (Hn a)].
  assert (b = a) as -> by (destruct Ho, Hb; congruence).
  exists (updated a body). split_and!; [by apply request_publish|done|done|by destruct a].
Qed.

(** Deleting an agent one owns removes its row and exactly its access keys when
    the runtime removed its containers, and changes nothing when the runtime failed. *)
Theorem delete_removes_agent_and_keys w uid aid a :
  db_ok (committed_db w) → owned (committed_db w) uid aid a →
  let '(w', r) := request (delete_agent uid aid) w in
  match (core_remove aid (runtime w)).2 with
  | Ok _ => r = Ok tt ∧ agents (committed_db w') = delete aid (agents (committed_db w)) ∧
      ∀ kid k, access_keys (committed_db w') !! kid = Some k ↔
        access_keys (committed_db w) !! kid = Some k ∧ AgentAccessKey.agent_id k ≠ aid
  | Err e => r = Err (ForeignError (core_text e)) ∧ committed_db w' = committed_db w
  end.
Proof.
  intros Hd Ho. destruct (delete_contract _ w uid aid Hd) as [(b & rt' & Hb & E)|[Hn _]];
    [|by destruct (Hn a)].
  destruct (core_remove aid (runtime w)) as [rt1 [cs|e]]; rewrite (request_publish _ _ _ _ _ E).
  - split_and!; [done|done|]. intros kid k. apply map_lookup_filter_Some.
  - done.
Qed.
End guarantees.

(** ** Witnesses *)
#[export] Instance fixture_errors : CoreErrors := λ _, str "error".

Definition lifecycle_world : world fixture_rt :=
  fixture_world (fixture_db [fixture_user] [fixture_agent]) {[ str "agt_1" := fixture_containers 2 ]}.

Definition fixture_body : AgentConfigIn := {|
  ci_name := str "Bot"; ci_runtime := PYTHON_3_12; ci_framework := str "custom";
  ci_model := str "gpt-4o"; ci_api_key := None; ci_system_prompt := None; ci_deploy := None;
  ci_access := PRIVATE; ci_tags := []; ci_metadata := ∅ |}.

Lemma lifecycle_world_ok : db_ok (committed_db lifecycle_world).
Proof. by_decide. Qed.

Theorem deploy_agent_contract_witness :
  let p := request (deploy_agent 7%N (str "agt_1") None) lifecycle_world in
  (∃ a, p.2 = Ok a ∧ Agent.version a = 2 ∧ Agent.replicas a = 2) ∧
  (let '(w', r) := p in
   deploy_result (committed_db lifecycle_world) 7%N (str "agt_1") None (runtime lifecycle_world)
     (runtime w') (committed_db w') r).
Proof.
  split; [eexists; vm_compute; split; [reflexivity|done]|].
  pose proof (deploy_agent_contract lifecycle_world 7%N (str "agt_1") None lifecycle_world_ok) as Hc.
  destruct (request _ _) as [w' r]. apply Hc.
Defined.

Theorem scale_agent_contract_witness :
  let p := request (scale_agent 7%N (str "agt_1") UP 1) lifecycle_world in
  (∃ a, p.2 = Ok (a, 2) ∧ Agent.replicas a = 3) ∧
  (let '(w', r) := p in
   scale_result (committed_db lifecycle_world) 7%N (str "agt_1") UP 1 (runtime lifecycle_world)
     (runtime w') (committed_db w') r ∧ db_ok (committed_db w')).
Proof.
  split; [eexists; vm_compute; split; [reflexivity|done]|].
  apply (scale_agent_contract lifecycle_world 7%N (str "agt_1") UP 1 lifecycle_world_ok).
Defined.

Theorem create_agent_contract_witness :
  let p := request (create_agent 7%N (str "x") (λ _, 0%N) fixture_body) lifecycle_world in
  is_ok p.2 = true ∧
  (let '(w', r) := p in
   create_result (committed_db lifecycle_world) 7%N fixture_body
     (described 7%N (str "x") (λ _, 0%N) fixture_body (now lifecycle_world)) (runtime lifecycle_world)
     (runtime w') (committed_db w') r).
Proof.
  split; [vm_compute; reflexivity|].
  pose proof (create_agent_contract lifecycle_world 7%N (str "x") (λ _, 0%N) fixture_body lifecycle_world_ok) as Hc.
  cbv zeta in Hc. destruct (request _ _) as [w' r]. apply Hc.
Defined.

Theorem accounts_isolated_witness :
  let d' := committed_db (request (run_op 8%N (OpDelete (str "agt_1"))) lifecycle_world).1 in
  agents d' !! str "agt_1" = Some fixture_agent.
Proof.
  intros d'. destruct (accounts_isolated lifecycle_world 8%N (OpDelete (str "agt_1")) lifecycle_world_ok)
    as [Ha _].
  apply (Ha (str "agt_1") fixture_agent); [vm_compute; reflexivity|done].
Defined.

Theorem update_only_what_was_sent_witness :
  let body := {| up_access := None; up_rate_limit_rpm := Some (Some 30) |} in
  ∃ a', request (update_agent 7%N (str "agt_1") body) lifecycle_world =
      (publish (put_agent a' (committed_db lifecycle_world)) lifecycle_world, Ok a') ∧
    Agent.access a' = PRIVATE ∧ Agent.rate_limit_rpm a' = Some 30 ∧
    a' <| Agent.access := PRIVATE |> <| Agent.rate_limit_rpm := None |> = fixture_agent.
Proof.
  intros body.
  apply (update_only_what_was_sent lifecycle_world 7%N (str "agt_1") fixture_agent body lifecycle_world_ok).
  split; vm_compute; reflexivity.
Defined.

Theorem delete_removes_agent_and_keys_witness :
  let p := request (delete_agent 7%N (str "agt_1")) lifecycle_world in
  p.2 = Ok tt ∧ agents (committed_db p.1) = ∅.
Proof.
  pose proof (delete_removes_agent_and_keys lifecycle_world 7%N (str "agt_1") fixture_agent
    lifecycle_world_ok) as Hd.
  destruct (request _ _) as [w' r]. destruct Hd as (E1 & E2 & _); [split; vm_compute; reflexivity|].
  split; [exact E1|]. etransitivity; [exact E2|]. vm_compute. reflexivity.
Defined.
