(* ===== verification/AgentQuota.v ===== *)
(** Plan quotas as an invariant of the agent API: along every sequence of requests that
    create, update, deploy, scale and delete agents, each account stays within its plan. *)

From S2P Require Import Prelude PyText PyFloat Config Errors Plans Models Runtime IngressLimits.
From S2P Require Import World Schemas Fixtures Quota Hostnames AgentEnv AgentService AgentLifecycle.

Definition total_replicas (d : db) (uid : uuid) : Z := active_total Agent.replicas d uid None.
Definition memory_of (a : Agent.Agent) : Z := Agent.replicas a * Agent.memory_mb a.
Definition total_memory (d : db) (uid : uuid) : Z := active_total memory_of d uid None.

(** Numbers of agents, running replicas and reserved memory within the plan. *)
Record within_plan (d : db) (uid : uuid) (limits : PlanLimits) : Prop := {
  within_agents : Z.of_nat (length (agents_of d uid)) ≤ max_agents limits;
  within_replicas : total_replicas d uid ≤ max_replicas limits;
  within_memory : total_memory d uid ≤ max_memory_mb limits;
}.
Definition sane (a : Agent.Agent) : Prop := 0 ≤ Agent.replicas a ∧ 0 ≤ Agent.memory_mb a.

Section agent_quota.
Context {R : Type} `{AgentRuntime R} `{CoreLLM} `{CoreRole} `{Fernet} `{CoreErrors} `{UnicodeTables}.
Implicit Types (w : world R) (d : db).

Record quota_inv d : Prop := {
  quota_db : db_ok d;
  quota_sane : map_Forall (λ _, sane) (agents d);
  quota_plan uid u : held_to_plan d uid u → within_plan d uid (limits_for (User.plan u));
}.

(** ** Agent counts under row updates *)
Definition count_of d uid : Z := sumZ (λ a, if decide (Agent.user_id a = uid) then 1 else 0) (rows (agents d)).

Lemma agents_of_count d uid : Z.of_nat (length (agents_of d uid)) = count_of d uid.
Proof.
  unfold agents_of, count_of. generalize (rows (agents d)) as l.
  induction l as [|a l IH]; [done|]. rewrite filter_cons, sumZ_cons.
  case_decide; cbn [length]; lia.
Qed.

Lemma count_of_put d uid a :
  count_of (put_agent a d) uid =
  (if decide (Agent.user_id a = uid) then 1 else 0) + count_of d uid -
  match agents d !! Agent.id a with
  | Some b => if decide (Agent.user_id b = uid) then 1 else 0
  | None => 0
  end.
Proof.
  unfold count_of, put_agent. cbn [agents setf]. rewrite rows_insert, sumZ_cons.
  destruct (agents d !! Agent.id a) as [b|] eqn:Hb.
  - rewrite (rows_delete _ _ _ Hb), sumZ_cons. lia.
  - rewrite rows_delete_id by done. lia.
Qed.

Lemma count_of_remove d uid aid : count_of (remove_agent aid d) uid ≤ count_of d uid.
Proof.
  unfold count_of. cbn [agents setf remove_agent]. destruct (agents d !! aid) as [b|] eqn:Hb.
  - rewrite (rows_delete _ _ _ Hb), sumZ_cons. case_decide; lia.
  - by rewrite rows_delete_id.
Qed.

(** ** Writing a row *)
Lemma share_other f uid a : Agent.user_id a ≠ uid → share f uid (Some a) = 0.
Proof. intros Hne. cbn. unfold counts_for. case_decide; naive_solver. Qed.

(** A write to a row of [uid] keeps the invariant when the row is sane, the account may
    hold it, and its resources fit next to the account's other agents. *)
Lemma quota_put d uid a :
  quota_inv d → db_ok (put_agent a d) → Agent.user_id a = uid → sane a →
  (∀ b, agents d !! Agent.id a = Some b → Agent.user_id b = uid) →
  (∀ u, held_to_plan d uid u →
     count_of (put_agent a d) uid ≤ max_agents (limits_for (User.plan u)) ∧
     total_replicas (put_agent a d) uid ≤ max_replicas (limits_for (User.plan u)) ∧
     total_memory (put_agent a d) uid ≤ max_memory_mb (limits_for (User.plan u))) →
  quota_inv (put_agent a d).
Proof.
  intros [Hd Hs Hp] Hok Hu Ha Hold Hfit. split; [done|by apply map_Forall_insert_2|].
  intros uid' u Hheld. destruct (decide (uid' = uid)) as [->|Hne].
  - destruct (Hfit u Hheld) as (L1 & L2 & L3). by split; rewrite ?agents_of_count.
  - destruct (Hp uid' u Hheld) as [L1 L2 L3]. rewrite agents_of_count in L1.
    assert (keyed Agent.id (agents d)) by (by destruct Hd as [_ [] _ _]).
    unfold total_replicas, total_memory in *.
    assert (∀ f, active_total f (put_agent a d) uid' None = active_total f d uid' None) as Hsame.
    { intros f. rewrite active_total_put by done. rewrite share_other by congruence.
      destruct (agents d !! Agent.id a) as [b|] eqn:Hb; [|cbn; lia].
      rewrite share_other by (rewrite (Hold b eq_refl); congruence). lia. }
    split; unfold total_replicas, total_memory; rewrite ?Hsame; try done.
    rewrite agents_of_count, count_of_put, decide_False by congruence.
    destruct (agents d !! Agent.id a) as [b|]; [|lia]. case_decide; lia.
Qed.

Lemma quota_remove d aid : quota_inv d → quota_inv (remove_agent aid d).
Proof.
  intros [Hd Hs Hp]. split; [by apply db_ok_remove_agent|by apply map_Forall_delete|].
  intros uid u Hheld. destruct (Hp uid u Hheld) as [L1 L2 L3]. rewrite agents_of_count in L1.
  assert (keyed Agent.id (agents d)) as Hk by (by destruct Hd as [_ [] _ _]).
  assert (∀ f, (∀ a, sane a → 0 ≤ f a) →
    active_total f (remove_agent aid d) uid None ≤ active_total f d uid None) as Hle.
  { intros f Hf. rewrite active_total_remove, (active_total_split f d uid aid) by done.
    destruct (agents d !! aid) as [a|] eqn:Ha; cbn; [|lia].
    pose proof (Hf a (Hs aid a Ha)). case_decide; lia. }
  split; rewrite ?agents_of_count.
  - pose proof (count_of_remove d uid aid). lia.
  - etransitivity; [apply Hle; unfold sane; naive_solver|done].
  - etransitivity; [apply Hle; unfold sane, memory_of; intros; nia|done].
Qed.

Lemma quota_replace d uid aid a a' :
  quota_inv d → owned d uid aid a → Agent.id a' = aid → Agent.user_id a' = uid →
  db_ok (put_agent a' d) → sane a' →
  (∀ u, held_to_plan d uid u →
     total_replicas (put_agent a' d) uid ≤ max_replicas (limits_for (User.plan u)) ∧
     total_memory (put_agent a' d) uid ≤ max_memory_mb (limits_for (User.plan u))) →
  quota_inv (put_agent a' d).
Proof.
  intros Hinv [Ha Hu] Hid Hu' Hok Hs Hfit. apply (quota_put d uid); try done.
  - intros b. rewrite Hid, Ha. by intros [= <-].
  - intros u Hheld. destruct (Hfit u Hheld) as [L1 L2]. split_and!; [|done..].
    rewrite count_of_put, Hid, Ha, Hu, Hu', !decide_True by done.
    destruct (quota_plan d Hinv uid u Hheld) as [L _ _]. rewrite agents_of_count in L. lia.
Qed.

(** A row with no more than the resources a passed check asked for. *)
Lemma quota_fit d uid aid a a' n cpu :
  quota_inv d → owned d uid aid a → Agent.id a' = aid → Agent.user_id a' = uid →
  db_ok (put_agent a' d) → sane a' → Agent.replicas a' ≤ n →
  ensure_resources d uid (Some aid) n cpu (Agent.memory_mb a') = Ok tt →
  quota_inv (put_agent a' d).
Proof.
  intros Hinv Ho Hid Hu Hok Hs Hn Hres. apply (quota_replace d uid aid a); try done.
  intros u Hheld. destruct (ensure_resources_bounds _ _ _ _ _ _ _ Hheld Hres) as [L1 L2].
  assert (keyed Agent.id (agents d)) by (by destruct Hinv as [[_ [] _ _] _ _]).
  unfold total_replicas, total_memory, sane in *.
  rewrite !active_total_put, !(active_total_split _ d uid (Agent.id a')), Hid by done.
  cbn [share]. change (λ a, _ * _) with memory_of in L2.
  assert (memory_of a' = Agent.replicas a' * Agent.memory_mb a') as -> by done.
  case_decide; split; nia.
Qed.

(** A row that counts for no more than the one it replaces. *)
Lemma quota_shrink d uid aid a a' :
  quota_inv d → owned d uid aid a → Agent.id a' = aid → Agent.user_id a' = uid →
  db_ok (put_agent a' d) → 0 ≤ Agent.replicas a' → Agent.replicas a' ≤ Agent.replicas a →
  Agent.memory_mb a' = Agent.memory_mb a → (counts_for uid a' → counts_for uid a) →
  quota_inv (put_agent a' d).
Proof.
  intros Hinv Ho Hid Hu Hok Hr Hle Hm Hc.
  assert (sane a) as [? ?] by (apply (quota_sane d Hinv aid), Ho).
  apply (quota_replace d uid aid a); try done; [split; lia|].
  intros u Hheld. destruct (quota_plan d Hinv uid u Hheld) as [_ L1 L2].
  assert (keyed Agent.id (agents d)) by (by destruct Hinv as [[_ [] _ _] _ _]).
  unfold total_replicas, total_memory in *. rewrite !active_total_put, Hid, (proj1 Ho) by done.
  cbn [share]. assert (memory_of a' = Agent.replicas a' * Agent.memory_mb a) as -> by (by rewrite <- Hm).
  assert (memory_of a = Agent.replicas a * Agent.memory_mb a) as -> by done.
  repeat case_decide; [split; nia|tauto|split; nia|split; nia].
Qed.

(** ** Requests *)
Definition op_valid (op : agent_op) : bool :=
  match op with
  | OpCreate _ _ body => AgentConfigIn_valid body
  | OpDeploy _ deploy => opt_valid DeployConfig_valid deploy
  | OpScale _ _ count => in_range 1 50 count
  | OpUpdate _ body => AgentUpdate_valid body
  | OpDelete _ => true
  end.

(** The runtime's count after a successful scaling is accounted for by the row: at most
    [count] more than recorded, and scaling down is asked of an active agent only. *)
Definition accounted w (uid : uuid) (op : agent_op) : Prop :=
  match op with
  | OpScale aid direction count =>
      ∀ a, owned (committed_db w) uid aid a →
        (direction = DOWN → counts_for uid a) ∧
        ∀ rt', core_scale aid direction count (runtime w) = (rt', Ok tt) →
          Z.of_nat (length (core_get_containers rt' aid)) ≤
          match direction with UP => Agent.replicas a + count | DOWN => Agent.replicas a end
  | _ => True
  end.

Inductive api_step : world R → world R → Prop :=
| api_request w uid op :
    op_valid op = true → accounted w uid op → api_step w (request (run_op uid op) w).1.

Lemma deploy_valid_sane dc :
  DeployConfig_valid dc = true → 0 ≤ dc_replicas dc ∧ 0 ≤ rl_memory_mb (dc_resources dc).
Proof. unfold DeployConfig_valid, ResourceLimits_valid, in_range. intros Hv. split_andb. lia. Qed.

Lemma configured_sane d uid aid a deploy :
  quota_inv d → owned d uid aid a → opt_valid DeployConfig_valid deploy = true →
  sane (configured a deploy).
Proof.
  intros Hinv [Ha _] Hv. destruct deploy as [dc|]; [by apply deploy_valid_sane|].
  by apply (quota_sane d Hinv aid).
Qed.

Lemma quota_deploy `{!AgentRuntimeLaws R} d uid aid deploy rt rt' d' r :
  quota_inv d → db_ok d' → opt_valid DeployConfig_valid deploy = true →
  deploy_result d uid aid deploy rt rt' d' r → quota_inv d'.
Proof.
  intros Hinv Hok Hv Hr.
  assert (∀ a a', owned d uid aid a → check_requested d uid aid deploy a = Ok tt →
    db_ok (put_agent a' d) → Agent.id a' = Agent.id a → Agent.user_id a' = Agent.user_id a →
    Agent.replicas a' = Agent.replicas (configured a deploy) →
    Agent.memory_mb a' = Agent.memory_mb (configured a deploy) → quota_inv (put_agent a' d))
    as Hput.
  { intros a a' Ho Hc Hok' Hid Hu Hrep Hmem.
    pose proof (configured_sane _ _ _ _ _ Hinv Ho Hv) as [S1 S2].
    pose proof (owned_id _ _ _ _ (quota_db d Hinv) Ho) as Hid0.
    apply (quota_fit d uid aid a a' (Agent.replicas a') (Agent.cpu (configured a deploy))); try done; try congruence.
    - by rewrite Hu, (proj2 Ho).
    - split; lia.
    - rewrite Hrep, Hmem. by destruct deploy. }
  destruct Hr as [| | |a Ho Hc|a rs Ho Hc|a cs Ho Hc _ _ Hdep]; try done.
  - by apply (Hput a); try done; destruct deploy.
  - by apply (Hput a); try done; destruct deploy.
  - inversion Hdep as [| |env cs' Henv Hcall]; subst cs'.
    apply (Hput a); try done; [by destruct deploy|by destruct deploy|].
    apply (core_deploy_replicas _ _ _ _ _ _ _ (proj1 (configured_sane _ _ _ _ _ Hinv Ho Hv)) Hcall).
Qed.

Lemma not_counted uid a st : st ∉ ACTIVE_STATUSES → ¬ counts_for uid (a <| Agent.status := st |>).
Proof. unfold counts_for. naive_solver. Qed.

Lemma quota_scale d uid aid direction count rt rt' d' r :
  quota_inv d → db_ok d' → 1 ≤ count →
  (∀ a, owned d uid aid a →
     (direction = DOWN → counts_for uid a) ∧
     ∀ rt', core_scale aid direction count rt = (rt', Ok tt) →
       Z.of_nat (length (core_get_containers rt' aid)) ≤
       match direction with UP => Agent.replicas a + count | DOWN => Agent.replicas a end) →
  scale_result d uid aid direction count rt rt' d' r → quota_inv d'.
Proof.
  intros Hinv Hok Hcount Hacc Hr.
  assert (∀ a a', owned d uid aid a → check_scale d uid aid direction count a = Ok tt →
    db_ok (put_agent a' d) → Agent.id a' = Agent.id a → Agent.user_id a' = Agent.user_id a →
    0 ≤ Agent.replicas a' ≤
      match direction with UP => Agent.replicas a + count | DOWN => Agent.replicas a end →
    Agent.memory_mb a' = Agent.memory_mb a → quota_inv (put_agent a' d)) as Hput.
  { intros a a' Ho Hc Hok' Hid Hu Hrep Hmem.
    assert (sane a) as [S1 S2] by (apply (quota_sane d Hinv aid), Ho).
    pose proof (owned_id _ _ _ _ (quota_db d Hinv) Ho) as Hid0.
    destruct direction; cbn in Hc.
    - apply (quota_fit d uid aid a a' (Agent.replicas a + count) (Agent.cpu a)); try congruence; try lia.
      + by rewrite Hu, (proj2 Ho).
      + split; lia.
    - apply (quota_shrink d uid aid a); try done; try congruence; try lia.
      + by rewrite Hu, (proj2 Ho).
      + intros _. by apply (Hacc a). }
  destruct Hr as [| |a rs Ho Hc|a rs Ho Hc|a live Ho Hc Hsc Hlive]; try done.
  all: assert (sane a) as [S1 S2] by (apply (quota_sane d Hinv aid), Ho).
  - apply (Hput a); try done. cbn. destruct direction; lia.
  - apply (Hput a); try done. cbn. destruct direction; lia.
  - apply (Hput a); try done. cbn. pose proof (proj2 (Hacc a Ho) _ Hsc).
    destruct (live =? 0) eqn:E; destruct direction; lia.
Qed.

(** A new row that is not active counts as one more agent and no resources. *)
Lemma quota_new d uid a :
  quota_inv d → db_ok (put_agent a d) → agents d !! Agent.id a = None → Agent.user_id a = uid →
  Agent.status a = PENDING → sane a → ensure_can_create_agent d uid = Ok tt →
  quota_inv (put_agent a d).
Proof.
  intros Hinv Hok Hn Hu Hst Hs Hc. apply (quota_put d uid); try done; [by rewrite Hn|].
  intros u Hheld. pose proof (ensure_can_create_bounds _ _ _ Hheld Hc) as L.
  destruct (quota_plan d Hinv uid u Hheld) as [_ L1 L2]. rewrite agents_of_count in L.
  assert (keyed Agent.id (agents d)) by (by destruct Hinv as [[_ [] _ _] _ _]).
  unfold total_replicas, total_memory in *. rewrite count_of_put, !active_total_put, Hn by done.
  assert (∀ f, share f uid (Some a) = 0) as ->.
  { intros f. cbn. rewrite decide_False; [done|]. unfold counts_for, ACTIVE_STATUSES.
    rewrite Hst. set_solver. }
  assert (∀ f, share f uid (Some a) = 0) as ->.
  { intros f. cbn. rewrite decide_False; [done|]. unfold counts_for, ACTIVE_STATUSES.
    rewrite Hst. set_solver. }
  rewrite decide_True by done. cbn. lia.
Qed.

Lemma described_sane uid tok rnd body at_ env :
  AgentConfigIn_valid body = true → sane (described uid tok rnd body at_ env).
Proof.
  unfold AgentConfigIn_valid, sane, described. intros Hv. split_andb. cbn.
  destruct (ci_deploy body) as [dc|]; cbn; [|lia]. by destruct (deploy_valid_sane dc).
Qed.

Lemma quota_create `{!AgentRuntimeLaws R} d uid tok rnd body at_ rt rt' d' r :
  quota_inv d → db_ok d' → AgentConfigIn_valid body = true →
  create_result d uid body (described uid tok rnd body at_) rt rt' d' r → quota_inv d'.
Proof.
  intros Hinv Hok Hv Hr.
  assert (check_create d uid body = Ok tt → ensure_can_create_agent d uid = Ok tt) as Hcc.
  { unfold check_create. by destruct (ensure_can_create_agent d uid) as [[]|]. }
  destruct Hr as [| | |env Hc Henv [Hn Hok1] Hdep|env d1 r1 Hc Henv [Hn Hok1] Hdep Hr]; try done.
  - apply (quota_new d uid); eauto using described_sane.
  - eapply (quota_deploy (put_agent _ d) uid _ None); [|done|done|exact Hr].
    apply (quota_new d uid); eauto using described_sane.
Qed.

Lemma quota_step `{!AgentRuntimeLaws R} w w' :
  api_step w w' → quota_inv (committed_db w) → quota_inv (committed_db w').
Proof.
  intros [w0 uid op Hv Hacc] Hinv. pose proof (quota_db _ Hinv) as Hd.
  rewrite request_committed, begin_session_eq. set (d := committed_db w0) in *.
  destruct op as [tok rnd body|aid body|aid deploy|aid direction count|aid]; cbn [run_op];
    unfold discard; rewrite ?bind_run.
  - destruct (create_contract d w0 uid tok rnd body Hd) as (d' & rt' & r & -> & Hr & Hd').
    destruct r; by eapply quota_create.
  - destruct (update_contract d w0 uid aid body Hd) as [(a & Ho & Hok & ->)|[_ ->]]; [|done].
    pose proof (owned_id _ _ _ _ Hd Ho). destruct (quota_sane d Hinv aid a (proj1 Ho)).
    by apply (quota_shrink d uid aid a); try apply Ho.
  - destruct (deploy_contract d w0 uid aid deploy Hd) as (d' & rt' & r & -> & Hr & Hd').
    destruct r; by eapply quota_deploy.
  - destruct (scale_contract d w0 uid aid direction count Hd) as (d' & rt' & r & -> & Hr & Hd').
    cbn in Hv. unfold in_range in Hv. split_andb.
    destruct r; (eapply quota_scale; [done|done| |exact Hacc|exact Hr]); lia.
  - destruct (delete_contract d w0 uid aid Hd) as [(a & rt' & Ho & ->)|[_ ->]]; [|done].
    destruct (core_remove aid (runtime w0)) as [? []]; [by apply quota_remove|done].
Qed.
End agent_quota.

(** C1: quotas hold along every run of requests one after the other: starting from a consistent database whose accounts
    are within their plans, no sequence of valid requests to create, update, deploy,
    scale or delete agents, by any accounts and whatever their outcomes, takes an account
    that is held to its plan past its agents, replicas or memory.  Scaling down is asked of
    active agents, and a scaling leaves no more containers than it accounts for. *)
Theorem quota_never_exceeded {R} `{AgentRuntimeLaws R} `{CoreLLM} `{CoreRole} `{Fernet}
  `{CoreErrors} `{UnicodeTables} (w w' : world R) uid u :
  rtc api_step w w' → quota_inv (committed_db w) →
  held_to_plan (committed_db w') uid u →
  within_plan (committed_db w') uid (limits_for (User.plan u)).
Proof.
  intros Hsteps Hinv. apply (quota_plan (committed_db w')). revert Hinv.
  induction Hsteps as [|w1 w2 w3 Hstep _ IH]; [done|]. intros Hinv. by apply IH, (quota_step w1).
Qed.

Definition other_agent : Agent.Agent :=
  fixture_agent <| Agent.id := str "agt_2" |> <| Agent.slug := str "bot-def456" |>
    <| Agent.replicas := 3 |> <| Agent.status := FAILED |>.

(** Scaling down is not checked against the plan: an account that runs two of its
    three replicas, and whose second, failed agent still has containers, makes that agent
    active again by scaling it down, and ends with four running replicas. *)
Theorem scale_down_revives_unchecked :
  let d := fixture_db [fixture_user] [fixture_agent; other_agent] in
  let w := fixture_world d {[ str "agt_1" := fixture_containers 2; str "agt_2" := fixture_containers 3 ]} in
  let w' := (request (scale_agent 7%N (str "agt_2") DOWN 1) w).1 in
  total_replicas d 7%N = 2 ∧ total_replicas (committed_db w') 7%N = 4 ∧
  max_replicas (limits_for (User.plan fixture_user)) = 3.
Proof. vm_compute. done. Qed.

Lemma fixture_quota_inv : quota_inv (fixture_db [fixture_user] [fixture_agent]).
Proof.
  split; [by_decide| |].
  - apply map_Forall_singleton. split; vm_compute; discriminate.
  - intros uid u [Hu _]. change (<[7%N := fixture_user]> (∅ : gmap uuid User.User) !! uid = Some u) in Hu.
    apply lookup_insert_Some in Hu as [[<- <-]|[_ Hu]].
    + split; vm_compute; discriminate.
    + by rewrite lookup_empty in Hu.
Qed.

Theorem quota_never_exceeded_witness :
  let d := fixture_db [fixture_user] [fixture_agent] in
  let w := fixture_world d {[ str "agt_1" := fixture_containers 2 ]} in
  let w' := (request (run_op 7%N (OpScale (str "agt_1") UP 1)) w).1 in
  total_replicas (committed_db w') 7%N = 3 ∧
  within_plan (committed_db w') 7%N (limits_for (User.plan fixture_user)).
Proof.
  intros d w w'. split; [vm_compute; reflexivity|].
  apply (quota_never_exceeded w w').
  - apply rtc_once. apply api_request; [reflexivity|].
    intros a [Ha _]. vm_compute in Ha. injection Ha as <-. split; [done|].
    intros rt' Hrt. vm_compute in Hrt. injection Hrt as <-. vm_compute. discriminate.
  - apply fixture_quota_inv.
  - split; vm_compute; reflexivity.
Defined.
