(* ===== verification/Metering.v ===== *)
(** Usage metering ([services/metering_service.py]): hour buckets of reserved resources,
    and the requests counted in memory until the scheduler flushes them.

    [flush_requests] gives up the event loop while it writes, so requests may be counted
    between copying the batch ([take_batch]) and the end of the write
    ([write_or_put_back]); [meter_run] is that interleaving, of these two halves and of
    the counting ([flush_parts_run]), with the two ways in which a flush can go wrong: its
    task is cancelled, and its commit is reported as failed although it was applied.  A
    failure of the database driver is an input of the flush. *)

From S2P Require Import Prelude PyFloat Errors Plans Models Runtime IngressLimits World Fixtures.

(** ** Instants *)
Definition MICROS : Z := 1000000.
Definition DAY : Z := 86400 * MICROS.
Definition HOUR : Z := 3600 * MICROS.

(** Day of the month (1 to 31) of a day counted from 1970-01-01, in the proleptic
    Gregorian calendar.  Years start on March 1, so that a leap day ends its year:
    an era has four centuries of 36524 days, a century 25 blocks of 1461 days, a block
    four years of 365 days, and the last of each may be a day longer. *)
Definition day_of_year (doe : Z) : Z :=
  let in_century := doe - Z.min 3 (doe / 36524) * 36524 in
  let in_block := in_century mod 1461 in
  in_block - Z.min 3 (in_block / 365) * 365.
Definition day_in_month (doy : Z) : Z := doy - (153 * ((5 * doy + 2) / 153) + 2) / 5 + 1.
Definition day_of_month (days : Z) : Z := day_in_month (day_of_year ((days + 719468) mod 146097)).

(** [month_start]: the same instant with day 1 and time zero. *)
Definition month_start (now : datetime) : datetime :=
  (now / DAY - (day_of_month (now / DAY) - 1)) * DAY.
(** [_hour_start] *)
Definition hour_start (at_ : datetime) : datetime := at_ / HOUR * HOUR.

(** ** Recording reserved resources *)
Definition put_usage (k : pystr * datetime) (h : UsageHour.UsageHour) (d : db) : db :=
  d <| usage_hours := <[k := h]> (usage_hours d) |>.

(** [INSERT ... ON CONFLICT (agent_id, hour_start) DO UPDATE] *)
Definition upsert (k : pystr * datetime) (row : UsageHour.UsageHour)
  (merge : UsageHour.UsageHour → UsageHour.UsageHour) (d : db) : db :=
  put_usage k (match usage_hours d !! k with Some h => merge h | None => row end) d.

Definition record (agent : Agent.Agent) (replicas : Z) (seconds : num) (at_ : datetime) (d : db) : db :=
  if (replicas <=? 0) || num_geb (NInt 0) seconds then d else
  let row := {|
    UsageHour.user_id := Agent.user_id agent;
    UsageHour.replica_seconds := to_float (num_mul (NInt replicas) seconds);
    UsageHour.vcpu_seconds :=
      to_float (num_mul (num_mul (NInt replicas) (NFloat (Agent.cpu agent))) seconds);
    UsageHour.memory_mb_seconds :=
      to_float (num_mul (num_mul (NInt replicas) (NInt (Agent.memory_mb agent))) seconds);
    UsageHour.requests := 0 |} in
  upsert (Agent.id agent, hour_start at_) row
    (λ h, h <| UsageHour.replica_seconds :=
                 fadd (UsageHour.replica_seconds h) (UsageHour.replica_seconds row) |>
            <| UsageHour.vcpu_seconds :=
                 fadd (UsageHour.vcpu_seconds h) (UsageHour.vcpu_seconds row) |>
            <| UsageHour.memory_mb_seconds :=
                 fadd (UsageHour.memory_mb_seconds h) (UsageHour.memory_mb_seconds row) |>) d.

(** ** Counting requests *)
Abbreviation request_key := (pystr * uuid * datetime)%type.
Abbreviation counter := (gmap request_key Z).

(** [_pending_requests[key] += 1] *)
Definition bump (k : request_key) (n : Z) (c : counter) : counter :=
  <[k := default 0 (c !! k) + n]> c.
(** [Counter.update(batch)] adds counts. *)
Definition counter_update (c batch : counter) : counter :=
  foldl (λ c kn, bump kn.1 kn.2 c) c (map_to_list batch).

Definition request_key_of (agent : Agent.Agent) (at_ : datetime) : request_key :=
  (Agent.id agent, Agent.user_id agent, hour_start at_).

Definition pending_total (c : counter) : Z := sumZ id (rows c).

(** Write one batch entry; an account that is gone is skipped. *)
Definition write_count (d : db) (kn : request_key * Z) : db :=
  let '((agent_id, user_id, hour), count) := kn in
  if bool_decide (is_Some (users d !! user_id)) then
    upsert (agent_id, hour)
      {| UsageHour.user_id := user_id; UsageHour.replica_seconds := float_of_Z 0;
         UsageHour.vcpu_seconds := float_of_Z 0; UsageHour.memory_mb_seconds := float_of_Z 0;
         UsageHour.requests := count |}
      (λ h, h <| UsageHour.requests := UsageHour.requests h + count |>) d
  else d.
Definition write_batch (batch : counter) (d : db) : db := foldl write_count d (map_to_list batch).
Definition written_count (batch : counter) (d : db) : Z :=
  sumZ snd (filter (λ kn : request_key * Z, is_Some (users d !! kn.1.1.2)) (map_to_list batch)).

Section metering.
Context {R : Type}.

Definition count_request (agent : Agent.Agent) : MW R unit :=
  modify (λ w, w <| pending := bump (request_key_of agent (now w)) 1 (pending w) |>).

Definition pending_requests : MW R Z := gets (λ w, pending_total (pending w)).
Definition discard_pending_requests : MW R unit := modify (λ w, w <| pending := ∅ |>).

(** The write of a batch: the driver may fail ([fault]) and the commit may. *)
Definition write_and_commit (fault : option exn) (batch : counter) : MW R Z :=
  match fault with
  | Some e => raise e
  | None =>
      written ← select (written_count batch);
      update (write_batch batch);;
      commit;;
      mret written
  end.

(** Copying and clearing the counts, without an await in between. *)
Definition take_batch : MW R counter :=
  batch ← gets pending;
  modify (λ w, w <| pending := ∅ |>);;
  mret batch.
(** Writing a batch; an [Exception] puts it back. *)
Definition write_or_put_back (fault : option exn) (batch : counter) : MW R Z :=
  try_except (write_and_commit fault batch)
    (λ e, Some (rollback;;
                modify (λ w, w <| pending := counter_update (pending w) batch |>);;
                raise e)).
Definition flush_requests (fault : option exn) : MW R Z :=
  batch ← take_batch;
  if bool_decide (batch = ∅) then mret 0 else write_or_put_back fault batch.
End metering.

(** ** Totals of a period *)
Record PeriodTotals := {
  pt_start : datetime;
  pt_replica_hours : float;
  pt_vcpu_hours : float;
  pt_memory_gb_hours : float;
  pt_requests : Z;
}.

(** The rows of [user_id] whose hour is in the period. *)
Definition in_period (user_id : uuid) (start : datetime) (end_ : option datetime)
  (p : (pystr * datetime) * UsageHour.UsageHour) : Prop :=
  UsageHour.user_id p.2 = user_id ∧ start ≤ p.1.2 ∧
  match end_ with Some e => p.1.2 < e | None => True end.
#[export] Instance in_period_dec user_id start end_ p : Decision (in_period user_id start end_ p).
Proof. unfold in_period. destruct end_; apply _. Defined.

Definition period_rows (d : db) (user_id : uuid) (start : datetime) (end_ : option datetime)
  : list ((pystr * datetime) * UsageHour.UsageHour) :=
  filter (in_period user_id start end_) (map_to_list (usage_hours d)).

(** [coalesce(sum(column), 0.0)] over double precision. *)
Definition sql_sum (xs : list float) : float :=
  match xs with [] => float_of_Z 0 | x :: r => foldl fadd x r end.

Definition period_totals (d : db) (user_id : uuid) (start : datetime) (end_ : option datetime)
  : PeriodTotals :=
  let rs := snd <$> period_rows d user_id start end_ in
  let replica_s := sql_sum (UsageHour.replica_seconds <$> rs) in
  let vcpu_s := sql_sum (UsageHour.vcpu_seconds <$> rs) in
  let memory_mb_s := sql_sum (UsageHour.memory_mb_seconds <$> rs) in
  {| pt_start := start;
     pt_replica_hours := float_round (fdiv replica_s (float_of_Z 3600)) 4;
     pt_vcpu_hours := float_round (fdiv vcpu_s (float_of_Z 3600)) 4;
     pt_memory_gb_hours :=
       float_round (fdiv (fdiv memory_mb_s (float_of_Z 1024)) (float_of_Z 3600)) 4;
     pt_requests := sumZ UsageHour.requests rs |}.

(** ** Calendar *)
Lemma day_of_year_bounds doe :
  0 ≤ doe < 146097 → 0 ≤ day_of_year doe ≤ 365 ∧ day_of_year doe ≤ doe.
Proof. unfold day_of_year. lia. Qed.
Lemma day_of_year_back doe k :
  0 ≤ doe < 146097 → 0 ≤ k ≤ day_of_year doe → day_of_year (doe - k) = day_of_year doe - k.
Proof. unfold day_of_year. lia. Qed.
Lemma day_in_month_bounds doy : 0 ≤ doy ≤ 365 → 1 ≤ day_in_month doy ≤ 31.
Proof. unfold day_in_month. lia. Qed.
Lemma day_in_month_back doy k :
  0 ≤ doy ≤ 365 → 0 ≤ k < day_in_month doy → day_in_month (doy - k) = day_in_month doy - k ∧ k ≤ doy.
Proof. unfold day_in_month. lia. Qed.

Lemma day_of_month_bounds days : 1 ≤ day_of_month days ≤ 31.
Proof.
  apply day_in_month_bounds. pose proof (Z.mod_pos_bound (days + 719468) 146097 ltac:(lia)).
  by apply day_of_year_bounds.
Qed.

(** Going back inside a month counts the day down. *)
Lemma day_of_month_back days k :
  0 ≤ k < day_of_month days → day_of_month (days - k) = day_of_month days - k.
Proof.
  unfold day_of_month. intros Hk.
  pose proof (Z.mod_pos_bound (days + 719468) 146097 ltac:(lia)) as Hdoe.
  set (doe := (days + 719468) mod 146097) in *.
  destruct (day_of_year_bounds doe Hdoe) as [Hdoy Hle].
  destruct (day_in_month_back (day_of_year doe) k Hdoy Hk) as [Hback Hkd].
  assert ((days - k + 719468) mod 146097 = doe - k) as ->.
  { symmetry. apply (Z.mod_unique_pos _ _ ((days + 719468) / 146097)); [lia|].
    unfold doe. pose proof (Z.div_mod (days + 719468) 146097). lia. }
  rewrite day_of_year_back by lia. done.
Qed.

(** The billing month starts at the latest midnight (UTC) of a first of the month
    that is not after the given instant. *)
Theorem month_start_latest now :
  let s := month_start now in
  s ≤ now ∧ s mod DAY = 0 ∧ day_of_month (s / DAY) = 1 ∧
  ∀ t, s < t ≤ now → t mod DAY = 0 → day_of_month (t / DAY) ≠ 1.
Proof.
  unfold month_start. pose proof (day_of_month_bounds (now / DAY)) as Hb.
  set (days := now / DAY) in *. set (dom := day_of_month days) in *.
  assert (0 < DAY) by (by vm_compute). pose proof (Z.mod_pos_bound now DAY ltac:(lia)).
  assert (now = DAY * days + now mod DAY) as Hnow by (apply Z.div_mod; lia).
  assert ((days - (dom - 1)) * DAY / DAY = days - (dom - 1)) as Hs by (apply Z.div_mul; lia).
  cbv zeta. rewrite Hs. split_and!.
  - nia.
  - apply Z.mod_mul. lia.
  - rewrite day_of_month_back by lia. fold dom. lia.
  - intros t Ht Htm Hone. pose proof (Z.div_mod t DAY ltac:(lia)) as Htd. rewrite Htm in Htd.
    set (q := t / DAY) in *. assert (days - (dom - 1) < q ≤ days) as Hq by nia.
    assert (q = days - (days - q)) as Eq by lia. rewrite Eq, day_of_month_back in Hone by lia.
    fold dom in Hone. lia.
Qed.

(** ** Request counts, per hour bucket *)
Definition requests_at (d : db) (k : pystr * datetime) : Z :=
  match usage_hours d !! k with Some h => UsageHour.requests h | None => 0 end.
Definition entry_for (k : pystr * datetime) (kn : request_key * Z) : Z :=
  if decide ((kn.1.1.1, kn.1.2) = k) then kn.2 else 0.
Definition counted_for (k : pystr * datetime) (c : counter) : Z := sumZ (entry_for k) (map_to_list c).

Lemma requests_at_upsert d k k' row merge :
  requests_at (upsert k' row merge d) k =
  if decide (k' = k) then UsageHour.requests (match usage_hours d !! k with Some h => merge h | None => row end)
  else requests_at d k.
Proof.
  unfold requests_at, upsert, put_usage. cbn [usage_hours setf]. rewrite lookup_insert.
  by case_decide; subst.
Qed.

Lemma users_write_count d kn : users (write_count d kn) = users d.
Proof. destruct kn as [[[a u] h] n]. unfold write_count. by case_bool_decide. Qed.

(** Entries of accounts that are gone are dropped. *)
Definition has_account (d : db) (kn : request_key * Z) : Prop := is_Some (users d !! kn.1.1.2).
#[export] Instance has_account_dec d kn : Decision (has_account d kn).
Proof. unfold has_account. apply _. Defined.

Lemma requests_at_write_count d kn k :
  requests_at (write_count d kn) k = requests_at d k + (if decide (has_account d kn) then entry_for k kn else 0).
Proof.
  destruct kn as [[[a u] h] n]. unfold write_count, has_account. cbn [fst snd]. case_bool_decide as Hu.
  - rewrite decide_True by done. rewrite requests_at_upsert. unfold entry_for. cbn. unfold requests_at.
    case_decide; [|lia]. destruct (usage_hours d !! k); cbn; lia.
  - rewrite decide_False by done. lia.
Qed.
Lemma requests_at_write d l k :
  requests_at (foldl write_count d l) k = requests_at d k + sumZ (entry_for k) (filter (has_account d) l).
Proof.
  revert d. induction l as [|kn l IH]; intros d; cbn [foldl]; [unfold sumZ; cbn; lia|].
  rewrite IH, requests_at_write_count.
  assert (filter (has_account (write_count d kn)) l = filter (has_account d) l) as ->.
  { apply list_filter_iff. intros x. unfold has_account. by rewrite users_write_count. }
  rewrite filter_cons. case_decide; [rewrite sumZ_cons|]; lia.
Qed.

(** What writing entries of [l] does to a row apart from its count: nothing to a row that was
    there, and a new row is for an entry of an account that exists, with nothing else used. *)
Definition grown (d : db) (l : list (request_key * Z)) (k : pystr * datetime) (h h' : option UsageHour.UsageHour) : Prop :=
  match h, h' with
  | Some h, Some h' => h' = h <| UsageHour.requests := UsageHour.requests h' |>
  | None, None => True
  | Some _, None => False
  | None, Some h' => ∃ kn, kn ∈ l ∧ has_account d kn ∧ (kn.1.1.1, kn.1.2) = k ∧
      h' = {| UsageHour.user_id := kn.1.1.2; UsageHour.replica_seconds := float_of_Z 0;
              UsageHour.vcpu_seconds := float_of_Z 0; UsageHour.memory_mb_seconds := float_of_Z 0;
              UsageHour.requests := UsageHour.requests h' |}
  end.

Lemma write_grown d l k : grown d l k (usage_hours d !! k) (usage_hours (foldl write_count d l) !! k).
Proof.
  induction l as [|kn l IH] using rev_ind; [cbn; by destruct (usage_hours d !! k) as [[]|]|].
  rewrite foldl_app. cbn [foldl]. set (d1 := foldl write_count d l) in *.
  assert (grown d (l ++ [kn]) k (usage_hours d !! k) (usage_hours d1 !! k)) as IH'.
  { destruct (usage_hours d !! k), (usage_hours d1 !! k); try done.
    destruct IH as (kn' & Hin & Hrest). exists kn'. set_solver. }
  assert (users d1 = users d) as Hu.
  { subst d1. clear. revert d. induction l as [|x l IH]; intros d; cbn; [done|]. by rewrite IH, users_write_count. }
  clear IH. destruct kn as [[[a u] h] n]. unfold write_count. case_bool_decide as Hb; [|done].
  unfold upsert, put_usage. cbn [usage_hours setf]. rewrite lookup_insert. case_decide as Hk; [|done]. subst k.
  destruct (usage_hours d1 !! (a, h)) as [r1|]; destruct (usage_hours d !! (a, h)) as [r0|]; cbn in *; try done.
  - rewrite IH'. by destruct r0.
  - destruct IH' as (kn' & ? & ? & ? & ->). exists kn'. by split_and!.
  - exists (a, u, h, n). split_and!; [set_solver| |done|done]. unfold has_account. cbn. by rewrite <- Hu.
Qed.

Lemma counted_for_bump k key n c :
  counted_for k (bump key n c) = counted_for k c + entry_for k (key, n).
Proof.
  unfold counted_for, bump. rewrite <- insert_delete_eq.
  rewrite map_to_list_insert by apply lookup_delete_eq. rewrite sumZ_cons.
  destruct (c !! key) as [m|] eqn:E; cbn.
  - rewrite <- (insert_id c key m E) at 2. rewrite <- insert_delete_eq.
    rewrite map_to_list_insert by apply lookup_delete_eq. rewrite sumZ_cons.
    unfold entry_for. cbn. case_decide; lia.
  - rewrite delete_id by done. unfold entry_for. cbn. case_decide; lia.
Qed.

Lemma pending_total_bump k n c : pending_total (bump k n c) = pending_total c + n.
Proof.
  unfold pending_total, bump. rewrite rows_insert, sumZ_cons.
  destruct (c !! k) as [m|] eqn:E; cbn.
  - rewrite (rows_delete _ _ _ E), sumZ_cons. unfold id. lia.
  - rewrite rows_delete_id by done. unfold id. lia.
Qed.

Lemma counted_for_update k c b : counted_for k (counter_update c b) = counted_for k c + counted_for k b.
Proof.
  unfold counter_update. unfold counted_for at 3. generalize (map_to_list b) as l. clear b.
  intros l. revert c. induction l as [|[key n] l IH]; intros c; cbn [foldl]; [unfold sumZ; cbn; lia|].
  rewrite IH, sumZ_cons. cbn [fst snd]. rewrite counted_for_bump. lia.
Qed.

Lemma counter_update_empty b : counter_update ∅ b = b.
Proof.
  unfold counter_update.
  assert (∀ l (c : counter), NoDup l.*1 → (∀ k, k ∈ l.*1 → c !! k = None) →
    foldl (λ c kn, bump kn.1 kn.2 c) c l = list_to_map l ∪ c) as Hl.
  { intros l. induction l as [|[k n] l IH]; intros c Hnd Hc; cbn [foldl];
      [symmetry; apply (left_id_L ∅ (∪))|].
    apply NoDup_cons in Hnd as [Hk Hnd]. cbn. rewrite IH; [|done|].
    - unfold bump. rewrite Hc by set_solver. cbn.
      rewrite <- insert_union_r by (by apply not_elem_of_list_to_map). by rewrite insert_union_l.
    - intros k' Hk'. unfold bump. rewrite lookup_insert_ne by set_solver. apply Hc. set_solver. }
  rewrite Hl; [by rewrite (right_id_L ∅ (∪)), list_to_map_to_list|apply NoDup_fst_map_to_list|].
  intros k _. apply lookup_empty.
Qed.

(** What two counters count, their sum counts. *)
Lemma dom_counter_update c b : dom (counter_update c b) = dom c ∪ dom b.
Proof.
  unfold counter_update. rewrite <- (list_to_map_to_list b) at 2. rewrite dom_list_to_map_L.
  generalize (map_to_list b) as l. intros l. revert c. induction l as [|[k n] l IH]; intros c; cbn [foldl].
  - cbn. set_solver.
  - rewrite IH. cbn. unfold bump. rewrite dom_insert_L. set_solver.
Qed.

(** ** Interleaving of counting and flushing

    [m_inflight] is the batch a running flush has taken and not yet written or put back. *)
Record meter := {
  m_db : db;
  m_pending : counter;
  m_inflight : option counter;
}.

Definition known (d : db) (c : counter) : Prop :=
  map_Forall (λ (k : request_key) _, is_Some (users d !! k.1.2)) c.

(** [meter_run s log odd s']: a run from [s] to [s'] in which the edge routed the requests of
    [log], newest first, and the batches of [odd] were lost with a cancelled flush, or written
    and counted again because an applied commit was reported as failed. *)
Inductive odd_end := LostBatch (batch : counter) | DoubledBatch (batch : counter).
Inductive meter_run (s : meter) : list (Agent.Agent * datetime) → list odd_end → meter → Prop :=
| run_start : meter_run s [] [] s
| run_count log odd d p i agent at_ :
    meter_run s log odd (Build_meter d p i) → is_Some (users d !! Agent.user_id agent) →
    meter_run s ((agent, at_) :: log) odd (Build_meter d (bump (request_key_of agent at_) 1 p) i)
| run_take log odd d p :
    meter_run s log odd (Build_meter d p None) → p ≠ ∅ → meter_run s log odd (Build_meter d ∅ (Some p))
| run_write log odd d p batch :
    meter_run s log odd (Build_meter d p (Some batch)) →
    meter_run s log odd (Build_meter (write_batch batch d) p None)
| run_fail log odd d p batch :
    meter_run s log odd (Build_meter d p (Some batch)) →
    meter_run s log odd (Build_meter d (counter_update p batch) None)
| run_cancel log odd d p batch :
    meter_run s log odd (Build_meter d p (Some batch)) →
    meter_run s log (LostBatch batch :: odd) (Build_meter d p None)
| run_unknown log odd d p batch :
    meter_run s log odd (Build_meter d p (Some batch)) →
    meter_run s log (DoubledBatch batch :: odd) (Build_meter (write_batch batch d) (counter_update p batch) None)
| run_record log odd d p i agent replicas seconds at_ :
    meter_run s log odd (Build_meter d p i) → is_Some (users d !! Agent.user_id agent) →
    meter_run s log odd (Build_meter (record agent replicas seconds at_ d) p i).

(** Everything counted for a bucket: written, taken and pending. *)
Definition balance (k : pystr * datetime) (s : meter) : Z :=
  requests_at (m_db s) k + counted_for k (m_pending s) +
  match m_inflight s with Some b => counted_for k b | None => 0 end.
Definition logged (k : pystr * datetime) (log : list (Agent.Agent * datetime)) : Z :=
  sumZ (λ e, entry_for k (request_key_of e.1 e.2, 1)) log.
(** What the odd ends add to a bucket, or take from it. *)
Definition odd_for (k : pystr * datetime) (odd : list odd_end) : Z :=
  sumZ (λ e, match e with LostBatch b => - counted_for k b | DoubledBatch b => counted_for k b end) odd.
Definition all_known (s : meter) : Prop :=
  known (m_db s) (m_pending s) ∧
  match m_inflight s with Some b => known (m_db s) b | None => True end.

Lemma users_write_batch b d : users (write_batch b d) = users d.
Proof.
  unfold write_batch. generalize (map_to_list b) as l. intros l. revert d.
  induction l as [|kn l IH]; intros d; cbn; [done|]. by rewrite IH, users_write_count.
Qed.
Lemma users_record agent n s at_ d : users (record agent n s at_ d) = users d.
Proof. unfold record. by case_match. Qed.
Lemma requests_at_record agent n s at_ d k : requests_at (record agent n s at_ d) k = requests_at d k.
Proof.
  unfold record. case_match; [done|]. rewrite requests_at_upsert. case_decide; [|done].
  unfold requests_at. by destruct (usage_hours d !! k).
Qed.

Lemma known_bump d k n c : known d c → is_Some (users d !! k.1.2) → known d (bump k n c).
Proof. intros Hc Hk. by apply map_Forall_insert_2. Qed.
Lemma known_list d b :
  known d b → Forall (λ kn : request_key * Z, is_Some (users d !! kn.1.1.2)) (map_to_list b).
Proof. intros Hb%map_Forall_to_list. eapply Forall_impl; [exact Hb|by intros []]. Qed.
Lemma write_batch_account k b d : known d b → requests_at (write_batch b d) k = requests_at d k + counted_for k b.
Proof.
  intros Hb%known_list. unfold write_batch. rewrite requests_at_write. unfold counted_for.
  do 2 f_equal. induction Hb as [|kn l Hk _ IH]; [done|]. by rewrite filter_cons, decide_True, IH by done.
Qed.
Lemma known_dom d c : known d c ↔ ∀ k, k ∈ dom c → is_Some (users d !! k.1.2).
Proof.
  unfold known, map_Forall. setoid_rewrite elem_of_dom. split; [intros Hk k [n Hn]; eauto|intros Hk k n Hn; eauto].
Qed.
Lemma known_split d c b : known d (counter_update c b) → known d c ∧ known d b.
Proof. rewrite !known_dom, dom_counter_update. set_solver. Qed.
Lemma known_update d c b : known d c → known d b → known d (counter_update c b).
Proof.
  intros Hc Hb%known_list. unfold counter_update.
  revert c Hc. induction Hb as [|kn l Hk _ IH]; intros c Hc; cbn; [done|].
  by apply IH, known_bump.
Qed.

Lemma meter_run_known s log odd s' : meter_run s log odd s' → all_known s → all_known s'.
Proof.
  unfold all_known, known.
  induction 1 as [|log odd d p i agent at_ ? IH|log odd d p ? IH|log odd d p b ? IH|log odd d p b ? IH|log odd d p b ? IH
    |log odd d p b ? IH|log odd d p i agent n sec at_ ? IH]; cbn [m_db m_pending m_inflight] in *; intros Hs; try done.
  all: specialize (IH Hs) as [Hp Hi]; rewrite ?users_write_batch, ?users_record.
  all: split; first [done|by apply known_bump|by apply map_Forall_empty|by apply known_update].
Qed.

(** C23: no request is lost or counted twice: along every interleaving of routed requests,
    flushes that succeed or fail, and metered ticks, what is written, in flight and pending
    for an hour bucket is what it was plus the requests routed for that bucket, less the
    batches whose flush was cancelled and plus those whose applied commit was reported as
    failed. *)
Theorem requests_conserved s log odd s' k :
  meter_run s log odd s' → all_known s → balance k s' = balance k s + logged k log + odd_for k odd.
Proof.
  intros Hrun Hs. induction Hrun as [|log odd d p i agent at_ Hrun IH|log odd d p Hrun IH|log odd d p b Hrun IH
    |log odd d p b Hrun IH|log odd d p b Hrun IH|log odd d p b Hrun IH|log odd d p i agent n sec at_ Hrun IH];
    try specialize (IH Hs); try (destruct (meter_run_known _ _ _ _ Hrun Hs) as [_ Hb]; cbn in Hb);
    unfold balance, odd_for in *; cbn [m_db m_pending m_inflight] in *;
    rewrite ?write_batch_account, ?counted_for_update, ?requests_at_record, ?sumZ_cons by done.
  - unfold logged, sumZ. cbn. lia.
  - unfold logged in *. rewrite sumZ_cons, counted_for_bump. cbn [fst snd]. lia.
  - unfold counted_for at 1. rewrite map_to_list_empty. unfold sumZ at 1. cbn [foldr]. lia.
  - lia.
  - lia.
  - lia.
  - lia.
  - done.
Qed.

(** ** A flush on its own *)
Lemma db_ok_put_usage k h d :
  db_ok d → is_Some (users d !! UsageHour.user_id h) → db_ok (put_usage k h d).
Proof.
  intros [[] [] [] [Hi Hh Hc Ho Ht]] Hu. split; [by split|by split|by split|].
  split; [done..| |done]. by apply refers_insert.
Qed.

Lemma db_ok_write_count d kn : db_ok d → db_ok (write_count d kn).
Proof.
  intros Hd. destruct kn as [[[a u] h] n]. unfold write_count. case_bool_decide; [|done].
  apply db_ok_put_usage; [done|]. destruct (usage_hours d !! (a, h)) as [row|] eqn:E; [|done].
  destruct Hd as [_ _ _ [_ _ _ Ho]]. by apply (Ho _ _ E).
Qed.

Lemma db_ok_write_batch b d : db_ok d → db_ok (write_batch b d).
Proof.
  unfold write_batch. generalize (map_to_list b) as l. intros l. revert d.
  induction l as [|kn l IH]; intros d Hd; cbn; [done|]. by apply IH, db_ok_write_count.
Qed.

Lemma written_count_known b d : known d b → written_count b d = pending_total b.
Proof.
  intros Hb%known_list. unfold written_count, pending_total, rows. rewrite sumZ_fmap.
  induction Hb as [|kn l Hk _ IH]; [done|]. rewrite filter_cons, decide_True by done.
  rewrite !sumZ_cons. by rewrite IH.
Qed.

Section flush.
Context {R : Type}.
Implicit Types w : world R.

Lemma write_and_commit_publish d w b :
  db_ok d → write_and_commit None b (publish d w) =
    (publish (write_batch b d) w, Ok (written_count b d)).
Proof.
  intros Hd. unfold write_and_commit.
  rewrite bind_run. change (select (written_count b) (publish d w)) with (publish d w, Ok (E := exn) (written_count b d)).
  cbv beta iota. rewrite update_commit_publish. by rewrite decide_True by (by apply db_ok_write_batch).
Qed.

Lemma write_or_put_back_publish d w fault b :
  db_ok d →
  write_or_put_back fault b (publish d w) =
  match fault with
  | Some e => (publish d (w <| pending := counter_update (pending w) b |>), Err e)
  | None => (publish (write_batch b d) w, Ok (written_count b d))
  end.
Proof.
  intros Hd. unfold write_or_put_back, try_except. destruct fault as [e|]; [done|].
  by rewrite write_and_commit_publish.
Qed.
Lemma flush_parts d w fault :
  flush_requests fault (publish d w) =
  if decide (pending w = ∅) then (publish d (w <| pending := ∅ |>), Ok 0)
  else write_or_put_back fault (pending w) (publish d (w <| pending := ∅ |>)).
Proof.
  change (flush_requests fault (publish d w)) with
    ((if bool_decide (pending w = ∅) then mret 0 else write_or_put_back fault (pending w))
       (publish d (w <| pending := ∅ |>))).
  case_bool_decide; by case_decide.
Qed.

(** A flush ends at rest with the batch written or not, whatever happened. *)
Lemma flush_run d w fault :
  db_ok d →
  ∃ d' p r, flush_requests fault (publish d w) = (publish d' (w <| pending := p |>), r) ∧
    (d' = d ∨ d' = write_batch (pending w) d).
Proof.
  intros Hd. rewrite flush_parts. case_decide; [by eexists d, ∅, _; split; [reflexivity|left]|].
  rewrite write_or_put_back_publish by done. destruct fault as [e|].
  - by eexists d, _, _; split; [reflexivity|left].
  - by eexists (write_batch (pending w) d), ∅, _; split; [reflexivity|right].
Qed.

Lemma write_batch_empty d : write_batch ∅ d = d.
Proof. unfold write_batch. by rewrite map_to_list_empty. Qed.
Lemma pending_empty w : pending w = ∅ → w <| pending := ∅ |> = w.
Proof. intros <-. by destruct w. Qed.

(** A flush exactly: everything pending is written, or put back. *)
Lemma flush_exact d w fault :
  db_ok d →
  flush_requests fault (publish d w) =
  match fault with
  | Some e => if decide (pending w = ∅) then (publish d w, Ok 0) else (publish d w, Err e)
  | None => (publish (write_batch (pending w) d) (w <| pending := ∅ |>), Ok (written_count (pending w) d))
  end.
Proof.
  intros Hd. rewrite flush_parts. case_decide as He.
  - rewrite pending_empty by done. destruct fault; [done|]. rewrite He, write_batch_empty.
    unfold written_count. by rewrite map_to_list_empty.
  - rewrite write_or_put_back_publish by done. destruct fault as [e|]; [|done]. f_equal.
    destruct w. cbn. unfold set_sess, publish. cbn. by rewrite counter_update_empty.
Qed.
Lemma flush_publish d w fault :
  db_ok d → known d (pending w) →
  flush_requests fault (publish d w) =
  match fault with
  | Some e => if decide (pending w = ∅) then (publish d w, Ok 0) else (publish d w, Err e)
  | None => (publish (write_batch (pending w) d) (w <| pending := ∅ |>), Ok (pending_total (pending w)))
  end.
Proof. intros Hd Hk. rewrite flush_exact by done. by rewrite written_count_known. Qed.

(** The two halves of a flush, and the counting, are the steps of [meter_run]. *)
Definition meter_of w (inflight : option counter) : meter := Build_meter (committed_db w) (pending w) inflight.
Theorem flush_parts_run s log odd w i batch fault agent :
  (meter_run s log odd (meter_of w None) → pending w ≠ ∅ →
     (take_batch w).2 = Ok (pending w) ∧
     meter_run s log odd (meter_of (take_batch w).1 (Some (pending w)))) ∧
  (meter_run s log odd (meter_of w (Some batch)) → db_ok (committed_db w) →
     meter_run s log odd (meter_of (request (write_or_put_back fault batch) w).1 None)) ∧
  (meter_run s log odd (meter_of w i) → is_Some (users (committed_db w) !! Agent.user_id agent) →
     meter_run s ((agent, now w) :: log) odd (meter_of (count_request agent w).1 i)).
Proof.
  split_and!.
  - intros Hr Hp. split; [done|]. by apply run_take.
  - intros Hr Hd. unfold request. rewrite begin_session_eq, write_or_put_back_publish by done.
    destruct fault as [e|]; cbn [fst]; rewrite begin_session_publish.
    + by apply run_fail.
    + by apply run_write.
  - intros Hr Hu. by apply run_count.
Qed.

(** Everything but the usage rows. *)
Definition without_usage (d : db) : db := d <| usage_hours := ∅ |>.
Lemma without_usage_write b d : without_usage (write_batch b d) = without_usage d.
Proof.
  unfold write_batch. generalize (map_to_list b) as l. intros l. revert d.
  induction l as [|[[[a u] h] n] l IH]; intros d; cbn [foldl]; [done|]. rewrite IH.
  unfold write_count. by case_bool_decide.
Qed.

(** C30: a flush is all or nothing.  When the database works, the counter is emptied and every
    pending count of an account that exists is added to its hour: the count of a bucket grows by
    the sum of the entries for it, and the answer is the sum of them all; counts of accounts that
    are gone are dropped; the metered time and the owner of a row, and every other table, stay as
    they were, and a new row is for such an entry.  When the database fails, the failure is
    reported and the database and the pending counts are as they were; without anything pending
    there is nothing to write or to fail. *)
Theorem flush_all_or_nothing w fault :
  db_ok (committed_db w) →
  let d := committed_db w in
  let entries := map_to_list (pending w) in
  let '(w', r) := request (flush_requests fault) w in
  let d' := committed_db w' in
  match fault with
  | Some e => r = (if decide (pending w = ∅) then Ok 0 else Err e) ∧ pending w' = pending w ∧ d' = d
  | None =>
      pending w' = ∅ ∧
      r = Ok (sumZ (λ kn, if decide (is_Some (users d !! kn.1.1.2)) then kn.2 else 0) entries) ∧
      (∀ agent_id hour, requests_at d' (agent_id, hour) = requests_at d (agent_id, hour) +
         sumZ (λ kn, if decide (is_Some (users d !! kn.1.1.2) ∧ kn.1.1.1 = agent_id ∧ kn.1.2 = hour)
                     then kn.2 else 0) entries) ∧
      (∀ k, grown d entries k (usage_hours d !! k) (usage_hours d' !! k)) ∧
      without_usage d' = without_usage d
  end.
Proof.
  intros Hd d entries. unfold request. rewrite begin_session_eq, flush_exact by done.
  destruct fault as [e|]; [by case_decide; rewrite begin_session_publish|]. rewrite begin_session_publish.
  change (committed_db (publish (write_batch (pending w) (committed_db w)) (w <| pending := ∅ |>)))
    with (write_batch (pending w) d). split_and!.
  - done.
  - f_equal. unfold written_count. rewrite sumZ_filter. done.
  - intros aid hour. unfold write_batch. rewrite requests_at_write, sumZ_filter. fold entries. f_equal.
    apply sumZ_ext. intros kn _. unfold entry_for, has_account. repeat case_decide; naive_solver congruence.
  - intros k. apply write_grown.
  - apply without_usage_write.
Qed.
End flush.

(** ** Recording and reporting *)
(** Metering one tick adds replica-seconds, vCPU-seconds and memory-seconds to the
    agent's bucket of the hour, leaves its request count and every other bucket alone,
    and never charges for no replicas or no time. *)
Theorem record_adds_to_its_hour agent replicas seconds at_ d :
  let key := (Agent.id agent, hour_start at_) in
  let d' := record agent replicas seconds at_ d in
  (∀ k, k ≠ key → usage_hours d' !! k = usage_hours d !! k) ∧
  ((replicas ≤ 0 ∨ num_geb (NInt 0) seconds = true) → d' = d) ∧
  (∀ h, usage_hours d !! key = Some h → 0 < replicas → num_geb (NInt 0) seconds = false →
     ∃ h', usage_hours d' !! key = Some h' ∧
       UsageHour.requests h' = UsageHour.requests h ∧ UsageHour.user_id h' = UsageHour.user_id h ∧
       UsageHour.replica_seconds h' =
         fadd (UsageHour.replica_seconds h) (to_float (num_mul (NInt replicas) seconds)) ∧
       UsageHour.memory_mb_seconds h' =
         fadd (UsageHour.memory_mb_seconds h)
              (to_float (num_mul (NInt (replicas * Agent.memory_mb agent)) seconds))).
Proof.
  intros key d'. subst d'. unfold record. split_and!.
  - intros k Hk. case_match; [done|]. cbn. by rewrite lookup_insert_ne.
  - intros [Hr|Hs]; [by rewrite (proj2 (Z.leb_le _ _) Hr)|]. rewrite Hs. by rewrite orb_true_r.
  - intros h Hh Hr Hs. rewrite Hs, (proj2 (Z.leb_gt _ _) Hr). cbn [orb].
    eexists. split; [cbn; apply lookup_insert_eq|]. unfold key in Hh. by rewrite Hh.
Qed.

(** Consecutive periods add up: the requests of a period split at any instant are the
    requests of its two parts. *)
Theorem period_requests_additive d uid start mid end_ :
  start ≤ mid ≤ end_ →
  pt_requests (period_totals d uid start (Some end_)) =
  pt_requests (period_totals d uid start (Some mid)) +
  pt_requests (period_totals d uid mid (Some end_)).
Proof.
  intros Hle. unfold period_totals, period_rows. cbn [pt_requests]. rewrite !sumZ_fmap.
  generalize (map_to_list (usage_hours d)) as l. intros l.
  rewrite !sumZ_filter. induction l as [|p l IH]; [done|]. rewrite !sumZ_cons, IH.
  unfold in_period in *. repeat case_decide; lia.
Qed.

(** ** Witnesses *)
Definition fixture_counter : counter := bump (request_key_of fixture_agent 0) 3 ∅.

Theorem requests_conserved_witness :
  let s := Build_meter (fixture_db [fixture_user] []) fixture_counter None in
  let s' := Build_meter (write_batch fixture_counter (m_db s)) (bump (request_key_of fixture_agent 5) 1 ∅) None in
  balance (str "agt_1", 0) s' =
  balance (str "agt_1", 0) s + logged (str "agt_1", 0) [(fixture_agent, 5)] + odd_for (str "agt_1", 0) [].
Proof.
  intros s s'. apply (requests_conserved s [(fixture_agent, 5)] [] s').
  - apply (run_write s). apply (run_count s); [|by vm_compute; eexists].
    apply (run_take s); [apply run_start|done].
  - split; [|done]. apply map_Forall_singleton. by eexists.
Defined.

(** Counts of account 7 are written, counts of account 8, which is gone, dropped. *)
Definition gone_counter : counter := bump (str "agt_9", 8%N, 0) 2 fixture_counter.
Theorem flush_all_or_nothing_witness :
  let w := (fixture_world (fixture_db [fixture_user] []) ∅) <| pending := gone_counter |> in
  let p := request (flush_requests None) w in
  p.2 = Ok 3 ∧ pending p.1 = ∅ ∧ requests_at (committed_db p.1) (str "agt_1", 0) = 3 ∧
  requests_at (committed_db p.1) (str "agt_9", 0) = 0.
Proof.
  intros w. pose proof (flush_all_or_nothing w None) as Hf.
  assert (db_ok (committed_db w)) as Hd by by_decide. specialize (Hf Hd). cbv zeta in Hf.
  destruct (request (flush_requests None) w) as [w' r]. destruct Hf as (Hp & Hr & Ha & _).
  split_and!; [etransitivity; [exact Hr|by vm_compute]|exact Hp
    |etransitivity; [apply Ha|by vm_compute]..].
Defined.

Theorem period_requests_additive_witness :
  let d := write_batch fixture_counter (fixture_db [fixture_user] []) in
  pt_requests (period_totals d 7%N 0 (Some (2 * HOUR))) = 3 ∧
  pt_requests (period_totals d 7%N 0 (Some (2 * HOUR))) =
  pt_requests (period_totals d 7%N 0 (Some HOUR)) + pt_requests (period_totals d 7%N HOUR (Some (2 * HOUR))).
Proof.
  intros d. split; [vm_compute; reflexivity|].
  apply (period_requests_additive d 7%N 0 HOUR (2 * HOUR)). split; vm_compute; discriminate.
Defined.
