(* ===== verification/AccessKeys.v ===== *)
(** Access keys of private agents ([services/access_key_service.py]) and key hashing
    ([security/api_keys.py]).

    [tok] is what [secrets.token_urlsafe] returned and [kid] the row's new UUID. *)

From S2P Require Import Prelude PyText Codec Sha256 PyFloat Errors Plans Models Runtime IngressLimits World Fixtures.

(** SHA-256 of the UTF-8 encoding, in hexadecimal ([hashlib]). *)
Definition hash_key (raw_key : pystr) : pystr := sha256_hex raw_key.
Definition keys_match (raw_key expected_hash : pystr) : bool := hash_key raw_key == expected_hash.

Definition KEY_PREFIX : pystr := str "agk_".

(** Order of [order_by(created_at)]. *)
Definition older_first (a b : AgentAccessKey.AgentAccessKey) : Prop :=
  AgentAccessKey.created_at a ≤ AgentAccessKey.created_at b.
#[export] Instance older_first_dec : RelDecision older_first.
Proof. intros a b. unfold older_first. apply _. Defined.

Section access_keys.
Context {R : Type}.

Definition create_access_key (agent : Agent.Agent) (label : pystr) (kid : uuid) (tok : pystr)
  : MW R (AgentAccessKey.AgentAccessKey * pystr) :=
  at_ ← gets now;
  let raw_key := KEY_PREFIX ++ tok in
  let key := {| AgentAccessKey.id := kid; AgentAccessKey.agent_id := Agent.id agent;
                AgentAccessKey.label := label; AgentAccessKey.key_prefix := take 12 raw_key;
                AgentAccessKey.key_hash := hash_key raw_key; AgentAccessKey.created_at := at_ |} in
  add_access_key key;;
  commit;;
  mret (key, raw_key).

Definition list_access_keys (agent_id : pystr) : MW R (list AgentAccessKey.AgentAccessKey) :=
  select (λ d, merge_sort older_first (where_eq AgentAccessKey.agent_id agent_id (access_keys d))).

Definition delete_access_key (agent_id : pystr) (key_id : uuid) : MW R unit :=
  found ← select (λ d, access_keys d !! key_id);
  match found with
  | Some key => if AgentAccessKey.agent_id key == agent_id
                then delete_access_key_row key_id;; commit
                else raise (AccessKeyNotFoundError key_id)
  | None => raise (AccessKeyNotFoundError key_id)
  end.

Definition valid_access_key (d : db) (agent_id raw_key : pystr) : bool :=
  if startswith KEY_PREFIX raw_key
  then nonempty (filter (λ k, AgentAccessKey.agent_id k = agent_id ∧
                              AgentAccessKey.key_hash k = hash_key raw_key) (rows (access_keys d)))
  else false.
Definition is_valid_access_key (agent_id raw_key : pystr) : MW R bool :=
  select (λ d, valid_access_key d agent_id raw_key).

(** ** Lemmas *)
Lemma nonempty_filter {A} (P : A → Prop) `{∀ a, Decision (P a)} (l : list A) :
  nonempty (filter P l) = true ↔ ∃ a, a ∈ l ∧ P a.
Proof.
  destruct (filter P l) as [|b r] eqn:E; cbn.
  - split; [done|]. intros (a & Ha & HP).
    assert (a ∈ filter P l) by (by apply list_elem_of_filter). rewrite E in *. set_solver.
  - split; [|done]. intros _. exists b.
    assert (b ∈ filter P l) as [? ?]%list_elem_of_filter by (rewrite E; set_solver). done.
Qed.

Lemma valid_access_key_iff d agent_id raw_key :
  valid_access_key d agent_id raw_key = true ↔
  startswith KEY_PREFIX raw_key = true ∧
  ∃ kid k, access_keys d !! kid = Some k ∧ AgentAccessKey.agent_id k = agent_id ∧
           AgentAccessKey.key_hash k = hash_key raw_key.
Proof.
  unfold valid_access_key. destruct (startswith KEY_PREFIX raw_key); [|naive_solver].
  rewrite nonempty_filter. setoid_rewrite elem_of_rows. naive_solver.
Qed.

Lemma startswith_app p s : startswith p (p ++ s) = true.
Proof. apply bool_decide_eq_true_2. by exists s. Qed.

Lemma db_ok_delete_access_key d kid :
  db_ok d → db_ok (d <| access_keys := delete kid (access_keys d) |>).
Proof.
  intros [[] [] [Ka Kb Kc Kd Ke Kf Kg Kh] []]. split; [by split|by split| |by split].
  split; cbn; try done; first [by apply unique_by_delete|by apply map_Forall_delete].
Qed.

Lemma delete_access_key_publish d w agent_id key_id key :
  db_ok d → access_keys d !! key_id = Some key → AgentAccessKey.agent_id key = agent_id →
  delete_access_key agent_id key_id (publish d w : world R) =
  (publish (d <| access_keys := delete key_id (access_keys d) |>) w, Ok tt).
Proof.
  intros Hd Hk Ha. unfold delete_access_key. rewrite bind_run. unfold select. cbv beta iota.
  change (cur_db (publish d w)) with d. rewrite Hk, bool_decide_eq_true_2 by done.
  unfold delete_access_key_row. rewrite update_commit_run.
  by rewrite decide_True by (by apply db_ok_delete_access_key).
Qed.

Definition new_access_key (agent : Agent.Agent) (label : pystr) (kid : uuid) (tok : pystr) (at_ : datetime)
  : AgentAccessKey.AgentAccessKey :=
  {| AgentAccessKey.id := kid; AgentAccessKey.agent_id := Agent.id agent;
     AgentAccessKey.label := label; AgentAccessKey.key_prefix := take 12 (KEY_PREFIX ++ tok);
     AgentAccessKey.key_hash := hash_key (KEY_PREFIX ++ tok); AgentAccessKey.created_at := at_ |}.

Lemma create_access_key_publish d w agent label kid tok :
  db_ok d → agents d !! Agent.id agent = Some agent → access_keys d !! kid = None → pg_text label →
  (∀ kid' k, access_keys d !! kid' = Some k → AgentAccessKey.key_hash k ≠ hash_key (KEY_PREFIX ++ tok)) →
  let key := new_access_key agent label kid tok (now w) in
  create_access_key agent label kid tok (publish d w : world R) =
    (publish (put_access_key key d) w, Ok (key, KEY_PREFIX ++ tok)) ∧ db_ok (put_access_key key d).
Proof.
  intros Hd Ha Hk Ht Hh key. assert (db_ok (put_access_key key d)) as Hok
    by (apply db_ok_put_access_key; [done|by eexists|done|done]).
  split; [|done]. unfold create_access_key. rewrite bind_run. cbn [gets]. cbv beta iota zeta.
  unfold add_access_key. rewrite add_commit_then, decide_True; [done|].
  split; [|done]. apply bool_decide_eq_false_2. cbn. rewrite Hk. by intros [? [=]].
Qed.

(** An access key works from its creation to its deletion, for its agent only: a
    created key opens exactly its agent, and once deleted it opens none, while every
    other key is left as it was. *)
Theorem access_key_lifecycle (w : world R) agent label kid tok :
  db_ok (committed_db w) → agents (committed_db w) !! Agent.id agent = Some agent →
  access_keys (committed_db w) !! kid = None → pg_text label →
  (∀ kid' k, access_keys (committed_db w) !! kid' = Some k →
     AgentAccessKey.key_hash k ≠ hash_key (KEY_PREFIX ++ tok)) →
  let raw := KEY_PREFIX ++ tok in
  let '(w1, r1) := request (create_access_key agent label kid tok) w in
  let '(w2, r2) := request (delete_access_key (Agent.id agent) kid) w1 in
  (∃ key, r1 = Ok (key, raw)) ∧
  (∀ aid, valid_access_key (committed_db w1) aid raw = true ↔ aid = Agent.id agent) ∧
  r2 = Ok tt ∧ (∀ aid, valid_access_key (committed_db w2) aid raw = false) ∧
  access_keys (committed_db w2) = access_keys (committed_db w).
Proof.
  intros Hd Ha Hk Ht Hh raw. set (key := new_access_key agent label kid tok (now w)).
  destruct (create_access_key_publish (committed_db w) w agent label kid tok Hd Ha Hk Ht Hh) as [E1 Hd1].
  rewrite (request_publish _ _ _ _ _ E1).
  pose proof (delete_access_key_publish _ w (Agent.id agent) kid key Hd1
    (lookup_insert_eq _ _ _) eq_refl) as E2.
  rewrite (request_publish (delete_access_key _ _) (publish _ w) _ w _ E2).
  split_and!; [by eexists| |done| |].
  - intros aid. rewrite valid_access_key_iff. cbn. split.
    + intros (_ & kid' & k & Hl & Hka & Hkh). apply lookup_insert_Some in Hl as [[<- <-]|[_ Hl]]; [done|].
      by destruct (Hh kid' k Hl).
    + intros ->. split; [apply startswith_app|]. exists kid, key. by rewrite lookup_insert_eq.
  - intros aid. apply not_true_iff_false. rewrite valid_access_key_iff. cbn.
    rewrite delete_insert_eq, delete_id by done.
    intros (_ & kid' & k & Hl & _ & Hkh). by destruct (Hh kid' k Hl).
  - cbn. by rewrite delete_insert_eq, delete_id.
Qed.
End access_keys.


Theorem access_key_lifecycle_witness :
  let w := fixture_world (fixture_db [fixture_user] [fixture_agent]) ∅ in
  let raw := KEY_PREFIX ++ str "t" in
  let '(w1, r1) := request (create_access_key fixture_agent (str "default") 5%N (str "t")) w in
  let '(w2, r2) := request (delete_access_key (str "agt_1") 5%N) w1 in
  (∃ key, r1 = Ok (key, raw)) ∧
  (∀ aid, valid_access_key (committed_db w1) aid raw = true ↔ aid = str "agt_1") ∧
  r2 = Ok tt ∧ (∀ aid, valid_access_key (committed_db w2) aid raw = false) ∧
  access_keys (committed_db w2) = access_keys (committed_db w).
Proof.
  intros w. apply (access_key_lifecycle w fixture_agent (str "default") 5%N (str "t"));
    [by_decide|vm_compute; reflexivity|reflexivity|by_decide|by intros ? ?].
Defined.
