(* ===== verification/Ingress.v ===== *)
(** The edge's internal endpoints ([routers/ingress.py]): which container serves a
    request to an agent's hostname, with rate limits, access keys and metering. *)

From stdpp Require Import pretty.
From S2P Require Import Prelude PyText Codec Sha256 PyFloat Config Errors Plans Models Runtime IngressLimits World.
From S2P Require Import Schemas Fixtures Quota Hostnames Metering AccessKeys.

Record http_response := {
  hr_status : Z;
  hr_body : pystr;
  hr_headers : list (pystr * pystr);
}.
Definition bare (status : Z) : http_response := {| hr_status := status; hr_body := []; hr_headers := [] |}.
Definition plain_text (body : pystr) (status : Z) (headers : list (pystr * pystr)) : http_response :=
  {| hr_status := status; hr_body := body; hr_headers := headers |}.
Definition NEWLINE : pystr := [10%N].

(** [str(n)] of an integer. *)
Definition str_of_int (z : Z) : pystr := str (pretty z).

(** [hmac.compare_digest] on strings: only ASCII is accepted. *)
Definition is_ascii (s : pystr) : bool := forallb (λ c, (c <? 128)%N) s.
Definition compare_digest (a b : pystr) : result exn bool :=
  if is_ascii a && is_ascii b then Ok (a == b) else Err (ForeignError (str "TypeError")).

(** The headers the edge sends; a missing one is empty. *)
Record route_request := {
  x_agnt_host : pystr;
  x_agnt_internal_token : pystr;
  x_agnt_client_ip : pystr;
  authorization : pystr;
}.

Section ingress.
Context {R : Type} `{AgentRuntime R} `{CoreRole} `{UnicodeTables}.

(** [_agent_for_host] *)
Definition agent_for_host (cfg : GatewaySettings) (d : db) (host : pystr) : result exn (option Agent.Agent) :=
  match slug_from_host ucd_lower (agent_base_domain cfg) host with
  | None => Ok None
  | Some slug => scalar_one_or_none (where_eq Agent.slug slug (agents d))
  end.

(** [_agent_and_owner]: an inner join with the owner. *)
Definition agent_and_owner (cfg : GatewaySettings) (d : db) (host : pystr)
  : result exn (option (Agent.Agent * User.User)) :=
  match slug_from_host ucd_lower (agent_base_domain cfg) host with
  | None => Ok None
  | Some slug =>
      scalar_one_or_none
        (omap (λ a, (λ u, (a, u)) <$> users d !! Agent.user_id a) (where_eq Agent.slug slug (agents d)))
  end.

(** [_bearer_token] *)
Definition bearer_token (authorization : pystr) : pystr :=
  let '(scheme, token) := partition_on 32 authorization in
  if lower ucd_lower scheme == str "bearer" then strip token else [].

(** [_too_many_requests] *)
Definition too_many_requests (retry_after : Z) : http_response :=
  plain_text (str "Too many requests to this agent. Try again shortly." ++ NEWLINE) 429
    [(str "Retry-After", str_of_int retry_after)].

Definition tls_ask (cfg : GatewaySettings) (domain : pystr) : MW R http_response :=
  agent ← query (λ d, agent_for_host cfg d domain);
  mret (bare (if agent is Some _ then 200 else 404)).

(** One hit on a limiter of the process. *)
Definition hit_client (key : pystr) (limit : Z) : MW R (option Z) := λ w,
  let '(l, a) := hit MICROS (now w) key limit (per_client w) in (w <| per_client := l |>, Ok a).
Definition hit_agent (key : pystr) (limit : Z) : MW R (option Z) := λ w,
  let '(l, a) := hit MICROS (now w) key limit (per_agent w) in (w <| per_agent := l |>, Ok a).

Definition client_limit (cfg : GatewaySettings) (agent : Agent.Agent) : Z :=
  match Agent.rate_limit_rpm agent with
  | Some n => if n =? 0 then ingress_default_rpm_per_ip cfg else n
  | None => ingress_default_rpm_per_ip cfg
  end.
Definition client_key (agent : Agent.Agent) (ip : pystr) : pystr :=
  Agent.id agent ++ str "|" ++ (if nonempty ip then ip else str "unknown").

Definition upstreams (rt : R) (agent_id : pystr) : list ContainerInfo :=
  filter (λ c, truthy (ip_address c) = true) (core_get_containers rt agent_id).

Definition private_refusal : http_response :=
  plain_text (str "This agent is private. Send one of its access keys as 'Authorization: Bearer <key>'."
              ++ NEWLINE) 401
    [(str "WWW-Authenticate", str "Bearer realm=" ++ [34%N] ++ str "agent" ++ [34%N])].

(** The last part: pick a container and count the request. *)
Definition serve (agent : Agent.Agent) (draw : N) : MW R http_response :=
  ups ← gets (λ w, upstreams (runtime w) (Agent.id agent));
  match ups !! (N.to_nat draw mod length ups)%nat with
  | None => mret (plain_text (str "This agent is not running." ++ NEWLINE) 503 [])
  | Some target =>
      count_request agent;;
      mret {| hr_status := 204; hr_body := [];
              hr_headers := [(str "X-Agnt-Upstream",
                default [] (ip_address target) ++ str ":" ++ str_of_int (Agent.port agent))] |}
  end.

(** The plan's ceiling on what one agent serves, from which admins are exempt. *)
Definition within_agent_limit (agent : Agent.Agent) (owner : User.User) : MW R (option Z) :=
  exempt ← reads (λ _, is_exempt owner);
  if exempt : bool then mret None
  else hit_agent (Agent.id agent) (max_agent_rpm (limits_for (User.plan owner))).

Definition route (cfg : GatewaySettings) (draw : N) (req : route_request) : MW R http_response :=
  allowed ← reads (λ _, match ingress_internal_token cfg with
                        | Some expected => if nonempty expected
                            then compare_digest (x_agnt_internal_token req) expected else Ok false
                        | None => Ok false
                        end);
  if negb allowed then mret (bare 403) else
  found ← query (λ d, agent_and_owner cfg d (x_agnt_host req));
  match found with
  | None => mret (plain_text (str "No agent is deployed at this address." ++ NEWLINE) 404 [])
  | Some (agent, owner) =>
      retry_after ← hit_client (client_key agent (x_agnt_client_ip req)) (client_limit cfg agent);
      match retry_after with
      | Some s => mret (too_many_requests s)
      | None =>
          refused ← (if Agent.access agent == PRIVATE
                     then valid ← is_valid_access_key (Agent.id agent) (bearer_token (authorization req));
                          mret (negb valid)
                     else mret false);
          if refused : bool then mret private_refusal else
          retry_after ← within_agent_limit agent owner;
          match retry_after with
          | Some s => mret (too_many_requests s)
          | None => serve agent draw
          end
      end
  end.

(** ** The routing contract *)
Definition token_ok (cfg : GatewaySettings) (req : route_request) : Prop :=
  ∃ t, ingress_internal_token cfg = Some t ∧ t ≠ [] ∧ x_agnt_internal_token req = t ∧ is_ascii t = true.
Definition may_enter (d : db) (agent : Agent.Agent) (req : route_request) : bool :=
  (Agent.access agent != PRIVATE) ||
  valid_access_key d (Agent.id agent) (bearer_token (authorization req)).
(** The shared limiter after an admitted request; exempt owners do not use it. *)
Definition agent_admits (w : world R) (a : Agent.Agent) (u : User.User) (l : FixedWindowLimiter) : Prop :=
  (is_exempt u = Ok true ∧ l = per_agent w) ∨
  (is_exempt u = Ok false ∧
   hit MICROS (now w) (Agent.id a) (max_agent_rpm (limits_for (User.plan u))) (per_agent w) = (l, None)).
Definition upstream_header (c : ContainerInfo) (a : Agent.Agent) : pystr * pystr :=
  (str "X-Agnt-Upstream", default [] (ip_address c) ++ str ":" ++ str_of_int (Agent.port a)).

(** What the request found before any limit applied. *)
Record addressed (cfg : GatewaySettings) (req : route_request) (d : db) (a : Agent.Agent) (u : User.User)
  : Prop := {
  addressed_token : token_ok cfg req;
  addressed_agent : agent_and_owner cfg d (x_agnt_host req) = Ok (Some (a, u));
}.
Definition client_hit cfg req (w : world R) a : FixedWindowLimiter * option Z :=
  hit MICROS (now w) (client_key a (x_agnt_client_ip req)) (client_limit cfg a) (per_client w).

Inductive route_result cfg (req : route_request) (d : db) (w : world R)
  : world R → result exn http_response → Prop :=
| route_error e : route_result cfg req d w w (Err e)
| route_early r : hr_status r = 403 ∨ hr_status r = 404 → hr_headers r = [] → route_result cfg req d w w (Ok r)
| route_client_limited a u l s :
    addressed cfg req d a u → client_hit cfg req w a = (l, Some s) →
    route_result cfg req d w (w <| per_client := l |>) (Ok (too_many_requests s))
| route_private a u l :
    addressed cfg req d a u → client_hit cfg req w a = (l, None) → may_enter d a req = false →
    route_result cfg req d w (w <| per_client := l |>) (Ok private_refusal)
| route_bad_owner a u l e :
    addressed cfg req d a u → client_hit cfg req w a = (l, None) → may_enter d a req = true →
    is_exempt u = Err e → route_result cfg req d w (w <| per_client := l |>) (Err e)
| route_agent_limited a u l la s :
    addressed cfg req d a u → client_hit cfg req w a = (l, None) → may_enter d a req = true →
    is_exempt u = Ok false →
    hit MICROS (now w) (Agent.id a) (max_agent_rpm (limits_for (User.plan u))) (per_agent w) = (la, Some s) →
    route_result cfg req d w (w <| per_client := l |> <| per_agent := la |>) (Ok (too_many_requests s))
| route_down a u l la r :
    addressed cfg req d a u → client_hit cfg req w a = (l, None) → may_enter d a req = true →
    agent_admits w a u la → upstreams (runtime w) (Agent.id a) = [] →
    hr_status r = 503 → hr_headers r = [] →
    route_result cfg req d w (w <| per_client := l |> <| per_agent := la |>) (Ok r)
| route_served a u l la c :
    addressed cfg req d a u → client_hit cfg req w a = (l, None) → may_enter d a req = true →
    agent_admits w a u la → c ∈ upstreams (runtime w) (Agent.id a) →
    route_result cfg req d w
      (w <| per_client := l |> <| per_agent := la |>
         <| pending := bump (request_key_of a (now w)) 1 (pending w) |>)
      (Ok {| hr_status := 204; hr_body := []; hr_headers := [upstream_header c a] |}).

Lemma token_check cfg req :
  match (match ingress_internal_token cfg with
         | Some expected => if nonempty expected
             then compare_digest (x_agnt_internal_token req) expected else Ok false
         | None => Ok false
         end) with
  | Ok true => token_ok cfg req
  | _ => True
  end.
Proof.
  unfold token_ok. destruct (ingress_internal_token cfg) as [[|c t]|]; try done. cbn [nonempty].
  unfold compare_digest. destruct (is_ascii _) eqn:E1; [|done].
  destruct (is_ascii (c :: t)) eqn:E2; [|done]. cbn. case_bool_decide; [|done].
  by exists (c :: t).
Qed.

Lemma upstreams_pick (rt : R) aid draw :
  match upstreams rt aid !! (N.to_nat draw mod length (upstreams rt aid))%nat with
  | Some c => c ∈ upstreams rt aid
  | None => upstreams rt aid = []
  end.
Proof.
  destruct (upstreams rt aid !! _) as [c|] eqn:E; [by eapply list_elem_of_lookup_2|].
  apply lookup_ge_None in E. destruct (upstreams rt aid) as [|x l]; [done|].
  pose proof (Nat.mod_upper_bound (N.to_nat draw) (length (x :: l)) ltac:(done)). lia.
Qed.

Lemma serve_result cfg req draw d w a u l la :
  addressed cfg req d a u → client_hit cfg req w a = (l, None) → may_enter d a req = true →
  agent_admits w a u la →
  let '(w', r) := serve a draw (w <| per_client := l |> <| per_agent := la |>) in
  route_result cfg req d w w' r.
Proof.
  intros Hf Hc Hm Ha. unfold serve. rewrite bind_run. cbn [gets]. cbv beta iota.
  change (runtime (w <| per_client := l |> <| per_agent := la |>)) with (runtime w).
  pose proof (upstreams_pick (runtime w) (Agent.id a) draw) as Hp.
  destruct (upstreams _ _ !! _) as [c|].
  - by apply (route_served cfg req d w a u l la c).
  - by eapply (route_down cfg req d w a u l la).
Qed.

Lemma route_meets cfg draw req d (w : world R) :
  cur_db w = d → let '(w', r) := route cfg draw req w in route_result cfg req d w w' r.
Proof.
  intros Hd. unfold route. rewrite bind_run. unfold reads at 1. cbv beta iota.
  pose proof (token_check cfg req) as Ht.
  set (check := match ingress_internal_token cfg with Some _ => _ | None => _ end) in *.
  destruct check as [[]|e]; cbv beta iota; cbn [negb];
    [|apply route_early; [cbn; tauto|done]|apply route_error].
  rewrite bind_run. unfold query. rewrite Hd. cbv beta iota.
  destruct (agent_and_owner cfg d (x_agnt_host req)) as [[[a u]|]|e] eqn:Ef; cbv beta iota;
    [|apply route_early; [cbn; tauto|done]|apply route_error].
  assert (addressed cfg req d a u) as Ha by done.
  rewrite bind_run. unfold hit_client at 1. fold (client_hit cfg req w a).
  destruct (client_hit cfg req w a) as [l [s|]] eqn:Ec; cbv beta iota;
    [by eapply route_client_limited|].
  set (w1 := w <| per_client := l |>).
  assert ((if Agent.access a == PRIVATE
           then valid ← is_valid_access_key (Agent.id a) (bearer_token (authorization req));
                mret (negb valid)
           else mret false) w1 = (w1, Ok (negb (may_enter d a req)))) as Hm.
  { unfold may_enter. case_bool_decide; [|done]. unfold is_valid_access_key, select.
    rewrite bind_run. cbv beta iota. change (cur_db w1) with (cur_db w). by rewrite Hd. }
  rewrite bind_run, Hm. cbv beta iota.
  destruct (may_enter d a req) eqn:Em; cbn [negb]; [|by eapply route_private].
  rewrite bind_run. unfold within_agent_limit. rewrite bind_run. unfold reads. cbv beta iota.
  destruct (is_exempt u) as [[]|e] eqn:Ex; cbv beta iota.
  - pose proof (serve_result cfg req draw d w a u l (per_agent w) Ha Ec Em) as Hs.
    unfold mret, M_ret. cbv beta iota.
    replace w1 with (w <| per_client := l |> <| per_agent := per_agent w |>) by (by destruct w).
    apply Hs. by left.
  - unfold hit_agent. change (per_agent w1) with (per_agent w). change (now w1) with (now w).
    destruct (hit MICROS (now w) (Agent.id a) _ (per_agent w)) as [la [s|]] eqn:Eh; cbv beta iota.
    + by eapply route_agent_limited.
    + apply (serve_result cfg req draw d w a u l la); try done. by right.
  - by eapply route_bad_owner.
Qed.

(** Routing never touches the database, the containers or the clock. *)
Lemma route_request_meets cfg draw req (w : world R) :
  let '(w', r) := request (route cfg draw req) w in
  route_result cfg req (committed_db w) (begin_session w) w' r ∧ committed_db w' = committed_db w.
Proof.
  unfold request. pose proof (route_meets cfg draw req (committed_db w) (begin_session w) eq_refl) as Hr.
  destruct (route cfg draw req (begin_session w)) as [w' r].
  assert (sess w' = sess (begin_session w)) as Hs by (by destruct Hr).
  assert (begin_session w' = w') as ->; [|split; [done|by unfold committed_db; rewrite Hs]].
  destruct w'. cbn in *. unfold begin_session, set_sess. cbn. by rewrite Hs.
Qed.

Lemma agent_and_owner_sound cfg d host a u :
  db_ok d → agent_and_owner cfg d host = Ok (Some (a, u)) →
  agents d !! Agent.id a = Some a ∧ users d !! Agent.user_id a = Some u ∧
  slug_from_host ucd_lower (agent_base_domain cfg) host = Some (Agent.slug a).
Proof.
  intros Hd. unfold agent_and_owner. destruct (slug_from_host _ _ _) as [slug|] eqn:Es; [|done].
  destruct (where_eq_cases Agent.slug slug (agents d)) as [(k & b & Hk & Hs & ->)|[-> _]];
    [by destruct Hd as [_ [] _ _]| |done].
  cbn. destruct (users d !! Agent.user_id b) as [u'|] eqn:Eu; [|done]. cbn. intros [= <- <-].
  rewrite (db_ok_agent_id d k b) by done. by rewrite Hs.
Qed.
End ingress.

Section ingress_theorems.
Context {R : Type} `{AgentRuntime R} `{CoreRole} `{UnicodeTables}.
Implicit Types w : world R.

(** C3: an upstream address is revealed only to a caller with the shared token, for the
    agent whose hostname was asked for, when the agent is public or the caller presented
    one of its own access keys; the address is that of one of the agent's containers at
    the agent's port, and the request is counted once for the owner. *)
Theorem route_only_when_allowed cfg draw req w w' r :
  db_ok (committed_db w) →
  request (route cfg draw req) w = (w', Ok r) → hr_status r = 204 →
  let d := committed_db w in
  token_ok cfg req ∧
  ∃ a c, agents d !! Agent.id a = Some a ∧
    slug_from_host ucd_lower (agent_base_domain cfg) (x_agnt_host req) = Some (Agent.slug a) ∧
    (Agent.access a = PRIVATE →
       ∃ kid k, access_keys d !! kid = Some k ∧ AgentAccessKey.agent_id k = Agent.id a ∧
         AgentAccessKey.key_hash k = hash_key (bearer_token (authorization req))) ∧
    c ∈ core_get_containers (runtime w) (Agent.id a) ∧ truthy (ip_address c) = true ∧
    hr_headers r = [upstream_header c a] ∧
    pending w' = bump (Agent.id a, Agent.user_id a, hour_start (now w)) 1 (pending w).
Proof.
  intros Hd E Hst d. pose proof (route_request_meets cfg draw req w) as Hr. rewrite E in Hr.
  destruct Hr as [Hr _]. inversion Hr as [|? Hs| | | | | |a u l la c [Htok Hag] ? Hm ? Hc];
    subst; try done; try (exfalso; lia).
  split; [done|]. destruct (agent_and_owner_sound _ _ _ _ _ Hd Hag) as (Ha & _ & Hslug).
  apply list_elem_of_filter in Hc as [Hip Hc]. exists a, c. split_and!; try done.
  intros Hp. unfold may_enter in Hm. rewrite Hp in Hm. cbn in Hm.
  by apply valid_access_key_iff in Hm as [_ ?].
Qed.

(** Routing changes nothing but its own counters: the database and the containers
    are as before, a request is counted exactly when it is served, and one that is turned
    away for its token, address or access key takes nothing from the allowance the
    agent's callers share. *)
Theorem route_frame cfg draw req w :
  let '(w', r) := request (route cfg draw req) w in
  committed_db w' = committed_db w ∧ runtime w' = runtime w ∧ now w' = now w ∧
  match r with
  | Ok resp =>
      (hr_status resp ≠ 204 → pending w' = pending w) ∧
      (hr_status resp = 204 → pending_total (pending w') = pending_total (pending w) + 1) ∧
      (hr_status resp = 401 ∨ hr_status resp = 403 ∨ hr_status resp = 404 → per_agent w' = per_agent w)
  | Err _ => pending w' = pending w ∧ per_agent w' = per_agent w
  end.
Proof.
  pose proof (route_request_meets cfg draw req w) as Hr.
  destruct (request (route cfg draw req) w) as [w' r]. destruct Hr as [Hr Hd].
  split; [done|]. destruct Hr; cbn -[pending_total hit] in *; split_and!; try done; try (intros; lia).
  intros _. apply pending_total_bump.
Qed.

(** ** Runs of routed requests *)
(** The agent a response served, if it served one. *)
Definition served cfg (d : db) (req : route_request) (r : result exn http_response) : option pystr :=
  match r, agent_and_owner cfg d (x_agnt_host req) with
  | Ok resp, Ok (Some (a, _)) => if hr_status resp =? 204 then Some (Agent.id a) else None
  | _, _ => None
  end.

(** [route_run cfg w0 log w]: requests routed one after the other from [w0], at times that do
    not go back, took the process to [w]; [log] has the time and agent of each served one. *)
Inductive route_run cfg w0 : list (Z * pystr) → world R → Prop :=
| route_start : route_run cfg w0 [] w0
| route_next log w t draw req w' r log' :
    route_run cfg w0 log w → now w ≤ t → request (route cfg draw req) (w <| now := t |>) = (w', r) →
    log' = match served cfg (committed_db w) req r with Some aid => (t, aid) :: log | None => log end →
    route_run cfg w0 log' w'.

(** What a request does to the shared limiter: at most one hit; on an agent whose owner is
    held to the plan, a served request is an admitted hit. *)
Lemma route_agent_hit cfg draw req w w' r :
  request (route cfg draw req) w = (w', r) →
  (per_agent w' = per_agent w ∧
     ∀ aid a u, served cfg (committed_db w) req r = Some aid →
       agent_and_owner cfg (committed_db w) (x_agnt_host req) = Ok (Some (a, u)) → is_exempt u = Ok true) ∨
  (∃ a u ans, agent_and_owner cfg (committed_db w) (x_agnt_host req) = Ok (Some (a, u)) ∧
     hit MICROS (now w) (Agent.id a) (max_agent_rpm (limits_for (User.plan u))) (per_agent w)
       = (per_agent w', ans) ∧
     (is_Some (served cfg (committed_db w) req r) → ans = None)).
Proof.
  intros E. pose proof (route_request_meets cfg draw req w) as Hr. rewrite E in Hr.
  destruct Hr as [Hr _]. set (d := committed_db w) in *. unfold served.
  inversion Hr as [e|r0 Hs|a u l s [_ Hag]|a u l [_ Hag]|a u l e [_ Hag]|a u l la s [_ Hag] ? ? ? Hh
    |a u l la r0 [_ Hag] ? ? Hadm ? Hst|a u l la c [_ Hag] ? ? Hadm]; subst; try rewrite Hag; cbn.
  1-5: left; split; [done|]; intros; repeat case_match; simplify_eq; cbn in *; lia.
  - right. exists a, u, (Some s). split_and!; [done|exact Hh|by intros [? [=]]].
  - destruct Hadm as [[Hex ->]|[Hex Hh]]; [left|right].
    + split; [done|]. intros aid a' u' _ [= <- <-]. done.
    + exists a, u, None. done.
  - destruct Hadm as [[Hex ->]|[Hex Hh]]; [left|right].
    + split; [done|]. intros aid a' u' _ [= <- <-]. done.
    + exists a, u, None. done.
Qed.

Lemma route_keeps cfg draw req w w' r :
  request (route cfg draw req) w = (w', r) → committed_db w' = committed_db w ∧ now w' = now w.
Proof.
  intros E. pose proof (route_request_meets cfg draw req w) as Hr. rewrite E in Hr.
  destruct Hr as [Hr Hd]. split; [done|]. by destruct Hr.
Qed.

Lemma window_of_mono t t' : t ≤ t' → window_of MICROS 60 t ≤ window_of MICROS 60 t'.
Proof. intros. unfold window_of. by apply Z.div_le_mono. Qed.

(** The shared limiter has admitted every served request of [aid] in window [win], and at
    most [L] of them. *)
Record rate_inv (aid : pystr) (win L : Z) (d : db) (log : list (Z * pystr)) w : Prop := {
  rate_db : committed_db w = d;
  rate_window : window_seconds (per_agent w) = 60 ∧
                window (per_agent w) ≤ window_of MICROS 60 (now w);
  rate_log : ∃ full, refines MICROS (per_agent w) full ∧
    admitted_in MICROS 60 win aid log ≤ admitted_in MICROS 60 win aid full ≤ Z.max 0 L;
}.

Lemma rate_step cfg aid a u win d log w t draw req w' r :
  db_ok d → agents d !! aid = Some a → held_to_plan d (Agent.user_id a) u →
  let L := max_agent_rpm (limits_for (User.plan u)) in
  rate_inv aid win L d log w → now w ≤ t → request (route cfg draw req) (w <| now := t |>) = (w', r) →
  rate_inv aid win L d
    match served cfg d req r with Some aid' => (t, aid') :: log | None => log end w'.
Proof.
  intros Hok Ha [Hu Hex] L [Hd [Hws Hwin] (full & Href & Hle)] Ht E.
  destruct (route_keeps _ _ _ _ _ _ E) as [Hd' Hn'].
  change (committed_db w' = committed_db w) in Hd'. change (now w' = t) in Hn'. rewrite Hd in Hd'.
  pose proof (window_of_mono _ _ Ht) as Hmono.
  assert (∀ a' u', agent_and_owner cfg d (x_agnt_host req) = Ok (Some (a', u')) →
    Agent.id a' = aid → u' = u) as Howner.
  { intros a' u' Hag Hid. destruct (agent_and_owner_sound _ _ _ _ _ Hok Hag) as (Ha' & Hu' & _).
    rewrite Hid, Ha in Ha'. injection Ha' as <-. congruence. }
  assert (∀ aid', served cfg d req r = Some aid' → ∃ a' u',
    agent_and_owner cfg d (x_agnt_host req) = Ok (Some (a', u')) ∧ aid' = Agent.id a') as Hserved.
  { unfold served. intros aid' Hs. repeat case_match; simplify_eq; eauto. }
  destruct (route_agent_hit _ _ _ _ _ _ E) as [[Hp Hx]|(a' & u' & ans & Hag & Hh & Hans)];
    change (committed_db (w <| now := t |>)) with (committed_db w) in *; rewrite Hd in *.
  - cbn in Hp. split; [done|rewrite Hp, Hn'; split; [done|lia]|].
    exists full. rewrite Hp. split; [done|]. destruct (served cfg d req r) as [aid'|] eqn:Es; [|done].
    rewrite admitted_in_cons. cbn. case_decide as Hw; [|lia]. destruct Hw as [_ ->].
    destruct (Hserved aid eq_refl) as (a' & u' & Hag & Hid).
    pose proof (Hx aid a' u' eq_refl Hag) as Hx'.
    rewrite (Howner a' u' Hag (eq_sym Hid)), Hex in Hx'. done.
  - cbn in Hh. pose proof (hit_refines MICROS (per_agent w) full
      {| h_now := t; h_key := Agent.id a'; h_limit := max_agent_rpm (limits_for (User.plan u')) |}
      Href) as Hstep. cbn [h_now h_key h_limit] in Hstep. rewrite Hws, Hh in Hstep.
    specialize (Hstep ltac:(lia)).
    pose proof (spec_hit_bound MICROS 60 win aid L {| h_now := t; h_key := Agent.id a';
      h_limit := max_agent_rpm (limits_for (User.plan u')) |} full) as Hb.
    destruct (spec_hit _ _ _ full) as [full' ans'] eqn:Esp. destruct Hstep as (-> & Href' & Hws' & Hw').
    split; [done|rewrite Hn', Hw'; split; [congruence|lia]|].
    exists full'. split; [done|]. split.
    + destruct (served cfg d req r) as [aid'|] eqn:Es.
      * rewrite (Hans (ltac:(by eexists))) in Esp. destruct (Hserved aid' eq_refl) as (a2 & u2 & Hag2 & ->).
        rewrite Hag in Hag2. injection Hag2 as <- <-.
        unfold spec_hit in Esp. case_match; simplify_eq. rewrite !admitted_in_cons. cbn. lia.
      * unfold spec_hit in Esp. case_match; simplify_eq; [lia|].
        rewrite admitted_in_cons. case_decide; lia.
    + apply Hb; [|lia]. cbn. intros Hid. by rewrite (Howner a' u' Hag Hid).
Qed.

Lemma window_rate_bound cfg w0 log w aid a u win :
  route_run cfg w0 log w → db_ok (committed_db w0) → agents (committed_db w0) !! aid = Some a →
  held_to_plan (committed_db w0) (Agent.user_id a) u → per_agent w0 = per_agent0 → 0 ≤ now w0 →
  admitted_in MICROS 60 win aid log ≤ max_agent_rpm (limits_for (User.plan u)).
Proof.
  intros Hrun Hok Ha Hu Hl Hn.
  pose proof (max_agent_rpm_pos (User.plan u)) as Hpos.
  assert (rate_inv aid win (max_agent_rpm (limits_for (User.plan u))) (committed_db w0) log w)
    as [_ _ (full & _ & Hle)]; [|lia].
  induction Hrun as [|log w t draw req w' r log' Hrun IH Ht E ->].
  - split; [done| |].
    + rewrite Hl. split; [done|]. cbn. unfold window_of. apply Z.le_trans with 0; [lia|].
      apply Z.div_pos; [done|by vm_compute].
    + exists []. rewrite Hl. split; [apply refines_new|]. unfold admitted_in. cbn. lia.
  - rewrite (rate_db _ _ _ _ _ _ IH). by eapply rate_step.
Qed.

(** The requests of [aid] that were served from [t0] until before [t1]. *)
Definition MINUTE : Z := 60 * MICROS.
Definition served_between (aid : pystr) (t0 t1 : datetime) (log : list (datetime * pystr)) : Z :=
  Z.of_nat (length (filter (λ e, e.2 = aid ∧ t0 ≤ e.1 < t1) log)).
Lemma served_between_cons aid t0 t1 e log :
  served_between aid t0 t1 (e :: log) =
  served_between aid t0 t1 log + (if decide (e.2 = aid ∧ t0 ≤ e.1 < t1) then 1 else 0).
Proof. unfold served_between. rewrite filter_cons. case_decide; cbn [length]; lia. Qed.
Lemma in_window t m : window_of MICROS 60 t = m ↔ m * MINUTE ≤ t < (m + 1) * MINUTE.
Proof.
  unfold window_of, MINUTE, MICROS. change (60 * 1000000) with 60000000.
  pose proof (Z.div_mod t 60000000 ltac:(lia)). pose proof (Z.mod_pos_bound t 60000000 ltac:(lia)). lia.
Qed.
Lemma minute_is_window aid m log :
  served_between aid (m * MINUTE) ((m + 1) * MINUTE) log = admitted_in MICROS 60 m aid log.
Proof.
  induction log as [|e log IH]; [done|]. rewrite served_between_cons, admitted_in_cons, IH. f_equal.
  pose proof (in_window e.1 m). repeat case_decide; naive_solver.
Qed.
(** Sixty seconds from anywhere meet two windows. *)
Lemma any_minute aid t log :
  let m := t / MINUTE in
  served_between aid t (t + MINUTE) log ≤ admitted_in MICROS 60 m aid log + admitted_in MICROS 60 (m + 1) aid log.
Proof.
  intros m. assert (m * MINUTE ≤ t < (m + 1) * MINUTE) as Hm by (by apply in_window).
  induction log as [|e log IH]; [done|]. rewrite served_between_cons, !admitted_in_cons.
  pose proof (in_window e.1 m). pose proof (in_window e.1 (m + 1)).
  assert (t ≤ e.1 < t + MINUTE → e.1 < (m + 1) * MINUTE ∨ (m + 1) * MINUTE ≤ e.1 < (m + 1 + 1) * MINUTE) by lia.
  assert (t ≤ e.1 → m * MINUTE ≤ e.1) by lia.
  repeat case_decide; first [lia|naive_solver].
Qed.

(** C31: the plan's ceiling holds at the edge: from a limiter that has counted nothing, with a
    clock that does not go back and as long as the database stays as it is, however requests
    arrive, from whatever clients and with whatever keys, an agent of an account held to its plan
    is served at most the plan's requests per minute in any minute of the clock, and so at most
    twice as many in any sixty seconds. *)
Theorem agent_rate_bound cfg w0 log w aid a u :
  route_run cfg w0 log w → db_ok (committed_db w0) → agents (committed_db w0) !! aid = Some a →
  held_to_plan (committed_db w0) (Agent.user_id a) u → per_agent w0 = per_agent0 → 0 ≤ now w0 →
  let L := max_agent_rpm (limits_for (User.plan u)) in
  (∀ m, served_between aid (m * MINUTE) ((m + 1) * MINUTE) log ≤ L) ∧
  (∀ t, served_between aid t (t + MINUTE) log ≤ 2 * L).
Proof.
  intros Hrun Hok Ha Hu Hl Hn L.
  assert (∀ win, admitted_in MICROS 60 win aid log ≤ L) as Hw by (intros; by eapply window_rate_bound).
  split; intros t.
  - by rewrite minute_is_window.
  - pose proof (any_minute aid t log) as Hm. cbv zeta in Hm.
    pose proof (Hw (t / MINUTE)). pose proof (Hw (t / MINUTE + 1)). lia.
Qed.
End ingress_theorems.

(** ** Witnesses *)
Definition ingress_cfg : GatewaySettings :=
  default_settings <| agent_base_domain := Some (str "run.test") |>
                   <| ingress_internal_token := Some (str "tok") |>.
Definition ingress_world : world fixture_rt :=
  fixture_world (fixture_db [fixture_user] [fixture_agent <| Agent.access := PUBLIC |>])
    {[ str "agt_1" := fixture_containers 2 ]}.
Definition ingress_request : route_request := {|
  x_agnt_host := str "bot-abc123.run.test"; x_agnt_internal_token := str "tok";
  x_agnt_client_ip := str "1.2.3.4"; authorization := [] |}.

Theorem route_only_when_allowed_witness :
  ∃ w' r, request (route ingress_cfg 0%N ingress_request) ingress_world = (w', Ok r) ∧
    hr_headers r = [(str "X-Agnt-Upstream", str "10.89.0.5:8080")] ∧
    token_ok ingress_cfg ingress_request ∧
    ∃ a c, c ∈ core_get_containers (runtime ingress_world) (Agent.id a) ∧
           hr_headers r = [upstream_header c a].
Proof.
  set (p := request (route ingress_cfg 0%N ingress_request) ingress_world).
  set (r := {| hr_status := 204; hr_body := [];
               hr_headers := [(str "X-Agnt-Upstream", str "10.89.0.5:8080")] |}).
  assert (request (route ingress_cfg 0%N ingress_request) ingress_world = (p.1, Ok r)) as E
    by (vm_compute; reflexivity).
  destruct (route_only_when_allowed ingress_cfg 0%N ingress_request ingress_world p.1 r
    ltac:(by_decide) E eq_refl) as (Htok & a & c & _ & _ & _ & Hc & _ & Hh & _).
  exists p.1, r. split_and!; [exact E|reflexivity|exact Htok|]. exists a, c. split; [exact Hc|exact Hh].
Defined.

Theorem agent_rate_bound_witness :
  let p := request (route ingress_cfg 0%N ingress_request) (ingress_world <| now := 0 |>) in
  served ingress_cfg (committed_db ingress_world) ingress_request p.2 = Some (str "agt_1") ∧
  served_between (str "agt_1") 0 MINUTE [(0, str "agt_1")] ≤ 300 ∧
  served_between (str "agt_1") (-5) (-5 + MINUTE) [(0, str "agt_1")] ≤ 2 * 300.
Proof.
  intros p. split; [vm_compute; reflexivity|].
  destruct (agent_rate_bound ingress_cfg ingress_world [(0, str "agt_1")] p.1 (str "agt_1")
           (fixture_agent <| Agent.access := PUBLIC |>) fixture_user) as [H1 H2].
  - eapply (route_next ingress_cfg ingress_world [] ingress_world 0 0%N ingress_request p.1 p.2);
      [apply route_start|vm_compute; discriminate|apply surjective_pairing|vm_compute; reflexivity].
  - by_decide.
  - vm_compute. reflexivity.
  - split; vm_compute; reflexivity.
  - reflexivity.
  - vm_compute. discriminate.
  - split; [exact (H1 0)|exact (H2 (-5))].
Defined.
