(* ===== verification/Invites.v ===== *)
(** Invite codes ([services/invite_service.py]), registration and login
    ([services/auth_service.py], [security/passwords.py]).

    [iid] and [uid] are the UUIDs of new rows, [tok] and [salt] the random token and the
    bcrypt salt.  The password library is an interface on bytes; passwords and hashes are
    UTF-8 encoded for it. *)

From S2P Require Import Prelude PyText Codec Sha256 PyFloat Config Errors Plans Models Runtime IngressLimits World.
From S2P Require Import Schemas Fixtures AccessKeys.

(** [bcrypt.hashpw] and [bcrypt.checkpw]; either may raise. *)
Class Bcrypt := {
  bcrypt_hashpw : list N → pystr → result exn (list N);
  bcrypt_checkpw : list N → list N → result exn bool;
}.
(** Documented behaviour: a password checks against its own hash. *)
Class BcryptLaws `{Bcrypt} : Prop :=
  bcrypt_check_hash raw salt h : bcrypt_hashpw raw salt = Ok h → bcrypt_checkpw raw h = Ok true.

(** [s.encode("utf-8")] and [bs.decode("utf-8")]; a [UnicodeError] is a [ValueError]. *)
Definition encode_text (s : pystr) : result exn (list N) :=
  match utf8_encode s with Some bs => Ok bs | None => Err ValueError end.
Definition decode_text (bs : list N) : result exn pystr :=
  match utf8_decode bs with Some s => Ok s | None => Err ValueError end.

Definition hash_password `{Bcrypt} (raw_password salt : pystr) : result exn pystr :=
  raw ← encode_text raw_password;
  h ← bcrypt_hashpw raw salt;
  decode_text h.
Definition verify_password `{Bcrypt} (raw_password password_hash : pystr) : result exn bool :=
  raw ← encode_text raw_password;
  h ← encode_text password_hash;
  bcrypt_checkpw raw h.

(** The stored text of a hash gives back the bytes bcrypt made. *)
Lemma verify_own_hash `{BcryptLaws} raw salt h :
  hash_password raw salt = Ok h → verify_password raw h = Ok true.
Proof.
  unfold hash_password, verify_password. destruct (encode_text raw) as [bs|e]; cbn; [|done].
  destruct (bcrypt_hashpw bs salt) as [hb|e] eqn:Eh; cbn; [|done]. unfold decode_text, encode_text.
  destruct (utf8_decode hb) as [t|] eqn:Ed; [|done]. intros [= <-].
  apply utf8_iff in Ed as ->. cbn. by eapply bcrypt_check_hash.
Qed.

Definition INVITE_PREFIX : pystr := str "inv_".
Definition DAYS_MICROS : Z := 86400 * 1000000.

Definition invite_newest_first (a b : Invite.Invite) : Prop := Invite.created_at b ≤ Invite.created_at a.
#[export] Instance invite_newest_first_dec : RelDecision invite_newest_first.
Proof. intros a b. unfold invite_newest_first. apply _. Defined.

Section invites.
Context {R : Type} `{CoreRole} `{Bcrypt}.

(** [_hash_code] *)
Definition hash_code (code : pystr) : pystr := sha256_hex code.

Definition create_invite (created_by : uuid) (note : pystr) (max_uses : Z) (expires_in_days : option Z)
  (iid : uuid) (tok : pystr) : MW R (Invite.Invite * pystr) :=
  at_ ← gets now;
  let raw_code := INVITE_PREFIX ++ tok in
  let invite := {|
    Invite.id := iid;
    Invite.code_hash := hash_code raw_code;
    Invite.code_prefix := take 10 raw_code;
    Invite.note := note;
    Invite.created_by := Some created_by;
    Invite.max_uses := max_uses;
    Invite.use_count := 0;
    Invite.expires_at := match expires_in_days with
                         | Some n => if n =? 0 then None else Some (at_ + n * DAYS_MICROS)
                         | None => None
                         end;
    Invite.revoked_at := None;
    Invite.created_at := at_ |} in
  add_invite invite;;
  commit;;
  mret (invite, raw_code).

Definition list_invites : MW R (list Invite.Invite) :=
  select (λ d, merge_sort invite_newest_first (rows (invites d))).

Definition revoke_invite (invite_id : uuid) : MW R unit :=
  found ← select (λ d, invites d !! invite_id);
  match found with
  | None => raise (InviteNotFoundError invite_id)
  | Some invite =>
      match Invite.revoked_at invite with
      | Some _ => mret tt
      | None =>
          at_ ← gets now;
          save_invite (invite <| Invite.revoked_at := Some at_ |>);;
          commit
      end
  end.

(** [select(Invite).where(Invite.code_hash == ...)], with or without [with_for_update()]. *)
Record invite_select := { where_code_hash : pystr; for_update : bool }.
Definition claim_query (code : pystr) : invite_select :=
  {| where_code_hash := hash_code (strip code); for_update := true |}.
Definition run_select (q : invite_select) (d : db) : result exn (option Invite.Invite) :=
  scalar_one_or_none (where_eq Invite.code_hash (where_code_hash q) (invites d)).

(** Lock a usable invite and count one use, without committing. *)
Definition claim_invite (code : pystr) : MW R Invite.Invite :=
  found ← query (run_select (claim_query code));
  at_ ← gets now;
  match found with
  | None => raise InvalidInviteError
  | Some invite =>
      if Invite.status at_ invite != InvActive then raise InvalidInviteError
      else let invite := invite <| Invite.use_count := Invite.use_count invite + 1 |> in
           save_invite invite;;
           mret invite
  end.

(** The new account, with the column defaults of the model. *)
Definition new_user (uid : uuid) (email password_hash name : pystr) (at_ : datetime) : User.User := {|
  User.id := uid; User.email := email; User.password_hash := password_hash; User.name := name;
  User.role := role_int OPERATOR; User.plan := str "free"; User.stripe_customer_id := None;
  User.stripe_subscription_id := None; User.subscription_status := None; User.is_active := true;
  User.created_at := at_ |}.

Definition register_user (cfg : GatewaySettings) (email password name : pystr)
  (invite_code : option pystr) (uid : uuid) (salt : pystr) : MW R User.User :=
  if registration_mode cfg == RegClosed then raise RegistrationClosedError else
  existing ← query (λ d, scalar_one_or_none (where_eq User.email email (users d)));
  match existing with
  | Some _ => raise (EmailAlreadyRegisteredError email)
  | None =>
      (if registration_mode cfg == RegInvite
       then match invite_code with
            | Some code => if nonempty code && nonempty (strip code)
                           then claim_invite code;; mret tt
                           else raise InvalidInviteError
            | None => raise InvalidInviteError
            end
       else mret tt);;
      at_ ← gets now;
      password_hash ← reads (λ _, hash_password password salt);
      let user := new_user uid email password_hash name at_ in
      add_user user;;
      commit;;
      mret user
  end.

Definition authenticate_user (email password : pystr) : MW R User.User :=
  found ← query (λ d, scalar_one_or_none (where_eq User.email email (users d)));
  match found with
  | Some user =>
      if User.is_active user
      then matches ← reads (λ _, verify_password password (User.password_hash user));
           if matches : bool then mret user else raise (AuthenticationError (str "Invalid email or password."))
      else raise (AuthenticationError (str "Invalid email or password."))
  | None => raise (AuthenticationError (str "Invalid email or password."))
  end.

(** ** What registering does *)
(** The invite a code names and may still use, at instant [t]. *)
Definition usable (d : db) (t : datetime) (code : pystr) (i : Invite.Invite) : Prop :=
  invites d !! Invite.id i = Some i ∧ Invite.code_hash i = hash_code (strip code) ∧
  Invite.status t i = InvActive.
Definition used_once (i : Invite.Invite) : Invite.Invite :=
  i <| Invite.use_count := Invite.use_count i + 1 |>.

(** The database a registration starts its account on: as it is, or with the invite used. *)
Inductive admitted_by (cfg : GatewaySettings) (code : option pystr) (t : datetime) (d : db) : db → Prop :=
| admitted_open : registration_mode cfg = RegOpen → admitted_by cfg code t d d
| admitted_invite c i :
    registration_mode cfg = RegInvite → code = Some c → usable d t c i →
    admitted_by cfg code t d (put_invite (used_once i) d).

Lemma claim_invite_publish d (w : world R) code :
  db_ok d →
  (∃ i, usable d (now w) code i ∧
     claim_invite code (publish d w) = (stage d (put_invite (used_once i) d) w, Ok (used_once i))) ∨
  claim_invite code (publish d w) = (publish d w, Err InvalidInviteError).
Proof.
  intros Hd. unfold claim_invite, run_select. rewrite bind_run, query_publish. cbn [where_code_hash claim_query].
  destruct (where_eq_cases Invite.code_hash (hash_code (strip code)) (invites d))
    as [(k & i & Hk & Hh & ->)|[-> _]]; [by destruct Hd as [_ _ _ []]| |by right].
  cbn [scalar_one_or_none]. cbv beta iota. rewrite bind_run. unfold gets. cbv beta iota.
  change (now (publish d w)) with (now w).
  destruct (decide (Invite.status (now w) i = InvActive)) as [Ha|Ha].
  - left. exists i. split.
    + assert (Invite.id i = k) as Hik by (destruct Hd as [_ _ _ [Hi _ _ _]]; by apply Hi).
      unfold usable. by rewrite Hik.
    + rewrite bool_decide_eq_true_2 by done. reflexivity.
  - right. by rewrite bool_decide_eq_false_2.
Qed.

Lemma register_spec cfg email password name code uid salt d (w w' : world R) r :
  db_ok d → register_user cfg email password name code uid salt (publish d w) = (w', r) →
  match r with
  | Ok u => ∃ h, hash_password password salt = Ok h ∧ u = new_user uid email h name (now w) ∧
      ∃ d1, admitted_by cfg code (now w) d d1 ∧ w' = publish (put_user u d1) w ∧
            users d !! uid = None ∧ db_ok (put_user u d1) ∧ where_eq User.email email (users d) = []
  | Err _ => committed_db w' = d
  end.
Proof.
  intros Hd. unfold register_user.
  case_bool_decide as Hcl; [intros [= <- <-]; done|].
  rewrite bind_run, query_publish.
  destruct (where_eq User.email email (users d)) as [|u [|u' l]] eqn:Ee; cbn [scalar_one_or_none]; cbv beta iota;
    [|intros [= <- <-]; done..].
  rewrite bind_run.
  match goal with |- context [if registration_mode cfg == RegInvite then ?a else ?b] =>
    set (claim := if registration_mode cfg == RegInvite then a else b) end.
  assert ((∃ d1, admitted_by cfg code (now w) d d1 ∧ users d1 = users d ∧
             claim (publish d w) = (stage d d1 w, Ok tt)) ∨
          claim (publish d w) = (publish d w, Err InvalidInviteError)) as Hclaim.
  { subst claim. case_bool_decide as Hi.
    - destruct code as [c|]; [|by right]. destruct (_ && _); [|by right]. rewrite bind_run.
      destruct (claim_invite_publish d w c Hd) as [(i & Hu & ->)| ->]; [left|by right].
      eexists. split_and!; [by eapply admitted_invite|done|done].
    - left. exists d. split_and!; [|done|done]. apply admitted_open.
      by destruct (registration_mode cfg). }
  destruct Hclaim as [(d1 & Had & Hus & ->)| ->]; cbv beta iota; [|intros [= <- <-]; done].
  rewrite bind_run. unfold gets. cbv beta iota zeta. rewrite bind_run. unfold reads.
  destruct (hash_password password salt) as [h|e]; cbv beta iota; [|intros [= <- <-]; done].
  unfold add_user. rewrite add_commit_stage_then.
  case_decide as Hok; [|intros [= <- <-]; done]. destruct Hok as [Hfree Hok]. intros [= <- <-].
  exists h. split_and!; [done..|]. exists d1. split_and!; try done.
  cbn in Hfree. apply bool_decide_eq_false in Hfree. by rewrite Hus, <- eq_None_not_Some in Hfree.
Qed.

(** C25: registering is atomic: a closed gateway creates no account; in invite mode the
    code must name an invite that is not revoked, expired or used up, and its use is
    counted together with the account; a registration that fails for any reason leaves
    accounts and invites exactly as they were; and a new account is an active developer
    on the free plan. *)
Theorem register_atomic cfg email password name code uid salt (w : world R) :
  db_ok (committed_db w) →
  let d := committed_db w in
  let '(w', r) := request (register_user cfg email password name code uid salt) w in
  match r with
  | Ok u => registration_mode cfg ≠ RegClosed ∧ users d !! uid = None ∧
      users (committed_db w') = <[uid := u]> (users d) ∧
      User.email u = email ∧ User.role u = role_int OPERATOR ∧ User.plan u = str "free" ∧
      User.is_active u = true ∧
      (registration_mode cfg = RegInvite → ∃ c i, code = Some c ∧ usable d (now w) c i ∧
         invites (committed_db w') = <[Invite.id i := used_once i]> (invites d)) ∧
      (registration_mode cfg = RegOpen → invites (committed_db w') = invites d)
  | Err _ => committed_db w' = d
  end.
Proof.
  intros Hd d. unfold request. rewrite begin_session_eq. fold d.
  destruct (register_user cfg email password name code uid salt (publish d w)) as [w' r] eqn:E.
  pose proof (register_spec _ _ _ _ _ _ _ _ _ _ _ Hd E) as Hr.
  destruct r as [u|e]; [|exact Hr]. destruct Hr as (h & _ & -> & d1 & Had & -> & Hfree & _ & _).
  destruct Had as [Hm|c i Hm -> Hu]; split_and!; try done; try congruence.
  intros _. by exists c, i.
Qed.

(** ** Uses of an invite over time *)
Definition uses_bounded (d : db) : Prop :=
  map_Forall (λ _ i, 0 ≤ Invite.use_count i ≤ Invite.max_uses i) (invites d).

Inductive invite_step : world R → world R → Prop :=
| step_register w cfg email password name code uid salt :
    invite_step w (request (register_user cfg email password name code uid salt) w).1
| step_create w created_by body iid tok :
    InviteCreateRequest_valid body = true →
    invite_step w (request (create_invite created_by (strip (icr_note body)) (icr_max_uses body)
                              (icr_expires_in_days body) iid tok) w).1
| step_revoke w iid : invite_step w (request (revoke_invite iid) w).1
| step_wait w t : now w ≤ t → invite_step w (w <| now := t |>).

Lemma usable_room t i :
  Invite.status t i = InvActive → Invite.use_count i < Invite.max_uses i.
Proof. unfold Invite.status. repeat case_match; try done; lia. Qed.

Lemma revoke_publish d (w : world R) iid w' r :
  revoke_invite iid (publish d w) = (w', r) →
  committed_db w' = d ∨ (∃ i, invites d !! iid = Some i ∧
    committed_db w' = put_invite (i <| Invite.revoked_at := Some (now w) |>) d ∧ db_ok (committed_db w')).
Proof.
  unfold revoke_invite. rewrite bind_run. unfold select. cbv beta iota.
  change (cur_db (publish d w)) with d.
  destruct (invites d !! iid) as [i|] eqn:Hi; [|intros [= <- <-]; by left].
  destruct (Invite.revoked_at i); [intros [= <- <-]; by left|].
  rewrite bind_run. unfold gets. cbv beta iota. unfold save_invite. rewrite update_commit_run.
  case_decide; intros [= <- <-]; [right; by exists i|by left].
Qed.

Lemma invite_step_inv w w' :
  invite_step w w' → db_ok (committed_db w) → uses_bounded (committed_db w) →
  db_ok (committed_db w') ∧ uses_bounded (committed_db w').
Proof.
  destruct 1 as [w cfg email password name code uid salt|w created_by body iid tok Hv|w iid|w t];
    intros Hd Hb; [| | |done]; rewrite request_committed, begin_session_eq.
  - set (d := committed_db w) in *. destruct (register_user _ _ _ _ _ _ _ _) as [w' r] eqn:E.
    pose proof (register_spec _ _ _ _ _ _ _ _ _ _ _ Hd E) as Hr. destruct r as [u|e]; cbn; [|by rewrite Hr].
    destruct Hr as (h & _ & -> & d1 & Had & -> & _ & Hok & _). split; [done|].
    destruct Had as [|c i _ _ (Hi & _ & Ha)]; [done|]. apply map_Forall_insert_2; [|done].
    pose proof (usable_room _ _ Ha). pose proof (Hb _ _ Hi). cbn in *. lia.
  - set (d := committed_db w) in *. unfold create_invite. rewrite bind_run. unfold gets. cbv beta iota zeta.
    unfold add_invite. rewrite add_commit_then. case_decide as Hok; [|done]. split; [by destruct Hok|].
    apply map_Forall_insert_2; [|done]. cbn. unfold InviteCreateRequest_valid, in_range in Hv. split_andb. lia.
  - set (d := committed_db w) in *. destruct (revoke_invite iid (publish d w)) as [w' r] eqn:E. cbn.
    destruct (revoke_publish _ _ _ _ _ E) as [->|(i & Hi & Hw & Hok)]; [done|]. split; [done|].
    rewrite Hw. apply map_Forall_insert_2; [|done]. by apply (Hb _ _ Hi).
Qed.

(** No invite is used more often than allowed, along every sequence of registrations,
    new invites and revocations. *)
Theorem invite_uses_never_exceed w w' iid i :
  rtc invite_step w w' → db_ok (committed_db w) → uses_bounded (committed_db w) →
  invites (committed_db w') !! iid = Some i → 0 ≤ Invite.use_count i ≤ Invite.max_uses i.
Proof.
  intros Hsteps. induction Hsteps as [w|w1 w2 w3 Hstep _ IH]; intros Hd Hb Hi; [by apply (Hb iid)|].
  destruct (invite_step_inv _ _ Hstep Hd Hb). by apply IH.
Qed.

(** ** Login *)
Lemma authenticate_spec email password d (w : world R) :
  db_ok d →
  authenticate_user email password (publish d w) =
  (publish d w,
   match where_eq User.email email (users d) with
   | [u] => if User.is_active u
            then matches ← verify_password password (User.password_hash u);
                 if matches : bool then Ok u else Err (AuthenticationError (str "Invalid email or password."))
            else Err (AuthenticationError (str "Invalid email or password."))
   | _ => Err (AuthenticationError (str "Invalid email or password."))
   end).
Proof.
  intros Hd. unfold authenticate_user. rewrite bind_run, query_publish.
  destruct (where_eq_cases User.email email (users d)) as [(k & u & _ & _ & ->)|[-> _]];
    [by destruct Hd as [[] _ _ _]| |done].
  cbn. destruct (User.is_active u); [|done]. rewrite bind_run. unfold reads.
  by destruct (verify_password _ _) as [[]|e].
Qed.

(** Logging in succeeds exactly for an active account with this email whose password
    matches, and every refusal by the gateway is the same error, so that it does not tell
    whether the email is registered; any other error is one the password library raised. *)
Theorem login_iff email password (w : world R) u :
  db_ok (committed_db w) →
  let '(w', r) := request (authenticate_user email password) w in
  committed_db w' = committed_db w ∧
  (r = Ok u ↔ users (committed_db w) !! User.id u = Some u ∧ User.email u = email ∧
              User.is_active u = true ∧ verify_password password (User.password_hash u) = Ok true) ∧
  (is_ok r = false → r = Err (AuthenticationError (str "Invalid email or password.")) ∨
     ∃ v e, users (committed_db w) !! User.id v = Some v ∧ User.email v = email ∧
            verify_password password (User.password_hash v) = Err e ∧ r = Err e).
Proof.
  intros Hd. rewrite (request_publish _ _ _ _ _ (authenticate_spec email password _ w Hd)).
  assert (unique_by (λ u, Some (User.email u)) (users (committed_db w))) as Hu
    by (by destruct Hd as [[] _ _ _]).
  split; [done|].
  destruct (where_eq_cases User.email email (users (committed_db w)) Hu) as [(k & v & Hk & He & ->)|[-> Hn]].
  - assert (User.id v = k) as Hid by (destruct Hd as [[Hi _ _] _ _ _]; by apply Hi).
    assert (users (committed_db w) !! User.id u = Some u → User.email u = email → u = v) as Huniq.
    { intros Hl He'. subst k.
      rewrite (unique_by_lookup _ _ _ _ _ _ _ Hu Hk Hl (f_equal Some He) (f_equal Some He')) in Hk. congruence. }
    subst k. destruct (User.is_active v) eqn:E1; [|naive_solver congruence].
    destruct (verify_password password (User.password_hash v)) as [[]|e] eqn:E2; cbn; naive_solver congruence.
  - split; [|by left]. split; [done|]. intros (Hl & He & _). by destruct (Hn _ _ Hl).
Qed.

(** A new account can log in: whoever registered logs in with the same email and
    password. *)
Theorem register_then_login `{!BcryptLaws} cfg email password name code uid salt (w w1 : world R) u :
  db_ok (committed_db w) →
  request (register_user cfg email password name code uid salt) w = (w1, Ok u) →
  (request (authenticate_user email password) w1).2 = Ok u.
Proof.
  intros Hd. unfold request at 1. rewrite begin_session_eq.
  destruct (register_user _ _ _ _ _ _ _ _) as [w2 r] eqn:E. intros [= <- ->].
  destruct (register_spec _ _ _ _ _ _ _ _ _ _ _ Hd E) as (h & Hh & Hu & d1 & _ & -> & _ & Hok & _).
  rewrite begin_session_publish.
  rewrite (request_publish _ (publish _ w) _ w _ (authenticate_spec email password _ w Hok)).
  assert (email = User.email u) as He by (by subst u). rewrite He.
  rewrite (where_eq_unique User.email _ uid u); [|by destruct Hok as [[] _ _ _]|subst u; apply lookup_insert_eq].
  subst u. cbn. by rewrite (verify_own_hash _ _ _ Hh).
Qed.
End invites.

(** ** Concurrent registrations

    Registrations run as transactions that interleave with each other and with everything else,
    in PostgreSQL's default isolation.  A transaction that has claimed an invite keeps the
    counted row ([r_claims]) until it commits; its [UPDATE] then sets the one column that
    changed, [use_count], of whatever the row is by then.  Nothing but row locks ([r_locks], by
    row and transaction) makes anyone wait: a [SELECT ... FOR UPDATE] waits for the lock of the
    row, reads what is committed then, and keeps the lock until its transaction ends; a plain
    [SELECT] neither waits nor locks; an [UPDATE] waits while another transaction has the lock.
    [r_taken] is the number of accounts created with the code. *)
Section race.
Context {R : Type} (code : pystr).

Record race := {
  r_db : db;
  r_claims : gmap nat Invite.Invite;
  r_locks : gmap uuid nat;
  r_taken : Z;
}.

(** Nobody else has the lock of row [iid]. *)
Definition lock_free (s : race) (tid : nat) (iid : uuid) : Prop :=
  ∀ other, r_locks s !! iid = Some other → other = tid.
Definition released (tid : nat) (locks : gmap uuid nat) : gmap uuid nat := filter (λ l, l.2 ≠ tid) locks.
(** The [UPDATE] of a claimed row. *)
Definition write_claim (claimed : Invite.Invite) (d : db) : db :=
  match invites d !! Invite.id claimed with
  | Some row => put_invite (row <| Invite.use_count := Invite.use_count claimed |>) d
  | None => d
  end.

(** [lock]: whether the select of [claim_invite] is [FOR UPDATE]. *)
Inductive race_step (lock : bool) (s : race) : race → Prop :=
| race_claim tid (w w1 : world R) claimed :
    r_claims s !! tid = None →
    claim_invite code (publish (r_db s) w) = (w1, Ok claimed) →
    (lock = true → r_locks s !! Invite.id claimed = None) →
    race_step lock s {| r_db := r_db s; r_claims := <[tid := claimed]> (r_claims s);
                        r_locks := if lock then <[Invite.id claimed := tid]> (r_locks s) else r_locks s;
                        r_taken := r_taken s |}
| race_commit tid (w w2 : world R) claimed user :
    r_claims s !! tid = Some claimed → lock_free s tid (Invite.id claimed) →
    (add_user user;; commit) (stage (r_db s) (write_claim claimed (r_db s)) w) = (w2, Ok tt) →
    race_step lock s {| r_db := committed_db w2; r_claims := delete tid (r_claims s);
                        r_locks := released tid (r_locks s); r_taken := r_taken s + 1 |}
| race_abort tid :
    race_step lock s {| r_db := r_db s; r_claims := delete tid (r_claims s);
                        r_locks := released tid (r_locks s); r_taken := r_taken s |}
| race_revoke tid iid row at_ :
    invites (r_db s) !! iid = Some row → r_claims s !! tid = None → lock_free s tid iid →
    db_ok (put_invite (row <| Invite.revoked_at := at_ |>) (r_db s)) →
    race_step lock s {| r_db := put_invite (row <| Invite.revoked_at := at_ |>) (r_db s);
                        r_claims := r_claims s; r_locks := r_locks s; r_taken := r_taken s |}
| race_other d' :
    db_ok d' → invites (r_db s) ⊆ invites d' →
    race_step lock s {| r_db := d'; r_claims := r_claims s; r_locks := r_locks s; r_taken := r_taken s |}.

Definition no_claims (d : db) : race := {| r_db := d; r_claims := ∅; r_locks := ∅; r_taken := 0 |}.

(** The code's invite has counted the accounts taken, within its maximum, and whoever has
    claimed it has its lock and the use after that. *)
Record race_inv (i0 : Invite.Invite) (s : race) : Prop := {
  race_db_ok : db_ok (r_db s);
  race_row : ∃ i, invites (r_db s) !! Invite.id i0 = Some i ∧
    Invite.code_hash i = hash_code (strip code) ∧ Invite.max_uses i = Invite.max_uses i0 ∧
    Invite.use_count i = Invite.use_count i0 + r_taken s ∧ Invite.use_count i ≤ Invite.max_uses i ∧
    map_Forall (λ tid claimed, Invite.id claimed = Invite.id i0 ∧ r_locks s !! Invite.id i0 = Some tid ∧
      Invite.use_count claimed = Invite.use_count i + 1 ∧ Invite.use_count i < Invite.max_uses i) (r_claims s);
}.

(** Releasing one's locks leaves those of the others. *)
Lemma released_other tid tid' iid (locks : gmap uuid nat) :
  tid ≠ tid' → locks !! iid = Some tid' → released tid locks !! iid = Some tid'.
Proof. intros Hne Hl. apply map_lookup_filter_Some. split; [done|]. cbn. congruence. Qed.

Lemma race_claim_inv i0 s tid (w w1 : world R) claimed :
  race_inv i0 s → claim_invite code (publish (r_db s) w) = (w1, Ok claimed) →
  r_locks s !! Invite.id claimed = None →
  race_inv i0 {| r_db := r_db s; r_claims := <[tid := claimed]> (r_claims s);
                 r_locks := <[Invite.id claimed := tid]> (r_locks s); r_taken := r_taken s |}.
Proof.
  intros [Hd (j & Hj & Hh & Hm & Hu & Hle & Hall)] E Hfree. split; [done|]. exists j. cbn.
  destruct (claim_invite_publish (r_db s) w code Hd) as [(k & (Hk & Hkh & Ha) & Ec)|Ec]; [|congruence].
  rewrite E in Ec. injection Ec as _ ->.
  assert (Invite.id k = Invite.id i0) as Hid.
  { destruct Hd as [_ _ _ [_ Huniq _ _]]. apply (Huniq _ _ Hk _ _ Hj); [done|]. by rewrite Hkh, Hh. }
  assert (k = j) as -> by congruence. pose proof (usable_room _ _ Ha) as Hroom. split_and!; [done..|].
  change (Invite.id (used_once j)) with (Invite.id j) in *. rewrite Hid in *. intros tid' c Hc.
  rewrite lookup_insert in Hc. rewrite lookup_insert_eq. case_decide as He.
  - injection Hc as <-. subst. by split_and!.
  - destruct (Hall _ _ Hc) as (_ & Hl & _). congruence.
Qed.

Lemma race_commit_inv i0 s tid (w w2 : world R) claimed user :
  race_inv i0 s → r_claims s !! tid = Some claimed →
  (add_user user;; commit) (stage (r_db s) (write_claim claimed (r_db s)) w) = (w2, Ok tt) →
  race_inv i0 {| r_db := committed_db w2; r_claims := delete tid (r_claims s);
                 r_locks := released tid (r_locks s); r_taken := r_taken s + 1 |}.
Proof.
  intros [Hd (j & Hj & Hh & Hm & Hu & Hle & Hall)] Hc E. destruct (Hall _ _ Hc) as (Hid & Hl & Hcu & Hlt).
  unfold add_user in E. rewrite add_commit_stage in E. case_decide as Hok; [|done]. injection E as <-.
  rewrite publish_committed. unfold write_claim in *. rewrite Hid, Hj in *. split; [apply Hok|].
  eexists. split; [cbn; assert (Invite.id j = Invite.id i0) as -> by (destruct Hd as [_ _ _ [Hk _ _ _]]; by apply Hk in Hj);
    apply lookup_insert_eq|]. cbn. split_and!; [done..|lia|lia|].
  intros tid' c' Hc'. apply lookup_delete_Some in Hc' as [Hne Hc']. destruct (Hall _ _ Hc') as (_ & Hl' & _). congruence.
Qed.

Lemma race_row_change i0 s d' i i' :
  race_inv i0 s → invites (r_db s) !! Invite.id i0 = Some i → invites d' !! Invite.id i0 = Some i' →
  i' = i <| Invite.revoked_at := Invite.revoked_at i' |> → db_ok d' →
  race_inv i0 {| r_db := d'; r_claims := r_claims s; r_locks := r_locks s; r_taken := r_taken s |}.
Proof.
  intros [Hd (j & Hj & Hh & Hm & Hu & Hle & Hall)] Hi Hi' Hr Hd'. assert (j = i) as -> by congruence.
  split; [done|]. exists i'. split; [done|]. rewrite Hr. cbn. by split_and!.
Qed.

Lemma race_step_inv i0 s s' : race_step true s s' → race_inv i0 s → race_inv i0 s'.
Proof.
  intros Hstep Hinv. pose proof Hinv as [Hd (j & Hj & Hh & Hm & Hu & Hle & Hall)].
  destruct Hstep as [tid w w1 claimed Hn E Hw|tid w w2 claimed user Hc Hf E|tid|tid iid row at_ Hrow Hn Hf Hok|d' Hok Hsub].
  - eapply race_claim_inv; eauto.
  - eapply race_commit_inv; eauto.
  - split; [done|]. exists j. cbn. split_and!; [done..|]. intros tid' c Hc.
    apply lookup_delete_Some in Hc as [Hne Hc]. destruct (Hall _ _ Hc) as (? & ? & ? & ?).
    split_and!; [done|by apply released_other|done..].
  - assert (Invite.id row = iid) as Hid by (destruct Hd as [_ _ _ [Hk _ _ _]]; by apply Hk in Hrow).
    destruct (decide (iid = Invite.id i0)) as [->|Hne].
    + assert (row = j) as -> by congruence.
      eapply (race_row_change _ _ _ j); [done|done|cbn; rewrite Hid; apply lookup_insert_eq|done|done].
    + eapply (race_row_change _ _ _ j j); [done|done|cbn; rewrite Hid; by rewrite lookup_insert_ne|by destruct j|done].
  - eapply (race_row_change _ _ _ j j); [done|done|by eapply lookup_weaken|by destruct j|done].
Qed.

(** C9: sign-ups that race for an invite cannot take more uses than it has left: however the
    transactions of any number of sign-ups with a code interleave with each other, with
    revocations and with changes of anything but the invites that are there, and whether they
    commit, fail or are abandoned, the accounts created with the code are the uses counted on
    its invite, and at most what remained.  It is the lock of [claim_invite]'s query that
    ensures it ([unlocked_claims_overshoot]). *)
Theorem invite_race_safe d0 i0 s :
  db_ok d0 → invites d0 !! Invite.id i0 = Some i0 → Invite.code_hash i0 = hash_code (strip code) →
  Invite.use_count i0 ≤ Invite.max_uses i0 →
  rtc (race_step (for_update (claim_query code))) (no_claims d0) s →
  r_taken s ≤ Invite.max_uses i0 - Invite.use_count i0 ∧
  ∃ i, invites (r_db s) !! Invite.id i0 = Some i ∧ Invite.use_count i = Invite.use_count i0 + r_taken s.
Proof.
  intros Hd Hi Hh Hle Hsteps. change (for_update (claim_query code)) with true in Hsteps.
  assert (race_inv i0 (no_claims d0)) as H0.
  { split; [done|]. exists i0. split_and!; [done..|cbn; lia|done|apply map_Forall_empty]. }
  assert (race_inv i0 s) as [_ (i & Hi' & _ & Hm & Hu & Hb & _)].
  { clear Hd Hi Hh Hle. induction Hsteps; eauto using race_step_inv. }
  split; [lia|by exists i].
Qed.
End race.

(** ** The length of a password

    The request schemas bound a password to 72 characters; bcrypt uses at most 72 bytes.
    [accented n c] is [n] letters of two bytes each followed by [c]. *)
Definition accented (n : nat) (c : N) : pystr := replicate n 0xE9%N ++ [c].
Definition register_body (password : pystr) : RegisterRequest := {|
  rr_email := str "a@b.c"; rr_password := password; rr_name := str "A"; rr_invite_code := None |}.

(** With a bcrypt that reads the first 72 bytes only, two different passwords the schema
    accepts open the same account. *)
Theorem long_passwords_interchangeable `{Bcrypt} :
  (∀ raw h, bcrypt_checkpw raw h = bcrypt_checkpw (take 72 raw) h) →
  let p := accented 36 97 in let q := accented 36 98 in
  p ≠ q ∧ RegisterRequest_valid (register_body p) = true ∧ RegisterRequest_valid (register_body q) = true ∧
  ∀ h, verify_password p h = verify_password q h.
Proof.
  intros Htake p q. split_and!; [discriminate|by vm_compute..|]. intros h. unfold verify_password.
  destruct (encode_text p) as [bp|e] eqn:Ep; [|discriminate Ep].
  destruct (encode_text q) as [bq|e] eqn:Eq; [|discriminate Eq]. cbn.
  destruct (encode_text h) as [hb|e]; cbn; [|done]. rewrite (Htake bp), (Htake bq).
  vm_compute in Ep, Eq. by simplify_eq.
Qed.

(** With a bcrypt that refuses more than 72 bytes, an accepted password cannot be hashed
    and the registration fails with an error that is not the gateway's. *)
Theorem long_password_unhashable `{Bcrypt} salt :
  (∀ raw, (72 < length raw)%nat → bcrypt_hashpw raw salt = Err ValueError) →
  let p := accented 36 97 in
  RegisterRequest_valid (register_body p) = true ∧ hash_password p salt = Err ValueError.
Proof.
  intros Hlong p. split; [by vm_compute|]. unfold hash_password.
  destruct (encode_text p) as [bp|e] eqn:Ep; [|discriminate Ep]. cbn.
  rewrite Hlong; [done|]. vm_compute in Ep. simplify_eq. by apply Nat.ltb_lt.
Qed.

(** ** Witnesses *)
#[export] Instance fixture_bcrypt : Bcrypt := {|
  bcrypt_hashpw raw salt := Ok (salt ++ raw);
  bcrypt_checkpw raw h := Ok (endswith raw h) |}.
#[export] Instance fixture_bcrypt_laws : BcryptLaws.
Proof. intros raw salt h [= <-]. cbn. f_equal. apply bool_decide_eq_true_2. by exists salt. Qed.

Definition fixture_invite : Invite.Invite := {|
  Invite.id := 9%N; Invite.code_hash := sha256_hex (str "inv_x"); Invite.code_prefix := str "inv_x";
  Invite.note := []; Invite.created_by := None; Invite.max_uses := 1; Invite.use_count := 0;
  Invite.expires_at := None; Invite.revoked_at := None; Invite.created_at := 0 |}.
Definition invite_world : world fixture_rt :=
  fixture_world (put_invite fixture_invite (fixture_db [] [])) ∅.
Definition invite_cfg : GatewaySettings := default_settings <| registration_mode := RegInvite |>.
Definition fixture_register : MW fixture_rt User.User :=
  register_user invite_cfg (str "a@b.c") (str "secret12") (str "A") (Some (str " inv_x ")) 3%N (str "s").

(** The request schemas let U+0000 through, which PostgreSQL refuses: a name with it passes
    validation and the registration then fails in the database, with an error no handler
    catches. *)
Theorem nul_name_fails :
  let body := register_body (str "secret12") in
  let name := str "A" ++ [0%N] in
  let bad := {| rr_email := rr_email body; rr_password := rr_password body; rr_name := name; rr_invite_code := None |} in
  let p := request (register_user default_settings (rr_email bad) (rr_password bad) (rr_name bad) None 3%N (str "s")) invite_world in
  RegisterRequest_valid bad = true ∧ p.2 = Err IntegrityError ∧ users (committed_db p.1) = ∅.
Proof. vm_compute. done. Qed.

Lemma invite_world_ok : db_ok (committed_db invite_world).
Proof. by_decide. Qed.

Theorem register_atomic_witness :
  is_ok (request fixture_register invite_world).2 = true ∧
  let '(w', r) := request fixture_register invite_world in
  match r with
  | Ok u => ∃ i, usable (committed_db invite_world) 0 (str " inv_x ") i ∧
      invites (committed_db w') = <[Invite.id i := used_once i]> (invites (committed_db invite_world))
  | Err _ => committed_db w' = committed_db invite_world
  end.
Proof.
  split; [vm_compute; reflexivity|].
  pose proof (register_atomic invite_cfg (str "a@b.c") (str "secret12") (str "A") (Some (str " inv_x "))
    3%N (str "s") invite_world invite_world_ok) as Hr.
  unfold fixture_register. destruct (request _ _) as [w' [u|e]]; [|exact Hr].
  destruct Hr as (_ & _ & _ & _ & _ & _ & _ & Hi & _). destruct (Hi eq_refl) as (c & i & Hc & Hu & Hw).
  injection Hc as <-. exists i. split; [exact Hu|exact Hw].
Defined.

Theorem invite_uses_never_exceed_witness :
  let w' := (request fixture_register invite_world).1 in
  ∃ i, invites (committed_db w') !! 9%N = Some i ∧ 0 ≤ Invite.use_count i ≤ Invite.max_uses i.
Proof.
  intros w'. exists (used_once fixture_invite).
  assert (invites (committed_db w') !! 9%N = Some (used_once fixture_invite)) as Hi
    by (vm_compute; reflexivity).
  split; [exact Hi|].
  apply (invite_uses_never_exceed invite_world w' 9%N (used_once fixture_invite)).
  - apply rtc_once. apply (step_register invite_world).
  - exact invite_world_ok.
  - apply map_Forall_singleton. vm_compute. split; discriminate.
  - exact Hi.
Defined.

Theorem login_iff_witness :
  let w := fixture_world (fixture_db [fixture_user] []) ∅ in
  let '(w', r) := request (authenticate_user (str "dev@example.com") (str "h")) w in
  r = Ok fixture_user.
Proof.
  intros w. pose proof (login_iff (str "dev@example.com") (str "h") w fixture_user ltac:(by_decide)) as Hl.
  destruct (request _ _) as [w' r]. apply Hl. split_and!; vm_compute; reflexivity.
Defined.

Theorem register_then_login_witness :
  let p := request fixture_register invite_world in
  ∃ u, p.2 = Ok u ∧ (request (authenticate_user (str "a@b.c") (str "secret12")) p.1).2 = Ok u.
Proof.
  intros p. eexists. split; [vm_compute; reflexivity|].
  apply (register_then_login invite_cfg (str "a@b.c") (str "secret12") (str "A") (Some (str " inv_x "))
    3%N (str "s") invite_world p.1); [exact invite_world_ok|vm_compute; reflexivity].
Defined.

(** A sign-up claims the only use, someone else registers meanwhile, the sign-up commits. *)
Definition race_claimed : race :=
  {| r_db := committed_db invite_world; r_claims := {[ 1%nat := used_once fixture_invite ]};
     r_locks := {[ 9%N := 1%nat ]}; r_taken := 0 |}.
Definition other_user : User.User := fixture_user <| User.id := 8%N |> <| User.email := str "x@example.com" |>.
Definition race_db' : db := put_user other_user (committed_db invite_world).
Definition race_end : race :=
  {| r_db := put_user fixture_user (write_claim (used_once fixture_invite) race_db');
     r_claims := ∅; r_locks := ∅; r_taken := 1 |}.
Theorem invite_race_safe_witness :
  r_taken race_end ≤ 1 - 0 ∧ size (users (r_db race_end)) = 2%nat ∧
  ∃ i, invites (r_db race_end) !! 9%N = Some i ∧ Invite.use_count i = 0 + 1.
Proof.
  destruct (invite_race_safe (R := fixture_rt) (str "inv_x") (committed_db invite_world) fixture_invite race_end)
    as [Hn Hi].
  - exact invite_world_ok.
  - vm_compute. reflexivity.
  - vm_compute. reflexivity.
  - vm_compute. discriminate.
  - change (for_update (claim_query (str "inv_x"))) with true. apply (rtc_l _ _ race_claimed).
    { apply (race_claim (str "inv_x") true (no_claims (committed_db invite_world)) 1 invite_world (claim_invite (str "inv_x") invite_world).1
               (used_once fixture_invite)); [reflexivity|vm_compute; reflexivity|reflexivity]. }
    apply (rtc_l _ _ {| r_db := race_db'; r_claims := r_claims race_claimed; r_locks := r_locks race_claimed; r_taken := 0 |}).
    { apply (race_other (R := fixture_rt) (str "inv_x") true race_claimed race_db'); [by_decide|done]. }
    apply rtc_once.
    apply (race_commit (R := fixture_rt) (str "inv_x") true {| r_db := race_db'; r_claims := r_claims race_claimed;
             r_locks := r_locks race_claimed; r_taken := 0 |} 1 invite_world
             (publish (r_db race_end) invite_world) (used_once fixture_invite) fixture_user);
      [reflexivity|by intros other [= <-]|vm_compute; reflexivity].
  - split; [exact Hn|]. split; [vm_compute; reflexivity|exact Hi].
Defined.

(** Without [FOR UPDATE] two sign-ups both claim the only use of an invite and both get an
    account. *)
Theorem unlocked_claims_overshoot :
  ∃ s, rtc (race_step (R := fixture_rt) (str "inv_x") false) (no_claims (committed_db invite_world)) s ∧
    r_taken s = 2 ∧ size (users (r_db s)) = 2%nat ∧ Invite.max_uses fixture_invite = 1 ∧
    (Invite.use_count <$> invites (r_db s) !! 9%N) = Some 1.
Proof.
  pose (w1 := (claim_invite (str "inv_x") invite_world).1). pose (c := used_once fixture_invite).
  pose (d1 := put_user fixture_user (write_claim c (committed_db invite_world))).
  pose (d2 := put_user other_user (write_claim c d1)).
  eexists. split.
  - eapply rtc_l; [apply (race_claim _ false _ 1 invite_world w1 c); [reflexivity|vm_compute; reflexivity|done]|].
    eapply rtc_l; [apply (race_claim _ false _ 2 invite_world w1 c); [reflexivity|vm_compute; reflexivity|done]|].
    eapply rtc_l; [apply (race_commit _ false _ 1 invite_world (publish d1 invite_world) c fixture_user);
      [reflexivity|done|vm_compute; reflexivity]|].
    eapply rtc_l; [apply (race_commit _ false _ 2 invite_world (publish d2 invite_world) c other_user);
      [reflexivity|done|vm_compute; reflexivity]|].
    apply rtc_refl.
  - vm_compute. done.
Qed.
