(* ===== verification/Auth.v ===== *)
(** Bearer authentication ([security/dependencies.py], [security/jwt.py]) and API keys
    ([security/api_keys.py], [services/api_key_service.py]).

    The JWT library and the core library's key generator are interfaces; their documented
    behaviour is stated as laws. *)

From S2P Require Import Prelude PyText Codec Sha256 PyFloat Config Errors Plans Models Runtime IngressLimits World.
From S2P Require Import Schemas Fixtures AccessKeys.

(** The payload of a token; times are whole seconds, [sub] may be missing in a foreign one. *)
Record claims := {
  c_sub : option pystr;
  c_email : pystr;
  c_role : Z;
  c_iss : pystr;
  c_iat : Z;
  c_exp : Z;
  c_jti : pystr;
}.

(** [jwt.encode(payload, secret, algorithm)], and [jwt.decode(token, secret, [algorithm],
    issuer)] at an instant, with [None] for any [PyJWTError]. *)
Class Jwt := {
  jwt_encode : claims → pystr → pystr → pystr;
  jwt_decode : pystr → pystr → pystr → pystr → datetime → option claims;
}.
Definition SECOND : Z := 1000000.
(** A token decodes to what was encoded, while it is valid and for its own secret, algorithm
    and issuer; an expired one does not; tokens are never of the form of an API key. *)
Class JwtLaws `{Jwt} : Prop := {
  jwt_roundtrip c secret alg at_ :
    c_iat c ≤ at_ / SECOND < c_exp c →
    jwt_decode (jwt_encode c secret alg) secret alg (c_iss c) at_ = Some c;
  jwt_expired c secret alg iss at_ :
    c_exp c ≤ at_ / SECOND → jwt_decode (jwt_encode c secret alg) secret alg iss at_ = None;
  jwt_not_api_key c secret alg : startswith (str "agnt_") (jwt_encode c secret alg) = false;
  jwt_nonempty c secret alg : jwt_encode c secret alg ≠ [];
}.

(** [APIKey.generate(principal, roles=[role])]: the raw key from the random token, and the
    hash the core library stores. *)
Class CoreApiKeys := { core_raw_key : pystr → pystr; core_key_hash : pystr → pystr }.
(** The format is [agnt_<token>] and the hash is SHA-256. *)
Class CoreApiKeysLaws `{CoreApiKeys} : Prop := {
  core_raw_key_format tok : core_raw_key tok = str "agnt_" ++ tok;
  core_key_hash_sha256 raw : core_key_hash raw = sha256_hex raw;
}.

Definition ISSUER : pystr := str "agntspark-gateway".

Inductive AuthMethod := ByJwt | ByApiKey.
Record Principal := {
  p_user_id : uuid;
  p_email : pystr;
  p_role : Role;
  p_auth_method : AuthMethod;
  p_api_key_id : option uuid;
}.

Definition key_newest_first (a b : ApiKey.ApiKey) : Prop := ApiKey.created_at b ≤ ApiKey.created_at a.
#[export] Instance key_newest_first_dec : RelDecision key_newest_first.
Proof. intros a b. unfold key_newest_first. apply _. Defined.

Section auth.
Context {R : Type} `{CoreRole} `{UnicodeTables} `{Jwt} `{CoreApiKeys}.
Context (cfg : GatewaySettings).

(** ** Tokens *)
Definition create_access_token (user_id : uuid) (email : pystr) (role : Z) (jti : pystr) (at_ : datetime)
  : pystr * Z :=
  let expires_in := jwt_expire_minutes cfg * 60 in
  (jwt_encode {| c_sub := Some (uuid_str user_id); c_email := email; c_role := role; c_iss := ISSUER;
                 c_iat := at_ / SECOND; c_exp := (at_ + expires_in * SECOND) / SECOND; c_jti := jti |}
     (jwt_secret cfg) (jwt_algorithm cfg), expires_in).

Definition decode_access_token (token : pystr) (at_ : datetime) : result exn claims :=
  match jwt_decode token (jwt_secret cfg) (jwt_algorithm cfg) ISSUER at_ with
  | Some c => Ok c
  | None => Err (AuthenticationError (str "Invalid or expired token."))
  end.

(** ** Principals *)
Definition principal_of (user : User.User) (auth_method : AuthMethod) (api_key_id : option uuid)
  : result exn Principal :=
  role ← role_enum user;
  mret {| p_user_id := User.id user; p_email := User.email user; p_role := role;
          p_auth_method := auth_method; p_api_key_id := api_key_id |}.

(** [_authenticate_api_key] *)
Definition authenticate_api_key (token : pystr) : MW R Principal :=
  found ← query (λ d, scalar_one_or_none (where_eq ApiKey.key_hash (hash_key token) (api_keys d)));
  at_ ← gets now;
  match found with
  | Some key =>
      if ApiKey.is_active at_ key then
        user ← select (λ d, users d !! ApiKey.user_id key);
        match user with
        | Some u => if User.is_active u then reads (λ _, principal_of u ByApiKey (Some (ApiKey.id key)))
                    else raise (AuthenticationError (str "Invalid or revoked API key."))
        | None => raise (AuthenticationError (str "Invalid or revoked API key."))
        end
      else raise (AuthenticationError (str "Invalid or revoked API key."))
  | None => raise (AuthenticationError (str "Invalid or revoked API key."))
  end.

(** [_authenticate_jwt] *)
Definition authenticate_jwt (token : pystr) : MW R Principal :=
  payload ← reads (λ w, decode_access_token token (now w));
  match c_sub payload ≫= uuid_parse with
  | None => raise (AuthenticationError (str "Invalid token payload."))
  | Some user_id =>
      user ← select (λ d, users d !! user_id);
      match user with
      | Some u => if User.is_active u then reads (λ _, principal_of u ByJwt None)
                  else raise (AuthenticationError (str "Invalid or expired token."))
      | None => raise (AuthenticationError (str "Invalid or expired token."))
      end
  end.

(** The token of an API key starts with the configured prefix and an underscore. *)
Definition is_api_key_token (token : pystr) : bool :=
  startswith (api_key_prefix cfg ++ str "_") token.

Definition get_current_principal (creds : option pystr) : MW R Principal :=
  if truthy creds then
    let token := default [] creds in
    if is_api_key_token token then authenticate_api_key token else authenticate_jwt token
  else raise (AuthenticationError (str "Missing Authorization header.")).

Definition require_jwt_principal (creds : option pystr) : MW R Principal :=
  if truthy creds then
    let token := default [] creds in
    if is_api_key_token token
    then raise (AuthenticationError (str "This action requires a logged-in session, not an API key."))
    else authenticate_jwt token
  else raise (AuthenticationError (str "Missing Authorization header.")).

(** [minimum.name] *)
Definition role_name (r : Role) : pystr :=
  match r with VIEWER => str "VIEWER" | OPERATOR => str "OPERATOR" | ADMIN => str "ADMIN" end.
Definition require_role (minimum : Role) (jwt_only : bool) (creds : option pystr) : MW R Principal :=
  principal ← (if jwt_only then require_jwt_principal creds else get_current_principal creds);
  if role_can (p_role principal) minimum then mret principal
  else raise (AuthorisationError (uuid_str (p_user_id principal))
                (str "require_role(" ++ role_name minimum ++ str ")")).

(** ** API keys *)
Definition mint_api_key (tok : pystr) : pystr * pystr * pystr :=
  let raw_key := core_raw_key tok in (raw_key, core_key_hash raw_key, take 12 raw_key).

Definition create_api_key (user : User.User) (label : pystr) (scopes : list pystr) (kid : uuid) (tok : pystr)
  : MW R (ApiKey.ApiKey * pystr) :=
  reads (λ _, role_enum user);;
  let '(raw_key, key_hash, key_prefix) := mint_api_key tok in
  at_ ← gets now;
  let api_key := {| ApiKey.id := kid; ApiKey.user_id := User.id user; ApiKey.label := label;
                    ApiKey.key_prefix := key_prefix; ApiKey.key_hash := key_hash;
                    ApiKey.scopes := scopes; ApiKey.project_id := None; ApiKey.created_at := at_;
                    ApiKey.last_used_at := None; ApiKey.revoked_at := None; ApiKey.expires_at := None |} in
  add_api_key api_key;;
  commit;;
  mret (api_key, raw_key).

Definition list_api_keys (user_id : uuid) : MW R (list ApiKey.ApiKey) :=
  select (λ d, merge_sort key_newest_first
    (filter (λ k, ApiKey.user_id k = user_id ∧ ApiKey.revoked_at k = None) (rows (api_keys d)))).

Definition revoke_api_key (user_id key_id : uuid) : MW R unit :=
  found ← select (λ d, api_keys d !! key_id);
  at_ ← gets now;
  match found with
  | Some key =>
      if bool_decide (ApiKey.user_id key = user_id) && ApiKey.is_active at_ key then
        save_api_key (key <| ApiKey.revoked_at := Some at_ |>);;
        commit
      else raise (ApiKeyNotFoundError key_id)
  | None => raise (ApiKeyNotFoundError key_id)
  end.

(** ** Lemmas *)
Implicit Types w : world R.

Lemma authenticate_api_key_publish token d w :
  db_ok d →
  authenticate_api_key token (publish d w) =
  (publish d w,
   match where_eq ApiKey.key_hash (hash_key token) (api_keys d) with
   | [k] => match users d !! ApiKey.user_id k with
            | Some u => if ApiKey.is_active (now w) k && User.is_active u
                        then principal_of u ByApiKey (Some (ApiKey.id k))
                        else Err (AuthenticationError (str "Invalid or revoked API key."))
            | None => Err (AuthenticationError (str "Invalid or revoked API key."))
            end
   | _ => Err (AuthenticationError (str "Invalid or revoked API key."))
   end).
Proof.
  intros Hd. unfold authenticate_api_key. rewrite bind_run, query_publish.
  destruct (where_eq_cases ApiKey.key_hash (hash_key token) (api_keys d)) as [(kid & k & _ & _ & ->)|[-> _]];
    [by destruct Hd as [_ _ [] _]| |done].
  cbn [scalar_one_or_none]. cbv beta iota. rewrite bind_run. unfold gets. cbv beta iota.
  change (now (publish d w)) with (now w).
  destruct (ApiKey.is_active (now w) k); cbn [andb].
  - rewrite bind_run. unfold select. cbv beta iota. change (cur_db (publish d w)) with d.
    destruct (users d !! ApiKey.user_id k) as [u|]; [|done]. by destruct (User.is_active u).
  - by destruct (users d !! ApiKey.user_id k).
Qed.

Lemma authenticate_jwt_publish token d w :
  authenticate_jwt token (publish d w) =
  (publish d w,
   c ← decode_access_token token (now w);
   match c_sub c ≫= uuid_parse with
   | None => Err (AuthenticationError (str "Invalid token payload."))
   | Some uid => match users d !! uid with
                 | Some u => if User.is_active u then principal_of u ByJwt None
                             else Err (AuthenticationError (str "Invalid or expired token."))
                 | None => Err (AuthenticationError (str "Invalid or expired token."))
                 end
   end).
Proof.
  unfold authenticate_jwt. rewrite bind_run. unfold reads at 1. cbv beta iota.
  change (now (publish d w)) with (now w).
  destruct (decode_access_token token (now w)) as [c|e]; [|done]. cbn.
  destruct (c_sub c ≫= uuid_parse) as [uid|]; [|done]. rewrite bind_run. unfold select. cbv beta iota.
  change (cur_db (publish d w)) with d. destruct (users d !! uid) as [u|]; [|done].
  by destruct (User.is_active u).
Qed.

Lemma principal_of_ok u m k p :
  principal_of u m k = Ok p →
  role_enum u = Ok (p_role p) ∧ p_user_id p = User.id u ∧ p_auth_method p = m ∧ p_api_key_id p = k.
Proof. unfold principal_of. destruct (role_enum u); cbn; by intros [= <-]. Qed.

(** What it takes to be the principal [p], on database [d] at instant [t]. *)
Definition entitled (d : db) (t : datetime) (token : pystr) (p : Principal) : Prop :=
  ∃ u, users d !! p_user_id p = Some u ∧ User.is_active u = true ∧ role_enum u = Ok (p_role p) ∧
  match p_auth_method p with
  | ByApiKey => is_api_key_token token = true ∧
      ∃ kid k, api_keys d !! kid = Some k ∧ p_api_key_id p = Some kid ∧
        ApiKey.key_hash k = hash_key token ∧ ApiKey.is_active t k = true ∧
        ApiKey.user_id k = p_user_id p
  | ByJwt => is_api_key_token token = false ∧ p_api_key_id p = None ∧
      ∃ c, decode_access_token token t = Ok c ∧ (c_sub c ≫= uuid_parse) = Some (p_user_id p)
  end.

Lemma jwt_entitled token d w p :
  db_ok d → is_api_key_token token = false → (authenticate_jwt token (publish d w)).2 = Ok p →
  entitled d (now w) token p ∧ p_auth_method p = ByJwt.
Proof.
  intros Hd Ht. rewrite authenticate_jwt_publish. cbn.
  destruct (decode_access_token token (now w)) as [c|e] eqn:Ec; [|done]. cbn.
  destruct (c_sub c ≫= uuid_parse) as [uid|] eqn:Es; [|done].
  destruct (users d !! uid) as [u|] eqn:Hu; [|done].
  destruct (User.is_active u) eqn:Ha; [|done]. intros (Hr & Hi & Hm & Hk)%principal_of_ok.
  rewrite (db_ok_user_id _ _ _ Hd Hu) in Hi. split; [|done].
  exists u. rewrite Hi, Hm. split_and!; try done. by exists c.
Qed.

Lemma api_key_entitled token d w p :
  db_ok d → is_api_key_token token = true → (authenticate_api_key token (publish d w)).2 = Ok p →
  entitled d (now w) token p.
Proof.
  intros Hd Ht. rewrite authenticate_api_key_publish by done. cbn [snd].
  destruct (where_eq_cases ApiKey.key_hash (hash_key token) (api_keys d)) as [(kid & k & Hk & Hh & ->)|[-> _]];
    [by destruct Hd as [_ _ [] _]| |done].
  destruct (users d !! ApiKey.user_id k) as [u|] eqn:Hu; [|done].
  destruct (ApiKey.is_active (now w) k) eqn:Ea; [|done].
  destruct (User.is_active u) eqn:Ha; [|done]. cbn [andb]. intros (Hr & Hi & Hm & Hkid)%principal_of_ok.
  rewrite (db_ok_user_id _ _ _ Hd Hu) in Hi.
  assert (ApiKey.id k = kid) as Hid by (destruct Hd as [_ _ [Ki _ _ _ _ _] _]; by apply Ki).
  exists u. rewrite Hi, Hm. split_and!; try done. exists kid, k. by rewrite Hkid, Hid.
Qed.

(** Authenticating only reads. *)
Lemma require_role_reads minimum jwt_only creds d w :
  db_ok d → (require_role minimum jwt_only creds (publish d w)).1 = publish d w.
Proof.
  intros Hd. unfold require_role, require_jwt_principal, get_current_principal. rewrite bind_run.
  destruct jwt_only, (truthy creds); try done; destruct (is_api_key_token _); try done.
  all: rewrite ?authenticate_jwt_publish, ?authenticate_api_key_publish by done;
    match goal with |- fst (match ?r with _ => _ end) = _ => destruct r as [p|e]; [|done] end;
    by destruct (role_can (p_role p) minimum).
Qed.

(** C10: a request is let in only as an active account with the role asked for: with a
    session token, the account the token was issued for; with an API key, its owner, while
    the key is neither revoked nor expired; and where a session is required no API key
    passes.  Checking changes nothing. *)
Theorem require_role_sound minimum jwt_only creds w :
  db_ok (committed_db w) →
  let '(w', r) := request (require_role minimum jwt_only creds) w in
  committed_db w' = committed_db w ∧
  ∀ p, r = Ok p →
    role_can (p_role p) minimum = true ∧
    (∃ token, creds = Some token ∧ entitled (committed_db w) (now w) token p) ∧
    (jwt_only = true → p_auth_method p = ByJwt).
Proof.
  intros Hd. unfold request. rewrite begin_session_eq. set (d := committed_db w) in *.
  pose proof (require_role_reads minimum jwt_only creds d w Hd) as Hw.
  destruct (require_role minimum jwt_only creds (publish d w)) as [w' r] eqn:E. cbn in Hw. subst w'.
  split; [done|]. intros p ->. revert E. unfold require_role. rewrite bind_ok.
  intros (w1 & p' & Ep & Ek). destruct (role_can (p_role p') minimum) eqn:Er; [|done].
  injection Ek as -> ->. split; [done|].
  assert (∀ token, truthy (Some token) = true → is_api_key_token token = false →
    authenticate_jwt token (publish d w) = (publish d w, Ok p) →
    entitled d (now w) token p ∧ p_auth_method p = ByJwt) as Hjwt.
  { intros token _ Ht Ha. apply jwt_entitled; [done|done|by rewrite Ha]. }
  destruct jwt_only; unfold require_jwt_principal, get_current_principal in Ep;
    destruct creds as [token|]; try done; destruct (truthy (Some token)) eqn:Et; try done; 
    unfold default, from_option, id in Ep;
    destruct (is_api_key_token token) eqn:Ei; try done.
  - destruct (Hjwt token Et Ei Ep). eauto.
  - split; [|done]. exists token. split; [done|]. apply api_key_entitled; [done|done|by rewrite Ep].
  - destruct (Hjwt token Et Ei Ep). eauto.
Qed.

(** C37: a session lasts its configured time: the token handed out at login says it lasts
    the configured minutes, sixty seconds each; it authenticates exactly its account in every
    second before that many seconds after the second of its making, while the account is
    active, and nobody from then on. *)
Theorem session_lifetime `{!JwtLaws} w u jti t :
  db_ok (committed_db w) → users (committed_db w) !! User.id u = Some u → User.is_active u = true →
  is_ok (role_enum u) = true → (User.id u < UUID_END)%N → api_key_prefix cfg = str "agnt" → now w ≤ t →
  let '(token, expires_in) := create_access_token (User.id u) (User.email u) (User.role u) jti (now w) in
  let r := (request (get_current_principal (Some token)) (w <| now := t |>)).2 in
  expires_in = jwt_expire_minutes cfg * 60 ∧
  if t / 1000000 <? now w / 1000000 + jwt_expire_minutes cfg * 60
  then ∃ p, r = Ok p ∧ p_user_id p = User.id u ∧ role_enum u = Ok (p_role p)
  else r = Err (AuthenticationError (str "Invalid or expired token.")).
Proof.
  intros Hd Hu Ha Hrole Hid Hpre Ht. unfold create_access_token.
  set (c := Build_claims _ _ _ _ _ _ _). set (token := jwt_encode c _ _).
  assert (is_api_key_token token = false) as Hnk by (unfold is_api_key_token; rewrite Hpre; apply jwt_not_api_key).
  set (d := committed_db w) in *.
  assert ((request (get_current_principal (Some token)) (w <| now := t |>)).2 =
          (authenticate_jwt token (publish d (w <| now := t |>))).2) as ->.
  { unfold request, get_current_principal. rewrite begin_session_eq. cbn [truthy].
    pose proof (jwt_nonempty c (jwt_secret cfg) (jwt_algorithm cfg)) as Hne. fold token in Hne.
    destruct token as [|x tok]; [done|]. cbn [nonempty]. change (default [] (Some (x :: tok))) with (x :: tok). rewrite Hnk.
    change (committed_db (w <| now := t |>)) with d. by destruct (authenticate_jwt _ _). }
  rewrite authenticate_jwt_publish. cbn [snd]. change (now (w <| now := t |>)) with t.
  unfold decode_access_token, token. assert (0 < SECOND) by done.
  change 1000000 with SECOND. split; [done|].
  assert (c_exp c = now w / SECOND + jwt_expire_minutes cfg * 60) as Hexp by (cbn; rewrite Z.div_add by done; lia).
  rewrite <- Hexp. destruct (Z.ltb_spec (t / SECOND) (c_exp c)) as [Hlt|Hge].
  - rewrite (jwt_roundtrip c) by (split; [apply Z.div_le_mono; lia|done]).
    cbn. rewrite uuid_roundtrip by done. cbn. rewrite Hu, Ha. unfold principal_of.
    destruct (role_enum u) as [role|e]; [|done]. eexists. split; [reflexivity|done].
  - by rewrite (jwt_expired c).
Qed.

(** ** Life of an API key *)
Definition fresh_key (user : User.User) (label : pystr) (scopes : list pystr) (kid : uuid) (tok : pystr)
  (at_ : datetime) : ApiKey.ApiKey :=
  {| ApiKey.id := kid; ApiKey.user_id := User.id user; ApiKey.label := label;
     ApiKey.key_prefix := take 12 (core_raw_key tok); ApiKey.key_hash := core_key_hash (core_raw_key tok);
     ApiKey.scopes := scopes; ApiKey.project_id := None; ApiKey.created_at := at_;
     ApiKey.last_used_at := None; ApiKey.revoked_at := None; ApiKey.expires_at := None |}.

Lemma create_api_key_publish user label scopes kid tok d w :
  is_ok (role_enum user) = true → api_keys d !! kid = None →
  db_ok (put_api_key (fresh_key user label scopes kid tok (now w)) d) →
  create_api_key user label scopes kid tok (publish d w) =
  (publish (put_api_key (fresh_key user label scopes kid tok (now w)) d) w,
   Ok (fresh_key user label scopes kid tok (now w), core_raw_key tok)).
Proof.
  intros Hr Hk Hok. unfold create_api_key. rewrite bind_run. unfold reads. cbv beta iota.
  destruct (role_enum user) as [role|e]; [|done]. unfold mint_api_key. cbv beta iota zeta.
  rewrite bind_run. unfold gets. cbv beta iota. unfold add_api_key. rewrite add_commit_then.
  rewrite decide_True; [done|]. split; [|done]. apply bool_decide_eq_false_2. cbn. rewrite Hk. by intros [? [=]].
Qed.

Lemma revoke_api_key_publish user_id kid k d w :
  api_keys d !! kid = Some k → ApiKey.user_id k = user_id → ApiKey.is_active (now w) k = true →
  db_ok (put_api_key (k <| ApiKey.revoked_at := Some (now w) |>) d) →
  revoke_api_key user_id kid (publish d w) =
  (publish (put_api_key (k <| ApiKey.revoked_at := Some (now w) |>) d) w, Ok tt).
Proof.
  intros Hk Hu Ha Hok. unfold revoke_api_key. rewrite bind_run. unfold select. cbv beta iota.
  change (cur_db (publish d w)) with d. rewrite Hk, bind_run. unfold gets. cbv beta iota.
  change (now (publish d w)) with (now w). rewrite bool_decide_eq_true_2, Ha by done. cbn [andb].
  unfold save_api_key. rewrite update_commit_run. by rewrite decide_True.
Qed.

Lemma api_key_principal token d w k :
  db_ok d → is_api_key_token token = true → token ≠ [] →
  api_keys d !! ApiKey.id k = Some k → ApiKey.key_hash k = hash_key token →
  (get_current_principal (Some token) (publish d w)).2 =
  match users d !! ApiKey.user_id k with
  | Some u => if ApiKey.is_active (now w) k && User.is_active u
              then principal_of u ByApiKey (Some (ApiKey.id k))
              else Err (AuthenticationError (str "Invalid or revoked API key."))
  | None => Err (AuthenticationError (str "Invalid or revoked API key."))
  end.
Proof.
  intros Hd Ht Hne Hk Hh. unfold get_current_principal.
  assert (truthy (Some token) = true) as -> by (by destruct token).
  change (default [] (Some token)) with token. rewrite Ht, authenticate_api_key_publish by done.
  cbn [snd]. rewrite <- Hh, (where_eq_unique ApiKey.key_hash _ (ApiKey.id k) k); [done| |done].
  by destruct Hd as [_ _ [] _].
Qed.

(** Revoking a revoked key finds none. *)
Lemma revoke_revoked user_id kid k t w :
  api_keys (committed_db w) !! kid = Some k → ApiKey.revoked_at k = Some t →
  (request (revoke_api_key user_id kid) w).2 = Err (ApiKeyNotFoundError kid).
Proof.
  intros Hk Hr. unfold request. rewrite begin_session_eq. unfold revoke_api_key. rewrite bind_run. unfold select.
  cbv beta iota. change (cur_db (publish (committed_db w) w)) with (committed_db w). rewrite Hk, bind_run. unfold gets.
  cbv beta iota. unfold ApiKey.is_active. by rewrite Hr, andb_false_r.
Qed.
Lemma principal_request creds w :
  (request (get_current_principal creds) w).2 = (get_current_principal creds (publish (committed_db w) w)).2.
Proof. unfold request. rewrite begin_session_eq. by destruct (get_current_principal _ _). Qed.

(** C38: an API key, whose label and scopes the database can store, works from its creation until
    it is revoked: in every later state, at
    whatever time, that still has its row it authenticates exactly its owner while the owner
    is active, and its owner can revoke it; and in every state after that which has the row
    as revoked it authenticates nobody and cannot be revoked again. *)
Theorem api_key_lifecycle `{!CoreApiKeysLaws} w user label scopes kid tok :
  db_ok (committed_db w) → users (committed_db w) !! User.id user = Some user →
  is_ok (role_enum user) = true → api_key_prefix cfg = str "agnt" →
  api_keys (committed_db w) !! kid = None → pg_text label → Forall pg_text scopes →
  (∀ kid' k, api_keys (committed_db w) !! kid' = Some k → ApiKey.key_hash k ≠ hash_key (str "agnt_" ++ tok)) →
  let raw := str "agnt_" ++ tok in
  let '(w1, r1) := request (create_api_key user label scopes kid tok) w in
  ∃ key, r1 = Ok (key, raw) ∧ api_keys (committed_db w1) !! kid = Some key ∧
    ∀ w2, db_ok (committed_db w2) → api_keys (committed_db w2) !! kid = Some key →
      (∀ u, users (committed_db w2) !! User.id user = Some u → User.is_active u = true → is_ok (role_enum u) = true →
         ∃ p, (request (get_current_principal (Some raw)) w2).2 = Ok p ∧ p_user_id p = User.id user ∧
              p_auth_method p = ByApiKey) ∧
      let '(w3, r3) := request (revoke_api_key (User.id user) kid) w2 in
      r3 = Ok tt ∧ ∃ dead, api_keys (committed_db w3) !! kid = Some dead ∧
        ∀ w4, db_ok (committed_db w4) → api_keys (committed_db w4) !! kid = Some dead →
          (request (get_current_principal (Some raw)) w4).2 =
            Err (AuthenticationError (str "Invalid or revoked API key.")) ∧
          (request (revoke_api_key (User.id user) kid) w4).2 = Err (ApiKeyNotFoundError kid).
Proof.
  intros Hd Hu Hr Hpre Hk Ht Hts Hh raw. set (d := committed_db w) in *.
  set (key := fresh_key user label scopes kid tok (now w)).
  assert (core_raw_key tok = raw) as Hraw by apply core_raw_key_format.
  assert (ApiKey.key_hash key = hash_key raw) as Hkh by (cbn; by rewrite Hraw, core_key_hash_sha256).
  assert (db_ok (put_api_key key d)) as Hd1.
  { apply db_ok_put_api_key; [done|by eexists|done|]. intros kid' k' Hk' _. rewrite Hkh. by apply (Hh kid'). }
  assert (is_api_key_token raw = true) as Htok
    by (unfold is_api_key_token; rewrite Hpre; apply (startswith_app (str "agnt_") tok)).
  rewrite (request_publish _ _ _ _ _ (create_api_key_publish user label scopes kid tok d w Hr Hk Hd1)). fold key.
  exists key. split_and!; [by rewrite Hraw|apply lookup_insert_eq|]. intros w2 Hd2 Hk2. split.
  - intros u Hu2 Ha Hr2. rewrite principal_request, (api_key_principal raw _ w2 key) by done.
    change (ApiKey.user_id key) with (User.id user). rewrite Hu2, Ha. cbn [andb]. unfold principal_of.
    destruct (role_enum u); [|done]. eexists. split_and!; [reflexivity| |done]. by eapply db_ok_user_id.
  - set (dead := key <| ApiKey.revoked_at := Some (now w2) |>).
    assert (db_ok (put_api_key dead (committed_db w2))) as Hd3.
    { apply db_ok_put_api_key; [done|by destruct Hd2 as [_ _ [_ _ Ho _ _ _] _]; apply (Ho _ _ Hk2)|done|].
      intros kid' k' Hk' Hne Hx. destruct Hd2 as [_ _ [_ Huq _ _ _ _] _].
      apply Hne. symmetry. apply (Huq _ _ Hk2 _ _ Hk'); [done|by rewrite Hx]. }
    rewrite (request_publish _ _ _ _ _ (revoke_api_key_publish (User.id user) kid key _ w2 Hk2 eq_refl eq_refl Hd3)).
    fold dead. split; [done|]. exists dead. split; [apply lookup_insert_eq|]. intros w4 Hd4 Hk4.
    split; [|by eapply revoke_revoked].
    rewrite principal_request, (api_key_principal raw _ w4 dead) by done. by case_match.
Qed.
End auth.

(** ** Witnesses *)

(** Tokens that are the numbering of their content. *)
Definition token_content (c : claims) (secret alg : pystr)
  : option pystr * pystr * Z * pystr * Z * Z * pystr * pystr * pystr :=
  (c_sub c, c_email c, c_role c, c_iss c, c_iat c, c_exp c, c_jti c, secret, alg).
#[export] Instance fixture_jwt : Jwt := {|
  jwt_encode c secret alg := [N.pos (encode (token_content c secret alg))];
  jwt_decode token secret alg iss at_ :=
    match token with
    | [N.pos p] =>
        match decode p with
        | Some (sub, email, role, iss', iat, exp, jti, secret', alg') =>
            if (secret' == secret) && (alg' == alg) && (iss' == iss) && (iat <=? at_ / SECOND) &&
               (at_ / SECOND <? exp)
            then Some {| c_sub := sub; c_email := email; c_role := role; c_iss := iss'; c_iat := iat;
                         c_exp := exp; c_jti := jti |}
            else None
        | None => None
        end
    | _ => None
    end |}.
#[export] Instance fixture_jwt_laws : JwtLaws.
Proof.
  split.
  - intros c secret alg at_ [Hi He]. cbn. rewrite decode_encode. unfold token_content.
    rewrite !bool_decide_eq_true_2 by done. rewrite (proj2 (Z.leb_le _ _) Hi), (proj2 (Z.ltb_lt _ _) He).
    by destruct c.
  - intros c secret alg iss at_ He. cbn. rewrite decode_encode. unfold token_content.
    rewrite (proj2 (Z.ltb_ge _ _) He). by rewrite andb_false_r.
  - intros c secret alg. apply bool_decide_eq_false_2. intros [k Hk].
    apply (f_equal length) in Hk. rewrite length_app in Hk. vm_compute (length (str _)) in Hk. cbn in Hk. lia.
  - done.
Qed.

#[export] Instance fixture_core_keys : CoreApiKeys := {|
  core_raw_key tok := str "agnt_" ++ tok; core_key_hash raw := sha256_hex raw |}.
#[export] Instance fixture_core_keys_laws : CoreApiKeysLaws.
Proof. by split. Qed.

Definition auth_world : world fixture_rt := fixture_world (fixture_db [fixture_user] []) ∅.
Lemma auth_world_ok : db_ok (committed_db auth_world).
Proof. by_decide. Qed.

Theorem require_role_sound_witness :
  let token := (create_access_token default_settings 7%N (str "e") 2 [] 0).1 in
  let '(w', r) := request (require_role default_settings OPERATOR true (Some token)) auth_world in
  is_ok r = true ∧ ∀ p, r = Ok p → p_auth_method p = ByJwt.
Proof.
  intros token. pose proof (require_role_sound default_settings OPERATOR true (Some token) auth_world
    auth_world_ok) as Hr.
  assert (is_ok (request (require_role default_settings OPERATOR true (Some token)) auth_world).2 = true)
    as Hok by (vm_compute; reflexivity).
  destruct (request _ _) as [w' r]. split; [exact Hok|].
  intros p Hp. destruct Hr as [_ Hr]. destruct (Hr p Hp) as (_ & _ & Hj). by apply Hj.
Defined.

Theorem session_lifetime_witness :
  let token := (create_access_token default_settings 7%N (str "dev@example.com") 2 [] 0).1 in
  let r t := (request (get_current_principal default_settings (Some token)) (auth_world <| now := t |>)).2 in
  (∃ p, r 3599999999 = Ok p ∧ p_user_id p = 7%N) ∧
  r 3600000000 = Err (AuthenticationError (str "Invalid or expired token.")).
Proof.
  intros token r. split.
  - destruct (session_lifetime default_settings auth_world fixture_user [] 3599999999 auth_world_ok
      ltac:(vm_compute; reflexivity) ltac:(vm_compute; reflexivity) ltac:(vm_compute; reflexivity)
      ltac:(vm_compute; reflexivity) ltac:(vm_compute; reflexivity) ltac:(vm_compute; discriminate)) as [_ Hok].
    rewrite (proj2 (Z.ltb_lt _ _)) in Hok by (vm_compute; reflexivity). destruct Hok as (p & Hp & Hu & _). exists p. split; [exact Hp|exact Hu].
  - destruct (session_lifetime default_settings auth_world fixture_user [] 3600000000 auth_world_ok
      ltac:(vm_compute; reflexivity) ltac:(vm_compute; reflexivity) ltac:(vm_compute; reflexivity)
      ltac:(vm_compute; reflexivity) ltac:(vm_compute; reflexivity) ltac:(vm_compute; discriminate)) as [_ Hexp].
    rewrite (proj2 (Z.ltb_ge _ _)) in Hexp by (vm_compute; discriminate). exact Hexp.
Defined.

Definition later {R} (t : datetime) (w : world R) : world R := w <| now := t |>.
(** A key that is used a year after its creation, and revoked a year later. *)
Theorem api_key_lifecycle_witness :
  let year := 31536000000000 in
  let w1 := (request (create_api_key fixture_user (str "ci") [] 5%N (str "t")) auth_world).1 in
  let w2 := later year w1 in
  let w3 := (request (revoke_api_key 7%N 5%N) (later (2 * year) w1)).1 in
  (∃ p, (request (get_current_principal default_settings (Some (str "agnt_t"))) w2).2 = Ok p ∧ p_user_id p = 7%N) ∧
  (request (get_current_principal default_settings (Some (str "agnt_t"))) w3).2 =
    Err (AuthenticationError (str "Invalid or revoked API key.")).
Proof.
  intros year w1 w2 w3.
  pose proof (api_key_lifecycle default_settings auth_world fixture_user (str "ci") [] 5%N (str "t")
    auth_world_ok ltac:(vm_compute; reflexivity) ltac:(vm_compute; reflexivity) ltac:(vm_compute; reflexivity)
    ltac:(vm_compute; reflexivity) ltac:(by_decide) ltac:(by_decide) ltac:(by intros ? ?)) as Hl. cbv zeta in Hl.
  replace (str "agnt_" ++ str "t") with (str "agnt_t") in Hl by (vm_compute; reflexivity).
  subst w3 w2 w1. destruct (request (create_api_key _ _ _ _ _) _) as [w1 r1] eqn:E1. cbn [fst].
  assert (db_ok (committed_db w1)) as Hd1
    by (replace w1 with (request (create_api_key fixture_user (str "ci") [] 5%N (str "t")) auth_world).1
          by (by rewrite E1); by_decide).
  assert (users (committed_db w1) !! 7%N = Some fixture_user) as Hu1
    by (replace w1 with (request (create_api_key fixture_user (str "ci") [] 5%N (str "t")) auth_world).1
          by (by rewrite E1); vm_compute; reflexivity).
  destruct Hl as (key & _ & Hk & Hlater). split.
  - destruct (Hlater (later year w1) Hd1 Hk) as [Hp _].
    destruct (Hp fixture_user Hu1 eq_refl ltac:(vm_compute; reflexivity)) as (p & E & Hid & _).
    exists p. split; [exact E|exact Hid].
  - destruct (Hlater (later (2 * year) w1) Hd1 Hk) as [_ Hrev]. change (User.id fixture_user) with 7%N in Hrev.
    destruct (request (revoke_api_key 7%N 5%N) _) as [w3 r3] eqn:E3. cbn [fst].
    destruct Hrev as (_ & dead & Hdead & Hafter). apply (Hafter w3); [|exact Hdead].
    replace w3 with (request (revoke_api_key 7%N 5%N)
      (later (2 * year) (request (create_api_key fixture_user (str "ci") [] 5%N (str "t")) auth_world).1)).1
      by (by rewrite E1; cbn [fst]; rewrite E3). by_decide.
Defined.
