(* ===== verification/Billing.v ===== *)
(** Stripe billing ([services/billing_service.py], [routers/billing.py]).

    The Stripe client is an argument: a record of the calls the gateway makes, each
    answering with a value or an exception.  Events are the parsed JSON, as far as the
    code reads it; a missing key is [None]. *)

From S2P Require Import Prelude PyText Codec Sha256 PyFloat Config Errors Plans Models Runtime IngressLimits World.
From S2P Require Import Fixtures AccessKeys Auth.

Definition PAID_PLAN : pystr := str "pro".
Definition PAID_STATUSES : list pystr := [str "active"; str "trialing"; str "past_due"].

Definition is_paid (status : option pystr) : bool :=
  match status with Some s => bool_decide (s ∈ PAID_STATUSES) | None => false end.
Definition plan_for_status (status : option pystr) : pystr :=
  if is_paid status then PAID_PLAN else str "free".

(** The object of an event: a checkout session or a subscription. *)
Record stripe_object := {
  o_id : option pystr;
  o_customer : option pystr;
  o_subscription : option pystr;
  o_client_reference_id : option pystr;
  o_mode : option pystr;
  o_payment_status : option pystr;
  o_status : option pystr;
  o_metadata_user_id : option pystr;
}.
Record stripe_event := { ev_type : pystr; ev_object : stripe_object }.

(** The parameters of a checkout session. *)
Record checkout_params := {
  cp_mode : pystr;
  cp_customer : pystr;
  cp_client_reference_id : pystr;
  cp_price : option pystr;
  cp_metadata_user_id : pystr;
  cp_allow_promotion_codes : bool;
  cp_success_url : pystr;
  cp_cancel_url : pystr;
}.

Record StripeClient := {
  customers_create : pystr → pystr → pystr → result exn pystr;
  checkout_sessions_create : checkout_params → result exn pystr;
  portal_sessions_create : pystr → pystr → result exn pystr;
  subscriptions_retrieve : pystr → result exn stripe_object;
}.

Section billing.
Context {R : Type} `{UnicodeTables} `{HCore : CoreRole} `{HJwt : Jwt}.
Context (cfg : GatewaySettings).

Definition is_slash (c : N) : bool := (c =? 47)%N.
(** [_console_url] *)
Definition console_url (path : pystr) : pystr := rstrip_by is_slash (public_base_url cfg) ++ path.

(** [_ensure_customer]; the changed user is returned with the id. *)
Definition ensure_customer (client : StripeClient) (user : User.User) : MW R pystr :=
  if truthy (User.stripe_customer_id user) then mret (default [] (User.stripe_customer_id user)) else
  customer ← reads (λ _, customers_create client (User.email user) (User.name user) (uuid_str (User.id user)));
  save_user (user <| User.stripe_customer_id := Some customer |>);;
  commit;;
  mret customer.

Definition checkout_url (client : StripeClient) (user : User.User) : MW R pystr :=
  if is_paid (User.subscription_status user)
  then raise (BillingConflictError (str "ALREADY_SUBSCRIBED"))
  else
  customer_id ← ensure_customer client user;
  reads (λ _, checkout_sessions_create client {|
    cp_mode := str "subscription";
    cp_customer := customer_id;
    cp_client_reference_id := uuid_str (User.id user);
    cp_price := stripe_price_pro cfg;
    cp_metadata_user_id := uuid_str (User.id user);
    cp_allow_promotion_codes := true;
    cp_success_url := console_url (str "/settings?billing=success");
    cp_cancel_url := console_url (str "/settings?billing=cancelled") |}).

Definition portal_url (client : StripeClient) (user : User.User) : MW R pystr :=
  if truthy (User.stripe_customer_id user)
  then reads (λ _, portal_sessions_create client (default [] (User.stripe_customer_id user))
                     (console_url (str "/settings?billing=portal")))
  else raise (BillingConflictError (str "NO_BILLING_ACCOUNT")).

(** [_find_user] *)
Definition find_user (d : db) (user_id customer_id : option pystr) : result exn (option User.User) :=
  let by_id := if truthy user_id then uuid_parse (default [] user_id) ≫= λ u, users d !! u else None in
  match by_id with
  | Some u => Ok (Some u)
  | None => if truthy customer_id
            then scalar_one_or_none (where_eq User.stripe_customer_id customer_id (users d))
            else Ok None
  end.

(** [_current_subscription] *)
Definition current_subscription (client : option StripeClient) (obj : stripe_object)
  : result exn stripe_object :=
  match client with
  | Some c => if truthy (o_id obj) then subscriptions_retrieve c (default [] (o_id obj)) else Ok obj
  | None => Ok obj
  end.

Definition SUBSCRIPTION_DELETED : pystr := str "customer.subscription.deleted".
Definition SUBSCRIPTION_EVENTS : list pystr :=
  [str "customer.subscription.created"; str "customer.subscription.updated"; SUBSCRIPTION_DELETED].

(** What a completed checkout session does to the account. *)
Definition after_checkout (obj : stripe_object) (user : User.User) : User.User :=
  let user := user <| User.stripe_customer_id := str_or (o_customer obj) (User.stripe_customer_id user) |>
                   <| User.stripe_subscription_id :=
                        str_or (o_subscription obj) (User.stripe_subscription_id user) |> in
  if bool_decide (o_payment_status obj = Some (str "paid")) ||
     bool_decide (o_payment_status obj = Some (str "no_payment_required"))
  then user <| User.subscription_status := Some (str "active") |> <| User.plan := PAID_PLAN |>
  else user.

(** A subscription other than the account's current one that is not paid for. *)
Definition irrelevant (user : User.User) (subscription_id status : option pystr) : bool :=
  truthy (User.stripe_subscription_id user) &&
  (subscription_id != User.stripe_subscription_id user) && negb (is_paid status).

Definition after_subscription (obj : stripe_object) (status : option pystr) (user : User.User) : User.User :=
  user <| User.stripe_customer_id := str_or (o_customer obj) (User.stripe_customer_id user) |>
       <| User.stripe_subscription_id := o_id obj |>
       <| User.subscription_status := status |>
       <| User.plan := plan_for_status status |>.

Definition handle_event (event : stripe_event) (client : option StripeClient) : MW R unit :=
  let obj := ev_object event in
  if ev_type event == str "checkout.session.completed" then
    found ← query (λ d, find_user d (o_client_reference_id obj) (o_customer obj));
    match found with
    | Some user =>
        if o_mode obj == Some (str "subscription")
        then save_user (after_checkout obj user);; commit
        else mret tt
    | None => mret tt
    end
  else if bool_decide (ev_type event ∈ SUBSCRIPTION_EVENTS) then
    obj ← reads (λ _, if ev_type event == SUBSCRIPTION_DELETED then Ok obj
                      else current_subscription client obj);
    found ← query (λ d, find_user d (o_metadata_user_id obj) (o_customer obj));
    match found with
    | None => mret tt
    | Some user =>
        let status := if ev_type event == SUBSCRIPTION_DELETED then Some (str "canceled") else o_status obj in
        if irrelevant user (o_id obj) status then mret tt
        else save_user (after_subscription obj status user);; commit
    end
  else mret tt.

(** ** Routes ([routers/billing.py])

    A route first authenticates, then makes the Stripe client, as its dependencies are
    listed. *)
Definition get_stripe_client (make : pystr → StripeClient) : result exn StripeClient :=
  if billing_enabled cfg then Ok (make (default [] (stripe_secret_key cfg)))
  else Err BillingNotConfiguredError.

(** [_user] *)
Definition billing_user (principal : Principal) : MW R User.User :=
  query (λ d, match users d !! p_user_id principal with
              | Some u => Ok u
              | None => Err (AuthenticationError (str "Invalid or expired token."))
              end).

Record RedirectOut := { rd_url : pystr }.
Record BillingStatus := {
  bs_enabled : bool;
  bs_plan : pystr;
  bs_subscription_status : option pystr;
  bs_has_billing_account : bool;
}.
Definition billing_status (creds : option pystr) : MW R BillingStatus :=
  principal ← get_current_principal cfg creds;
  user ← billing_user principal;
  mret {| bs_enabled := billing_enabled cfg; bs_plan := User.plan user;
          bs_subscription_status := User.subscription_status user;
          bs_has_billing_account := bool_decide (is_Some (User.stripe_customer_id user)) |}.

(** [_require_billing_session] *)
Definition require_billing_session (creds : option pystr) : MW R Principal :=
  require_role cfg OPERATOR true creds.
Definition checkout (make : pystr → StripeClient) (creds : option pystr) : MW R RedirectOut :=
  principal ← require_billing_session creds;
  client ← reads (λ _, get_stripe_client make);
  user ← billing_user principal;
  url ← checkout_url client user;
  mret {| rd_url := url |}.
Definition portal (make : pystr → StripeClient) (creds : option pystr) : MW R RedirectOut :=
  principal ← require_billing_session creds;
  client ← reads (λ _, get_stripe_client make);
  user ← billing_user principal;
  url ← portal_url client user;
  mret {| rd_url := url |}.

(** The webhook: [verified] is whether the signature of the payload checks for the
    configured secret, [event] the parsed payload. *)
Definition webhook (make : pystr → StripeClient) (verified : pystr → bool) (event : stripe_event)
  : MW R unit :=
  if truthy (stripe_webhook_secret cfg) then
    if verified (default [] (stripe_webhook_secret cfg)) then
      handle_event event
        (if billing_enabled cfg then Some (make (default [] (stripe_secret_key cfg))) else None)
    else raise InvalidWebhookError
  else raise BillingNotConfiguredError.

(** ** Events as row updates *)
(** The account row an event writes, if it writes one. *)
Definition event_row (d : db) (event : stripe_event) (client : option StripeClient)
  : result exn (option User.User) :=
  if ev_type event == str "checkout.session.completed" then
    let obj := ev_object event in
    found ← find_user d (o_client_reference_id obj) (o_customer obj);
    Ok (match found with
        | Some u => if o_mode obj == Some (str "subscription") then Some (after_checkout obj u) else None
        | None => None
        end)
  else if bool_decide (ev_type event ∈ SUBSCRIPTION_EVENTS) then
    obj ← (if ev_type event == SUBSCRIPTION_DELETED then Ok (ev_object event)
           else current_subscription client (ev_object event));
    found ← find_user d (o_metadata_user_id obj) (o_customer obj);
    Ok (match found with
        | Some u =>
            let status := if ev_type event == SUBSCRIPTION_DELETED then Some (str "canceled") else o_status obj in
            if irrelevant u (o_id obj) status then None else Some (after_subscription obj status u)
        | None => None
        end)
  else Ok None.

Lemma handle_event_publish event client d (w : world R) :
  handle_event event client (publish d w) =
  match event_row d event client with
  | Ok (Some u) => if decide (db_ok (put_user u d)) then (publish (put_user u d) w, Ok tt)
                   else (publish d w, Err IntegrityError)
  | Ok None => (publish d w, Ok tt)
  | Err e => (publish d w, Err e)
  end.
Proof.
  unfold handle_event, event_row.
  case_bool_decide; [|case_bool_decide; [|done]].
  - rewrite bind_run, query_publish. destruct (find_user _ _ _) as [[u|]|e]; cbn; try done.
    case_bool_decide; [|done]. apply update_commit_run.
  - rewrite bind_run. unfold reads. cbv beta iota.
    set (o := if ev_type event == SUBSCRIPTION_DELETED then _ else current_subscription _ _).
    destruct o as [obj|e]; cbn; [|done].
    rewrite bind_run, query_publish. destruct (find_user _ _ _) as [[u|]|e]; cbn; try done.
    destruct (irrelevant u _ _); [done|]. apply update_commit_run.
Qed.

(** Only the billing columns of a row change. *)
Definition same_account (u u' : User.User) : Prop :=
  User.id u' = User.id u ∧ User.email u' = User.email u ∧ User.password_hash u' = User.password_hash u ∧
  User.name u' = User.name u ∧ User.role u' = User.role u ∧ User.is_active u' = User.is_active u ∧
  User.created_at u' = User.created_at u.

Lemma find_user_sound d user_id customer u :
  db_ok d → find_user d user_id customer = Ok (Some u) → users d !! User.id u = Some u.
Proof.
  intros Hd. unfold find_user. destruct (if truthy user_id then _ else _) as [v|] eqn:E.
  - intros [= ->]. destruct (truthy user_id); [|done].
    apply bind_Some in E as (k & _ & Hk). by rewrite (db_ok_user_id d k u Hd Hk).
  - destruct (truthy customer); [|done]. intros [_ [k Hk]]%scalar_where_sound.
    by rewrite (db_ok_user_id d k u Hd Hk).
Qed.

Lemma event_row_sound d event client u' :
  db_ok d → event_row d event client = Ok (Some u') →
  ∃ u, users d !! User.id u = Some u ∧ same_account u u'.
Proof.
  intros Hd. unfold event_row. case_bool_decide; [|case_bool_decide; [|done]].
  - destruct (find_user d _ _) as [[u|]|e] eqn:Ef; cbn; try done. case_bool_decide; [|done].
    intros [= <-]. exists u. split; [by eapply find_user_sound|]. unfold after_checkout. by case_match.
  - destruct (if ev_type event == SUBSCRIPTION_DELETED then _ else _) as [obj|e]; cbn; [|done].
    destruct (find_user d _ _) as [[u|]|e] eqn:Ef; cbn; try done. destruct (irrelevant u _ _); [done|].
    intros [= <-]. exists u. split; [by eapply find_user_sound|done].
Qed.

(** A webhook event changes at most one account, and of it only the billing columns:
    identity, credentials, role and activation are never touched, nor is anything else in
    the database. *)
Theorem event_touches_billing_only event client (w : world R) :
  db_ok (committed_db w) →
  let d := committed_db w in
  let d' := committed_db (request (handle_event event client) w).1 in
  db_ok d' ∧
  (d' = d ∨ ∃ u u', users d !! User.id u = Some u ∧ same_account u u' ∧ d' = put_user u' d).
Proof.
  intros Hd d d'. subst d'. rewrite request_committed, begin_session_eq, handle_event_publish. fold d.
  destruct (event_row d event client) as [[u'|]|e] eqn:E; [|by split; [|left]..].
  case_decide as Hok; [|by split; [|left]]. split; [done|]. right.
  destruct (event_row_sound _ _ _ _ Hd E) as (u & Hu & Hs). by exists u, u'.
Qed.

(** ** Redelivery *)
Lemma str_or_idem a b : str_or a (str_or a b) = str_or a b.
Proof. unfold str_or. by destruct (truthy a). Qed.

(** After its row was written, an account is found by the same identifiers. *)
Lemma find_user_again d user_id customer u u' :
  db_ok d → db_ok (put_user u' d) → find_user d user_id customer = Ok (Some u) →
  User.id u' = User.id u →
  User.stripe_customer_id u' = str_or customer (User.stripe_customer_id u) →
  find_user (put_user u' d) user_id customer = Ok (Some u').
Proof.
  intros Hd Hd' Hf Hid Hc. pose proof (find_user_sound _ _ _ _ Hd Hf) as Hu.
  assert (users (put_user u' d) !! User.id u = Some u') as Hu'
    by (unfold put_user; cbn; rewrite Hid; apply lookup_insert_eq).
  revert Hf. unfold find_user.
  destruct (if truthy user_id then uuid_parse (default [] user_id) ≫= λ u0, users d !! u0 else None) as [v|] eqn:E.
  - intros [= ->]. destruct (truthy user_id); [|done].
    apply bind_Some in E as (k & Hp & Hk). rewrite Hp. cbn [mbind option_bind].
    rewrite <- (db_ok_user_id d k u Hd Hk), Hu'. done.
  - assert ((if truthy user_id then uuid_parse (default [] user_id) ≫= λ u0, users (put_user u' d) !! u0
             else None) = None) as ->.
    { destruct (truthy user_id); [|done]. destruct (uuid_parse _) as [k|]; [|done]. cbn in E |- *.
      rewrite lookup_insert_ne; [done|]. intros <-. rewrite Hid in E. congruence. }
    destruct (truthy customer) eqn:Ht; [|done]. intros [Hcu _]%scalar_where_sound.
    unfold str_or in Hc. rewrite Ht in Hc.
    rewrite <- Hc, (where_eq_unique_opt _ _ (User.id u) u'); [done| |done|by rewrite Hc; destruct customer].
    by destruct Hd' as [[] _ _ _].
Qed.

Lemma event_row_again d event client u' :
  db_ok d → db_ok (put_user u' d) → event_row d event client = Ok (Some u') →
  event_row (put_user u' d) event client = Ok (Some u').
Proof.
  intros Hd Hd' He. revert He. unfold event_row. case_bool_decide; [|case_bool_decide; [|done]].
  - destruct (find_user d _ _) as [[u|]|e] eqn:Ef; cbn; try done. case_bool_decide; [|done].
    intros [= <-].
    rewrite (find_user_again d _ _ u _ Hd Hd' Ef); [|unfold after_checkout; by case_match..].
    cbn. f_equal. f_equal. unfold after_checkout. case_match; cbn; by rewrite !str_or_idem.
  - destruct (if ev_type event == SUBSCRIPTION_DELETED then _ else _) as [obj|e]; cbn; [|done].
    destruct (find_user d _ _) as [[u|]|e] eqn:Ef; cbn; try done.
    destruct (irrelevant u _ _); [done|]. intros [= <-].
    rewrite (find_user_again d _ _ u _ Hd Hd' Ef) by done. cbn. unfold irrelevant at 1. cbn.
    rewrite bool_decide_eq_true_2 by done. cbn. rewrite andb_false_r. cbn.
    unfold after_subscription. cbn. by rewrite str_or_idem.
Qed.

(** A redelivered event changes nothing more: handling the same event again, with
    Stripe answering the same, ends with the same database and the same answer. *)
Theorem redelivery_idempotent event client (w : world R) :
  db_ok (committed_db w) →
  let '(w1, r1) := request (handle_event event client) w in
  let '(w2, r2) := request (handle_event event client) w1 in
  committed_db w2 = committed_db w1 ∧ r2 = r1.
Proof.
  intros Hd. set (d := committed_db w) in *.
  assert (∀ d0, request (handle_event event client) (publish d0 w) =
    handle_event event client (publish d0 w)) as Hreq.
  { intros d0. unfold request. rewrite begin_session_publish, handle_event_publish.
    repeat case_match; simplify_eq; done. }
  assert (request (handle_event event client) w = handle_event event client (publish d w)) as ->.
  { unfold request. rewrite begin_session_eq. fold d. rewrite handle_event_publish.
    repeat case_match; simplify_eq; done. }
  rewrite (handle_event_publish event client d w).
  destruct (event_row d event client) as [[u'|]|e] eqn:E; cbv beta iota.
  - case_decide as Hok; cbv beta iota; rewrite Hreq, handle_event_publish.
    + rewrite (event_row_again d event client u' Hd Hok E).
      assert (put_user u' (put_user u' d) = put_user u' d) as Hpp
        by (unfold put_user; cbn; by rewrite insert_insert_eq).
      by rewrite Hpp, decide_True.
    + by rewrite E, decide_False.
  - by rewrite Hreq, handle_event_publish, E.
  - by rewrite Hreq, handle_event_publish, E.
Qed.

(** ** The plan follows the subscription *)
(** The subscription an event is applied from, and its status. *)
Definition effective_object (event : stripe_event) (client : option StripeClient) : result exn stripe_object :=
  if ev_type event == SUBSCRIPTION_DELETED then Ok (ev_object event)
  else current_subscription client (ev_object event).
Definition effective_status (event : stripe_event) (obj : stripe_object) : option pystr :=
  if ev_type event == SUBSCRIPTION_DELETED then Some (str "canceled") else o_status obj.

Lemma is_paid_spec status :
  is_paid status = bool_decide (status ∈ Some <$> [str "active"; str "trialing"; str "past_due"]).
Proof.
  destruct status as [s|]; cbn [is_paid].
  - apply bool_decide_ext. unfold PAID_STATUSES. rewrite list_elem_of_fmap. naive_solver.
  - by rewrite bool_decide_eq_false_2 by by_decide.
Qed.

(** C19: a subscription event sets the account's plan by the subscription's status: paid
    (active, trialing or past due) means pro, anything else and a deleted subscription mean
    free; an unpaid subscription that is not the account's current one changes nothing. *)
Theorem plan_follows_subscription event client (w w' : world R) obj u :
  db_ok (committed_db w) → ev_type event ∈ SUBSCRIPTION_EVENTS →
  effective_object event client = Ok obj →
  find_user (committed_db w) (o_metadata_user_id obj) (o_customer obj) = Ok (Some u) →
  request (handle_event event client) w = (w', Ok tt) →
  let status := effective_status event obj in
  let paid := bool_decide (status ∈ Some <$> [str "active"; str "trialing"; str "past_due"]) in
  let other := truthy (User.stripe_subscription_id u) && (o_id obj != User.stripe_subscription_id u) in
  if other && negb paid then committed_db w' = committed_db w
  else ∃ u', users (committed_db w') !! User.id u = Some u' ∧
    User.subscription_status u' = status ∧ User.stripe_subscription_id u' = o_id obj ∧
    User.plan u' = (if paid then str "pro" else str "free").
Proof.
  intros Hd Ht Ho Hf Hw status paid other. revert Hw. subst paid. rewrite <- is_paid_spec.
  change (other && negb (is_paid status)) with (irrelevant u (o_id obj) status). subst status other. unfold request. rewrite begin_session_eq, handle_event_publish.
  unfold event_row. rewrite bool_decide_eq_false_2 by (intros E; rewrite E in Ht; revert Ht; by_decide).
  rewrite bool_decide_eq_true_2 by done. fold (effective_object event client). rewrite Ho.
  unfold mbind, result_bind. cbv beta iota zeta. rewrite Hf. cbv beta iota. fold (effective_status event obj).
  destruct (irrelevant u (o_id obj) (effective_status event obj)); cbv beta iota; [by intros [= <-]|].
  case_decide; cbv beta iota; [|done]. intros [= <-]. eexists. split; [apply lookup_insert_eq|]. done.
Qed.

(** Late and reordered notifications do no harm: while a client is configured, events
    about the creation or update of one subscription act alike whatever snapshot of it they
    carry and in whatever state of the gateway they arrive. *)
Theorem snapshots_do_not_matter c e1 e2 (w : world R) :
  ev_type e1 ∈ [str "customer.subscription.created"; str "customer.subscription.updated"] →
  ev_type e2 ∈ [str "customer.subscription.created"; str "customer.subscription.updated"] →
  o_id (ev_object e1) = o_id (ev_object e2) → truthy (o_id (ev_object e1)) = true →
  handle_event e1 (Some c) w = handle_event e2 (Some c) w.
Proof.
  intros H1 H2 Hid Ht.
  assert (∀ e, ev_type e ∈ [str "customer.subscription.created"; str "customer.subscription.updated"] →
    truthy (o_id (ev_object e)) = true →
    (ev_type e == str "checkout.session.completed") = false ∧ bool_decide (ev_type e ∈ SUBSCRIPTION_EVENTS) = true ∧
    (ev_type e == SUBSCRIPTION_DELETED) = false ∧
    current_subscription (Some c) (ev_object e) = subscriptions_retrieve c (default [] (o_id (ev_object e)))) as Hev.
  { intros e He Hte. unfold current_subscription. rewrite Hte.
    split_and!; [apply bool_decide_eq_false_2|apply bool_decide_eq_true_2|apply bool_decide_eq_false_2|done];
      revert He; rewrite !elem_of_cons; intros [->|[->|[]%elem_of_nil]]; try by_decide. }
  unfold handle_event. destruct (Hev e1 H1 Ht) as (-> & -> & -> & ->).
  rewrite Hid in Ht. destruct (Hev e2 H2 Ht) as (-> & -> & -> & ->). by rewrite Hid.
Qed.
End billing.

Section checkout_theorems.
Context {R : Type} `{UnicodeTables}.

(** An account that already pays is never sent to checkout again and nothing changes;
    otherwise the session is for the account's own Stripe customer, an existing one being
    reused and a new one being recorded before the session is created. *)
Theorem checkout_customer cfg client (w w' : world R) user url :
  db_ok (committed_db w) → users (committed_db w) !! User.id user = Some user →
  request (checkout_url cfg client user) w = (w', Ok url) →
  is_paid (User.subscription_status user) = false ∧
  ∃ customer params user', checkout_sessions_create client params = Ok url ∧
    cp_customer params = customer ∧ cp_client_reference_id params = uuid_str (User.id user) ∧
    cp_mode params = str "subscription" ∧ cp_metadata_user_id params = uuid_str (User.id user) ∧
    users (committed_db w') !! User.id user = Some user' ∧
    User.stripe_customer_id user' = Some customer ∧
    (truthy (User.stripe_customer_id user) = true → committed_db w' = committed_db w).
Proof.
  intros Hd Hu. unfold request. rewrite begin_session_eq. unfold checkout_url.
  destruct (is_paid (User.subscription_status user)) eqn:Ep; [by intros [=]|].
  rewrite bind_run. unfold ensure_customer.
  destruct (truthy (User.stripe_customer_id user)) eqn:Et.
  - unfold mret, M_ret, reads. cbv beta iota.
    destruct (checkout_sessions_create client _) as [s|e] eqn:Es; [|by intros [=]].
    intros [= <- <-]. split; [done|]. eexists _, _, user. split_and!; [exact Es|done|done|done|done|done| |done].
    cbn. by destruct (User.stripe_customer_id user).
  - rewrite bind_run. unfold reads at 1. cbv beta iota.
    destruct (customers_create client _ _ _) as [cid|e]; cbv beta iota; [|by intros [=]].
    unfold save_user. rewrite update_commit_publish. case_decide; cbv beta iota; [|by intros [=]].
    unfold reads. destruct (checkout_sessions_create client _) as [s|e] eqn:Es; [|by intros [=]].
    intros [= <- <-]. split; [done|]. eexists _, _, _. split_and!; [exact Es|done|done|done|done| | |done].
    + apply lookup_insert_eq.
    + done.
Qed.
(** The identifier a session carries leads back to its account. *)
Lemma find_user_by_id d u customer :
  users d !! User.id u = Some u → (User.id u < UUID_END)%N →
  find_user d (Some (uuid_str (User.id u))) customer = Ok (Some u).
Proof.
  intros Hu Hi. unfold find_user. change (truthy (Some (uuid_str (User.id u)))) with true. cbv iota.
  cbn [from_option id]. rewrite uuid_roundtrip by done. cbn [mbind option_bind]. by rewrite Hu.
Qed.

Lemma after_checkout_paid obj u :
  o_payment_status obj = Some (str "paid") ∨ o_payment_status obj = Some (str "no_payment_required") →
  User.plan (after_checkout obj u) = str "pro" ∧
  User.subscription_status (after_checkout obj u) = Some (str "active").
Proof. intros Hp. unfold after_checkout. by destruct Hp as [-> | ->]. Qed.

(** C20: Checkout and webhook agree on whose session it is: when the session [checkout_url]
    asked Stripe for is completed and paid, the notification about it, which carries the
    session's reference, customer and mode, makes exactly the account that asked for it pro,
    in every later state that still has the account with that customer; no other row and
    no other column than the billing ones changes. *)
Theorem checkout_grants_pro cfg client (w w1 : world R) user url :
  db_ok (committed_db w) → users (committed_db w) !! User.id user = Some user →
  (User.id user < UUID_END)%N →
  request (checkout_url cfg client user) w = (w1, Ok url) →
  ∃ params user1, checkout_sessions_create client params = Ok url ∧
    users (committed_db w1) !! User.id user = Some user1 ∧
    User.stripe_customer_id user1 = Some (cp_customer params) ∧
    ∀ obj later user2 stripe,
      o_client_reference_id obj = Some (cp_client_reference_id params) →
      o_customer obj = Some (cp_customer params) → o_mode obj = Some (cp_mode params) →
      o_payment_status obj ∈ [Some (str "paid"); Some (str "no_payment_required")] →
      db_ok (committed_db later) → users (committed_db later) !! User.id user = Some user2 →
      User.stripe_customer_id user2 = Some (cp_customer params) →
      let event := {| ev_type := str "checkout.session.completed"; ev_object := obj |} in
      let '(w', r) := request (handle_event event stripe) later in
      r = Ok tt ∧ ∃ user3, committed_db (R:=R) w' = put_user user3 (committed_db later) ∧
        same_account user2 user3 ∧ User.plan user3 = str "pro" ∧
        User.subscription_status user3 = Some (str "active") ∧
        User.stripe_customer_id user3 = Some (cp_customer params).
Proof.
  intros Hd Hu Hi Hrun.
  destruct (checkout_customer _ _ _ _ _ _ Hd Hu Hrun) as (_ & c & params & user1 & Hs & Hc & Hr & Hm & _ & Hu1 & Hc1 & _).
  exists params, user1. rewrite Hc. split_and!; [done..|].
  intros obj later user2 stripe Eref Ecus Emode Epay Hd2 Hu2 Hc2 event.
  assert (User.id user2 = User.id user) as Hid by (by eapply db_ok_user_id).
  rewrite <- Hid in Hu2, Hi. rewrite Hr, <- Hid in Eref. rewrite Hm in Emode.
  assert (User.stripe_customer_id (after_checkout obj user2) = Some c ∧ same_account user2 (after_checkout obj user2))
    as [Hc3 Hsame].
  { unfold after_checkout. rewrite Ecus, Hc2. unfold str_or.
    split; [|by case_match]. case_match; cbn; by destruct (nonempty c). }
  assert (db_ok (put_user (after_checkout obj user2) (committed_db later))) as Hok.
  { destruct Hsame as (Hsi & Hse & Hrest). apply (db_ok_put_user _ user2); [done|by rewrite Hsi|done|congruence|by apply Hrest]. }
  unfold request. rewrite begin_session_eq, handle_event_publish. unfold event_row, event. cbn [ev_type ev_object].
  rewrite bool_decide_eq_true_2, Eref, find_user_by_id by done. cbn [mbind result_bind].
  rewrite Emode, bool_decide_eq_true_2, decide_True by done.
  split; [done|]. exists (after_checkout obj user2).
  destruct (after_checkout_paid obj user2) as [Hp Hst]; [set_solver|]. done.
Qed.
End checkout_theorems.

(** ** Witnesses *)
Definition sub_object (status : pystr) : stripe_object := {|
  o_id := Some (str "sub_1"); o_customer := Some (str "cus_1"); o_subscription := None;
  o_client_reference_id := None; o_mode := None; o_payment_status := None; o_status := Some status;
  o_metadata_user_id := Some (uuid_str 7) |}.
Definition sub_event (kind : pystr) (status : pystr) : stripe_event :=
  {| ev_type := kind; ev_object := sub_object status |}.
Definition checkout_event : stripe_event := {|
  ev_type := str "checkout.session.completed";
  ev_object := {| o_id := Some (str "cs_1"); o_customer := Some (str "cus_1");
                  o_subscription := Some (str "sub_1"); o_client_reference_id := Some (uuid_str 7);
                  o_mode := Some (str "subscription"); o_payment_status := Some (str "paid");
                  o_status := None; o_metadata_user_id := None |} |}.
Definition fixture_stripe (status : pystr) : StripeClient := {|
  customers_create _ _ _ := Ok (str "cus_1"); checkout_sessions_create _ := Ok (str "https://pay");
  portal_sessions_create _ _ := Ok (str "https://portal");
  subscriptions_retrieve _ := Ok (sub_object status) |}.

(** A completed-checkout notification that arrives after the subscription was
    cancelled grants the paid plan again: it is applied from its own snapshot, so the
    account stays on pro without a subscription. *)
Theorem late_checkout_grants_again :
  let w1 := (request (handle_event checkout_event None) auth_world).1 in
  let w2 := (request (handle_event (sub_event SUBSCRIPTION_DELETED (str "active")) None) w1).1 in
  let w3 := (request (handle_event checkout_event (Some (fixture_stripe (str "canceled")))) w2).1 in
  let plan w := User.plan <$> users (committed_db w) !! 7%N in
  plan w1 = Some (str "pro") ∧ plan w2 = Some (str "free") ∧ plan w3 = Some (str "pro").
Proof. vm_compute. done. Qed.

Theorem event_touches_billing_only_witness :
  let d' := committed_db (request (handle_event checkout_event None) auth_world).1 in
  db_ok d'.
Proof. apply (event_touches_billing_only checkout_event None auth_world auth_world_ok). Defined.

Theorem redelivery_idempotent_witness :
  let '(w1, r1) := request (handle_event checkout_event None) auth_world in
  let '(w2, r2) := request (handle_event checkout_event None) w1 in
  committed_db w2 = committed_db w1 ∧ r2 = r1.
Proof. apply (redelivery_idempotent checkout_event None auth_world auth_world_ok). Defined.

Theorem plan_follows_subscription_witness :
  let e := sub_event (str "customer.subscription.updated") (str "incomplete") in
  let client := Some (fixture_stripe (str "active")) in
  let w' := (request (handle_event e client) auth_world).1 in
  ∃ u', users (committed_db w') !! 7%N = Some u' ∧ User.plan u' = str "pro".
Proof.
  intros e client w'.
  destruct (plan_follows_subscription e client auth_world w' (sub_object (str "active")) fixture_user)
    as (u' & Hu & _ & _ & Hp).
  - exact auth_world_ok.
  - by_decide.
  - vm_compute. reflexivity.
  - vm_compute. reflexivity.
  - vm_compute. reflexivity.
  - exists u'. split; [exact Hu|]. rewrite Hp. vm_compute. reflexivity.
Defined.

Theorem snapshots_do_not_matter_witness :
  handle_event (sub_event (str "customer.subscription.created") (str "incomplete"))
    (Some (fixture_stripe (str "active"))) auth_world =
  handle_event (sub_event (str "customer.subscription.updated") (str "past_due"))
    (Some (fixture_stripe (str "active"))) auth_world.
Proof.
  apply (snapshots_do_not_matter (fixture_stripe (str "active"))); [by_decide|by_decide|reflexivity|].
  vm_compute. reflexivity.
Defined.

Theorem checkout_customer_witness :
  let p := request (checkout_url default_settings (fixture_stripe (str "active")) fixture_user) auth_world in
  is_paid (User.subscription_status fixture_user) = false ∧
  ∃ customer params user',
    checkout_sessions_create (fixture_stripe (str "active")) params = Ok (str "https://pay") ∧
    cp_customer params = customer ∧ cp_client_reference_id params = uuid_str 7%N ∧
    cp_mode params = str "subscription" ∧ cp_metadata_user_id params = uuid_str 7%N ∧
    users (committed_db p.1) !! 7%N = Some user' ∧ User.stripe_customer_id user' = Some customer ∧
    (truthy (User.stripe_customer_id fixture_user) = true → committed_db p.1 = committed_db auth_world).
Proof.
  intros p. apply (checkout_customer default_settings (fixture_stripe (str "active")) auth_world p.1);
    [exact auth_world_ok|vm_compute; reflexivity|vm_compute; reflexivity].
Defined.

(** A client that takes the session of one account only. *)
Definition strict_stripe : StripeClient := {|
  customers_create _ _ _ := Ok (str "cus_1");
  checkout_sessions_create p :=
    if bool_decide (cp_customer p = str "cus_1" ∧ cp_client_reference_id p = uuid_str 7 ∧
                    cp_mode p = str "subscription") then Ok (str "https://pay") else Err IntegrityError;
  portal_sessions_create _ _ := Ok (str "https://portal");
  subscriptions_retrieve _ := Ok (sub_object (str "active")) |}.

Theorem checkout_grants_pro_witness :
  let w1 := (request (checkout_url default_settings strict_stripe fixture_user) auth_world).1 in
  let w2 := (request (handle_event checkout_event None) w1).1 in
  ∃ user3, committed_db w2 = put_user user3 (committed_db w1) ∧ User.plan user3 = str "pro".
Proof.
  intros w1 w2.
  destruct (checkout_grants_pro default_settings strict_stripe auth_world w1 fixture_user (str "https://pay"))
    as (params & user1 & Hs & Hu1 & Hc1 & Hlater).
  - exact auth_world_ok.
  - vm_compute. reflexivity.
  - vm_compute. reflexivity.
  - vm_compute. reflexivity.
  - cbn in Hs. case_bool_decide as Hp; [|discriminate]. destruct Hp as (Hpc & Hpr & Hpm).
    rewrite Hpc, Hpr, Hpm in Hlater. rewrite Hpc in Hc1.
    assert (db_ok (committed_db w1)) as Hd1 by (apply (bool_decide_unpack _); vm_compute; exact I).
    pose proof (Hlater (ev_object checkout_event) w1 user1 None eq_refl eq_refl eq_refl
      (list_elem_of_here _ _) Hd1 Hu1 Hc1) as Hrun.
    change {| ev_type := _; ev_object := ev_object checkout_event |} with checkout_event in Hrun.
    cbv zeta in Hrun. subst w2. destruct (request (handle_event checkout_event None) w1) as [w' r].
    destruct Hrun as (_ & user3 & E & _ & Hplan & _). exists user3. split; [exact E|exact Hplan].
Defined.
