(* ===== verification/Scheduler.v ===== *)
(** The background scheduler ([scheduler.py]): health, status and replica counts of the
    active agents, metering, and auto-scaling within the plan. *)

From S2P Require Import Prelude PyText PyFloat Config Errors Plans Models Runtime IngressLimits World.
From S2P Require Import Schemas Fixtures Quota Hostnames AgentEnv AgentService AgentLifecycle Metering.

Section scheduler.
Context {R : Type} `{AgentRuntime R} `{CoreRole}.

(** The status an active agent gets from its health. *)
Definition next_status (status : AgentStatus) (live : Z) (healthy : bool) (failures : Z) : AgentStatus :=
  if live =? 0 then STOPPED
  else if negb healthy && (3 <=? failures) then CRASHED
  else if status != SCALING then RUNNING
  else status.

(** The row after a health report. *)
Definition refreshed (agent : Agent.Agent) (health : Health) : Agent.Agent :=
  let live := Z.of_nat (length (health_containers health)) in
  agent <| Agent.replicas := live |>
        <| Agent.status := next_status (Agent.status agent) live (health_healthy health)
                             (health_failures health) |>.

(** The report into the row, if it changes anything. *)
Definition commit_refreshed (agent : Agent.Agent) (health : Health) : MW R unit :=
  let live := Z.of_nat (length (health_containers health)) in
  let changed := bool_decide (live ≠ Agent.replicas agent) ||
    bool_decide (next_status (Agent.status agent) live (health_healthy health) (health_failures health)
                 ≠ Agent.status agent) in
  when changed (save_agent (refreshed agent health);; commit).
(** The time into the agent's hour. *)
Definition commit_metered (seconds : num) (at_ : datetime) (agent : Agent.Agent) (live : Z) : MW R unit :=
  when (bool_decide (Agent.status agent ∈ [RUNNING; SCALING]) && (0 <? live))
    (update (record agent live seconds at_);; commit).

(** The body of the loop over the active agents. *)
Definition tick_agent (seconds : num) (at_ : datetime) (agent : Agent.Agent) : MW R unit :=
  h ← on_runtime (core_health_check (Agent.id agent));
  match h with
  | Err _ => mret tt
  | Ok health =>
      commit_refreshed agent health;;
      let live := Z.of_nat (length (health_containers health)) in
      let agent := refreshed agent health in
      commit_metered seconds at_ agent live;;
      if Agent.auto_scale agent && (Agent.status agent == RUNNING) && (0 <? live) then
        headroom ← query (λ d, has_headroom_for_replica d agent);
        if headroom : bool
        then on_runtime (core_auto_scale (Agent.id agent));; mret tt
        else mret tt
      else mret tt
  end.

Fixpoint tick_agents (seconds : num) (at_ : datetime) (agents : list Agent.Agent) : MW R unit :=
  match agents with
  | [] => mret tt
  | a :: rest => tick_agent seconds at_ a;; tick_agents seconds at_ rest
  end.

Definition is_active_row (a : Agent.Agent) : Prop := Agent.status a ∈ ACTIVE_STATUSES.
#[global] Instance is_active_row_dec a : Decision (is_active_row a).
Proof. unfold is_active_row. apply _. Defined.

(** [_tick] with nothing else running meanwhile ([tick_c] in [Concurrent.v] has its awaits);
    [fault] is what the database driver raises during the flush, if anything. *)
Definition tick (cfg : GatewaySettings) (fault : option exn) (elapsed_seconds : option num) : MW R unit :=
  let seconds := default (NInt (scheduler_interval_seconds cfg)) elapsed_seconds in
  at_ ← gets now;
  try_except (flush_requests fault;; mret tt) (λ _, Some (mret tt));;
  agents ← select (λ d, filter is_active_row (rows (agents d)));
  tick_agents seconds at_ agents.

(** ** Being cancelled

    [CancelledError] is raised at an await and is no [Exception]: no handler of the tick, of
    the flush or of the loop stops it, and what was not committed is rolled back when the
    session is closed.  The awaits of a turn of the loop: the sleep; those of the flush,
    after it has taken [batch] and while [rest] was counted, before or after its commit is
    applied; and those for the [n]-th agent, after [stage] of its commits. *)
Inductive cancel_point :=
| AtSleep
| InFlush (batch rest : counter) (applied : bool)
| InAgents (fault : option exn) (n stage : nat).

Definition tick_agent_upto (stage : nat) (seconds : num) (at_ : datetime) (agent : Agent.Agent) : MW R unit :=
  h ← on_runtime (core_health_check (Agent.id agent));
  match h with
  | Err _ => mret tt
  | Ok health =>
      when (1 <=? stage)%nat (commit_refreshed agent health);;
      when (2 <=? stage)%nat
        (commit_metered seconds at_ (refreshed agent health) (Z.of_nat (length (health_containers health))))
  end.

(** The agents a tick has dealt with when it is cancelled at the [n]-th. *)
Definition cancelled_agents (seconds : num) (at_ : datetime) (n stage : nat) : MW R unit :=
  agents ← select (λ d, filter is_active_row (rows (agents d)));
  tick_agents seconds at_ (take n agents);;
  match agents !! n with Some agent => tick_agent_upto stage seconds at_ agent | None => mret tt end.

(** What has happened of a turn of the loop when its task is cancelled. *)
Definition cancelled_turn (cfg : GatewaySettings) (elapsed_seconds : option num) (point : cancel_point) : MW R unit :=
  let seconds := default (NInt (scheduler_interval_seconds cfg)) elapsed_seconds in
  match point with
  | AtSleep => mret tt
  | InFlush batch rest applied =>
      modify (λ w, w <| pending := rest |>);;
      when applied (update (write_batch batch);; commit)
  | InAgents fault n stage =>
      at_ ← gets now;
      try_except (flush_requests fault;; mret tt) (λ _, Some (mret tt));;
      cancelled_agents seconds at_ n stage
  end.

(** Only a flush that has taken something can be cancelled, and what it took and what was
    counted since then were all the counts. *)
Definition cancellable (point : cancel_point) (c : counter) : Prop :=
  match point with InFlush batch rest _ => batch ≠ ∅ ∧ counter_update rest batch = c | _ => True end.
(** The batch that is neither written nor put back. *)
Definition lost_by (point : cancel_point) : list counter :=
  match point with InFlush batch _ false => [batch] | _ => [] end.

(** [run_scheduler_loop]: the time a tick meters, from two readings of the monotonic clock. *)
Definition loop_elapsed (cfg : GatewaySettings) (last_tick : option float) (started : float) : option num :=
  match last_tick with
  | None => None
  | Some last => Some (num_min (NFloat (fsub started last)) (NInt (3 * scheduler_interval_seconds cfg)))
  end.
(** One turn of the loop: a failing tick is logged and the loop goes on. *)
Definition loop_turn (cfg : GatewaySettings) (fault : option exn) (last_tick : option float) (started : float)
  : MW R (option float) :=
  try_except (request (tick cfg fault (loop_elapsed cfg last_tick started))) (λ _, Some (mret tt));;
  mret (Some started).

(** ** One agent *)
Implicit Types (w : world R) (d : db).

Definition metered (a : Agent.Agent) (live : Z) (seconds : num) (at_ : datetime) (d : db) : db :=
  if bool_decide (Agent.status a ∈ [RUNNING; SCALING]) && (0 <? live) then record a live seconds at_ d else d.

Lemma refreshed_revises a h : revises a (refreshed a h).
Proof. split_and!; [reflexivity..|]. by unfold agent_widths. Qed.

Lemma db_ok_record a live seconds at_ d :
  db_ok d → is_Some (users d !! Agent.user_id a) → db_ok (record a live seconds at_ d).
Proof.
  intros Hd Hu. unfold record. case_match; [done|]. apply db_ok_put_usage; [done|].
  destruct (usage_hours d !! _) as [row|] eqn:E; [|done]. destruct Hd as [_ _ _ [_ _ _ Ho]]. by apply (Ho _ _ E).
Qed.

Lemma put_refreshed_unchanged d a h :
  agents d !! Agent.id a = Some a →
  Z.of_nat (length (health_containers h)) = Agent.replicas a →
  next_status (Agent.status a) (Z.of_nat (length (health_containers h))) (health_healthy h)
    (health_failures h) = Agent.status a →
  put_agent (refreshed a h) d = d.
Proof.
  intros Ha Hl Hs. assert (refreshed a h = a) as ->; [|by apply put_agent_same].
  unfold refreshed. rewrite Hs, Hl. by destruct a.
Qed.

(** What a tick does to one agent that the session has loaded. *)
Lemma tick_agent_publish seconds at_ a d w :
  db_ok d → agents d !! Agent.id a = Some a →
  match core_health_check (Agent.id a) (runtime w) with
  | (rt, Err _) => tick_agent seconds at_ a (publish d w) = (publish d (w <| runtime := rt |>), Ok tt)
  | (rt, Ok h) =>
      let a' := refreshed a h in
      let d1 := metered a' (Agent.replicas a') seconds at_ (put_agent a' d) in
      db_ok d1 ∧ tick_agent seconds at_ a (publish d w) =
      (if Agent.auto_scale a && (Agent.status a' == RUNNING) && (0 <? Agent.replicas a') then
         match has_headroom_for_replica d1 a' with
         | Ok true => (publish d1 (w <| runtime := (core_auto_scale (Agent.id a) rt).1 |>), Ok tt)
         | Ok false => (publish d1 (w <| runtime := rt |>), Ok tt)
         | Err e => (publish d1 (w <| runtime := rt |>), Err e)
         end
       else (publish d1 (w <| runtime := rt |>), Ok tt))
  end.
Proof.
  intros Hd Ha. unfold tick_agent, commit_refreshed, commit_metered. rewrite bind_run, on_runtime_publish.
  destruct (core_health_check (Agent.id a) (runtime w)) as [rt [h|e]]; cbn [fst snd]; cbv beta iota; [|done].
  set (a' := refreshed a h). set (live := Z.of_nat (length (health_containers h))).
  set (w1 := w <| runtime := rt |>). change (Agent.replicas a') with live.
  destruct (save_commit_revises d w1 a a' Hd Ha (refreshed_revises a h)) as [_ Hok1].
  assert (is_Some (users (put_agent a' d) !! Agent.user_id a')) as Hu.
  { destruct Hd as [_ [_ _ Ho _] _ _]. apply (Ho _ _ Ha). }
  assert (db_ok (metered a' live seconds at_ (put_agent a' d))) as Hok2.
  { unfold metered. case_match; [by apply db_ok_record|done]. }
  split; [done|]. rewrite bind_run.
  match goal with |- context [when ?b _ (publish d w1)] => set (changed := b) end.
  assert (when changed (save_agent a';; commit) (publish d w1) = (publish (put_agent a' d) w1, Ok tt)) as ->.
  { destruct changed eqn:Ec; cbn [when].
    - unfold save_agent. by rewrite update_commit_run, decide_True.
    - unfold changed in Ec. apply orb_false_iff in Ec as [E1%bool_decide_eq_false_1 E2%bool_decide_eq_false_1].
      unfold a'. rewrite put_refreshed_unchanged; [done|done|by apply dec_stable|by apply dec_stable]. }
  cbv beta iota. rewrite bind_run.
  assert (when (bool_decide (Agent.status a' ∈ [RUNNING; SCALING]) && (0 <? live))
            (update (record a' live seconds at_);; commit) (publish (put_agent a' d) w1) =
          (publish (metered a' live seconds at_ (put_agent a' d)) w1, Ok tt)) as ->.
  { unfold metered in *. destruct (_ && _); cbn [when]; [|done]. by rewrite update_commit_run, decide_True. }
  cbv beta iota. change (Agent.auto_scale a') with (Agent.auto_scale a).
  destruct (_ && _ && _); [|done]. rewrite bind_run, query_publish.
  destruct (has_headroom_for_replica _ a') as [[]|e]; cbv beta iota; [|done|done].
  rewrite bind_run, on_runtime_publish. reflexivity.
Qed.

(** ** A whole tick *)
(** [a'] is [a] with a new replica count and status. *)
Definition refresh_of (a a' : Agent.Agent) : Prop :=
  a' = a <| Agent.replicas := Agent.replicas a' |> <| Agent.status := Agent.status a' |>.

(** What the scheduler may do to the database. *)
Record tick_frame d d' : Prop := {
  tf_ok : db_ok d';
  tf_users : users d' = users d;
  tf_api_keys : api_keys d' = api_keys d;
  tf_access_keys : access_keys d' = access_keys d;
  tf_invites : invites d' = invites d;
  tf_agents : dom (agents d') = dom (agents d);
  tf_rows aid a a' : agents d !! aid = Some a → agents d' !! aid = Some a' →
    refresh_of a a' ∧ (¬ is_active_row a → a' = a);
}.

Lemma tick_frame_refl d : db_ok d → tick_frame d d.
Proof. intros Hd. split; try done. intros aid a a' Ha Ha'. rewrite Ha in Ha'. injection Ha' as <-. split; [by destruct a|done]. Qed.

Lemma users_metered a n s t d : users (metered a n s t d) = users d.
Proof. unfold metered. case_match; [apply users_record|done]. Qed.
Lemma agents_metered a n s t d : agents (metered a n s t d) = agents d.
Proof. unfold metered, record. repeat case_match; done. Qed.
Lemma metered_frame a n s t d :
  api_keys (metered a n s t d) = api_keys d ∧ access_keys (metered a n s t d) = access_keys d ∧
  invites (metered a n s t d) = invites d.
Proof. unfold metered, record. repeat case_match; done. Qed.

(** The database after one agent: the refreshed row and its metering, or no change. *)
Lemma tick_agent_db seconds at_ a d w :
  db_ok d → agents d !! Agent.id a = Some a →
  ∃ d' rt r, tick_agent seconds at_ a (publish d w) = (publish d' (w <| runtime := rt |>), r) ∧ db_ok d' ∧
    (d' = d ∨ ∃ h, d' = metered (refreshed a h) (Agent.replicas (refreshed a h)) seconds at_
                          (put_agent (refreshed a h) d)).
Proof.
  intros Hd Ha. pose proof (tick_agent_publish seconds at_ a d w Hd Ha) as Ht.
  destruct (core_health_check (Agent.id a) (runtime w)) as [rt [h|e]].
  - destruct Ht as [Hok ->]. repeat case_match; eexists _, _, _; (split_and!; [reflexivity|done|eauto]).
  - rewrite Ht. eexists d, rt, _. split_and!; [reflexivity|done|by left].
Qed.

Lemma tick_frame_step seconds at_ a d d' h dn :
  db_ok d' → agents d' !! Agent.id a = Some a → is_active_row a → tick_frame d d' →
  agents d !! Agent.id a = Some a →
  dn = metered (refreshed a h) (Agent.replicas (refreshed a h)) seconds at_ (put_agent (refreshed a h) d') →
  db_ok dn → tick_frame d dn.
Proof.
  intros Hd' Ha Hact [_ F1 F2 F3 F4 F5 F6] Ha0 -> Hok.
  destruct (metered_frame (refreshed a h) (Agent.replicas (refreshed a h)) seconds at_
              (put_agent (refreshed a h) d')) as (G1 & G2 & G3).
  split; [done|by rewrite users_metered|by rewrite G1|by rewrite G2|by rewrite G3|..];
    rewrite agents_metered.
  - cbn. rewrite dom_insert_L, F5. apply elem_of_dom_2 in Ha0. cbn. set_solver.
  - intros aid b b' Hb. cbn. rewrite lookup_insert. case_decide as E; [|by apply F6].
    cbn in E. intros [= <-]. subst aid. rewrite Ha0 in Hb. injection Hb as <-.
    split; [by destruct a|done].
Qed.

Lemma tick_agents_frame seconds at_ l d d' w :
  db_ok d' → tick_frame d d' → NoDup (Agent.id <$> l) →
  Forall (λ a, agents d !! Agent.id a = Some a ∧ agents d' !! Agent.id a = Some a ∧ is_active_row a) l →
  ∃ dn rt r, tick_agents seconds at_ l (publish d' w) = (publish dn (w <| runtime := rt |>), r) ∧
    tick_frame d dn.
Proof.
  revert d' w. induction l as [|a l IH]; intros d' w Hd' Hf Hnd Hl; cbn [tick_agents].
  { exists d', (runtime w). eexists. split; [by destruct w|done]. }
  apply Forall_cons in Hl as [(Ha0 & Ha & Hact) Hl]. apply NoDup_cons in Hnd as [Hni Hnd].
  destruct (tick_agent_db seconds at_ a d' w Hd' Ha) as (d1 & rt & r & E & Hok & Hd1).
  assert (tick_frame d d1) as Hf1.
  { destruct Hd1 as [->|[h Hd1]]; [done|]. by apply (tick_frame_step seconds at_ a d d' h d1). }
  rewrite bind_run, E. destruct r as [[]|e]; [|eexists d1, rt, _; split; [reflexivity|done]].
  destruct (IH d1 (w <| runtime := rt |>) Hok Hf1 Hnd) as (dn & rtn & rn & En & Hfn).
  - apply Forall_forall. intros b Hb. rewrite Forall_forall in Hl. destruct (Hl b Hb) as (Hb0 & Hb1 & Hb2).
    split_and!; [done| |done]. destruct Hd1 as [->|[h ->]]; [done|]. rewrite agents_metered. cbn.
    rewrite lookup_insert_ne; [done|]. intros He. apply Hni. cbn in He. rewrite He.
    apply list_elem_of_fmap. by exists b.
  - exists dn, rtn, rn. by rewrite En.
Qed.

Lemma active_rows_ok d :
  db_ok d →
  let l := filter is_active_row (rows (agents d)) in
  NoDup (Agent.id <$> l) ∧ Forall (λ a, agents d !! Agent.id a = Some a ∧ is_active_row a) l.
Proof.
  intros Hd l. split.
  - subst l. assert (Agent.id <$> rows (agents d) = (map_to_list (agents d)).*1) as Hk.
    { unfold rows. rewrite <- list_fmap_compose. apply list_fmap_ext. intros i [k a] Hi. cbn.
      apply list_elem_of_lookup_2, elem_of_map_to_list in Hi. by apply (db_ok_agent_id d). }
    apply (sublist_NoDup _ (Agent.id <$> rows (agents d))); [rewrite Hk; apply NoDup_fst_map_to_list|].
    apply fmap_sublist, sublist_filter.
  - apply Forall_forall. intros a [Hact [k Ha]%elem_of_rows]%list_elem_of_filter.
    by rewrite (db_ok_agent_id d k a).
Qed.

Lemma write_batch_frame b d :
  agents (write_batch b d) = agents d ∧ api_keys (write_batch b d) = api_keys d ∧
  access_keys (write_batch b d) = access_keys d ∧ invites (write_batch b d) = invites d.
Proof.
  unfold write_batch. generalize (map_to_list b) as l. intros l. revert d.
  induction l as [|[[[a u] h] n] l IH]; intros d; cbn [foldl]; [done|].
  destruct (IH (write_count d (a, u, h, n))) as (-> & -> & -> & ->).
  unfold write_count. by case_bool_decide.
Qed.

(** A tick, whatever the health checks report and however it ends, leaves a
    consistent database in which accounts, keys and invites are as they were and agents
    differ at most in their replica count and status, inactive agents in nothing. *)
Theorem scheduler_only_refreshes cfg fault elapsed w :
  db_ok (committed_db w) →
  tick_frame (committed_db w) (committed_db (request (tick cfg fault elapsed) w).1).
Proof.
  intros Hd. rewrite request_committed, begin_session_eq. set (d := committed_db w) in *.
  unfold tick. rewrite bind_run. unfold gets. cbv beta iota zeta.
  destruct (flush_run d w fault Hd) as (d1 & p & r & E & Hd1).
  set (w1 := w <| pending := p |>) in *. rewrite bind_run.
  assert (try_except (flush_requests fault;; mret tt) (λ _, Some (mret tt)) (publish d w) =
          (publish d1 w1, Ok tt)) as -> by (unfold try_except; rewrite bind_run, E; by destruct r).
  assert (db_ok d1 ∧ agents d1 = agents d ∧ tick_frame d d1) as (Hok1 & Hag & Hf).
  { destruct Hd1 as [->| ->]; [split_and!; try done; by apply tick_frame_refl|].
    destruct (write_batch_frame (pending w) d) as (G0 & G1 & G2 & G3).
    pose proof (db_ok_write_batch (pending w) d Hd). split_and!; [done|done|].
    split; try done; [apply users_write_batch|by rewrite G0|]. rewrite G0.
    intros aid a a' Ha Ha'. rewrite Ha in Ha'. injection Ha' as <-. split; [by destruct a|done]. }
  cbv beta iota. rewrite bind_run. unfold select. cbv beta iota.
  change (cur_db (publish d1 w1)) with d1. destruct (active_rows_ok d1 Hok1) as [Hnd Hrows].
  destruct (tick_agents_frame (default (NInt (scheduler_interval_seconds cfg)) elapsed) (now w)
    (filter is_active_row (rows (agents d1))) d d1 w1 Hok1 Hf Hnd) as (dn & rt & rn & En & Hfn).
  - eapply Forall_impl; [exact Hrows|]. intros a [Ha Hact]. by rewrite <- Hag.
  - change (now (publish d w)) with (now w). by rewrite En.
Qed.

(** ** The status machine *)
(** C40: after a health report an active agent's row has the live replica count, and its
    status is stopped exactly without containers, crashed exactly when containers are
    unhealthy for three checks or more, and otherwise running, or still scaling. *)
Theorem tick_reflects_health seconds at_ a d w rt h :
  db_ok d → agents d !! Agent.id a = Some a → is_active_row a →
  core_health_check (Agent.id a) (runtime w) = (rt, Ok h) →
  let live := Z.of_nat (length (health_containers h)) in
  let unhealthy := negb (health_healthy h) && (3 <=? health_failures h) in
  ∃ a', agents (committed_db (tick_agent seconds at_ a (publish d w)).1) !! Agent.id a = Some a' ∧
    Agent.replicas a' = live ∧ (Agent.status a' = STOPPED ↔ live = 0) ∧
    (Agent.status a' = CRASHED ↔ live ≠ 0 ∧ unhealthy = true) ∧
    (live ≠ 0 → unhealthy = false →
       Agent.status a' = if decide (Agent.status a = SCALING) then SCALING else RUNNING).
Proof.
  intros Hd Ha Hact Hh live unhealthy. exists (refreshed a h).
  pose proof (tick_agent_publish seconds at_ a d w Hd Ha) as Ht. rewrite Hh in Ht. destruct Ht as [_ ->].
  split.
  - assert (∀ n s, agents (metered (refreshed a h) n s at_ (put_agent (refreshed a h) d)) !! Agent.id a =
      Some (refreshed a h)) as Hl by (intros; rewrite agents_metered; apply lookup_insert_eq).
    repeat case_match; apply Hl.
  - split; [done|]. cbn [refreshed Agent.status setf]. unfold next_status. fold live. fold unhealthy.
    unfold is_active_row, ACTIVE_STATUSES in Hact. rewrite !elem_of_cons in Hact.
    destruct (live =? 0) eqn:El, unhealthy, (decide (Agent.status a = SCALING)) as [Es|Es];
      rewrite ?Es, ?(bool_decide_eq_true_2 (SCALING = SCALING)), ?(bool_decide_eq_false_2 _ Es) by done;
      cbn [negb]; split_and!; try (split; intros; naive_solver lia); naive_solver lia.
Qed.

(** C26: auto-scaling never takes an account past its plan: the runtime is asked to scale
    an agent only when one more replica of it, next to the account's other active agents,
    passes the quota check; otherwise the containers are left as the health check saw
    them. *)
Theorem auto_scale_within_plan seconds at_ a d w rt h :
  db_ok d → agents d !! Agent.id a = Some a →
  core_health_check (Agent.id a) (runtime w) = (rt, Ok h) →
  let '(w', _) := tick_agent seconds at_ a (publish d w) in
  let a' := refreshed a h in
  runtime w' = rt ∨
  (runtime w' = (core_auto_scale (Agent.id a) rt).1 ∧ Agent.auto_scale a = true ∧
   ensure_resources (committed_db w') (Agent.user_id a) (Some (Agent.id a))
     (Agent.replicas a' + 1) (Agent.cpu a) (Agent.memory_mb a) = Ok tt).
Proof.
  intros Hd Ha Hh. pose proof (tick_agent_publish seconds at_ a d w Hd Ha) as Ht. rewrite Hh in Ht.
  destruct Ht as [_ ->].
  destruct (Agent.auto_scale a && _ && _) eqn:Ec; [|by left]. apply andb_true_iff in Ec as [[Eas _]%andb_true_iff _].
  destruct (has_headroom_for_replica _ _) as [[]|e] eqn:Eh; [right|by left..].
  split_and!; [done|done|]. unfold has_headroom_for_replica in Eh.
  by destruct (ensure_resources _ _ _ _ _ _) as [[]|[]].
Qed.

(** An agent that a failed scaling left in the state scaling stays there as long as
    its containers are fine: no health report moves it on. *)
Theorem scaling_never_left a h :
  Agent.status a = SCALING → health_containers h ≠ [] → health_healthy h = true →
  Agent.status (refreshed a h) = SCALING.
Proof.
  intros Hs Hc Hh. cbn. unfold next_status. rewrite Hs, Hh.
  destruct (health_containers h) as [|c l]; [done|]. reflexivity.
Qed.

(** Once the scheduler finds an agent without containers, its row can no longer be
    shown: building the response for it fails validation. *)
Theorem stopped_agent_unreadable `{AgentStamps} cfg a h :
  health_containers h = [] →
  to_agent_response cfg (refreshed a h) = Err ValidationError.
Proof.
  intros Hc. unfold to_agent_response, has_deploy_config.
  assert (Agent.status (refreshed a h) = STOPPED) as -> by (cbn; unfold next_status; by rewrite Hc).
  cbn [orb negb]. rewrite deploy_config_no_replicas by (cbn; by rewrite Hc). done.
Qed.

(** A stalled scheduler does not overcharge: the time a tick meters is never more than
    three intervals. *)
Theorem metered_time_capped cfg last_tick started :
  match loop_elapsed cfg last_tick started with
  | Some elapsed => num_gtb elapsed (NInt (3 * scheduler_interval_seconds cfg)) = false
  | None => last_tick = None
  end.
Proof. destruct last_tick as [last|]; [apply num_min_le_r|done]. Qed.
End scheduler.

(** ** Witnesses *)
Definition scheduler_world : world fixture_rt :=
  fixture_world (fixture_db [fixture_user] [fixture_agent]) {[ str "agt_1" := fixture_containers 1 ]}.
Lemma scheduler_world_ok : db_ok (committed_db scheduler_world).
Proof. by_decide. Qed.
Definition one_container : Health := {|
  h_containers := Some [ {| cpu_percent := None; stat_memory_mb := None |} ];
  h_healthy := Some true; h_consecutive_failures := Some 0 |}.

Theorem scheduler_only_refreshes_witness :
  let w' := (request (tick default_settings None None) scheduler_world).1 in
  (Agent.replicas <$> agents (committed_db w') !! str "agt_1") = Some 1 ∧
  tick_frame (committed_db scheduler_world) (committed_db w').
Proof.
  intros w'. split; [vm_compute; reflexivity|].
  apply (scheduler_only_refreshes default_settings None None scheduler_world scheduler_world_ok).
Defined.

Theorem tick_reflects_health_witness :
  ∃ a', agents (committed_db (tick_agent (NInt 30) 0 fixture_agent
                  (publish (committed_db scheduler_world) scheduler_world)).1) !! str "agt_1" = Some a' ∧
    Agent.replicas a' = 1.
Proof.
  destruct (tick_reflects_health (NInt 30) 0 fixture_agent (committed_db scheduler_world) scheduler_world
    (runtime scheduler_world) one_container scheduler_world_ok) as (a' & Ha & Hr & _).
  - vm_compute. reflexivity.
  - by_decide.
  - vm_compute. reflexivity.
  - exists a'. split; [exact Ha|exact Hr].
Defined.

Theorem auto_scale_within_plan_witness :
  let a := fixture_agent <| Agent.auto_scale := true |> in
  let d := fixture_db [fixture_user] [a] in
  let '(w', _) := tick_agent (NInt 30) 0 a (publish d scheduler_world) in
  let a' := refreshed a one_container in
  runtime w' = runtime scheduler_world ∨
  (runtime w' = (core_auto_scale (str "agt_1") (runtime scheduler_world)).1 ∧ Agent.auto_scale a = true ∧
   ensure_resources (committed_db w') 7%N (Some (str "agt_1")) (Agent.replicas a' + 1) (Agent.cpu a)
     (Agent.memory_mb a) = Ok tt).
Proof.
  intros a d. apply (auto_scale_within_plan (NInt 30) 0 a d scheduler_world (runtime scheduler_world) one_container);
    [by_decide|vm_compute; reflexivity|vm_compute; reflexivity].
Defined.

Theorem scaling_never_left_witness :
  Agent.status (refreshed (fixture_agent <| Agent.status := SCALING |>) one_container) = SCALING.
Proof. apply scaling_never_left; [reflexivity|discriminate|reflexivity]. Defined.

Theorem stopped_agent_unreadable_witness :
  to_agent_response default_settings
    (refreshed fixture_agent {| h_containers := None; h_healthy := None; h_consecutive_failures := None |})
  = Err ValidationError.
Proof. apply stopped_agent_unreadable. reflexivity. Defined.
