(* ===== verification/Admin.v ===== *)
(** Administration of accounts ([routers/admin.py], [scripts/set_user_role.py]). *)

From S2P Require Import Prelude PyText Codec Sha256 PyFloat Config Errors Plans Models Runtime IngressLimits World.
From S2P Require Import Schemas Fixtures AccessKeys Auth.

Record AdminUserOut := {
  uo_id : uuid;
  uo_email : pystr;
  uo_name : pystr;
  uo_role : pystr;
  uo_plan : pystr;
  uo_is_active : bool;
  uo_agents : Z;
  uo_created_at : datetime;
}.

Definition user_newest_first (a b : User.User) : Prop := User.created_at b ≤ User.created_at a.
#[export] Instance user_newest_first_dec : RelDecision user_newest_first.
Proof. intros a b. unfold user_newest_first. apply _. Defined.

Section admin.
Context {R : Type} `{CoreRole}.

(** [_user_out] *)
Definition user_out (user : User.User) (agents : Z) : result exn AdminUserOut :=
  role ← role_enum user;
  mret {| uo_id := User.id user; uo_email := User.email user; uo_name := User.name user;
          uo_role := role_to_str role; uo_plan := User.plan user; uo_is_active := User.is_active user;
          uo_agents := agents; uo_created_at := User.created_at user |}.

(** [_agent_count] *)
Definition agent_count (d : db) (user_id : uuid) : Z :=
  Z.of_nat (length (where_eq Agent.user_id user_id (agents d))).

Fixpoint users_out (d : db) (us : list User.User) : result exn (list AdminUserOut) :=
  match us with
  | [] => mret []
  | u :: r => o ← user_out u (agent_count d (User.id u)); os ← users_out d r; mret (o :: os)
  end.
Definition list_users : MW R (list AdminUserOut) :=
  query (λ d, users_out d (merge_sort user_newest_first (rows (users d)))).

(** The columns [update_user] writes. *)
Definition updated_user (body : AdminUserUpdate) (user : User.User) : result exn User.User :=
  user ← (match au_role body with
          | Some s => r ← str_to_role s; mret (user <| User.role := role_int r |>)
          | None => mret user
          end);
  let user := match au_plan body with Some p => user <| User.plan := p |> | None => user end in
  mret (match au_is_active body with Some b => user <| User.is_active := b |> | None => user end).

(** Demoting or deactivating the account. *)
Definition locks_out (body : AdminUserUpdate) : bool :=
  match au_role body with Some r => r != str "admin" | None => false end ||
  match au_is_active body with Some b => negb b | None => false end.

Definition update_user (principal : Principal) (user_id : uuid) (body : AdminUserUpdate) : MW R AdminUserOut :=
  found ← select (λ d, users d !! user_id);
  match found with
  | None => raise (UserNotFoundError user_id)
  | Some user =>
      if bool_decide (User.id user = p_user_id principal) && locks_out body
      then raise (AuthorisationError (uuid_str (p_user_id principal)) (str "change own admin access"))
      else
      user ← reads (λ _, updated_user body user);
      save_user user;;
      commit;;
      query (λ d, user_out user (agent_count d (User.id user)))
  end.

(** [set_role] of the maintenance script; an unknown email ends the script. *)
Definition set_role (email : pystr) (role : Role) : MW R unit :=
  found ← query (λ d, scalar_one_or_none (where_eq User.email email (users d)));
  match found with
  | None => raise (ForeignError (str "SystemExit"))
  | Some user =>
      reads (λ _, role_enum user);;
      save_user (user <| User.role := role_int role |>);;
      commit
  end.

(** ** Lemmas *)
Implicit Types (w : world R) (d : db).

Lemma updated_user_same body u u' :
  updated_user body u = Ok u' →
  User.id u' = User.id u ∧ User.email u' = User.email u ∧
  User.stripe_customer_id u' = User.stripe_customer_id u ∧ User.name u' = User.name u ∧
  User.plan u' = default (User.plan u) (au_plan body) ∧
  User.is_active u' = default (User.is_active u) (au_is_active body) ∧
  match au_role body with
  | Some s => ∃ r, str_to_role s = Ok r ∧ User.role u' = role_int r
  | None => User.role u' = User.role u
  end.
Proof.
  unfold updated_user. destruct (au_role body) as [s|].
  - destruct (str_to_role s) as [r|] eqn:Es; cbn; [|done]. intros [= <-].
    destruct (au_plan body), (au_is_active body); cbn; split_and!; try done; by exists r.
  - cbn. intros [= <-]. by destruct (au_plan body), (au_is_active body).
Qed.

Lemma update_user_publish principal user_id body d w w' r :
  db_ok d → update_user principal user_id body (publish d w) = (w', r) →
  (committed_db w' = d ∧ is_ok r = false) ∨
  ∃ u u', users d !! user_id = Some u ∧ updated_user body u = Ok u' ∧
    (user_id = p_user_id principal → locks_out body = false) ∧ w' = publish (put_user u' d) w ∧
    db_ok (put_user u' d).
Proof.
  intros Hd. unfold update_user. rewrite bind_run. unfold select. cbv beta iota.
  change (cur_db (publish d w)) with d.
  destruct (users d !! user_id) as [u|] eqn:Hu; [|intros [= <- <-]; by left].
  pose proof (db_ok_user_id _ _ _ Hd Hu) as Hid.
  destruct (bool_decide _ && _) eqn:Eb; [intros [= <- <-]; by left|].
  rewrite bind_run. unfold reads. cbv beta iota.
  destruct (updated_user body u) as [u'|e] eqn:Eu; cbv beta iota; [|intros [= <- <-]; by left].
  destruct (updated_user_same _ _ _ Eu) as (Hi & He & Hc & Hn & _).
  assert (db_ok (put_user u' d)) as Hok by (apply (db_ok_put_user d u); [done|by rewrite Hi, Hid|done|done|done]).
  unfold save_user. rewrite update_commit_then, decide_True, query_publish by done. intros [= <- <-].
  right. exists u, u'. split_and!; try done.
  intros Hp. apply andb_false_iff in Eb as [Eb|Eb]; [|done].
  apply bool_decide_eq_false in Eb. congruence.
Qed.

(** An administrator cannot lock themselves out: no update of an admin's own account,
    whatever its outcome, leaves it without the admin role or deactivated. *)
Theorem admin_keeps_own_access `{!CoreRoleLaws} principal body w u :
  db_ok (committed_db w) → AdminUserUpdate_valid body = true →
  users (committed_db w) !! p_user_id principal = Some u → role_enum u = Ok ADMIN → User.is_active u = true →
  let w' := (request (update_user principal (p_user_id principal) body) w).1 in
  ∃ u', users (committed_db w') !! p_user_id principal = Some u' ∧ role_enum u' = Ok ADMIN ∧
        User.is_active u' = true.
Proof.
  intros Hd Hv Hu Hr Ha w'. unfold w'. rewrite request_committed, begin_session_eq.
  destruct (update_user principal (p_user_id principal) body (publish (committed_db w) w)) as [w1 r] eqn:E.
  cbn [fst].
  destruct (update_user_publish _ _ _ _ _ _ _ Hd E) as [[-> _]|(v & u' & Hv' & Eu & Hl & -> & _)].
  { by exists u. }
  rewrite Hu in Hv'. injection Hv' as <-. specialize (Hl eq_refl).
  destruct (updated_user_same _ _ _ Eu) as (Hi & _ & _ & _ & _ & Hact & Hrole).
  pose proof (db_ok_user_id _ _ _ Hd Hu) as Hid. unfold locks_out in Hl.
  apply orb_false_iff in Hl as [Hl1 Hl2]. exists u'. split_and!.
  - cbn. rewrite <- Hid, <- Hi. apply lookup_insert_eq.
  - destruct (au_role body) as [s|].
    + destruct Hrole as (r0 & Hs & Hri). apply negb_false_iff, bool_decide_eq_true in Hl1. subst s.
      assert (r0 = ADMIN) as -> by (vm_compute in Hs; congruence).
      unfold role_enum. by rewrite Hri, role_of_int_int.
    + unfold role_enum in *. by rewrite Hrole.
  - rewrite Hact. destruct (au_is_active body) as [[]|]; done.
Qed.
End admin.

Theorem admin_keeps_own_access_witness :
  let u := fixture_user <| User.role := 3 |> in
  let w := fixture_world (fixture_db [u] []) ∅ in
  let p := {| p_user_id := 7%N; p_email := []; p_role := ADMIN; p_auth_method := ByJwt; p_api_key_id := None |} in
  let body := {| au_role := Some (str "viewer"); au_plan := Some (str "pro"); au_is_active := None |} in
  let w' := (request (update_user p 7%N body) w).1 in
  ∃ u', users (committed_db w') !! 7%N = Some u' ∧ role_enum u' = Ok ADMIN ∧ User.is_active u' = true.
Proof.
  intros u w p body. apply (admin_keeps_own_access p body w u); [by_decide|vm_compute; reflexivity..].
Defined.
