(* ===== verification/LoginRateLimit.v ===== *)
(** The login rate limit ([security/rate_limit.py]): a counter per client in Redis.

    Redis is an interface: a state with the three commands the code issues, each of which
    may fail ([None] stands for a [RedisError]). *)

From S2P Require Import Prelude Config Errors Fixtures.

Class Redis (S : Type) := {
  redis_incr : pystr → S → S * option Z;
  redis_expire : pystr → Z → S → S * option unit;
  redis_ttl : pystr → S → S * option Z;
}.

Section rate_limit.
Context {S : Type} `{Redis S}.

(** [_get_redis] gives no client without a URL. *)
Definition redis_configured (cfg : GatewaySettings) : bool := truthy (redis_url cfg).

(** [_enforce]: a [RedisError] anywhere lets the request through. *)
Definition enforce (cfg : GatewaySettings) (key : pystr) (s : S) : S * result exn unit :=
  if negb (redis_configured cfg) then (s, Ok tt) else
  match redis_incr key s with
  | (s, None) => (s, Ok tt)
  | (s, Some count) =>
      let '(s, expired) := if count =? 1 then redis_expire key (login_rate_limit_window_seconds cfg) s
                           else (s, Some tt) in
      match expired with
      | None => (s, Ok tt)
      | Some _ =>
          if login_rate_limit_max_attempts cfg <? count then
            match redis_ttl key s with
            | (s, Some ttl) => (s, Err (RateLimitExceededError (Z.max ttl 1)))
            | (s, None) => (s, Ok tt)
            end
          else (s, Ok tt)
      end
  end.

(** [enforce_login_rate_limit] *)
Definition enforce_login_rate_limit (cfg : GatewaySettings) (client_host : option pystr) (s : S)
  : S * result exn unit :=
  enforce cfg (str "ratelimit:login:" ++ default (str "unknown") client_host) s.

(** The login limit never blocks because of Redis: a login is refused only when Redis
    counted more attempts than allowed and answered every command, and then with a delay of
    at least one second; without Redis, and on any Redis failure, it goes through. *)
Theorem login_limit_fails_open cfg key s e :
  (enforce cfg key s).2 = Err e →
  redis_configured cfg = true ∧
  ∃ s1 s2 s3 count ttl, redis_incr key s = (s1, Some count) ∧
    (count = 1 → redis_expire key (login_rate_limit_window_seconds cfg) s1 = (s2, Some tt)) ∧
    (count ≠ 1 → s2 = s1) ∧ redis_ttl key s2 = (s3, Some ttl) ∧
    login_rate_limit_max_attempts cfg < count ∧
    e = RateLimitExceededError (Z.max ttl 1) ∧ 1 ≤ Z.max ttl 1.
Proof.
  unfold enforce. destruct (redis_configured cfg); cbn [negb]; [|done].
  destruct (redis_incr key s) as [s1 [count|]] eqn:Ei; [|done].
  destruct (count =? 1) eqn:E1.
  - destruct (redis_expire key _ s1) as [s2 [[]|]] eqn:Ee; [|done].
    destruct (_ <? count) eqn:Em; [|done]. destruct (redis_ttl key s2) as [s3 [ttl|]] eqn:Et; [|done].
    intros [= <-]. split; [done|]. exists s1, s2, s3, count, ttl.
    split_and!; try done; try lia; intros; lia || done.
  - destruct (_ <? count) eqn:Em; [|done]. destruct (redis_ttl key s1) as [s3 [ttl|]] eqn:Et; [|done].
    intros [= <-]. split; [done|]. exists s1, s1, s3, count, ttl.
    split_and!; try done; try lia; intros; lia || done.
Qed.
End rate_limit.

(** ** A store to run it on

    Counters with an expiry time, a clock, and a number of commands after which one fails. *)
Record redis_store := {
  rs_now : Z;
  rs_keys : gmap pystr (Z * option Z);
  rs_fail_in : option nat;
}.
Definition live (s : redis_store) (key : pystr) : option (Z * option Z) :=
  match rs_keys s !! key with
  | Some (n, Some t) => if t <=? rs_now s then None else Some (n, Some t)
  | o => o
  end.
Definition on_command {A} (s : redis_store) (f : redis_store → redis_store * A) : redis_store * option A :=
  match rs_fail_in s with
  | Some 0%nat => ({| rs_now := rs_now s; rs_keys := rs_keys s; rs_fail_in := None |}, None)
  | Some (S n) => let '(s', a) := f s in
                  ({| rs_now := rs_now s'; rs_keys := rs_keys s'; rs_fail_in := Some n |}, Some a)
  | None => let '(s', a) := f s in (s', Some a)
  end.
Definition set_key (s : redis_store) (key : pystr) (v : Z * option Z) : redis_store :=
  {| rs_now := rs_now s; rs_keys := <[key := v]> (rs_keys s); rs_fail_in := rs_fail_in s |}.
#[export] Instance redis_store_ops : Redis redis_store := {|
  redis_incr key s := on_command s (λ s,
    let '(n, t) := default (0, None) (live s key) in (set_key s key (n + 1, t), n + 1));
  redis_expire key ttl s := on_command s (λ s,
    (match live s key with Some (n, _) => set_key s key (n, Some (rs_now s + ttl)) | None => s end, tt));
  redis_ttl key s := on_command s (λ s,
    (s, match live s key with Some (_, Some t) => t - rs_now s | Some (_, None) => -1 | None => -2 end)) |}.

Definition at_time (t : Z) (s : redis_store) : redis_store :=
  {| rs_now := t; rs_keys := rs_keys s; rs_fail_in := rs_fail_in s |}.
Fixpoint attempts (n : nat) (cfg : GatewaySettings) (key : pystr) (s : redis_store) : redis_store :=
  match n with O => s | Datatypes.S n => attempts n cfg key (enforce cfg key s).1 end.

Definition rate_cfg : GatewaySettings := default_settings <| redis_url := Some (str "redis://r") |>.

(** A lost expiry locks a client out for good: when Redis fails between counting the
    first attempt and setting its expiry, the counter never expires, and once the limit is
    reached a login is refused a century later, although windows are meant to pass. *)
Theorem lost_expiry_locks_out :
  let s0 := {| rs_now := 0; rs_keys := ∅; rs_fail_in := Some 1%nat |} in
  let s := attempts (Z.to_nat (login_rate_limit_max_attempts rate_cfg)) rate_cfg (str "k") s0 in
  (enforce rate_cfg (str "k") (at_time 3155760000 s)).2 = Err (RateLimitExceededError 1).
Proof. vm_compute. reflexivity. Qed.

Theorem login_limit_fails_open_witness :
  let s0 := {| rs_now := 0; rs_keys := ∅; rs_fail_in := None |} in
  let s := attempts (Z.to_nat (login_rate_limit_max_attempts rate_cfg)) rate_cfg (str "k") s0 in
  ∃ ttl, (enforce rate_cfg (str "k") s).2 = Err (RateLimitExceededError (Z.max ttl 1)) ∧ 1 ≤ Z.max ttl 1.
Proof.
  intros s0 s.
  assert ((enforce rate_cfg (str "k") s).2 =
          Err (RateLimitExceededError (Z.max (login_rate_limit_window_seconds rate_cfg) 1))) as E
    by (vm_compute; reflexivity).
  destruct (login_limit_fails_open rate_cfg (str "k") s _ E) as (_ & s1 & s2 & s3 & count & ttl & _ & _ & _ & _ & _ & He & Hl).
  exists ttl. split; [rewrite E; f_equal; exact He|exact Hl].
Defined.
