(* ===== verification/Observability.v ===== *)
(** Request ids and the access log ([observability.py]): the middleware around the whole
    application, on the messages the application sends.

    Header names and values are decoded as latin-1, one code point per byte; the server
    hands header names over in lower case.  [fresh] is the hexadecimal form of the new
    UUID that is used when the caller sent no acceptable id. *)

From S2P Require Import Prelude PyText.

Definition REQUEST_ID_HEADER : pystr := str "x-request-id".
(** Probes and scrapes are not logged. *)
Definition QUIET_PATHS : list pystr := [str "/healthz"; str "/readyz"; str "/metrics"].

(** The class [[A-Za-z0-9._-]]. *)
Definition id_char (c : N) : bool :=
  is_lower_alpha c || is_upper_alpha c || is_digit c || (c =? 46)%N || (c =? 95)%N || (c =? 45)%N.
Definition id_text (s : pystr) : bool :=
  (1 <=? length s)%nat && (length s <=? 64)%nat && forallb id_char s.
(** [_VALID_REQUEST_ID.match]: [$] also matches before a newline at the very end. *)
Definition valid_request_id (s : pystr) : bool :=
  id_text s || (endswith [10%N] s && id_text (drop_last 1 s)).

(** The first header of that name decides. *)
Fixpoint request_id_for (headers : list (pystr * pystr)) (fresh : pystr) : pystr :=
  match headers with
  | [] => fresh
  | (name, value) :: rest =>
      if name == REQUEST_ID_HEADER then if valid_request_id value then value else fresh
      else request_id_for rest fresh
  end.

(** What an application sends: the start of the response, or anything else. *)
Inductive message := ResponseStart (status : Z) (headers : list (pystr * pystr)) | OtherMessage (body : pystr).

Record access_line := { ac_method : pystr; ac_path : pystr; ac_status : Z; ac_request_id : pystr }.

(** [send_with_id]: the status seen so far and the message passed on. *)
Definition send_with_id (request_id : pystr) (status_code : Z) (m : message) : Z * message :=
  match m with
  | ResponseStart status headers =>
      (status, ResponseStart status
                 (filter (λ kv, kv.1 ≠ REQUEST_ID_HEADER) headers ++ [(REQUEST_ID_HEADER, request_id)]))
  | OtherMessage _ => (status_code, m)
  end.
Fixpoint send_all (request_id : pystr) (status_code : Z) (ms : list message) : Z * list message :=
  match ms with
  | [] => (status_code, [])
  | m :: rest =>
      let '(status_code, m) := send_with_id request_id status_code m in
      let '(status_code, rest) := send_all request_id status_code rest in
      (status_code, m :: rest)
  end.

(** [RequestContextMiddleware.__call__] on a scope of type [kind], around an application that
    sends [ms] and then returns or raises: what is sent, and the line that is logged either
    way. *)
Definition middleware (kind method path : pystr) (headers : list (pystr * pystr)) (fresh : pystr)
  (ms : list message) : list message * option access_line :=
  if kind != str "http" then (ms, None) else
  let request_id := request_id_for headers fresh in
  let '(status_code, sent) := send_all request_id 500 ms in
  (sent, if bool_decide (path ∈ QUIET_PATHS) then None
         else Some {| ac_method := method; ac_path := path; ac_status := status_code;
                      ac_request_id := request_id |}).

(** ** What callers and operators see *)
(** A message with its id attached: everything else as the application sent it. *)
Definition with_id (request_id : pystr) (m m' : message) : Prop :=
  match m, m' with
  | ResponseStart status headers, ResponseStart status' headers' =>
      status' = status ∧
      filter (λ kv, kv.1 ≠ REQUEST_ID_HEADER) headers' = filter (λ kv, kv.1 ≠ REQUEST_ID_HEADER) headers ∧
      filter (λ kv, kv.1 = REQUEST_ID_HEADER) headers' = [(REQUEST_ID_HEADER, request_id)]
  | _, _ => m' = m
  end.
(** The statuses of the responses started. *)
Definition statuses (ms : list message) : list Z :=
  omap (λ m, match m with ResponseStart status _ => Some status | OtherMessage _ => None end) ms.

Lemma send_with_id_ok rid st m : with_id rid m (send_with_id rid st m).2.
Proof.
  destruct m as [status headers|body]; [|done]. cbn. rewrite !filter_app. split; [done|]. split.
  - rewrite list_filter_filter_l by done. by rewrite filter_cons_False, app_nil_r by (cbn; tauto).
  - rewrite filter_none, filter_cons_True; [done|done|]. intros a [Hn _]%list_elem_of_filter. done.
Qed.

Lemma send_all_ok rid st ms :
  Forall2 (with_id rid) ms (send_all rid st ms).2 ∧
  (send_all rid st ms).1 = default st (last (statuses ms)).
Proof.
  revert st. induction ms as [|m ms IH]; intros st; [done|]. cbn [send_all].
  pose proof (send_with_id_ok rid st m) as Hm.
  destruct (send_with_id rid st m) as [st1 m1] eqn:E1.
  destruct (IH st1) as [Hs Hst]. destruct (send_all rid st1 ms) as [st2 ms2]. cbn in *.
  split; [by constructor|]. rewrite Hst.
  destruct m; injection E1 as <- <-; cbn [statuses omap list_omap]; [|done].
  fold (statuses ms). rewrite last_cons. by destruct (last (statuses ms)).
Qed.

Lemma request_id_source headers fresh :
  request_id_for headers fresh = fresh ∨
  valid_request_id (request_id_for headers fresh) = true ∧
  (REQUEST_ID_HEADER, request_id_for headers fresh) ∈ headers.
Proof.
  induction headers as [|[name value] rest IH]; cbn [request_id_for]; [by left|].
  case_bool_decide as Hn; [|destruct IH as [|[]]; [by left|right; split; [done|by right]]].
  destruct (valid_request_id value) eqn:Hv; [|by left]. right. subst. split; [done|by left].
Qed.

(** Every response to an HTTP request carries the request's id exactly once and is
    otherwise what the application sent; the id is one the caller sent and that is
    acceptable, or a new one; and the access log has the same id with the status of the
    response, or 500 when the application failed before it started one. *)
Theorem request_id_attached method path headers fresh ms :
  let '(sent, line) := middleware (str "http") method path headers fresh ms in
  let rid := request_id_for headers fresh in
  Forall2 (with_id rid) ms sent ∧
  (rid = fresh ∨ valid_request_id rid = true ∧ (REQUEST_ID_HEADER, rid) ∈ headers) ∧
  match line with
  | Some l => (path ∉ QUIET_PATHS) ∧ ac_request_id l = rid ∧ ac_path l = path ∧
              ac_status l = default 500 (last (statuses ms))
  | None => path ∈ QUIET_PATHS
  end.
Proof.
  unfold middleware. rewrite bool_decide_eq_true_2 by done. cbn [negb].
  pose proof (send_all_ok (request_id_for headers fresh) 500 ms) as [Hs Hst].
  destruct (send_all _ _ _) as [st sent]. cbn in Hs, Hst. split; [done|]. split; [apply request_id_source|].
  by case_bool_decide.
Qed.
