(* ===== verification/Api.v ===== *)
(** The public routes ([routers/agents.py], [routers/api_keys.py], [routers/auth.py],
    [routers/account.py], [routers/admin.py]): authentication, the service call and the
    response, on one session.

    UUIDs and random tokens of new rows are arguments, as in the services. *)

From S2P Require Import Prelude PyText Codec Sha256 PyFloat Config Errors Plans Models Runtime IngressLimits World.
From S2P Require Import Schemas Fixtures Quota Hostnames AgentEnv AgentService AgentLifecycle.
From S2P Require Import Metering AccessKeys Invites Auth Billing Admin LoginRateLimit.

Record AccessKeyOut := {
  ak_id : uuid; ak_label : pystr; ak_key_preview : pystr; ak_created_at : datetime;
}.
Record ApiKeyOut := {
  ko_id : uuid; ko_label : pystr; ko_keyPreview : pystr; ko_createdAt : datetime;
  ko_lastUsedAt : option datetime; ko_scopes : list pystr;
}.
Record AgentListResponse := {
  li_agents : list AgentResponse; li_total : Z; li_page : Z; li_page_size : Z; li_has_next : bool;
}.
Record ScaleResponse := {
  sc_agent_id : pystr; sc_previous_replicas : Z; sc_current_replicas : Z;
  sc_direction : ScaleDirection; sc_status : AgentStatus;
}.
Record LogListResponse := { ll_logs : list AgentLog; ll_total : Z; ll_has_next : bool }.
Record UserOut := { us_id : uuid; us_name : pystr; us_email : pystr; us_role : pystr; us_plan : pystr }.
Record TokenResponse := { tr_access_token : pystr; tr_expires_in : Z; tr_user : UserOut }.
Record InviteOut := {
  io_id : uuid; io_code_prefix : pystr; io_note : pystr; io_max_uses : Z; io_use_count : Z;
  io_status : InviteStatus; io_expires_at : option datetime; io_created_at : datetime;
}.
Record PlanLimitsOut := {
  plo_max_agents : Z; plo_max_replicas : Z; plo_max_vcpu : float; plo_max_memory_mb : Z;
  plo_max_replica_cpu : float; plo_max_replica_memory_mb : Z; plo_max_agent_rpm : Z;
}.
Record UsageOut := { uo_agents : Z; uo_replicas : Z; uo_vcpu : float; uo_memory_mb : Z }.
Record PeriodUsageOut := {
  puo_start : datetime; puo_replica_hours : float; puo_vcpu_hours : float; puo_memory_gb_hours : float;
  puo_requests : Z;
}.
Record AccountUsage := {
  aq_plan : pystr; aq_exempt : bool; aq_limits : PlanLimitsOut; aq_usage : UsageOut; aq_period : PeriodUsageOut;
}.
Record RegistrationInfo := { ri_mode : RegistrationMode }.
(** The responses to a creation: the row without its secret, and the raw secret, only here. *)
Record AccessKeyCreateResponse := { akr_out : AccessKeyOut; akr_key : pystr }.
Record ApiKeyCreateResponse := { kcr_out : ApiKeyOut; kcr_key : pystr }.
Record InviteCreateResponse := { icr_out : InviteOut; icr_code : pystr }.

(** [PlanLimitsOut( **asdict(limits))] and the like; pydantic stores an integral number of
    vCPUs as a float. *)
Definition limits_out (l : PlanLimits) : PlanLimitsOut :=
  {| plo_max_agents := max_agents l; plo_max_replicas := max_replicas l; plo_max_vcpu := max_vcpu l;
     plo_max_memory_mb := max_memory_mb l; plo_max_replica_cpu := max_replica_cpu l;
     plo_max_replica_memory_mb := max_replica_memory_mb l; plo_max_agent_rpm := max_agent_rpm l |}.
Definition usage_out (u : Usage) : UsageOut :=
  {| uo_agents := u_agents u; uo_replicas := u_replicas u; uo_vcpu := to_float (u_vcpu u);
     uo_memory_mb := u_memory_mb u |}.
Definition period_out (p : PeriodTotals) : PeriodUsageOut :=
  {| puo_start := pt_start p; puo_replica_hours := pt_replica_hours p; puo_vcpu_hours := pt_vcpu_hours p;
     puo_memory_gb_hours := pt_memory_gb_hours p; puo_requests := pt_requests p |}.

Section api.
Context {R : Type} `{AgentRuntime R} `{CoreLLM} `{CoreRole} `{Fernet} `{CoreErrors} `{UnicodeTables}.
Context `{Jwt} `{CoreApiKeys} `{Bcrypt} `{HStamps : AgentStamps}.
Context (cfg : GatewaySettings) (creds : option pystr).

Definition require_developer : MW R Principal := require_role cfg OPERATOR false creds.
Definition require_developer_session : MW R Principal := require_role cfg OPERATOR true creds.
Definition require_admin : MW R Principal := require_role cfg ADMIN false creds.
Definition any_principal : MW R Principal := get_current_principal cfg creds.

Definition respond (agent : Agent.Agent) : MW R AgentResponse := reads (λ _, to_agent_response cfg agent).
Fixpoint respond_all (agents : list Agent.Agent) : MW R (list AgentResponse) :=
  match agents with
  | [] => mret []
  | a :: r => x ← respond a; xs ← respond_all r; mret (x :: xs)
  end.

(** ** Agents *)
Definition post_agent (body : AgentConfigIn) (tok : pystr) (rnd : nat → N) (kid : uuid) (ktok : pystr)
  : MW R AgentResponse :=
  principal ← require_developer;
  agent ← create_agent (p_user_id principal) tok rnd body;
  response ← respond agent;
  if Agent.access agent == PRIVATE then
    key ← create_access_key agent (str "default") kid ktok;
    mret (response <| ar_access_key := Some key.2 |>)
  else mret response.

Definition get_agents (status tag : option pystr) (page page_size : Z) : MW R AgentListResponse :=
  principal ← any_principal;
  found ← list_agents (p_user_id principal) status tag page page_size;
  let '(agents, total) := found in
  rs ← respond_all agents;
  mret {| li_agents := rs; li_total := total; li_page := page; li_page_size := page_size;
          li_has_next := page * page_size <? total |}.

Definition get_agent_route (agent_id : pystr) : MW R AgentResponse :=
  principal ← any_principal;
  agent ← get_agent (p_user_id principal) agent_id;
  respond agent.

Definition patch_agent (agent_id : pystr) (body : AgentUpdate) : MW R AgentResponse :=
  principal ← require_developer;
  agent ← update_agent (p_user_id principal) agent_id body;
  respond agent.

(** [_access_key_out] *)
Definition access_key_out (key : AgentAccessKey.AgentAccessKey) : AccessKeyOut :=
  {| ak_id := AgentAccessKey.id key; ak_label := AgentAccessKey.label key;
     ak_key_preview := AgentAccessKey.key_prefix key ++ str "...";
     ak_created_at := AgentAccessKey.created_at key |}.

Definition get_access_keys (agent_id : pystr) : MW R (list AccessKeyOut) :=
  principal ← any_principal;
  agent ← get_agent (p_user_id principal) agent_id;
  keys ← list_access_keys (Agent.id agent);
  mret (access_key_out <$> keys).

Definition post_access_key (agent_id : pystr) (body : option AccessKeyCreate) (kid : uuid) (ktok : pystr)
  : MW R AccessKeyCreateResponse :=
  principal ← require_developer;
  agent ← get_agent (p_user_id principal) agent_id;
  key ← create_access_key agent (default (str "default") (akc_label <$> body)) kid ktok;
  mret {| akr_out := access_key_out key.1; akr_key := key.2 |}.

Definition delete_access_key_route (agent_id : pystr) (key_id : uuid) : MW R unit :=
  principal ← require_developer;
  agent ← get_agent (p_user_id principal) agent_id;
  delete_access_key (Agent.id agent) key_id.

Definition delete_agent_route (agent_id : pystr) : MW R unit :=
  principal ← require_developer;
  delete_agent (p_user_id principal) agent_id.

Definition post_deploy (agent_id : pystr) (body : option DeployConfig) : MW R AgentResponse :=
  principal ← require_developer;
  agent ← deploy_agent (p_user_id principal) agent_id body;
  respond agent.

Definition post_scale (agent_id : pystr) (body : ScaleRequest) : MW R ScaleResponse :=
  principal ← require_developer;
  scaled ← scale_agent (p_user_id principal) agent_id (sr_direction body) (sr_count body);
  let '(agent, previous) := scaled in
  mret {| sc_agent_id := Agent.id agent; sc_previous_replicas := previous;
          sc_current_replicas := Agent.replicas agent; sc_direction := sr_direction body;
          sc_status := Agent.status agent |}.

Definition get_logs_route (agent_id : pystr) (level replica_id : option pystr) (limit : Z)
  : MW R LogListResponse :=
  principal ← any_principal;
  logs ← get_logs (p_user_id principal) agent_id level replica_id limit;
  mret {| ll_logs := logs; ll_total := Z.of_nat (length logs); ll_has_next := false |}.

Definition get_metrics_route (agent_id : pystr) : MW R Metrics :=
  principal ← any_principal;
  get_metrics (p_user_id principal) agent_id.

(** One poll of [stream_logs]: what was seen, and the entries sent.  A failing poll sends
    no entry; every poll ends with a heartbeat. *)
Inductive stream_event := LogEvent (entry : AgentLog) | Heartbeat.
Definition log_key (e : AgentLog) : pystr * datetime := (al_replica_id e, al_timestamp e).
Fixpoint send_new (seen : gset (pystr * datetime)) (logs : list AgentLog)
  : gset (pystr * datetime) * list stream_event :=
  match logs with
  | [] => (seen, [])
  | e :: r => if decide (log_key e ∈ seen) then send_new seen r
              else let '(seen', es) := send_new ({[ log_key e ]} ∪ seen) r in (seen', LogEvent e :: es)
  end.
Definition stream_poll (user_id : uuid) (agent_id : pystr) (level : option pystr)
  (seen : gset (pystr * datetime)) : MW R (gset (pystr * datetime) * list stream_event) :=
  logs ← try_except (get_logs user_id agent_id level None 200) (λ _, Some (mret []));
  let '(seen, es) := send_new seen logs in
  mret (seen, es ++ [Heartbeat]).

(** Both streams start with [get_agent], so that only the owner opens one. *)
Definition open_stream (agent_id : pystr) : MW R uuid :=
  principal ← any_principal;
  get_agent (p_user_id principal) agent_id;;
  mret (p_user_id principal).
(** One poll of [stream_metrics]: the metrics, or a heartbeat when reading them failed. *)
Inductive metric_event := MetricEvent (m : Metrics) | MetricHeartbeat.
Definition metrics_poll (user_id : uuid) (agent_id : pystr) : MW R metric_event :=
  try_except (m ← get_metrics user_id agent_id; mret (MetricEvent m)) (λ _, Some (mret MetricHeartbeat)).

(** ** API keys *)
(** [_key_out] *)
Definition key_out (key : ApiKey.ApiKey) : ApiKeyOut :=
  {| ko_id := ApiKey.id key; ko_label := ApiKey.label key;
     ko_keyPreview := ApiKey.key_prefix key ++ str "..."; ko_createdAt := ApiKey.created_at key;
     ko_lastUsedAt := ApiKey.last_used_at key; ko_scopes := ApiKey.scopes key |}.

Definition current_user (principal : Principal) : MW R User.User :=
  query (λ d, match users d !! p_user_id principal with
              | Some u => Ok u
              | None => Err (AuthenticationError (str "Invalid or expired token."))
              end).

Definition create_key (label : pystr) (scopes : list pystr) (kid : uuid) (tok : pystr)
  : MW R ApiKeyCreateResponse :=
  principal ← require_developer_session;
  user ← current_user principal;
  key ← create_api_key user label scopes kid tok;
  mret {| kcr_out := key_out key.1; kcr_key := key.2 |}.
Definition list_keys : MW R (list ApiKeyOut) :=
  principal ← any_principal;
  keys ← list_api_keys (p_user_id principal);
  mret (key_out <$> keys).
Definition delete_key (key_id : uuid) : MW R unit :=
  principal ← any_principal;
  revoke_api_key (p_user_id principal) key_id.

(** ** Accounts *)
(** [_user_out] of [routers/auth.py] *)
Definition auth_user_out (user : User.User) : result exn UserOut :=
  role ← role_enum user;
  mret {| us_id := User.id user; us_name := User.name user; us_email := User.email user;
          us_role := role_to_str role; us_plan := User.plan user |}.
(** [_token_response] *)
Definition token_response (user : User.User) (jti : pystr) : MW R TokenResponse :=
  reads (λ w, out ← auth_user_out user;
              let '(token, expires_in) :=
                create_access_token cfg (User.id user) (User.email user) (User.role user) jti (now w) in
              mret {| tr_access_token := token; tr_expires_in := expires_in; tr_user := out |}).

Definition register (email password name : pystr) (invite_code : option pystr) (uid : uuid) (salt jti : pystr)
  : MW R TokenResponse :=
  user ← register_user cfg email password name invite_code uid salt;
  token_response user jti.
Definition login (email password jti : pystr) : MW R TokenResponse :=
  user ← authenticate_user email password;
  token_response user jti.
(** [registration]: how accounts can be created. *)
Definition registration : RegistrationInfo := {| ri_mode := registration_mode cfg |}.
Definition me : MW R UserOut :=
  principal ← any_principal;
  user ← current_user principal;
  reads (λ _, auth_user_out user).

(** [usage] of [routers/account.py] *)
Definition account_usage : MW R AccountUsage :=
  principal ← any_principal;
  report ← query (λ d, usage_report d (p_user_id principal));
  let '(user, limits, current) := report in
  at_ ← gets now;
  period ← select (λ d, period_totals d (p_user_id principal) (month_start at_) None);
  exempt ← reads (λ _, is_exempt user);
  mret {| aq_plan := User.plan user; aq_exempt := exempt; aq_limits := limits_out limits;
          aq_usage := usage_out current;
          aq_period := period_out period |}.

(** ** Invites *)
(** [_invite_out] *)
Definition invite_out (at_ : datetime) (i : Invite.Invite) : InviteOut :=
  {| io_id := Invite.id i; io_code_prefix := Invite.code_prefix i; io_note := Invite.note i;
     io_max_uses := Invite.max_uses i; io_use_count := Invite.use_count i;
     io_status := Invite.status at_ i; io_expires_at := Invite.expires_at i;
     io_created_at := Invite.created_at i |}.
Definition post_invite (body : InviteCreateRequest) (iid : uuid) (tok : pystr) : MW R InviteCreateResponse :=
  principal ← require_admin;
  made ← create_invite (p_user_id principal) (strip (icr_note body)) (icr_max_uses body)
           (icr_expires_in_days body) iid tok;
  at_ ← gets now;
  mret {| icr_out := invite_out at_ made.1; icr_code := made.2 |}.
Definition get_invites : MW R (list InviteOut) :=
  require_admin;;
  found ← list_invites;
  at_ ← gets now;
  mret (invite_out at_ <$> found).
Definition delete_invite (invite_id : uuid) : MW R unit :=
  require_admin;;
  revoke_invite invite_id.

(** ** Users *)
Definition get_users : MW R (list AdminUserOut) :=
  require_admin;;
  list_users.
Definition patch_user (user_id : uuid) (body : AdminUserUpdate) : MW R AdminUserOut :=
  principal ← require_admin;
  update_user principal user_id body.
End api.

(** ** Login and registration behind their rate limit

    [Depends(enforce_login_rate_limit)] runs before the handler, on the store of Redis. *)
Section limited.
Context {R S : Type} `{Redis S} `{CoreRole} `{UnicodeTables} `{Jwt} `{Bcrypt}.
Context (cfg : GatewaySettings) (client_host : option pystr).

Definition behind_login_limit {A} (handler : MW R A) (s : S) (w : world R) : S * (world R * result exn A) :=
  match enforce_login_rate_limit cfg client_host s with
  | (s', Ok _) => (s', handler w)
  | (s', Err e) => (s', (w, Err e))
  end.
Definition post_register (email password name : pystr) (invite_code : option pystr) (uid : uuid)
  (salt jti : pystr) : S → world R → S * (world R * result exn TokenResponse) :=
  behind_login_limit (register cfg email password name invite_code uid salt jti).
Definition post_login (email password jti : pystr) : S → world R → S * (world R * result exn TokenResponse) :=
  behind_login_limit (login cfg email password jti).
End limited.

(** ** Listing *)
Section listing.
Context {R : Type}.

Definition page_of (w : world R) (user_id : uuid) (status tag : option pystr) (page page_size : Z)
  : list Agent.Agent * Z :=
  match (list_agents user_id status tag page page_size w).2 with
  | Ok p => p
  | Err _ => ([], 0)
  end.
(** The agents on pages [1] to [n]. *)
Definition first_pages (w : world R) (user_id : uuid) (status tag : option pystr) (page_size : Z) (n : nat)
  : list Agent.Agent :=
  concat ((λ i, (page_of w user_id status tag (Z.of_nat i) page_size).1) <$> seq 1 n).

Lemma page_of_items w user_id status tag page page_size :
  (page_of w user_id status tag page page_size).1 =
  take (Z.to_nat page_size)
    (drop (Z.to_nat ((page - 1) * page_size)) (matching_agents (cur_db w) user_id status tag)).
Proof. reflexivity. Qed.

Lemma first_pages_take w user_id status tag page_size n :
  1 ≤ page_size →
  first_pages w user_id status tag page_size n =
  take (n * Z.to_nat page_size) (matching_agents (cur_db w) user_id status tag).
Proof.
  intros Hps. unfold first_pages. induction n as [|n IH]; [done|].
  rewrite seq_S, fmap_app, concat_app, IH. cbn [fmap list_fmap concat]. rewrite app_nil_r, page_of_items.
  replace (Z.to_nat ((Z.of_nat (1 + n) - 1) * page_size)) with (n * Z.to_nat page_size)%nat by nia.
  rewrite take_take_drop. f_equal. lia.
Qed.

#[local] Instance newest_first_total : Total newest_first.
Proof. intros a b. unfold newest_first. lia. Qed.
#[local] Instance newest_first_trans : Transitive newest_first.
Proof. intros a b c. unfold newest_first. lia. Qed.

(** Paging through the list shows every matching agent of the account exactly once,
    newest first, and nobody else's: with [n] pages enough for the reported total, the pages
    put together are the matching agents in the order of their creation, whichever way the
    database would order rows that tie, as long as no two of them were created at the same
    instant. *)
Theorem pages_cover_all w user_id status tag page_size n listing :
  1 ≤ page_size →
  (page_of w user_id status tag 1 page_size).2 ≤ Z.of_nat n * page_size →
  let found := filter (list_condition user_id status tag) (rows (agents (cur_db w))) in
  (∀ a b, a ∈ found → b ∈ found → Agent.created_at a = Agent.created_at b → a = b) →
  listing ≡ₚ found → Sorted newest_first listing →
  first_pages w user_id status tag page_size n = listing.
Proof.
  intros Hps Hn found Hties Hp Hs. rewrite first_pages_take by done.
  assert (matching_agents (cur_db w) user_id status tag ≡ₚ found) as Hm by apply merge_sort_Permutation.
  change (Z.of_nat (length found) ≤ Z.of_nat n * page_size) in Hn.
  rewrite take_ge by (rewrite (Permutation_length Hm); nia).
  apply (Sorted_unique_strong newest_first); [|apply Sorted_merge_sort, _|done|by rewrite Hm, Hp].
  intros a b Ha Hb Hab Hba. rewrite Hm in Ha. rewrite Hp in Hb.
  apply Hties; [done..|]. unfold newest_first in *. lia.
Qed.
End listing.

Definition later_agent : Agent.Agent :=
  fixture_agent <| Agent.id := str "agt_2" |> <| Agent.slug := str "bot-2" |> <| Agent.created_at := 5 |>.
Definition listing_world : world fixture_rt :=
  fixture_world (fixture_db [fixture_user] [fixture_agent; later_agent]) ∅.

Theorem pages_cover_all_witness :
  first_pages listing_world 7%N None None 1 2 = [later_agent; fixture_agent].
Proof.
  apply (pages_cover_all listing_world 7%N None None 1 2).
  - lia.
  - vm_compute. discriminate.
  - change (filter _ _) with [later_agent; fixture_agent].
    intros a b Ha Hb Hab.
    repeat (apply elem_of_cons in Ha as [->|Ha] || apply elem_of_nil in Ha as []);
    repeat (apply elem_of_cons in Hb as [->|Hb] || apply elem_of_nil in Hb as []); done.
  - reflexivity.
  - repeat constructor; vm_compute; discriminate.
Defined.

(** ** Log streams *)
(** The keys of the entries among events. *)
Definition sent_keys (es : list stream_event) : list (pystr * datetime) :=
  omap (λ e, match e with LogEvent l => Some (log_key l) | Heartbeat => None end) es.

(** Successive polls of one stream, on the log tails they read. *)
Fixpoint stream_run (seen : gset (pystr * datetime)) (polls : list (list AgentLog)) : list stream_event :=
  match polls with
  | [] => []
  | logs :: r => let '(seen', es) := send_new seen logs in es ++ Heartbeat :: stream_run seen' r
  end.

Lemma send_new_spec seen logs seen' es :
  send_new seen logs = (seen', es) →
  seen' = seen ∪ list_to_set (log_key <$> logs) ∧ NoDup (sent_keys es) ∧
  (∀ k, k ∈ sent_keys es ↔ k ∈ log_key <$> logs ∧ k ∉ seen).
Proof.
  revert seen seen' es. induction logs as [|l logs IH]; intros seen seen' es; cbn [send_new].
  - intros [= <- <-]. cbn. split_and!; [set_solver|constructor|set_solver].
  - case_decide as Hs.
    + intros (-> & Hnd & Hk)%IH. cbn. split_and!; [set_solver|done|]. intros k. rewrite Hk. set_solver.
    + destruct (send_new ({[ log_key l ]} ∪ seen) logs) as [s2 e2] eqn:E. intros [= <- <-].
      apply IH in E as (-> & Hnd & Hk). cbn [sent_keys omap list_omap]. fold (sent_keys e2). split_and!.
      * cbn. set_solver.
      * apply NoDup_cons. split; [|done]. fold (sent_keys e2). rewrite Hk. set_solver.
      * intros k. change (k ∈ log_key l :: sent_keys e2 ↔ k ∈ log_key <$> l :: logs ∧ k ∉ seen).
        rewrite fmap_cons, !elem_of_cons, Hk, not_elem_of_union, not_elem_of_singleton.
        destruct (decide (k = log_key l)) as [->|]; tauto.
Qed.

Lemma sent_keys_app es1 es2 : sent_keys (es1 ++ es2) = sent_keys es1 ++ sent_keys es2.
Proof. apply omap_app. Qed.

Lemma stream_run_spec seen polls :
  NoDup (sent_keys (stream_run seen polls)) ∧
  ∀ k, k ∈ sent_keys (stream_run seen polls) ↔ k ∈ log_key <$> concat polls ∧ k ∉ seen.
Proof.
  revert seen. induction polls as [|logs polls IH]; intros seen; cbn [stream_run concat].
  { split; [constructor|]. intros k. cbn. rewrite elem_of_nil. tauto. }
  destruct (send_new seen logs) as [seen' es] eqn:E. apply send_new_spec in E as (-> & Hnd & Hk).
  specialize (IH (seen ∪ list_to_set (log_key <$> logs))) as [Hnd' Hk'].
  rewrite sent_keys_app. change (sent_keys (Heartbeat :: ?l)) with (sent_keys l). split.
  - apply NoDup_app. split_and!; [done| |done]. intros k Hin. rewrite Hk'. apply Hk in Hin as [Hin _].
    rewrite not_elem_of_union, elem_of_list_to_set. tauto.
  - intros k. rewrite elem_of_app, Hk, Hk', fmap_app, elem_of_app, not_elem_of_union, elem_of_list_to_set.
    destruct (decide (k ∈ log_key <$> logs)); tauto.
Qed.

(** A log stream repeats nothing and leaves out no moment: over all its polls, whatever
    tails they read, the entries sent have pairwise different replica and time, and every
    replica and time that was read is sent once. *)
Theorem log_stream_exactly_once polls :
  NoDup (sent_keys (stream_run ∅ polls)) ∧
  ∀ k, k ∈ sent_keys (stream_run ∅ polls) ↔ k ∈ log_key <$> concat polls.
Proof.
  destruct (stream_run_spec ∅ polls) as [Hnd Hk]. split; [done|]. intros k. rewrite Hk.
  split; [tauto|]. intros Hin. split; [done|]. apply not_elem_of_empty.
Qed.

(** ** Guards and composition *)
Section api_theorems.
Context {R : Type} `{AgentRuntime R} `{CoreLLM} `{CoreRole} `{Fernet} `{CoreErrors} `{UnicodeTables}.
Context `{Jwt} `{CoreApiKeys} `{Bcrypt} `{HStamps : AgentStamps}.
Implicit Types w : world R.


(** The routes that change agents, keys, invites, accounts and subscriptions, for some
    credentials. *)
Inductive changing_route (cfg : GatewaySettings) (creds : option pystr) : MW R unit → Prop :=
| ch_create body tok rnd kid ktok :
    changing_route cfg creds (post_agent cfg creds body tok rnd kid ktok;; mret tt)
| ch_patch aid body : changing_route cfg creds (patch_agent cfg creds aid body;; mret tt)
| ch_deploy aid body : changing_route cfg creds (post_deploy cfg creds aid body;; mret tt)
| ch_scale aid body : changing_route cfg creds (post_scale cfg creds aid body;; mret tt)
| ch_delete aid : changing_route cfg creds (delete_agent_route cfg creds aid)
| ch_access_key aid body kid ktok :
    changing_route cfg creds (post_access_key cfg creds aid body kid ktok;; mret tt)
| ch_access_key_delete aid kid : changing_route cfg creds (delete_access_key_route cfg creds aid kid)
| ch_api_key label scopes kid tok : changing_route cfg creds (create_key cfg creds label scopes kid tok;; mret tt)
| ch_invite body iid tok : changing_route cfg creds (post_invite cfg creds body iid tok;; mret tt)
| ch_invite_delete iid : changing_route cfg creds (delete_invite cfg creds iid)
| ch_user uid body : changing_route cfg creds (patch_user cfg creds uid body;; mret tt)
| ch_checkout make : changing_route cfg creds (checkout cfg make creds;; mret tt)
| ch_portal make : changing_route cfg creds (portal cfg make creds;; mret tt).

(** Every public route. *)
Inductive api_route (cfg : GatewaySettings) (creds : option pystr) : MW R unit → Prop :=
| rt_changing route : changing_route cfg creds route → api_route cfg creds route
| rt_agents status tag page page_size :
    api_route cfg creds (get_agents cfg creds status tag page page_size;; mret tt)
| rt_agent aid : api_route cfg creds (get_agent_route cfg creds aid;; mret tt)
| rt_access_keys aid : api_route cfg creds (get_access_keys cfg creds aid;; mret tt)
| rt_logs aid level replica limit : api_route cfg creds (get_logs_route cfg creds aid level replica limit;; mret tt)
| rt_metrics aid : api_route cfg creds (get_metrics_route cfg creds aid;; mret tt)
| rt_stream uid aid level seen : api_route cfg creds (stream_poll uid aid level seen;; mret tt)
| rt_open_stream aid : api_route cfg creds (open_stream cfg creds aid;; mret tt)
| rt_metrics_poll uid aid : api_route cfg creds (metrics_poll uid aid;; mret tt)
| rt_keys : api_route cfg creds (list_keys cfg creds;; mret tt)
| rt_key_delete kid : api_route cfg creds (delete_key cfg creds kid)
| rt_register email password name code uid salt jti :
    api_route cfg creds (register cfg email password name code uid salt jti;; mret tt)
| rt_login email password jti : api_route cfg creds (login cfg email password jti;; mret tt)
| rt_me : api_route cfg creds (me cfg creds;; mret tt)
| rt_usage : api_route cfg creds (account_usage cfg creds;; mret tt)
| rt_invites : api_route cfg creds (get_invites cfg creds;; mret tt)
| rt_users : api_route cfg creds (get_users cfg creds;; mret tt)
| rt_billing : api_route cfg creds (billing_status cfg creds;; mret tt)
| rt_webhook make verified event : api_route cfg creds (webhook cfg make verified event).

Lemma edge_respond_all cfg agents : preserves edge_state (respond_all cfg agents : MW R _).
Proof. induction agents; cbn [respond_all]; frame. Qed.
#[local] Hint Resolve edge_respond_all : gateway.

(** The public API leaves the edge alone: no route, whatever its outcome, changes a
    rate-limit table or a request that is counted and not yet written. *)
Theorem api_leaves_edge_alone cfg creds route (w : world R) :
  api_route cfg creds route → edge_state (request route w).1 = edge_state w.
Proof.
  intros Hr. assert (preserves edge_state route) as Hp.
  { destruct Hr as [? []| | | | | | | | | | | | | | | | | |]; frame. }
  unfold request. specialize (Hp (begin_session w)). by destruct (route (begin_session w)).
Qed.



Lemma respond_fields cfg a r :
  to_agent_response cfg a = Ok r → ar_id r = Agent.id a ∧ ar_access r = Agent.access a ∧ ar_access_key r = None.
Proof.
  unfold to_agent_response.
  destruct (if has_deploy_config a then _ else _) as [o|e]; cbn; [|done]. by intros [= <-].
Qed.

(** A private agent is created together with an access key that opens it: the key in
    the response is one the edge accepts for that agent. *)
Theorem private_agent_has_working_key cfg creds body tok rnd kid ktok w w' resp :
  db_ok (committed_db w) →
  request (post_agent cfg creds body tok rnd kid ktok) w = (w', Ok resp) → ar_access resp = PRIVATE →
  ∃ raw, ar_access_key resp = Some raw ∧ valid_access_key (committed_db w') (ar_id resp) raw = true.
Proof.
  intros Hd. unfold request. rewrite begin_session_eq. unfold post_agent. rewrite bind_run.
  pose proof (require_role_reads cfg OPERATOR false creds (committed_db w) w Hd) as Hw.
  unfold require_developer. destruct (require_role _ _ _ _ _) as [w1 [p|e]]; [|done]. cbn in Hw. subst w1.
  cbv beta iota. rewrite bind_run.
  destruct (create_contract (committed_db w) w (p_user_id p) tok rnd body Hd) as (d1 & rt1 & r1 & -> & _ & Hd1).
  destruct r1 as [a|e]; cbv beta iota; [|done]. rewrite bind_run. unfold respond, reads at 1. cbv beta iota.
  destruct (to_agent_response cfg a) as [r|e] eqn:Er; cbv beta iota; [|done].
  destruct (respond_fields _ _ _ Er) as (Hid & Hacc & _). case_bool_decide as Hp.
  - rewrite bind_run. unfold create_access_key. rewrite bind_run. unfold gets. cbv beta iota zeta.
    unfold add_access_key. rewrite add_commit_then. case_decide as Hok; cbv beta iota; [|done].
    unfold mret, M_ret. cbv beta iota. intros [= <- <-] _. exists (KEY_PREFIX ++ ktok). split; [reflexivity|].
    apply valid_access_key_iff. split; [apply startswith_app|]. cbn [ar_id setf]. rewrite Hid.
    exists kid. eexists. split; [apply lookup_insert_eq|]. done.
  - unfold mret, M_ret. intros [= <- <-] Hpriv. congruence.
Qed.
End api_theorems.

(** ** Witnesses *)
Definition api_token : pystr := (create_access_token default_settings 7%N (str "dev@example.com") 2 [] 0).1.


Theorem private_agent_has_working_key_witness :
  let p := request (post_agent default_settings (Some api_token) fixture_body (str "x") (λ _, 0%N) 5%N (str "t"))
             auth_world in
  ∃ resp raw, p.2 = Ok resp ∧ ar_access_key resp = Some raw ∧
    valid_access_key (committed_db p.1) (ar_id resp) raw = true.
Proof.
  set (p := request _ _).
  assert (∃ resp, p = (p.1, Ok resp) ∧ ar_access resp = PRIVATE) as (resp & E & Ha)
    by (eexists; vm_compute; split; reflexivity).
  destruct (private_agent_has_working_key default_settings (Some api_token) fixture_body (str "x") (λ _, 0%N)
    5%N (str "t") auth_world p.1 resp auth_world_ok E Ha) as (raw & Hr & Hv).
  exists resp, raw. rewrite E. split; [reflexivity|]. split; [exact Hr|exact Hv].
Defined.
