(* ===== verification/App.v ===== *)
(** The application ([main.py], [routers/health.py], the process side of [runtime.py] and
    [error_handlers.py]): how it is put together, how a request travels through it, and how
    the process starts and stops.

    Starlette orders its layers: the handler of unexpected exceptions is outermost, then the
    middleware in reverse order of addition, then the handlers of known exceptions, then the
    routes.  Sentry, the metrics registry of the core library and the constructor of its
    runtime are parameters. *)

From S2P Require Import Prelude PyText PyFloat Config Errors Plans Models Runtime IngressLimits World.
From S2P Require Import Schemas Fixtures Quota Hostnames AgentEnv AgentService AgentLifecycle Metering AccessKeys Ingress Scheduler Observability.

(** ** Configuration of the process *)
(** [logging.getLevelNamesMapping()] *)
Definition LEVELS : gmap pystr Z := {[
  str "CRITICAL" := 50; str "FATAL" := 50; str "ERROR" := 40; str "WARN" := 30; str "WARNING" := 30;
  str "INFO" := 20; str "DEBUG" := 10; str "NOTSET" := 0 ]}.
Inductive renderer := JSONRenderer | ConsoleRenderer.
Record log_setup := { lg_level : Z; lg_renderer : renderer; lg_format_exc_info : bool }.
Definition configure_logging `{UnicodeTables} (cfg : GatewaySettings) : log_setup :=
  let production := environment cfg == str "production" in
  {| lg_level := default 20 (LEVELS !! upper ucd_upper (log_level cfg));
     lg_renderer := if production then JSONRenderer else ConsoleRenderer;
     lg_format_exc_info := production |}.

(** What Sentry is initialised with, when it is. *)
Record sentry_options := {
  so_dsn : pystr;
  so_environment : pystr;
  so_traces_sample_rate : float;
  so_send_default_pii : bool;
  so_max_request_body_size : pystr;
}.
Definition init_error_reporting (cfg : GatewaySettings) : option sentry_options :=
  if truthy (sentry_dsn cfg)
  then Some {| so_dsn := default [] (sentry_dsn cfg); so_environment := environment cfg;
               so_traces_sample_rate := sentry_traces_sample_rate cfg; so_send_default_pii := false;
               so_max_request_body_size := str "never" |}
  else None.

Inductive router := RHealth | RAuth | RApiKeys | RAdmin | RAccount | RBilling | RAgents | RIngress.
Record application := {
  app_log : log_setup;
  app_sentry : option sentry_options;
  app_cors_origins : list pystr;
  app_routers : list router;
}.
Definition create_app `{UnicodeTables} (cfg : GatewaySettings) : result (list pystr) application :=
  create_app_guard cfg;;
  mret {| app_log := configure_logging cfg; app_sentry := init_error_reporting cfg;
          app_cors_origins := cors_allow_origins cfg;
          app_routers := [RHealth; RAuth; RApiKeys; RAdmin; RAccount; RBilling; RAgents; RIngress] |}.

(** ** Probes *)
Definition healthz : Z * pystr := (200, str "ok").
(** [fault] is what the database driver raises on [SELECT 1], if anything. *)
Definition readyz (fault : option exn) : Z * pystr :=
  match fault with
  | Some _ => (503, str "unavailable")
  | None => (200, str "ready")
  end.
(** [core_metrics.export()] *)
Class CoreMetrics (R : Type) := core_export : R → pystr.
Definition metrics {R} `{CoreMetrics R} : MW R pystr := gets (λ w, core_export (runtime w)).

(** ** Errors of validation *)
(** An entry of [RequestValidationError.errors()]. *)
Record raw_error := {
  re_loc : list pystr;
  re_msg : pystr;
  re_type : pystr;
  re_input : pystr;
  re_ctx : option pystr;
}.
Record error_detail := { ed_loc : list pystr; ed_msg : pystr; ed_type : pystr }.
Definition validation_error_handler (errors : list raw_error) : Z * pystr * list error_detail :=
  (422, str "VALIDATION_ERROR",
   (λ e, {| ed_loc := re_loc e; ed_msg := re_msg e; ed_type := re_type e |}) <$> errors).

(** ** A request through the layers *)
(** How a route ends: a response, failed validation of the request, or an exception. *)
Inductive outcome :=
| Responded (status : Z) (headers : list (pystr * pystr)) (body : pystr)
| Invalid (errors : list raw_error)
| Raised (e : exn).

Definition retry_header (retry_after : option Z) : list (pystr * pystr) :=
  match retry_after with Some n => [(str "retry-after", str_of_int n)] | None => [] end.

Section serve.
Context (core_code : exc_class → pystr).

(** What the exception layer sends; [None] lets the exception through. *)
Definition inner_response (o : outcome) : option (list message) :=
  match o with
  | Responded status headers body => Some [ResponseStart status headers; OtherMessage body]
  | Invalid errors => Some [ResponseStart (validation_error_handler errors).1.1 [];
                            OtherMessage (validation_error_handler errors).1.2]
  | Raised e =>
      match class_of e with
      | Some c => let r := agntspark_error_handler core_code c e in
                  Some [ResponseStart (er_status r) (retry_header (er_retry_after r));
                        OtherMessage (er_code r)]
      | None => None
      end
  end.
(** The outermost layer: the request id comes from the scope the middleware has filled. *)
Definition outer_response (request_id : pystr) : list message :=
  let r := unhandled_error_handler (Some request_id) in
  [ResponseStart (er_status r) (if nonempty request_id then [(REQUEST_ID_HEADER, request_id)] else []);
   OtherMessage (er_code r)].
Definition serve_http (method path : pystr) (headers : list (pystr * pystr)) (fresh : pystr) (o : outcome)
  : list message * option access_line :=
  match inner_response o with
  | Some ms => middleware (str "http") method path headers fresh ms
  | None => let '(sent, line) := middleware (str "http") method path headers fresh [] in
            (sent ++ outer_response (request_id_for headers fresh), line)
  end.

(** The status of the response. *)
Definition outcome_status (o : outcome) : Z :=
  match o with Responded status _ _ => status | Invalid _ => 422 | Raised e => http_status e end.

Lemma middleware_one method path headers fresh status hs body :
  ∃ hs', (middleware (str "http") method path headers fresh [ResponseStart status hs; OtherMessage body]).1 =
           [ResponseStart status hs'; OtherMessage body] ∧
         filter (λ kv, kv.1 = REQUEST_ID_HEADER) hs' = [(REQUEST_ID_HEADER, request_id_for headers fresh)].
Proof.
  unfold middleware. rewrite bool_decide_eq_true_2 by done. cbn. eexists. split; [reflexivity|].
  rewrite filter_app, filter_none, filter_cons_True; [done|done|]. by intros a [Hn _]%list_elem_of_filter.
Qed.
Lemma middleware_line method path headers fresh ms :
  (middleware (str "http") method path headers fresh ms).2 =
  if bool_decide (path ∈ QUIET_PATHS) then None
  else Some {| ac_method := method; ac_path := path; ac_status := default 500 (last (statuses ms));
               ac_request_id := request_id_for headers fresh |}.
Proof.
  unfold middleware. rewrite bool_decide_eq_true_2 by done. cbn [negb].
  pose proof (send_all_ok (request_id_for headers fresh) 500 ms) as [_ Hst].
  destruct (send_all _ _ _) as [st sent]. cbn in Hst |- *. by rewrite Hst.
Qed.
Lemma request_id_nonempty headers fresh : fresh ≠ [] → request_id_for headers fresh ≠ [].
Proof.
  intros Hf. destruct (request_id_source headers fresh) as [->|[Hv _]]; [done|].
  intros He. by rewrite He in Hv.
Qed.

(** Whatever a route does, answer, refuse the request body, raise one of the gateway's
    errors or fail unexpectedly, the caller gets exactly one response; its status is the one
    the outcome has, it carries the request's id exactly once, and the access log, unless the
    path is a probe, shows the same status under the same id. *)
Theorem every_response_identified method path headers fresh o :
  fresh ≠ [] →
  let '(sent, line) := serve_http method path headers fresh o in
  let rid := request_id_for headers fresh in
  (∃ hs body, sent = [ResponseStart (outcome_status o) hs; OtherMessage body] ∧
     filter (λ kv, kv.1 = REQUEST_ID_HEADER) hs = [(REQUEST_ID_HEADER, rid)]) ∧
  line = (if bool_decide (path ∈ QUIET_PATHS) then None
          else Some {| ac_method := method; ac_path := path; ac_status := outcome_status o;
                       ac_request_id := rid |}).
Proof.
  intros Hf. unfold serve_http.
  assert (inner_response o = None ∧ outcome_status o = 500 ∨
    ∃ hs body, inner_response o = Some [ResponseStart (outcome_status o) hs; OtherMessage body])
    as [[-> Hst]|(hs & body & ->)].
  { destruct o as [| |e]; [by right; eexists _, _..|]. cbn. unfold http_status.
    destruct (class_of e); [right; by eexists _, _|by left]. }
  - pose proof (middleware_line method path headers fresh []) as Hl. rewrite Hst.
    unfold middleware in *. rewrite bool_decide_eq_true_2 in * by done. cbn in Hl |- *. split; [|done].
    eexists _, _. split; [reflexivity|].
    destruct (request_id_for headers fresh) eqn:E; [by destruct (request_id_nonempty headers fresh Hf)|].
    cbn [nonempty]. by rewrite filter_cons_True by done.
  - pose proof (middleware_line method path headers fresh [ResponseStart (outcome_status o) hs; OtherMessage body]) as Hl.
    destruct (middleware_one method path headers fresh (outcome_status o) hs body) as (hs' & Hs & Hid).
    destruct (middleware _ _ _ _ _ _) as [sent line]. cbn in Hl, Hs. subst. split; [by eexists _, _|done].
Qed.
End serve.

Theorem every_response_identified_witness :
  let '(sent, line) := serve_http (λ _, []) (str "GET") (str "/v1/agents") [(REQUEST_ID_HEADER, str "abc")]
                         (str "f") (Raised ValueError) in
  (∃ hs body, sent = [ResponseStart 500 hs; OtherMessage body] ∧
     filter (λ kv, kv.1 = REQUEST_ID_HEADER) hs = [(REQUEST_ID_HEADER, str "abc")]) ∧
  line = Some {| ac_method := str "GET"; ac_path := str "/v1/agents"; ac_status := 500; ac_request_id := str "abc" |}.
Proof.
  apply (every_response_identified (λ _, []) (str "GET") (str "/v1/agents") [(REQUEST_ID_HEADER, str "abc")]
    (str "f") (Raised ValueError)). discriminate.
Defined.

(** ** Start and stop *)
Record CoreRuntimeSettings := {
  rs_docker_socket : pystr;
  rs_docker_image : pystr;
  rs_docker_network : pystr;
  rs_auth_enabled : bool;
}.
(** The constructor of the core runtime, whose tracking starts empty. *)
Class CoreRuntimeInit (R : Type) := core_runtime : CoreRuntimeSettings → R.

Section lifespan.
Context {R : Type} `{AgentRuntime R} `{CoreRuntimeInit R} `{CoreRole}.

Definition build_core_runtime (cfg : GatewaySettings) : R :=
  core_runtime {| rs_docker_socket := docker_socket cfg; rs_docker_image := docker_image cfg;
                  rs_docker_network := docker_network cfg; rs_auth_enabled := false |}.

(** Entering [lifespan]: a new process, whose memory is empty. *)
Definition startup (cfg : GatewaySettings) (w : world R) : world R :=
  begin_session {| sess := sess w; runtime := startup_reconcile (build_core_runtime cfg); now := now w;
                   per_client := per_client0; per_agent := per_agent0;
                   pending := ∅ |}.
(** Leaving it: the scheduler task is cancelled where it is, which is awaited, and the counts
    are flushed.  A tick that raises before the task is cancelled was caught by the loop. *)
Definition shutdown (cfg : GatewaySettings) (elapsed : option num) (point : cancel_point) (fault : option exn)
  : MW R unit :=
  try_except (request (cancelled_turn cfg elapsed point)) (λ _, Some (mret tt));;
  try_except (request (flush_requests fault);; mret tt) (λ _, Some (mret tt)).
Definition restart (cfg : GatewaySettings) (elapsed : option num) (point : cancel_point) (fault : option exn)
  (w : world R) : world R :=
  startup cfg (shutdown cfg elapsed point fault w).1.
End lifespan.
