(* ===== verification/Hoare.v ===== *)
(** A program logic for handlers: invariants of the stored rows.

    [keeps I m Q] says that [m] keeps the predicate [I] of the database, of the committed
    state and of the session's own, and the constraints of the committed state, however it
    ends, and that a value it returns satisfies [Q].  There is one rule per primitive of [World.v]; [keep] applies them, with the facts
    about whole operations taken from the hint database [keeps]. *)

From S2P Require Import Prelude Errors Models Runtime World.

Section triples.
Context {R : Type}.
Implicit Types (w : world R) (I : db → Prop).

Definition holds I w : Prop := (db_ok (committed_db w) ∧ I (committed_db w)) ∧ I (cur_db w).
Definition keeps {A} I (m : MW R A) (Q : A → Prop) : Prop :=
  ∀ w, holds I w → holds I (m w).1 ∧ ∀ a, (m w).2 = Ok a → Q a.

Lemma holds_begin I w : db_ok (committed_db w) → I (committed_db w) → holds I (begin_session w).
Proof. by split; [split|]. Qed.

Lemma keeps_weaken {A} I (m : MW R A) (P Q : A → Prop) : keeps I m P → (∀ a, P a → Q a) → keeps I m Q.
Proof. intros Hm HPQ w Hw. destruct (Hm w Hw) as [? Ha]. eauto. Qed.
Lemma keeps_any {A} I (m : MW R A) (P : A → Prop) : keeps I m P → keeps I m (λ _, True).
Proof. intros Hm. eapply keeps_weaken; [exact Hm|done]. Qed.

Lemma keeps_ret {A} I (a : A) (Q : A → Prop) : Q a → keeps I (mret a) Q.
Proof. intros Ha w Hw. split; [done|]. cbn. by intros ? [= <-]. Qed.
Lemma keeps_raise {A} I e (Q : A → Prop) : keeps I (raise e) Q.
Proof. by intros w Hw. Qed.
Lemma keeps_bind {A B} I (m : MW R A) (k : A → MW R B) (P : A → Prop) (Q : B → Prop) :
  keeps I m P → (∀ a, P a → keeps I (k a) Q) → keeps I (m ≫= k) Q.
Proof.
  intros Hm Hk w Hw. rewrite bind_run. destruct (Hm w Hw) as [Hw1 Ha].
  destruct (m w) as [w1 [a|e]]; cbn in *; [|done]. by apply Hk; [apply Ha|].
Qed.
(** Sequencing when nothing is known of the value. *)
Lemma keeps_seq {A B} I (m : MW R A) (k : A → MW R B) (Q : B → Prop) :
  keeps I m (λ _, True) → (∀ a, keeps I (k a) Q) → keeps I (m ≫= k) Q.
Proof. intros Hm Hk. eapply keeps_bind; [exact Hm|auto]. Qed.
Lemma keeps_gets {A} I (f : world R → A) (Q : A → Prop) : (∀ w, Q (f w)) → keeps I (gets f) Q.
Proof. intros Hf w Hw. split; [done|]. cbn. by intros ? [= <-]. Qed.
Lemma keeps_reads {A} I (f : world R → result exn A) (Q : A → Prop) :
  (∀ w a, f w = Ok a → Q a) → keeps I (reads f) Q.
Proof. intros Hf w Hw. split; [done|]. apply Hf. Qed.
Lemma keeps_query {A} I (f : db → result exn A) (Q : A → Prop) :
  (∀ d a, I d → f d = Ok a → Q a) → keeps I (query f) Q.
Proof. intros Hf w [Hc Hu]. split; [done|]. cbn. intros a. by apply Hf. Qed.
Lemma keeps_select {A} I (f : db → A) (Q : A → Prop) : (∀ d, I d → Q (f d)) → keeps I (select f) Q.
Proof. intros Hf w [Hc Hu]. split; [done|]. cbn. intros a [= <-]. by apply Hf. Qed.
Lemma keeps_update I f (Q : unit → Prop) : (∀ d, I d → I (f d)) → Q tt → keeps I (update f) Q.
Proof. intros Hf HQ w [Hc Hu]. split; [by split; [|apply Hf]|by intros []]. Qed.
Lemma keeps_add_row I put taken (Q : unit → Prop) :
  (∀ d, I d → I (put d)) → Q tt → keeps I (add_row put taken) Q.
Proof. intros Hf HQ w [Hc Hu]. split; [by split; [|apply Hf]|by intros []]. Qed.
Lemma keeps_commit I (Q : unit → Prop) : Q tt → keeps I commit Q.
Proof.
  intros HQ w [[Hok Hc] Hu]. unfold commit.
  destruct (clash (sess w) || negb (bool_decide (db_ok (cur (sess w))))) eqn:E; (split; [|first [done|by intros []]]).
  - by split; [split|].
  - apply orb_false_iff in E as [_ E%negb_false_iff%bool_decide_eq_true]. by split; [split|].
Qed.
Lemma keeps_rollback I (Q : unit → Prop) : Q tt → keeps I rollback Q.
Proof. intros HQ w [[Hok Hc] Hu]. split; [by split; [split|]|by intros []]. Qed.
Lemma keeps_on_runtime {A} I (f : R → R * result core_exn A) (Q : result core_exn A → Prop) :
  (∀ r, Q (f r).2) → keeps I (on_runtime f) Q.
Proof.
  intros Hf w Hw. unfold on_runtime. specialize (Hf (runtime w)). destruct (f (runtime w)) as [r a].
  split; [done|]. cbn. by intros ? [= <-].
Qed.
Lemma keeps_try {A} I (m : MW R A) h (Q : A → Prop) :
  keeps I m Q → (∀ e k, h e = Some k → keeps I k Q) → keeps I (try_except m h) Q.
Proof.
  intros Hm Hh w Hw. unfold try_except. destruct (Hm w Hw) as [Hw1 Ha].
  destruct (m w) as [w1 [a|e]]; cbn in *; [done|]. destruct (h e) eqn:He; [|done]. by apply (Hh e).
Qed.
Lemma keeps_when I b (m : MW R unit) (Q : unit → Prop) : (b = true → keeps I m Q) → Q tt → keeps I (when b m) Q.
Proof. destruct b; cbn; [auto|]. intros _ HQ. by apply keeps_ret. Qed.
Lemma keeps_request {A} I (m : MW R A) (Q : A → Prop) : keeps I m Q → keeps I (request m) Q.
Proof.
  intros Hm w [[Hok Hc] _]. unfold request. destruct (Hm (begin_session w)) as [[[Hok1 Hc1] _] Ha];
    [by apply holds_begin|]. destruct (m (begin_session w)) as [w1 r]. split; [by split; [split|]|done].
Qed.
(** Operations on the process memory only. *)
Lemma keeps_memory {A} I (m : MW R A) (Q : A → Prop) :
  (∀ w, sess (m w).1 = sess w ∧ ∀ a, (m w).2 = Ok a → Q a) → keeps I m Q.
Proof.
  intros Hm w [Hc Hu]. destruct (Hm w) as [Hs Ha]. split; [|done].
  unfold holds, committed_db, cur_db in *. by rewrite Hs.
Qed.

Lemma keeps_modify I f (Q : unit → Prop) : (∀ w, sess (f w) = sess w) → Q tt → keeps I (modify f) Q.
Proof. intros Hf HQ. apply keeps_memory. intros w. split; [apply Hf|by intros []]. Qed.

(** From a triple to the state after a request. *)
Lemma keeps_request_committed {A} I (m : MW R A) (Q : A → Prop) w :
  keeps I m Q → db_ok (committed_db w) → I (committed_db w) →
  db_ok (committed_db (request m w).1) ∧ I (committed_db (request m w).1).
Proof.
  intros Hm Hok Hw. rewrite request_committed. destruct (Hm (begin_session w)) as [[[Hok1 Hc] _] _];
    [by apply holds_begin|done].
Qed.
End triples.

Create HintDb keeps.

(** One rule; a bind takes the postcondition of its first part from the database when there
    is one, and none otherwise. *)
Ltac keep_leaf := solve [eauto 4 with keeps nocore | eapply keeps_any; eauto 4 with keeps nocore].
Ltac keep_step :=
  lazymatch goal with
  | |- keeps _ (_ ≫= _) _ =>
      first [eapply keeps_bind; [solve [eauto 4 with keeps nocore]|intros ? ?]
            |apply keeps_seq; [|intros ?]]
  | |- keeps _ (mret _) _ => apply keeps_ret
  | |- keeps _ (raise _) _ => apply keeps_raise
  | |- keeps _ (gets _) _ => apply keeps_gets; intros ?
  | |- keeps _ (reads _) _ => apply keeps_reads; intros ? ? ?
  | |- keeps _ (query _) _ => apply keeps_query; intros ? ? ? ?
  | |- keeps _ (select _) _ => apply keeps_select; intros ? ?
  | |- keeps _ (update _) _ => apply keeps_update; [intros ? ?|]
  | |- keeps _ (add_row _ _) _ => apply keeps_add_row; [intros ? ?|]
  | |- keeps _ commit _ => apply keeps_commit
  | |- keeps _ rollback _ => apply keeps_rollback
  | |- keeps _ (modify _) _ => apply keeps_modify; [done|]
  | |- keeps _ (on_runtime _) _ => apply keeps_on_runtime; intros ?
  | |- keeps _ (when _ _) _ => apply keeps_when; [intros ?|]
  | |- keeps _ (try_except _ _) _ => apply keeps_try; [|intros ? ? [= <-]]
  | |- keeps _ (if ?b then _ else _) _ => destruct b eqn:?
  | |- keeps _ (match ?x with _ => _ end) _ => destruct x eqn:?
  end.
Ltac keep := intros; repeat (first [exact I | keep_leaf | keep_step]).
