(* ===== verification/StoredRows.v ===== *)
(** What is stored is well formed: the rows of accounts, agents and invites stay within the
    domains their readers expect, whichever route wrote them.

    Every operation that writes rows is taken through the program logic of [Hoare.v] once, for
    an invariant that joins well-formedness with any predicate [J] of the database that row
    writes keep; [J] is what a client wants to carry along. *)

From S2P Require Import Prelude PyText Codec Sha256 PyFloat Config Errors Plans Models Runtime IngressLimits World.
From S2P Require Import Schemas Fixtures Quota Hostnames AgentEnv AgentService AgentLifecycle.
From S2P Require Import Metering AccessKeys Ingress Invites Auth Billing Scheduler Admin Api Hoare.

(** ** Well-formed rows *)
Definition agent_ok (a : Agent.Agent) : Prop :=
  deploy_columns_valid a = true ∧ 0 ≤ Agent.replicas a ∧ 1 ≤ Agent.version a ∧
  opt_valid (in_range 1 100000) (Agent.rate_limit_rpm a) = true.
(** The lengths the request schemas ensure. *)
Definition short (n : nat) (s : pystr) : Prop := (length s ≤ n)%nat.
#[export] Instance short_dec n s : Decision (short n s).
Proof. unfold short. apply _. Defined.
(** A credential is stored as the digest of its text: 64 hexadecimal digits. *)
Definition digest (s : pystr) : Prop := length s = 64%nat ∧ Forall (λ c, is_hex c = true) s.
Definition invite_ok (i : Invite.Invite) : Prop :=
  1 ≤ Invite.max_uses i ≤ 1000 ∧ 0 ≤ Invite.use_count i ≤ Invite.max_uses i ∧
  digest (Invite.code_hash i) ∧ short 10 (Invite.code_prefix i) ∧ short 255 (Invite.note i).
Definition api_key_ok (k : ApiKey.ApiKey) : Prop :=
  digest (ApiKey.key_hash k) ∧ short 12 (ApiKey.key_prefix k) ∧ short 128 (ApiKey.label k) ∧
  ApiKey.project_id k = None.
Definition access_key_ok (k : AgentAccessKey.AgentAccessKey) : Prop :=
  digest (AgentAccessKey.key_hash k) ∧ short 12 (AgentAccessKey.key_prefix k) ∧
  short 128 (AgentAccessKey.label k).

Section stored.
Context `{CoreRole}.

Definition user_ok (u : User.User) : Prop :=
  is_Some (role_of_int (User.role u)) ∧ is_Some (PLANS !! User.plan u) ∧ short 255 (User.name u).
Record stored_ok (d : db) : Prop := {
  st_users : map_Forall (λ _, user_ok) (users d);
  st_agents : map_Forall (λ _, agent_ok) (agents d);
  st_api_keys : map_Forall (λ _, api_key_ok) (api_keys d);
  st_access_keys : map_Forall (λ _, access_key_ok) (access_keys d);
  st_invites : map_Forall (λ _, invite_ok) (invites d);
}.
#[global] Instance stored_ok_dec d : Decision (stored_ok d).
Proof.
  refine (cast_if (decide (map_Forall (λ _, user_ok) (users d) ∧ map_Forall (λ _, agent_ok) (agents d) ∧
    map_Forall (λ _, api_key_ok) (api_keys d) ∧ map_Forall (λ _, access_key_ok) (access_keys d) ∧
    map_Forall (λ _, invite_ok) (invites d)))); [destruct_and?; by constructor|intros []; tauto].
Defined.
End stored.

(** Predicates that no row write of a handler can break.  Of agents they may restrict which
    account owns which identifier: [P] holds of the identifier and the owner of the rows
    read, and rows are written back with both unchanged. *)
Record rows_free (P : pystr → uuid → Prop) (J : db → Prop) : Prop := {
  rf_owned d aid a : J d → agents d !! aid = Some a → P (Agent.id a) (Agent.user_id a);
  rf_user u d : J d → J (put_user u d);
  rf_agent a d : P (Agent.id a) (Agent.user_id a) → J d → J (put_agent a d);
  rf_api_key k d : J d → J (put_api_key k d);
  rf_access_key k d : J d → J (put_access_key k d);
  rf_invite i d : J d → J (put_invite i d);
  rf_remove_agent aid d : J d → J (remove_agent aid d);
  rf_delete_access_key kid d : J d → J (d <| access_keys := delete kid (access_keys d) |>);
  rf_record a n s t d : J d → J (record a n s t d);
}.

(** ** Rows that handlers make *)
Section rows.
Context `{CoreRoleLaws} `{Fernet}.

Lemma user_ok_role u r : user_ok u → user_ok (u <| User.role := role_int r |>).
Proof. intros [_ Hp]. split; [|done]. cbn. rewrite role_of_int_int. by eexists. Qed.
Lemma user_ok_plan u p : user_ok u → is_Some (PLANS !! p) → user_ok (u <| User.plan := p |>).
Proof. by intros (Hr & _ & Hn). Qed.
Lemma user_ok_same u u' :
  user_ok u → User.role u' = User.role u → User.plan u' = User.plan u → User.name u' = User.name u → user_ok u'.
Proof. unfold user_ok. by intros ? -> -> ->. Qed.
Lemma new_user_ok uid email ph name at_ : short 255 name → user_ok (new_user uid email ph name at_).
Proof. intros Hn. split_and!; cbn; [rewrite role_of_int_int; by eexists|by eexists|done]. Qed.
Lemma plan_for_status_known status : is_Some (PLANS !! plan_for_status status).
Proof. unfold plan_for_status. destruct (is_paid status); by eexists. Qed.
Lemma after_checkout_ok obj u : user_ok u → user_ok (after_checkout obj u).
Proof.
  intros Hu. unfold after_checkout. case_match; [|by eapply user_ok_same].
  apply user_ok_plan; [by eapply user_ok_same|]. by eexists.
Qed.
Lemma after_subscription_ok obj status u : user_ok u → user_ok (after_subscription obj status u).
Proof.
  intros Hu. unfold after_subscription. apply user_ok_plan; [by eapply user_ok_same|].
  apply plan_for_status_known.
Qed.
Lemma updated_user_ok body u u' :
  AdminUserUpdate_valid body = true → user_ok u → updated_user body u = Ok u' → user_ok u'.
Proof.
  intros [_ Hp]%andb_true_iff Hu. unfold updated_user.
  assert (∀ u1, (match au_role body with
                 | Some s => r ← str_to_role s; mret (u <| User.role := role_int r |>)
                 | None => mret u
                 end) = Ok u1 → user_ok u1) as Hu1.
  { intros u1. destruct (au_role body) as [s|]; [|by intros [= <-]].
    destruct (str_to_role s); cbn; [|done]. intros [= <-]. by apply user_ok_role. }
  destruct (match au_role body with Some _ => _ | None => _ end) as [u1|e]; cbn; [|done].
  specialize (Hu1 u1 eq_refl). intros [= <-].
  assert (user_ok (match au_plan body with Some p => u1 <| User.plan := p |> | None => u1 end)) as Hu2.
  { destruct (au_plan body) as [p|]; [|done]. apply user_ok_plan; [done|]. cbn in Hp.
    by apply bool_decide_eq_true in Hp. }
  destruct (au_is_active body); [|done]. by eapply user_ok_same.
Qed.

Lemma sha256_digest text : digest (sha256_hex text).
Proof. apply sha256_hex_format. Qed.
Lemma take_short n s : short n (take n s).
Proof. unfold short. rewrite length_take. lia. Qed.
Lemma strip_short n s : short n s → short n (strip s).
Proof. unfold short. pose proof (strip_length s). lia. Qed.
Lemma length_in_short lo n s : length_in lo (Z.of_nat n) s = true → short n s.
Proof. unfold length_in, in_range, short. lia. Qed.

(** The columns [agent_ok] looks at. *)
Lemma agent_ok_columns a a' :
  agent_ok a → deploy_columns_valid a' = deploy_columns_valid a → 0 ≤ Agent.replicas a' →
  Agent.version a ≤ Agent.version a' → Agent.rate_limit_rpm a' = Agent.rate_limit_rpm a → agent_ok a'.
Proof. intros (? & ? & ? & ?) Hc Hr Hv Hl. unfold agent_ok. rewrite Hc, Hl. split_and!; [done..|lia|done]. Qed.
Lemma agent_ok_status a s : agent_ok a → agent_ok (a <| Agent.status := s |>).
Proof. intros Ha. pose proof Ha as (_ & ? & _). eapply agent_ok_columns; [exact Ha|done..|by cbn|done]. Qed.
Lemma agent_ok_error a e : agent_ok a → agent_ok (a <| Agent.error := e |>).
Proof. intros Ha. pose proof Ha as (_ & ? & _). eapply agent_ok_columns; [exact Ha|done..|by cbn|done]. Qed.
Lemma agent_ok_replicas a n : 0 ≤ n → agent_ok a → agent_ok (a <| Agent.replicas := n |>).
Proof. intros Hn Ha. eapply agent_ok_columns; [exact Ha|done..|by cbn|done]. Qed.
Lemma agent_ok_running a n :
  0 ≤ n → agent_ok a → agent_ok (a <| Agent.status := RUNNING |> <| Agent.replicas := n |>
                                    <| Agent.error := None |> <| Agent.version := Agent.version a + 1 |>).
Proof. intros Hn Ha. eapply agent_ok_columns; [exact Ha|done..|cbn; lia|done]. Qed.
Lemma agent_ok_access a v : agent_ok a → agent_ok (a <| Agent.access := v |>).
Proof. intros Ha. pose proof Ha as (_ & ? & _). eapply agent_ok_columns; [exact Ha|done..|by cbn|done]. Qed.
Lemma agent_ok_rpm a v :
  opt_valid (in_range 1 100000) v = true → agent_ok a → agent_ok (a <| Agent.rate_limit_rpm := v |>).
Proof. by intros Hv (? & ? & ? & _). Qed.
Lemma agent_ok_refreshed a h : agent_ok a → agent_ok (refreshed a h).
Proof. intros Ha. unfold refreshed. apply agent_ok_status, agent_ok_replicas; [lia|done]. Qed.
Lemma agent_ok_deployed a dc :
  DeployConfig_valid dc = true → agent_ok a → agent_ok (apply_deploy_config a dc).
Proof.
  intros Hdc (Hc & Hr & Hv & Hl). split_and!; [|cbn|done|done].
  - apply apply_deploy_columns_valid; [done|]. unfold deploy_columns_valid in Hc. split_andb. done.
  - unfold DeployConfig_valid in Hdc. split_andb. unfold in_range in *. split_andb. lia.
Qed.
Lemma fresh_agent_ok id slug uid body at_ : agent_ok (fresh_agent id slug uid body at_).
Proof. split_and!; [by vm_compute|done..]. Qed.
Lemma provider_env_ok `{CoreLLM} a env model key :
  agent_ok a → with_provider_key (Agent.env a) model key = Ok env → agent_ok (a <| Agent.env := env |>).
Proof.
  intros (Hc & ? & ? & ?) He. split_and!; [|done..]. unfold deploy_columns_valid in *. cbn.
  unfold with_provider_key in He. destruct (PROVIDER_KEY_ENV (for_model model)) as [key_name|] eqn:Hk; [|done].
  injection He as <-.
  assert (forallb (λ e, EnvVar_valid (masked e)) (Agent.env a) = true) as Henv by (split_andb; done). split_andb.
  change (agent_resources (a <| Agent.env := _ |>)) with (agent_resources a). rewrite_bools.
  rewrite forallb_app, !andb_true_r. cbn [andb]. apply andb_true_iff. split.
  - rewrite forallb_forall in Henv |- *. intros e He%list_elem_of_In. apply list_elem_of_filter in He as [_ He].
    by apply Henv, list_elem_of_In.
  - cbn. rewrite andb_true_r. unfold EnvVar_valid. cbn.
    by destruct (for_model model); cbn in Hk; simplify_eq; vm_compute.
Qed.

(** A well-formed agent with an identifier and an owner that [P] allows. *)
Definition good (P : pystr → uuid → Prop) (a : Agent.Agent) : Prop :=
  agent_ok a ∧ P (Agent.id a) (Agent.user_id a).
Lemma good_update P a a' :
  good P a → (agent_ok a → agent_ok a') → Agent.id a' = Agent.id a → Agent.user_id a' = Agent.user_id a → good P a'.
Proof. intros [Ha Hp] Hok Hi Hu. split; [by apply Hok|by rewrite Hi, Hu]. Qed.
Lemma good_status P a s : good P a → good P (a <| Agent.status := s |>).
Proof. intros Ha. eapply good_update; [exact Ha|apply agent_ok_status|done..]. Qed.
Lemma good_error P a e : good P a → good P (a <| Agent.error := e |>).
Proof. intros Ha. eapply good_update; [exact Ha|apply agent_ok_error|done..]. Qed.
Lemma good_access P a v : good P a → good P (a <| Agent.access := v |>).
Proof. intros Ha. eapply good_update; [exact Ha|apply agent_ok_access|done..]. Qed.
Lemma good_rpm P a v :
  opt_valid (in_range 1 100000) v = true → good P a → good P (a <| Agent.rate_limit_rpm := v |>).
Proof. intros Hv Ha. eapply good_update; [exact Ha|by apply agent_ok_rpm|done..]. Qed.
Lemma good_replicas P a n : 0 ≤ n → good P a → good P (a <| Agent.replicas := n |>).
Proof. intros Hn Ha. eapply good_update; [exact Ha|by apply agent_ok_replicas|done..]. Qed.
Lemma good_running P a n :
  0 ≤ n → good P a → good P (a <| Agent.status := RUNNING |> <| Agent.replicas := n |>
                               <| Agent.error := None |> <| Agent.version := Agent.version a + 1 |>).
Proof. intros Hn Ha. eapply good_update; [exact Ha|by apply agent_ok_running|done..]. Qed.
Lemma good_refreshed P a h : good P a → good P (refreshed a h).
Proof. intros Ha. eapply good_update; [exact Ha|apply agent_ok_refreshed|done..]. Qed.
Lemma good_deployed P a dc : DeployConfig_valid dc = true → good P a → good P (apply_deploy_config a dc).
Proof. intros Hv Ha. eapply good_update; [exact Ha|by apply agent_ok_deployed|done..]. Qed.
Lemma good_rescaled P a live :
  0 ≤ live → good P a →
  good P (a <| Agent.replicas := if live =? 0 then Agent.replicas a else live |> <| Agent.status := RUNNING |>).
Proof.
  intros Hl Ha. pose proof Ha as [(_ & ? & _) _]. apply good_status, good_replicas; [|done].
  by destruct (live =? 0).
Qed.
End rows.

#[export] Hint Resolve good_status good_error good_access good_rpm
  good_refreshed good_deployed user_ok_role new_user_ok after_checkout_ok after_subscription_ok : keeps.
#[export] Hint Extern 1 (good _ (_ <| Agent.replicas := _ |>)) => apply good_replicas; [lia|] : keeps.
#[export] Hint Extern 1 (good _ (_ <| Agent.version := _ |>)) => apply good_running; [lia|] : keeps.

(** ** Operations *)
Section operations.
Context {R : Type} `{AgentRuntime R} `{CoreLLM} `{CoreRoleLaws} `{Fernet} `{CoreErrors} `{UnicodeTables}.
Context `{Jwt} `{CoreApiKeys} `{Bcrypt} `{HStamps : AgentStamps}.
Context {HKeys : CoreApiKeysLaws} (P : pystr → uuid → Prop) (J : db → Prop) (HJ : rows_free P J).

Definition inv (d : db) : Prop := stored_ok d ∧ J d.
Abbreviation safe m Q := (keeps (R := R) inv m Q).

(** *** Writing rows *)
Lemma inv_put_user u d : user_ok u → inv d → inv (put_user u d).
Proof. intros Hu [[] Hj]. split; [|by eapply rf_user]. split; cbn; try done. by apply map_Forall_insert_2. Qed.
Lemma inv_put_agent a d : good P a → inv d → inv (put_agent a d).
Proof. intros [Ha Hp] [[] Hj]. split; [|by eapply rf_agent]. split; cbn; try done. by apply map_Forall_insert_2. Qed.
Lemma inv_put_invite i d : invite_ok i → inv d → inv (put_invite i d).
Proof. intros Hi [[] Hj]. split; [|by eapply rf_invite]. split; cbn; try done. by apply map_Forall_insert_2. Qed.
Lemma inv_put_api_key k d : api_key_ok k → inv d → inv (put_api_key k d).
Proof. intros Hk [[] Hj]. split; [|by eapply rf_api_key]. split; cbn; try done. by apply map_Forall_insert_2. Qed.
Lemma inv_put_access_key k d : access_key_ok k → inv d → inv (put_access_key k d).
Proof. intros Hk [[] Hj]. split; [|by eapply rf_access_key]. split; cbn; try done. by apply map_Forall_insert_2. Qed.
Lemma inv_delete_access_key kid d : inv d → inv (d <| access_keys := delete kid (access_keys d) |>).
Proof. intros [[] Hj]. split; [|by eapply rf_delete_access_key]. split; cbn; try done. by apply map_Forall_delete. Qed.
Lemma inv_remove_agent aid d : inv d → inv (remove_agent aid d).
Proof.
  intros [[] Hj]. split; [|by eapply rf_remove_agent].
  split; cbn; try done; [by apply map_Forall_delete|]. intros k v [Hk _]%map_lookup_filter_Some. eauto.
Qed.

Lemma safe_save_agent a : good P a → safe (save_agent a) (λ _, True).
Proof. intros Ha. apply keeps_update; [|done]. intros d. by apply inv_put_agent. Qed.
Lemma safe_save_user u : user_ok u → safe (save_user u) (λ _, True).
Proof. intros Hu. apply keeps_update; [|done]. intros d. by apply inv_put_user. Qed.
Lemma safe_save_invite i : invite_ok i → safe (save_invite i) (λ _, True).
Proof. intros Hi. apply keeps_update; [|done]. intros d. by apply inv_put_invite. Qed.
Lemma safe_save_api_key k : api_key_ok k → safe (save_api_key k) (λ _, True).
Proof. intros Hk. apply keeps_update; [|done]. intros d. by apply inv_put_api_key. Qed.
Lemma safe_delete_agent aid : safe (delete_agent_row aid) (λ _, True).
Proof. apply keeps_update; [|done]. intros d. by apply inv_remove_agent. Qed.
Lemma safe_delete_access_key_row kid : safe (delete_access_key_row kid) (λ _, True).
Proof. apply keeps_update; [|done]. intros d. by apply inv_delete_access_key. Qed.
Lemma safe_add_user u : user_ok u → safe (add_user u) (λ _, True).
Proof. intros Hu. apply keeps_add_row; [|done]. intros d. by apply inv_put_user. Qed.
Lemma safe_add_agent a : good P a → safe (add_agent a) (λ _, True).
Proof. intros Ha. apply keeps_add_row; [|done]. intros d. by apply inv_put_agent. Qed.
Lemma safe_add_invite i : invite_ok i → safe (add_invite i) (λ _, True).
Proof. intros Hi. apply keeps_add_row; [|done]. intros d. by apply inv_put_invite. Qed.
Lemma safe_add_api_key k : api_key_ok k → safe (add_api_key k) (λ _, True).
Proof. intros Hk. apply keeps_add_row; [|done]. intros d. by apply inv_put_api_key. Qed.
Lemma safe_add_access_key k : access_key_ok k → safe (add_access_key k) (λ _, True).
Proof. intros Hk. apply keeps_add_row; [|done]. intros d. by apply inv_put_access_key. Qed.
#[local] Hint Resolve safe_save_agent safe_save_user safe_save_invite safe_save_api_key safe_delete_agent
  safe_delete_access_key_row safe_add_user safe_add_agent safe_add_invite safe_add_api_key
  safe_add_access_key : keeps.

(** *** Reading rows *)
Lemma inv_user d k u : inv d → users d !! k = Some u → user_ok u.
Proof. intros [[Hu _ _ _ _] _] Hk. by apply (Hu k). Qed.
Lemma inv_scalar_user {X} `{EqDecision X} (f : User.User → X) x d u :
  inv d → scalar_one_or_none (where_eq f x (users d)) = Ok (Some u) → user_ok u.
Proof. intros Hi (_ & k & Hk)%scalar_where_sound. by eapply inv_user. Qed.
Lemma inv_agent d k a : inv d → agents d !! k = Some a → good P a.
Proof. intros [[_ Ha _ _ _] Hj] Hk. split; [by apply (Ha k)|by eapply rf_owned]. Qed.
Lemma safe_get_owned uid aid : safe (get_owned uid aid) (good P).
Proof.
  apply keeps_query. intros d a Hi Hq. destruct (agents d !! aid) as [a0|] eqn:E; [|done].
  case_decide; [|done]. injection Hq as <-. by eapply inv_agent.
Qed.
Lemma safe_get_agent uid aid : safe (get_agent uid aid) (good P).
Proof. apply safe_get_owned. Qed.
Lemma safe_current_user p : safe (current_user p) user_ok.
Proof. apply keeps_query. intros d u Hi Hq. case_match; simplify_eq. by eapply inv_user. Qed.
Lemma safe_billing_user p : safe (billing_user p) user_ok.
Proof. apply keeps_query. intros d u Hi Hq. case_match; simplify_eq. by eapply inv_user. Qed.
Lemma safe_find_user d uid cid u : inv d → find_user d uid cid = Ok (Some u) → user_ok u.
Proof.
  intros Hi. unfold find_user. set (by_id := if truthy uid then _ else _). destruct by_id as [u0|] eqn:E.
  - intros [= <-]. subst by_id. destruct (truthy uid); [|done].
    destruct (uuid_parse _) as [k|]; cbn in E; [|done]. by eapply inv_user.
  - destruct (truthy cid); [|done]. by apply inv_scalar_user.
Qed.
#[local] Hint Resolve safe_get_owned safe_get_agent safe_current_user safe_billing_user : keeps.

(** *** Agents *)
Lemma safe_save_commit a : good P a → safe (save_commit a) (good P).
Proof. intros Ha. unfold save_commit. keep. Qed.
#[local] Hint Resolve safe_save_commit : keeps.
Lemma safe_try_deploy a : safe (try_deploy a) (λ _, True).
Proof. unfold try_deploy. keep. Qed.
#[local] Hint Resolve safe_try_deploy : keeps.
Lemma safe_deploy_agent uid aid deploy :
  opt_valid DeployConfig_valid deploy = true → safe (deploy_agent uid aid deploy) (good P).
Proof.
  intros Hd. unfold deploy_agent. keep_step. keep_step; [by keep|]. eapply (keeps_bind _ _ _ (good P)).
  - destruct deploy as [dc|]; keep.
  - keep.
Qed.
#[local] Hint Resolve safe_deploy_agent : keeps.
Lemma safe_create_agent uid tok rnd body :
  P (new_agent_id tok) uid → AgentConfigIn_valid body = true → safe (create_agent uid tok rnd body) (good P).
Proof.
  intros Hnew Hv. assert (opt_valid DeployConfig_valid (ci_deploy body) = true) as Hdc
    by (unfold AgentConfigIn_valid in Hv; split_andb; done).
  unfold create_agent. do 2 (keep_step; [by keep|]). keep_step; [by keep|].
  set (agent := match ci_deploy body with Some _ => _ | None => _ end).
  assert (good P agent) as Ha.
  { assert (∀ at_ slug, good P (fresh_agent (new_agent_id tok) slug uid body at_)) by (by split; [apply fresh_agent_ok|]).
    subst agent. destruct (ci_deploy body); eauto using good_deployed. }
  eapply (keeps_bind _ _ _ (good P)).
  - apply keeps_reads. intros _ a'. case_match; [|by intros [= <-]].
    destruct (with_provider_key _ _ _) eqn:He; cbn; [|done]. intros [= <-].
    eapply good_update; [exact Ha|intros; by eapply provider_env_ok|done..].
  - intros a' Ha'. keep. by apply safe_deploy_agent.
Qed.
Lemma safe_update_agent uid aid body :
  AgentUpdate_valid body = true → safe (update_agent uid aid body) (good P).
Proof.
  unfold AgentUpdate_valid. intros Hv. unfold update_agent. keep_step.
  apply safe_save_commit. destruct (up_access body), (up_rate_limit_rpm body) as [v|]; cbn in Hv;
    eauto using good_access, good_rpm.
Qed.
Lemma safe_remove_agent uid aid : safe (delete_agent uid aid) (λ _, True).
Proof. unfold delete_agent. keep. Qed.
Lemma safe_scale_agent uid aid dir count : safe (scale_agent uid aid dir count) (λ _, True).
Proof.
  unfold scale_agent. keep_step. keep_step; [by keep|]. keep_step. keep_step; [by keep|].
  destruct a2 as [?|[]]; [|keep..]. eapply (keeps_bind _ _ _ (λ live, 0 ≤ live)).
  - apply keeps_gets. lia.
  - intros live Hl. eapply keeps_bind; [by apply safe_save_commit, good_rescaled|]. keep.
Qed.
Lemma safe_get_logs uid aid level replica limit : safe (get_logs uid aid level replica limit) (λ _, True).
Proof. unfold get_logs. keep. Qed.
Lemma safe_get_metrics uid aid : safe (get_metrics uid aid) (λ _, True).
Proof. unfold get_metrics. keep. Qed.
#[local] Hint Resolve safe_create_agent safe_update_agent safe_remove_agent safe_scale_agent safe_get_logs
  safe_get_metrics : keeps.

(** *** Keys and principals *)
Lemma safe_authenticate_jwt cfg token : safe (authenticate_jwt cfg token) (λ _, True).
Proof. unfold authenticate_jwt. keep. Qed.
Lemma safe_authenticate_api_key token : safe (authenticate_api_key token) (λ _, True).
Proof. unfold authenticate_api_key. keep. Qed.
#[local] Hint Resolve safe_authenticate_jwt safe_authenticate_api_key : keeps.
Lemma safe_principal cfg creds : safe (get_current_principal cfg creds) (λ _, True).
Proof. unfold get_current_principal. keep. Qed.
Lemma safe_jwt_principal cfg creds : safe (require_jwt_principal cfg creds) (λ _, True).
Proof. unfold require_jwt_principal. keep. Qed.
#[local] Hint Resolve safe_principal safe_jwt_principal : keeps.
Lemma safe_require_role cfg minimum jwt_only creds : safe (require_role cfg minimum jwt_only creds) (λ _, True).
Proof. unfold require_role. keep. Qed.
#[local] Hint Resolve safe_require_role : keeps.
Lemma safe_create_access_key a label kid tok :
  short 128 label → safe (create_access_key a label kid tok) (λ _, True).
Proof.
  intros Hl. unfold create_access_key. keep_step; [by keep|].
  keep_step; [apply safe_add_access_key|keep]. split_and!; [apply sha256_digest|apply take_short|done].
Qed.
Lemma safe_delete_access_key aid kid : safe (delete_access_key aid kid) (λ _, True).
Proof. unfold delete_access_key. keep. Qed.
Lemma safe_create_api_key u label scopes kid tok :
  short 128 label → safe (create_api_key u label scopes kid tok) (λ _, True).
Proof.
  intros Hl. unfold create_api_key, mint_api_key. keep_step; [by keep|]. keep_step; [by keep|].
  keep_step; [apply safe_add_api_key|keep]. unfold api_key_ok. cbn. rewrite core_key_hash_sha256.
  split_and!; [apply sha256_digest|apply take_short|done|done].
Qed.
Lemma safe_revoke_api_key uid kid : safe (revoke_api_key uid kid) (λ _, True).
Proof.
  unfold revoke_api_key. eapply (keeps_bind _ _ _ (λ o, ∀ k, o = Some k → api_key_ok k)).
  - apply keeps_select. intros d [[_ _ Hk _ _] _] k. apply Hk.
  - intros o Hk. keep_step; [by keep|]. destruct o as [k|]; [|keep]. specialize (Hk k eq_refl).
    keep.
Qed.
#[local] Hint Resolve safe_create_access_key safe_delete_access_key safe_create_api_key safe_revoke_api_key : keeps.

(** *** Invites and accounts *)
Lemma safe_create_invite by_ note uses days iid tok :
  1 ≤ uses ≤ 1000 → short 255 note → safe (create_invite by_ note uses days iid tok) (λ _, True).
Proof.
  intros Hu Hn. unfold create_invite. keep_step; [by keep|].
  keep_step; [apply safe_add_invite|keep].
  unfold invite_ok. cbn. split; [lia|]. split; [lia|]. split; [apply sha256_digest|]. split; [apply take_short|done].
Qed.
Lemma safe_revoke_invite iid : safe (revoke_invite iid) (λ _, True).
Proof.
  unfold revoke_invite. eapply (keeps_bind _ _ _ (λ o, ∀ i, o = Some i → invite_ok i)).
  - apply keeps_select. intros d [[_ _ _ _ Hi] _] i. apply Hi.
  - intros [i|] Hi; [|keep]. specialize (Hi i eq_refl). keep.
Qed.
Lemma safe_claim_invite code : safe (claim_invite code) (λ _, True).
Proof.
  unfold claim_invite. eapply (keeps_bind _ _ _ (λ o, ∀ i, o = Some i → invite_ok i)).
  - apply keeps_query. intros d o [[_ _ _ _ Hi] _] Hq i ->. apply scalar_where_sound in Hq as (_ & k & Hk).
    by apply (Hi k).
  - intros o Hi. keep_step; [by keep|]. destruct o as [i|]; [|keep]. specialize (Hi i eq_refl) as (Hm & Hc & Hrest).
    case_bool_decide as Hs; cbn [negb]; [|keep]. keep_step; [|keep]. apply safe_save_invite.
    unfold Invite.status in Hs. destruct (Invite.revoked_at i); [done|].
    destruct (match Invite.expires_at i with Some _ => _ | None => _ end); [done|].
    destruct (Invite.max_uses i <=? Invite.use_count i) eqn:E; [done|]. split; [done|]. split; [cbn; lia|done].
Qed.
#[local] Hint Resolve safe_create_invite safe_revoke_invite safe_claim_invite : keeps.
Lemma safe_register_user cfg email password name code uid salt :
  short 255 name → safe (register_user cfg email password name code uid salt) user_ok.
Proof.
  intros Hn. unfold register_user. case_match; [keep|]. keep_step; [by keep|]. case_match; [keep|].
  keep_step; [keep|]. keep.
Qed.
Lemma safe_authenticate_user email password : safe (authenticate_user email password) (λ _, True).
Proof. unfold authenticate_user. keep. Qed.
Lemma safe_update_user p uid body :
  AdminUserUpdate_valid body = true → safe (update_user p uid body) (λ _, True).
Proof.
  intros Hv. unfold update_user. eapply (keeps_bind _ _ _ (λ o, ∀ u, o = Some u → user_ok u)).
  - apply keeps_select. intros d Hi u. by apply inv_user.
  - intros [u|] Hu; [|keep]. specialize (Hu u eq_refl). case_match; [keep|].
    eapply (keeps_bind _ _ _ user_ok); [|keep]. apply keeps_reads. intros _ u'. by apply updated_user_ok.
Qed.
Lemma safe_set_role email role : safe (set_role email role) (λ _, True).
Proof.
  unfold set_role. eapply (keeps_bind _ _ _ (λ o, ∀ u, o = Some u → user_ok u)).
  - apply keeps_query. intros d o Hi Hq u ->. by eapply inv_scalar_user.
  - intros [u|] Hu; [|keep]. specialize (Hu u eq_refl). keep.
Qed.
#[local] Hint Resolve safe_register_user safe_authenticate_user safe_update_user safe_set_role : keeps.

(** *** Billing *)
Lemma safe_ensure_customer client u : user_ok u → safe (ensure_customer client u) (λ _, True).
Proof. intros Hu. unfold ensure_customer. keep. Qed.
#[local] Hint Resolve safe_ensure_customer : keeps.
Lemma safe_handle_event event client : safe (handle_event event client) (λ _, True).
Proof.
  unfold handle_event. case_match.
  - eapply (keeps_bind _ _ _ (λ o, ∀ u, o = Some u → user_ok u)).
    + apply keeps_query. intros d o Hi Hq u ->. by eapply safe_find_user.
    + intros [u|] Hu; [|keep]. specialize (Hu u eq_refl). keep.
  - case_match; [|keep]. keep_step; [by keep|].
    eapply (keeps_bind _ _ _ (λ o, ∀ u, o = Some u → user_ok u)).
    + apply keeps_query. intros d o Hi Hq u ->. by eapply safe_find_user.
    + intros [u|] Hu; [|keep]. specialize (Hu u eq_refl). keep.
Qed.
#[local] Hint Resolve safe_handle_event : keeps.

(** ** Routes

    The public routes with the request bodies that pass validation. *)
Inductive steady_route (cfg : GatewaySettings) (creds : option pystr) : MW R unit → Prop :=
| vr_agents status tag page page_size : 1 ≤ page → in_range 1 100 page_size = true →
    steady_route cfg creds (get_agents cfg creds status tag page page_size;; mret tt)
| vr_agent aid : steady_route cfg creds (get_agent_route cfg creds aid;; mret tt)
| vr_patch aid body : AgentUpdate_valid body = true →
    steady_route cfg creds (patch_agent cfg creds aid body;; mret tt)
| vr_delete aid : steady_route cfg creds (delete_agent_route cfg creds aid)
| vr_deploy aid body : opt_valid DeployConfig_valid body = true →
    steady_route cfg creds (post_deploy cfg creds aid body;; mret tt)
| vr_scale aid body : ScaleRequest_valid body = true →
    steady_route cfg creds (post_scale cfg creds aid body;; mret tt)
| vr_access_keys aid : steady_route cfg creds (get_access_keys cfg creds aid;; mret tt)
| vr_access_key aid body kid ktok : opt_valid AccessKeyCreate_valid body = true →
    steady_route cfg creds (post_access_key cfg creds aid body kid ktok;; mret tt)
| vr_access_key_delete aid kid : steady_route cfg creds (delete_access_key_route cfg creds aid kid)
| vr_logs aid level replica limit : in_range 1 1000 limit = true →
    steady_route cfg creds (get_logs_route cfg creds aid level replica limit;; mret tt)
| vr_metrics aid : steady_route cfg creds (get_metrics_route cfg creds aid;; mret tt)
| vr_stream uid aid level seen : steady_route cfg creds (stream_poll uid aid level seen;; mret tt)
| vr_open_stream aid : steady_route cfg creds (open_stream cfg creds aid;; mret tt)
| vr_metrics_poll uid aid : steady_route cfg creds (metrics_poll uid aid;; mret tt)
| vr_key body kid tok : ApiKeyCreateRequest_valid body = true →
    steady_route cfg creds (create_key cfg creds (kr_label body) (kr_scopes body) kid tok;; mret tt)
| vr_keys : steady_route cfg creds (list_keys cfg creds;; mret tt)
| vr_key_delete kid : steady_route cfg creds (delete_key cfg creds kid)
| vr_register body uid salt jti : RegisterRequest_valid body = true →
    steady_route cfg creds (register cfg (rr_email body) (rr_password body) (rr_name body) (rr_invite_code body)
                             uid salt jti;; mret tt)
| vr_login body jti : LoginRequest_valid body = true →
    steady_route cfg creds (login cfg (lr_email body) (lr_password body) jti;; mret tt)
| vr_me : steady_route cfg creds (me cfg creds;; mret tt)
| vr_usage : steady_route cfg creds (account_usage cfg creds;; mret tt)
| vr_invite body iid tok : InviteCreateRequest_valid body = true →
    steady_route cfg creds (post_invite cfg creds body iid tok;; mret tt)
| vr_invites : steady_route cfg creds (get_invites cfg creds;; mret tt)
| vr_invite_delete iid : steady_route cfg creds (delete_invite cfg creds iid)
| vr_users : steady_route cfg creds (get_users cfg creds;; mret tt)
| vr_user uid body : AdminUserUpdate_valid body = true →
    steady_route cfg creds (patch_user cfg creds uid body;; mret tt)
| vr_billing : steady_route cfg creds (billing_status cfg creds;; mret tt)
| vr_checkout make : steady_route cfg creds (checkout cfg make creds;; mret tt)
| vr_portal make : steady_route cfg creds (portal cfg make creds;; mret tt)
| vr_webhook make verified event : steady_route cfg creds (webhook cfg make verified event).
(** All routes: the creation of agents, and the rest, which makes no new ones. *)
Inductive valid_route (cfg : GatewaySettings) (creds : option pystr) : MW R unit → Prop :=
| vr_create body tok rnd kid ktok : AgentConfigIn_valid body = true →
    valid_route cfg creds (post_agent cfg creds body tok rnd kid ktok;; mret tt)
| vr_steady route : steady_route cfg creds route → valid_route cfg creds route.

Lemma safe_respond_all cfg l : safe (respond_all cfg l) (λ _, True).
Proof. induction l; cbn [respond_all]; unfold respond; keep. Qed.
#[local] Hint Resolve safe_respond_all : keeps.

Lemma safe_post_agent cfg creds body tok rnd kid ktok :
  (∀ uid, P (new_agent_id tok) uid) → AgentConfigIn_valid body = true →
  safe (post_agent cfg creds body tok rnd kid ktok;; mret tt) (λ _, True).
Proof.
  intros Hnew Hv. unfold post_agent, respond, require_developer.
  assert (short 128 (str "default")) by by_decide. keep.
Qed.

Lemma safe_route cfg creds route : steady_route cfg creds route → safe route (λ _, True).
Proof.
  destruct 1 as [| |aid body Hv| |aid body Hv|aid body Hv| |aid body kid ktok Hv| | | | | | |body kid tok Hv| | |body uid salt jti Hv| | | |
    body iid tok Hv| | | |uid body Hv| | | |].
  - unfold get_agents, any_principal, list_agents. keep.
  - unfold get_agent_route, any_principal, respond. keep.
  - unfold patch_agent, respond, require_developer. keep.
  - unfold delete_agent_route, require_developer. keep.
  - unfold post_deploy, respond, require_developer. keep.
  - unfold post_scale, require_developer. keep.
  - unfold get_access_keys, any_principal, list_access_keys. keep.
  - unfold post_access_key, require_developer.
    assert (short 128 (default (str "default") (akc_label <$> body))).
    { destruct body; [by apply (length_in_short 1 128)|by_decide]. }
    keep.
  - unfold delete_access_key_route, require_developer. keep.
  - unfold get_logs_route, any_principal. keep.
  - unfold get_metrics_route, any_principal. keep.
  - unfold stream_poll. keep.
  - unfold open_stream, any_principal. keep.
  - unfold metrics_poll. keep.
  - unfold create_key, require_developer_session.
    assert (short 128 (kr_label body)) by (by apply (length_in_short 1 128)). keep.
  - unfold list_keys, any_principal, list_api_keys. keep.
  - unfold delete_key, any_principal. keep.
  - unfold register, token_response. unfold RegisterRequest_valid in Hv. split_andb.
    assert (short 255 (rr_name body)) by (by apply (length_in_short 1 255)). keep.
  - unfold login, token_response. keep.
  - unfold me, any_principal. keep.
  - unfold account_usage, any_principal. keep.
  - unfold post_invite, require_admin. keep_step; [|keep]. keep_step. keep_step; [|keep].
    unfold InviteCreateRequest_valid, in_range in Hv. split_andb.
    apply safe_create_invite; [lia|by apply strip_short, (length_in_short 0 255)].
  - unfold get_invites, require_admin, list_invites. keep.
  - unfold delete_invite, require_admin. keep.
  - unfold get_users, require_admin, list_users. keep.
  - unfold patch_user, require_admin. keep.
  - unfold billing_status. keep.
  - unfold checkout, require_billing_session, checkout_url. keep.
  - unfold portal, require_billing_session, portal_url. keep.
  - unfold webhook. keep.
Qed.

(** ** The edge and the scheduler *)
Lemma safe_hit_client key limit : safe (hit_client key limit) (λ _, True).
Proof. apply keeps_memory. intros w. unfold hit_client. by destruct (hit _ _ _ _ _). Qed.
Lemma safe_hit_agent key limit : safe (hit_agent key limit) (λ _, True).
Proof. apply keeps_memory. intros w. unfold hit_agent. by destruct (hit _ _ _ _ _). Qed.
#[local] Hint Resolve safe_hit_client safe_hit_agent : keeps.
Lemma safe_edge cfg draw req : safe (route cfg draw req) (λ _, True).
Proof. unfold route, within_agent_limit, serve, count_request, is_valid_access_key. keep. Qed.
Lemma safe_tls_ask cfg domain : safe (tls_ask cfg domain) (λ _, True).
Proof. unfold tls_ask. keep. Qed.

Lemma inv_record a n s t d : inv d → inv (record a n s t d).
Proof.
  intros [[] Hj]. split; [|by eapply rf_record]. unfold record. case_match; by split.
Qed.
Lemma safe_commit_refreshed a h : good P a → safe (commit_refreshed a h) (λ _, True).
Proof. intros Ha. unfold commit_refreshed. keep. Qed.
Lemma safe_commit_metered seconds at_ a n : safe (commit_metered seconds at_ a n) (λ _, True).
Proof.
  unfold commit_metered. keep_step; [|done]. keep_step; [|keep]. apply keeps_update; [|done].
  intros d. apply inv_record.
Qed.
Lemma safe_tick_agent seconds at_ a : good P a → safe (tick_agent seconds at_ a) (λ _, True).
Proof.
  intros Ha. unfold tick_agent. keep_step; [by keep|]. case_match; [|keep].
  keep_step; [by apply safe_commit_refreshed|]. keep_step; [apply safe_commit_metered|keep].
Qed.
Lemma safe_tick_agents seconds at_ l : Forall (good P) l → safe (tick_agents seconds at_ l) (λ _, True).
Proof.
  induction 1 as [|a l Ha _ IH]; cbn [tick_agents]; [keep|]. keep_step; [by apply safe_tick_agent|done].
Qed.
Lemma safe_flush fault : (∀ b d, inv d → inv (write_batch b d)) → safe (flush_requests fault) (λ _, True).
Proof. intros Hb. unfold flush_requests, take_batch, write_or_put_back, write_and_commit. keep. Qed.
Lemma active_rows_good d : inv d → Forall (good P) (filter is_active_row (rows (agents d))).
Proof.
  intros Hi. apply Forall_forall. intros a [_ [k Hk]%elem_of_rows]%list_elem_of_filter.
  by eapply inv_agent.
Qed.
Lemma safe_tick cfg fault elapsed :
  (∀ b d, inv d → inv (write_batch b d)) → safe (tick cfg fault elapsed) (λ _, True).
Proof.
  intros Hb. unfold tick. keep_step; [by keep|]. keep_step.
  - keep_step; [|keep]. keep_step; [by apply safe_flush|keep].
  - eapply (keeps_bind _ _ _ (Forall (good P))); [|intros l Hl; by apply safe_tick_agents].
    apply keeps_select. apply active_rows_good.
Qed.
Lemma safe_cancelled_agents seconds at_ n stage : safe (cancelled_agents seconds at_ n stage) (λ _, True).
Proof.
  eapply (keeps_bind _ _ _ (Forall (good P))); [apply keeps_select, active_rows_good|]. intros l Hl.
  keep_step; [by apply safe_tick_agents, Forall_take|].
  destruct (l !! n) as [b|] eqn:Hb; [|keep]. pose proof (Forall_lookup_1 _ _ _ _ Hl Hb) as Hg.
  unfold tick_agent_upto. keep_step; [by keep|]. case_match; [|keep].
  keep_step; [keep_step; [by apply safe_commit_refreshed|done]|keep_step; [apply safe_commit_metered|done]].
Qed.
Lemma safe_cancelled_turn cfg elapsed point :
  (∀ b d, inv d → inv (write_batch b d)) → safe (cancelled_turn cfg elapsed point) (λ _, True).
Proof.
  intros Hb. unfold cancelled_turn. destruct point as [|batch rest applied|fault n stage]; [keep|keep|].
  keep_step; [by keep|]. keep_step; [|apply safe_cancelled_agents].
  keep_step; [|keep]. keep_step; [by apply safe_flush|keep].
Qed.
End operations.
