(* ===== verification/System.v ===== *)
(** The whole gateway as a transition system: public routes, the edge, the scheduler loop, the
    maintenance script, restarts and crashes of the process, containers and time that change by
    themselves, in any order.

    A step is one request, one turn of the loop or one event outside, from a state at rest to
    a state at rest.  It is labelled with the requests it served at the edge and with the
    counts it lost, if any: by a crash, a failed flush at shutdown, or a shutdown that cancels
    the scheduler in the middle of a flush.  Steps do not overlap; what overlapping requests and
    ticks do is in [Races.v]. *)

From S2P Require Import Prelude PyText Codec Sha256 PyFloat Config Errors Plans Models Runtime IngressLimits World.
From S2P Require Import Schemas Fixtures Quota Hostnames AgentEnv AgentService AgentLifecycle.
From S2P Require Import Metering AccessKeys Ingress Invites Auth Billing Scheduler Admin Api App Hoare StoredRows.

Section system.
Context {R : Type} `{AgentRuntime R} `{CoreRuntimeInit R} `{CoreLLM} `{CoreRoleLaws} `{Fernet} `{CoreErrors}.
Context `{UnicodeTables} `{Jwt} `{CoreApiKeysLaws} `{Bcrypt} `{HStamps : AgentStamps}.
Context (cfg : GatewaySettings).
Implicit Types (w : world R) (d : db).

(** The requests an answer of the edge served. *)
Definition served_request w (req : route_request) (r : result exn http_response) : list (Agent.Agent * datetime) :=
  match r, agent_and_owner cfg (committed_db w) (x_agnt_host req) with
  | Ok resp, Ok (Some (a, _)) => if hr_status resp =? 204 then [(a, now w)] else []
  | _, _ => []
  end.

(** Counts that are lost, if there are any. *)
Definition lost_of (c : counter) : list counter := if decide (c = ∅) then [] else [c].

Inductive sys_step w : list (Agent.Agent * datetime) → list counter → world R → Prop :=
| step_api creds route : valid_route cfg creds route → sys_step w [] [] (request route w).1
| step_edge draw req : sys_step w (served_request w req (request (route cfg draw req) w).2) []
                         (request (route cfg draw req) w).1
| step_tls domain : sys_step w [] [] (request (tls_ask cfg domain) w).1
| step_turn fault last_tick started : sys_step w [] [] (loop_turn cfg fault last_tick started w).1
| step_script email role : sys_step w [] [] (request (set_role email role) w).1
| step_restart elapsed point fault :
    cancellable point (pending w) →
    sys_step w [] (lost_by point ++ lost_of (pending (shutdown cfg elapsed point fault w).1))
      (restart cfg elapsed point fault w)
| step_crash : sys_step w [] (lost_of (pending w)) (startup cfg w)
| step_containers rt : sys_step w [] [] (w <| runtime := rt |>)
| step_clock t : sys_step w [] [] (w <| now := t |>).

(** [sys_run w0 served lost w]: a run from [w0] to [w], newest label first. *)
Inductive sys_run w0 : list (Agent.Agent * datetime) → list counter → world R → Prop :=
| sys_start : sys_run w0 [] [] w0
| sys_next s l w s1 l1 w' : sys_run w0 s l w → sys_step w s1 l1 w' → sys_run w0 (s1 ++ s) (l1 ++ l) w'.

(** ** Well-formed states *)
Definition well_formed d : Prop := db_ok d ∧ stored_ok d.

(** Without a restriction on owners. *)
Definition any_owner (aid : pystr) (uid : uuid) : Prop := True.
Lemma true_rows_free : rows_free any_owner (λ _, True).
Proof. by split. Qed.
Lemma inv_true d : inv (λ _, True) d ↔ stored_ok d.
Proof. unfold inv. tauto. Qed.
Lemma inv_write_batch b d : inv (λ _, True) d → inv (λ _, True) (write_batch b d).
Proof.
  intros [[] _]. destruct (write_batch_frame b d) as (Ha & Hk & Hc & Hi). split; [|done].
  split; rewrite ?users_write_batch, ?Ha, ?Hk, ?Hc, ?Hi; done.
Qed.

Lemma safe_valid_route creds route J :
  rows_free any_owner J → valid_route cfg creds route → keeps (inv J) route (λ _, True).
Proof. intros HJ [body tok rnd kid ktok Hv|route' Hr]; [by eapply safe_post_agent|by eapply safe_route]. Qed.

(** One request of any kind keeps a well-formed database. *)
Lemma request_well_formed {A} (m : MW R A) w :
  keeps (inv (λ _, True)) m (λ _, True) → well_formed (committed_db w) →
  well_formed (committed_db (request m w).1).
Proof.
  intros Hm [Hok Hst]. destruct (keeps_request_committed _ m _ w Hm Hok) as [Hok' Hst'].
  - by apply inv_true.
  - split; [done|]. by apply (proj1 (inv_true _)).
Qed.

Lemma loop_turn_state fault last_tick started w :
  (loop_turn cfg fault last_tick started w).1 =
  (request (tick cfg fault (loop_elapsed cfg last_tick started)) w).1.
Proof.
  unfold loop_turn, try_except. rewrite bind_run. by destruct (request _ w) as [w' [[]|e]].
Qed.
Lemma shutdown_state elapsed point fault w :
  (shutdown cfg elapsed point fault w).1 =
  (request (flush_requests fault) (request (cancelled_turn cfg elapsed point) w).1).1.
Proof.
  unfold shutdown, try_except, mbind, M_bind.
  destruct (request (cancelled_turn cfg elapsed point) w) as [w1 [[]|e]]; cbn [fst mret M_ret];
    by destruct (request (flush_requests fault) w1) as [w2 [n|e']].
Qed.

Lemma step_well_formed w s l w' :
  sys_step w s l w' → well_formed (committed_db w) → well_formed (committed_db w').
Proof.
  pose proof true_rows_free as HJ.
  destruct 1 as [creds route Hr|draw req|domain|fault lt st|email role|elapsed point fault Hpt| |rt|t]; intros Hw.
  - apply request_well_formed; [by eapply safe_valid_route|done].
  - apply request_well_formed; [by eapply safe_edge|done].
  - apply request_well_formed; [by eapply safe_tls_ask|done].
  - rewrite loop_turn_state. apply request_well_formed; [eapply safe_tick; [exact HJ|exact inv_write_batch]|done].
  - apply request_well_formed; [by eapply safe_set_role|done].
  - change (committed_db (restart cfg elapsed point fault w)) with (committed_db (shutdown cfg elapsed point fault w).1).
    rewrite shutdown_state. apply request_well_formed; [apply safe_flush; exact inv_write_batch|].
    apply request_well_formed; [apply (safe_cancelled_turn _ _ HJ); exact inv_write_batch|done].
  - done.
  - done.
  - done.
Qed.

Lemma run_well_formed w0 s l w :
  sys_run w0 s l w → well_formed (committed_db w0) → well_formed (committed_db w).
Proof. induction 1 as [|s l w s1 l1 w' _ IH Hs]; [done|]. intros Hw. eauto using step_well_formed. Qed.

(** C5: whatever happens to the gateway, in any order but one request, turn or event after the
    other, every stored row stays within its domain: roles and plans are known ones, the columns of an agent are within the bounds of
    the schema (so that reading it back cannot fail on them), replica counts are not negative,
    versions start at one, rate limits are within bounds, API keys, access keys and invite
    codes are kept as 64-digit digests with a short preview, and no invite is used more often
    than it allows; and the constraints of the database hold.  Requests that overlap at their
    awaits can break the order of an agent's replica bounds ([concurrent_deploys_break_bounds]
    in [Races.v]). *)
Theorem rows_stay_well_formed w0 s l w :
  sys_run w0 s l w → well_formed (committed_db w0) → well_formed (committed_db w).
Proof. apply run_well_formed. Qed.

(** ** A tick reaches every agent *)
Lemma run_checks_quota plan checks e :
  run_checks plan checks = Err e → ∃ r l q c, e = QuotaExceededError r plan l q c.
Proof.
  induction checks as [|[[[r c] q] lim] checks IH]; cbn; [done|]. destruct (num_gtb _ _); [|exact IH].
  intros [= <-]. eauto.
Qed.
(** With a known role the only answer other than yes is the quota's. *)
Lemma headroom_total d a u :
  users d !! Agent.user_id a = Some u → user_ok u → ∃ b, has_headroom_for_replica d a = Ok b.
Proof.
  intros Hu [[r Hr] _]. unfold has_headroom_for_replica, ensure_resources, get_user, is_exempt, role_enum.
  rewrite Hu. cbn [mbind result_bind]. rewrite Hr. cbn [mbind result_bind mret result_ret].
  destruct (role_can r ADMIN); [eauto|].
  destruct (num_gtb _ _); [eauto|]. destruct (_ <? _); [eauto|].
  match goal with |- context [run_checks ?p ?c] => destruct (run_checks p c) as [[]|e] eqn:E end; [eauto|].
  apply run_checks_quota in E as (? & ? & ? & ? & ->). eauto.
Qed.

(** [checks rt l hs rt']: from [rt] to [rt'] the runtime is asked once for the health of each
    agent of [l], in order, with the reports [hs], and for nothing else but, after the report on
    an agent that opted in, to auto-scale it. *)
Inductive checks : R → list Agent.Agent → list (result core_exn Health) → R → Prop :=
| checks_done rt : checks rt [] [] rt
| checks_next rt rt1 rt2 rt' a l h hs :
    core_health_check (Agent.id a) rt = (rt1, h) →
    rt2 = rt1 ∨ (Agent.auto_scale a = true ∧ is_ok h = true ∧ rt2 = (core_auto_scale (Agent.id a) rt1).1) →
    checks rt2 l hs rt' → checks rt (a :: l) (h :: hs) rt'.
(** A row after the report on it. *)
Definition reported (a : Agent.Agent) (h : result core_exn Health) : Agent.Agent :=
  match h with Ok h => refreshed a h | Err _ => a end.
(** Rows [l] of [d] as the reports say, all others unchanged. *)
Definition rows_reported (l : list Agent.Agent) (hs : list (result core_exn Health)) d d' : Prop :=
  Forall2 (λ a h, agents d' !! Agent.id a = Some (reported a h)) l hs ∧
  ∀ aid, aid ∉ Agent.id <$> l → agents d' !! aid = agents d !! aid.

Lemma tick_agent_total seconds at_ a d w :
  well_formed d → agents d !! Agent.id a = Some a →
  ∃ d' rt1 rt h, tick_agent seconds at_ a (publish d w) = (publish d' (w <| runtime := rt |>), Ok tt) ∧
    db_ok d' ∧ core_health_check (Agent.id a) (runtime w) = (rt1, h) ∧
    (rt = rt1 ∨ (Agent.auto_scale a = true ∧ is_ok h = true ∧ rt = (core_auto_scale (Agent.id a) rt1).1)) ∧
    agents d' = <[Agent.id a := reported a h]> (agents d).
Proof.
  intros [Hd Hst] Ha. pose proof (tick_agent_publish seconds at_ a d w Hd Ha) as Ht.
  destruct (core_health_check (Agent.id a) (runtime w)) as [rt [h|e]] eqn:Eh.
  - cbv zeta in Ht. destruct Ht as [Hok ->]. set (d1 := metered _ _ _ _ _) in *.
    assert (users d1 = users d) as Hu by (subst d1; by rewrite users_metered).
    assert (agents d1 = <[Agent.id a := refreshed a h]> (agents d)) as Hag by (subst d1; by rewrite agents_metered).
    exists d1, rt. destruct (Agent.auto_scale a) eqn:Eas; cbn [andb];
      [|exists rt, (Ok h); split_and!; [done..|by left|done]].
    destruct (_ && _); [|exists rt, (Ok h); split_and!; [done..|by left|done]].
    pose proof Hd as [_ [_ _ Ho _] _ _]. destruct (Ho _ _ Ha) as [u Hau].
    destruct (headroom_total d1 (refreshed a h) u) as [b ->]; [by rewrite Hu|by apply (st_users _ Hst _ _ Hau)|].
    destruct b; [exists (core_auto_scale (Agent.id a) rt).1|exists rt]; exists (Ok h);
      (split_and!; [done..| |done]); [by right|by left].
  - rewrite Ht. exists d, rt, rt, (Err e). split_and!; [done..|by left|]. cbn. by rewrite insert_id.
Qed.

Lemma tick_agents_total seconds at_ l d w :
  well_formed d → Forall (λ a, agents d !! Agent.id a = Some a) l → NoDup (Agent.id <$> l) →
  ∃ d' rt hs, tick_agents seconds at_ l (publish d w) = (publish d' (w <| runtime := rt |>), Ok tt) ∧
    checks (runtime w) l hs rt ∧ rows_reported l hs d d'.
Proof.
  revert d w. induction l as [|a l IH]; intros d w Hw Hl Hnd; cbn [tick_agents].
  - exists d, (runtime w), []. split_and!; [by destruct w|constructor|done].
  - apply Forall_cons in Hl as [Ha Hl]. apply NoDup_cons in Hnd as [Hni Hnd].
    destruct (tick_agent_total seconds at_ a d w Hw Ha) as (d1 & rt0 & rt1 & h & E & Hok & Hh & Hrt & Hag).
    assert (well_formed d1) as Hw1.
    { destruct (safe_tick_agent any_owner (λ _, True) true_rows_free seconds at_ a (conj (st_agents _ (proj2 Hw) _ _ Ha) Logic.I)
        (publish d w))
        as [[[_ Hst] _] _]; [by split; [split; [apply Hw|apply inv_true, Hw]|apply inv_true, Hw]|].
      rewrite E in Hst. split; [done|]. by apply (proj1 (inv_true _)). }
    destruct (IH d1 (w <| runtime := rt1 |>) Hw1) as (d' & rt' & hs & E' & Hc & Hf & Hother); [|done|].
    { apply Forall_forall. intros b Hb. rewrite Forall_forall in Hl. rewrite Hag, lookup_insert_ne; [by apply Hl|].
      intros He. apply Hni. rewrite He. by apply list_elem_of_fmap_2. }
    exists d', rt', (h :: hs). split_and!.
    + rewrite bind_run, E. exact E'.
    + by econstructor.
    + split; [constructor; [by rewrite Hother, Hag, lookup_insert_eq|done]|].
      intros aid Hn. rewrite fmap_cons, not_elem_of_cons in Hn. destruct Hn as [Hn1 Hn2].
      by rewrite Hother, Hag, lookup_insert_ne.
Qed.

Lemma write_batch_well_formed b d : well_formed d → well_formed (write_batch b d).
Proof.
  intros [Hok Hst]. split; [by apply db_ok_write_batch|].
  apply (proj1 (inv_true _)), inv_write_batch. by apply inv_true.
Qed.
(** A tick after its flush. *)
Lemma tick_after_flush elapsed fault d d1 w w1 r :
  well_formed d → flush_requests fault (publish d w) = (publish d1 w1, r) → agents d1 = agents d →
  well_formed d1 →
  ∃ d' rt hs, tick cfg fault elapsed (publish d w) = (publish d' (w1 <| runtime := rt |>), Ok tt) ∧
    checks (runtime w1) (filter is_active_row (rows (agents d))) hs rt ∧
    rows_reported (filter is_active_row (rows (agents d))) hs d d' ∧
    tick_agents (default (NInt (scheduler_interval_seconds cfg)) elapsed) (now w)
      (filter is_active_row (rows (agents d))) (publish d1 w1) = (publish d' (w1 <| runtime := rt |>), Ok tt).
Proof.
  intros Hw Hf Hag Hw1. destruct (active_rows_ok d (proj1 Hw)) as [Hnd Hrows].
  destruct (tick_agents_total (default (NInt (scheduler_interval_seconds cfg)) elapsed) (now w)
    (filter is_active_row (rows (agents d))) d1 w1) as (d' & rt & hs & E & Hc & Hr); [done| |done|].
  { rewrite Hag. eapply Forall_impl; [exact Hrows|]. by intros a [? _]. }
  exists d', rt, hs. split_and!; [|done|destruct Hr as [Hr Ho]; split; [done|]; intros aid Hn; rewrite <- Hag; by apply Ho|done].
  unfold tick. rewrite bind_run. cbn [gets]. cbv beta iota zeta. rewrite bind_run.
  assert (try_except (flush_requests fault;; mret tt) (λ _, Some (mret tt)) (publish d w) = (publish d1 w1, Ok tt)) as ->.
  { unfold try_except. rewrite bind_run, Hf. by destruct r. }
  cbv beta iota. rewrite bind_run. unfold select. cbv beta iota.
  change (cur_db (publish d1 w1)) with d1. rewrite Hag. exact E.
Qed.

(** C18: a tick during which nothing else changes the database is not stopped by any of its
    agents: from a well-formed state it ends without an error, whatever the runtime and the
    flush do; by then the runtime has been asked for the health of each agent that was active,
    once and in order; each has the replica count and status its own report gives, or is as it
    was when the report failed; the agents that were not active are untouched, and the runtime
    was asked for nothing else but to auto-scale agents that opted in. *)
Theorem tick_reaches_every_agent fault elapsed w :
  well_formed (committed_db w) →
  let '(w', r) := request (tick cfg fault elapsed) w in
  let d := committed_db w in
  let active := filter (λ a, Agent.status a ∈ [RUNNING; SCALING; STARTING]) (rows (agents d)) in
  r = Ok tt ∧
  ∃ reports, checks (runtime w) active reports (runtime w') ∧
    Forall2 (λ a h, agents (committed_db w') !! Agent.id a = Some (reported a h)) active reports ∧
    (∀ aid a, agents d !! aid = Some a → Agent.status a ∉ [RUNNING; SCALING; STARTING] →
       agents (committed_db w') !! aid = Some a).
Proof.
  intros Hw. destruct (flush_run (committed_db w) w fault (proj1 Hw)) as (d1 & p & r1 & Hf & Hd1).
  assert (agents d1 = agents (committed_db w) ∧ well_formed d1) as [Hag Hw1].
  { destruct Hd1 as [->| ->]; [done|]. split; [apply write_batch_frame|by apply write_batch_well_formed]. }
  destruct (tick_after_flush elapsed fault _ d1 w _ r1 Hw Hf Hag Hw1) as (d' & rt & hs & E & Hc & [Hr Ho] & _).
  unfold request. rewrite begin_session_eq, E, begin_session_publish. cbv zeta. rewrite publish_committed.
  assert (filter (λ a, Agent.status a ∈ [RUNNING; SCALING; STARTING]) (rows (agents (committed_db w))) =
          filter is_active_row (rows (agents (committed_db w)))) as -> by (by apply list_filter_iff).
  split; [done|]. exists hs. split_and!; [done..|]. intros aid a Ha Hact.
  rewrite Ho; [done|]. intros (b & Hb & [Hba [k Hk]%elem_of_rows]%list_elem_of_filter)%list_elem_of_fmap.
  assert (k = aid) as -> by (rewrite <- (db_ok_agent_id _ _ _ (proj1 Hw) Hk), <- Hb; by rewrite <- (db_ok_agent_id _ _ _ (proj1 Hw) Ha)).
  apply Hact. by assert (a = b) as -> by congruence.
Qed.

(** ** Metering, end to end *)
(** What is accounted for a bucket: written or counted and not yet written. *)
Definition account (k : pystr * datetime) w : Z := requests_at (committed_db w) k + counted_for k (pending w).
Definition lost_for (k : pystr * datetime) (l : list counter) : Z := sumZ (counted_for k) l.
Definition owners_known w : Prop := known (committed_db w) (pending w).

(** The written counts are those of [d0] and its accounts still exist. *)
Definition counts_kept d0 d : Prop := (∀ k, requests_at d k = requests_at d0 k) ∧ dom (users d0) ⊆ dom (users d).
Lemma counts_kept_refl d : counts_kept d d.
Proof. done. Qed.
Lemma counts_rows_free d0 : rows_free any_owner (counts_kept d0).
Proof.
  split; try done.
  - intros u d [Hr Hd]. split; [done|]. cbn. rewrite dom_insert_L. set_solver.
  - intros a n s t d [Hr Hd]. split; [intros k; by rewrite requests_at_record|by rewrite users_record].
Qed.
Lemma known_mono d d' c : dom (users d) ⊆ dom (users d') → known d c → known d' c.
Proof. intros Hd Hk k n Hkn. apply elem_of_dom, Hd, elem_of_dom. by apply (Hk k n). Qed.

Lemma counts_step d0 w w' :
  counts_kept d0 (committed_db w') → d0 = committed_db w → pending w' = pending w → owners_known w →
  (∀ k, account k w' = account k w) ∧ owners_known w'.
Proof.
  intros [Hr Hd] -> Hp Hk. unfold account, owners_known. rewrite Hp. split; [intros k; by rewrite Hr|].
  by eapply known_mono.
Qed.
Lemma request_counts {A} (m : MW R A) w :
  (∀ J, rows_free any_owner J → keeps (inv J) m (λ _, True)) → edge_state (request m w).1 = edge_state w → well_formed (committed_db w) →
  owners_known w → (∀ k, account k (request m w).1 = account k w) ∧ owners_known (request m w).1.
Proof.
  intros Hm He [Hok Hst] Hk. eapply (counts_step (committed_db w)); [|done| |done].
  - destruct (keeps_request_committed _ m _ w (Hm _ (counts_rows_free (committed_db w))) Hok) as [_ [_ Hc]];
      [by split; [|apply counts_kept_refl]|exact Hc].
  - by injection He.
Qed.
Lemma request_edge {A} (m : MW R A) w : preserves edge_state m → edge_state (request m w).1 = edge_state w.
Proof. intros He. unfold request. specialize (He (begin_session w)). by destruct (m (begin_session w)). Qed.
Lemma valid_api_route creds route : valid_route cfg creds route → api_route cfg creds route.
Proof. destruct 1 as [|? []]; eauto using @api_route, @changing_route. Qed.

Lemma counted_empty k : counted_for k ∅ = 0.
Proof. unfold counted_for. by rewrite map_to_list_empty. Qed.
Lemma known_empty d : known d ∅.
Proof. apply map_Forall_empty. Qed.

(** A flush keeps the account, whether it succeeds or not. *)
Lemma flush_account d w fault :
  db_ok d → known d (pending w) →
  ∃ d1 p r, flush_requests fault (publish d w) = (publish d1 (w <| pending := p |>), r) ∧
    agents d1 = agents d ∧ users d1 = users d ∧ (well_formed d → well_formed d1) ∧ known d1 p ∧
    (∀ k, requests_at d1 k + counted_for k p = requests_at d k + counted_for k (pending w)) ∧
    (fault = None → p = ∅).
Proof.
  intros Hd Hk. rewrite flush_publish by done.
  assert (publish d w = publish d (w <| pending := pending w |>)) as Hid by (by destruct w).
  destruct fault as [e|].
  - case_decide; rewrite Hid; by eexists d, (pending w), _.
  - exists (write_batch (pending w) d), ∅. eexists. split_and!; [done|apply write_batch_frame|apply users_write_batch
      |apply write_batch_well_formed|apply known_empty| |done].
    intros k. rewrite write_batch_account, counted_empty by done. lia.
Qed.

Lemma tick_account fault elapsed w :
  well_formed (committed_db w) → owners_known w →
  let w' := (request (tick cfg fault elapsed) w).1 in
  (∀ k, account k w' = account k w) ∧ owners_known w' ∧ (fault = None → pending w' = ∅).
Proof.
  intros Hw Hk. set (d := committed_db w) in *.
  destruct (flush_account d w fault (proj1 Hw) Hk) as (d1 & p & r & Hf & Hag & Hu & Hw1 & Hkp & Hacc & Hnone).
  specialize (Hw1 Hw).
  destruct (tick_after_flush elapsed fault d d1 w _ r Hw Hf Hag Hw1) as (d' & rt & hs & E & _ & _ & Et).
  unfold request. rewrite begin_session_eq. fold d. rewrite E, begin_session_publish. cbn [fst].
  unfold account, owners_known. rewrite !publish_committed. cbn [pending publish set_sess setf].
  assert (counts_kept d1 d') as [Hr Hd].
  { destruct (safe_tick_agents any_owner (counts_kept d1) (counts_rows_free d1)
      (default (NInt (scheduler_interval_seconds cfg)) elapsed) (now w) (filter is_active_row (rows (agents d))))
      with (w := publish d1 (w <| pending := p |>)) as [[[_ [_ Hc]] _] _].
    - rewrite <- Hag. apply (active_rows_good any_owner (counts_kept d1) (counts_rows_free d1)). split; [apply Hw1|apply counts_kept_refl].
    - split; [split; [apply Hw1|]|]; (split; [apply Hw1|apply counts_kept_refl]).
    - rewrite Et in Hc. exact Hc. }
  split_and!; [|by eapply known_mono|done]. intros k. rewrite Hr. apply Hacc.
Qed.

(** Counts that are lost are the ones labelled. *)
Lemma lost_for_of k c : lost_for k (lost_of c) = counted_for k c.
Proof.
  unfold lost_of, lost_for. case_decide as E; [by rewrite E, counted_empty|]. rewrite sumZ_cons. unfold sumZ. cbn. lia.
Qed.
Lemma edge_tick_agents seconds at_ l : preserves edge_state (tick_agents seconds at_ l : MW R _).
Proof. induction l as [|a l IH]; cbn [tick_agents]; [frame|]. apply preserves_bind; [frame|done]. Qed.
Lemma edge_cancelled_agents seconds at_ n stage :
  preserves edge_state (cancelled_agents seconds at_ n stage : MW R _).
Proof. apply preserves_bind; [frame|]. intros l. apply preserves_bind; [apply edge_tick_agents|frame]. Qed.

(** After a flush, the rest of a tick leaves the counts alone. *)
Lemma after_flush_account (m : MW R unit) d1 w1 :
  (∀ J, rows_free any_owner J → keeps (inv J) m (λ _, True)) → preserves edge_state m →
  well_formed d1 → known d1 (pending w1) →
  let w' := begin_session (m (publish d1 w1)).1 in
  (∀ k, account k w' = requests_at d1 k + counted_for k (pending w1)) ∧ owners_known w'.
Proof.
  intros Hm He Hw Hk w'. assert (pending w' = pending w1) as Hp.
  { specialize (He (publish d1 w1)). subst w'. destruct (m (publish d1 w1)). cbn in *. by injection He. }
  destruct (Hm _ (counts_rows_free d1) (publish d1 w1)) as [[[_ [_ [Hr Hd]]] _] _].
  { split; [split; [apply Hw|]|]; (split; [apply Hw|apply counts_kept_refl]). }
  change (committed_db (m (publish d1 w1)).1) with (committed_db w') in *.
  unfold account, owners_known. rewrite Hp. split; [intros k; by rewrite Hr|by eapply known_mono].
Qed.

(** A cancelled turn loses the batch of its flush and nothing else. *)
Lemma cancelled_account elapsed point w :
  well_formed (committed_db w) → owners_known w → cancellable point (pending w) →
  let w' := (request (cancelled_turn cfg elapsed point) w).1 in
  (∀ k, account k w' + lost_for k (lost_by point) = account k w) ∧ owners_known w'.
Proof.
  intros Hw Hk Hp w'. subst w'. unfold request. rewrite begin_session_eq. set (d := committed_db w) in *.
  destruct point as [|batch rest applied|fault n stage]; cbn [cancelled_turn lost_by cancellable] in *.
  - split; [|done]. intros k. unfold lost_for, sumZ, account. cbn. fold d. lia.
  - destruct Hp as [_ Hp]. unfold owners_known in Hk. fold d in Hk. rewrite <- Hp in Hk. apply known_split in Hk as [Hkr Hkb].
    rewrite bind_run. cbn [modify]. cbv beta iota.
    change ((publish d w) <| pending := rest |>) with (publish d (w <| pending := rest |>)).
    assert (∀ k, account k w = requests_at d k + counted_for k rest + counted_for k batch) as Hacc.
    { intros k. unfold account. fold d. rewrite <- Hp, counted_for_update. lia. }
    destruct applied; cbn [when].
    + rewrite update_commit_run, decide_True by (by apply db_ok_write_batch, Hw). rewrite begin_session_publish.
      cbn [fst]. split; [|unfold owners_known, known; by rewrite publish_committed, users_write_batch].
      intros k. rewrite Hacc. unfold account. rewrite publish_committed, (write_batch_account k batch d Hkb).
      unfold lost_for, sumZ. cbn. lia.
    + split; [|done]. intros k. rewrite Hacc. unfold lost_for. rewrite sumZ_cons. unfold sumZ, account. cbn. lia.
  - destruct (flush_account d w fault (proj1 Hw) Hk) as (d1 & p & r & Hf & _ & _ & Hw1 & Hkp & Hacc & _).
    rewrite bind_run. cbn [gets]. cbv beta iota. rewrite bind_run.
    assert (try_except (flush_requests fault;; mret tt) (λ _, Some (mret tt)) (publish d w) =
      (publish d1 (w <| pending := p |>), Ok tt)) as ->.
    { unfold try_except. rewrite bind_run, Hf. by destruct r. }
    cbv beta iota. set (m := cancelled_agents _ _ _ _).
    destruct (after_flush_account m d1 (w <| pending := p |>)) as [Ha Hk']; [|apply edge_cancelled_agents|by apply Hw1|done|].
    { intros J HJ. by eapply safe_cancelled_agents. }
    destruct (m (publish d1 (w <| pending := p |>))) as [w2 r2]. cbn [fst] in *. split; [|done].
    intros k. rewrite Ha. unfold lost_for, sumZ. cbn. rewrite Z.add_0_r. apply Hacc.
Qed.

Lemma route_account draw req w :
  well_formed (committed_db w) → owners_known w →
  let '(w', r) := request (route cfg draw req) w in
  (∀ k, account k w' = account k w + logged k (served_request w req r)) ∧ owners_known w'.
Proof.
  intros [Hok _] Hk. pose proof (route_request_meets cfg draw req w) as Hr.
  destruct (request (route cfg draw req) w) as [w' r]. destruct Hr as [Hr Hd].
  unfold account, owners_known, served_request. rewrite Hd.
  destruct Hr as [e|r0 Hs|a u l s [_ Hag]|a u l [_ Hag]|a u l e [_ Hag]|a u l la s [_ Hag]|a u l la r0 [_ Hag] ? ? ? ? Hs
    |a u l la c [_ Hag]].
  8: { rewrite Hag. destruct (agent_and_owner_sound cfg _ _ _ _ Hok Hag) as (_ & Hu & _).
       cbn -[bump]. change (pending (begin_session w)) with (pending w). change (now (begin_session w)) with (now w).
       split; [|apply known_bump; [done|cbn; eauto]]. intros k. rewrite counted_for_bump.
       unfold logged. rewrite sumZ_cons. unfold sumZ. cbn -[entry_for]. lia. }
  all: cbn; try rewrite Hag; cbn; split; [|done]; intros k; try (by unfold logged, sumZ; cbn; lia).
  - destruct Hs as [Hs|Hs]; rewrite Hs; repeat case_match; unfold logged, sumZ; cbn; lia.
  - rewrite Hs. cbn. unfold logged, sumZ. cbn. lia.
Qed.

Lemma step_account w s l w' :
  sys_step w s l w' → well_formed (committed_db w) → owners_known w →
  (∀ k, account k w' + lost_for k l = account k w + logged k s) ∧ owners_known w'.
Proof.
  assert (∀ w1 w2, (∀ k, account k w2 = account k w1) ∧ owners_known w2 →
    (∀ k, account k w2 + lost_for k [] = account k w1 + logged k []) ∧ owners_known w2) as Hsame.
  { intros w1 w2 [Ha Hk]. split; [|done]. intros k. rewrite Ha. done. }
  destruct 1 as [creds route Hr|draw req|domain|fault lt st|email role|elapsed point fault Hpt| |rt|t]; intros Hw Hk.
  - apply Hsame, request_counts; [intros J HJ; by eapply safe_valid_route| |done..].
    eapply api_leaves_edge_alone, valid_api_route, Hr.
  - pose proof (route_account draw req w Hw Hk) as Hr. destruct (request (route cfg draw req) w) as [w' r].
    destruct Hr as [Ha Hk']. split; [|done]. intros k. cbn [fst snd]. rewrite Ha. unfold lost_for, sumZ. cbn. lia.
  - apply Hsame, request_counts; [intros J HJ; by eapply safe_tls_ask|apply request_edge; frame|done..].
  - rewrite loop_turn_state. apply Hsame.
    destruct (tick_account fault (loop_elapsed cfg lt st) w Hw Hk) as (Ha & Hk' & _). done.
  - apply Hsame, request_counts; [intros J HJ; by eapply safe_set_role|apply request_edge; frame|done..].
  - destruct (cancelled_account elapsed point w Hw Hk Hpt) as [Hc Hk1].
    assert (well_formed (committed_db (request (cancelled_turn cfg elapsed point) w).1)) as Hw1.
    { apply request_well_formed; [apply (safe_cancelled_turn _ _ true_rows_free); exact inv_write_batch|done]. }
    unfold restart. rewrite shutdown_state. set (w1 := (request (cancelled_turn cfg elapsed point) w).1) in *.
    destruct (flush_account (committed_db w1) w1 fault (proj1 Hw1) Hk1) as (d1 & p & r & Hf & _ & _ & _ & _ & Hacc & _).
    assert ((request (flush_requests fault) w1).1 = publish d1 (w1 <| pending := p |>)) as ->.
    { unfold request. by rewrite begin_session_eq, Hf. }
    split; [|apply known_empty]. intros k.
    change (account k (startup cfg (publish d1 (w1 <| pending := p |>)))) with (requests_at d1 k + counted_for k ∅).
    rewrite counted_empty. change (pending (publish d1 (w1 <| pending := p |>))) with p.
    unfold lost_for. rewrite sumZ_app. fold (lost_for k (lost_by point)) (lost_for k (lost_of p)).
    rewrite lost_for_of. specialize (Hc k). specialize (Hacc k). unfold account in *. unfold logged, sumZ. cbn. lia.
  - split; [|apply known_empty]. intros k.
    change (account k (startup cfg w)) with (requests_at (committed_db w) k + counted_for k ∅).
    rewrite counted_empty, lost_for_of. unfold account, logged, sumZ. cbn. lia.
  - by apply Hsame.
  - by apply Hsame.
Qed.

Lemma run_account w0 s l w :
  sys_run w0 s l w → well_formed (committed_db w0) → owners_known w0 →
  (∀ k, account k w + lost_for k l = account k w0 + logged k s) ∧ owners_known w ∧ well_formed (committed_db w).
Proof.
  intros Hr Hw0 Hk0. induction Hr as [|s l w s1 l1 w' _ [IH [Hk Hw]] Hs].
  - split_and!; [|done..]. intros k. unfold lost_for, logged, sumZ. cbn. lia.
  - destruct (step_account _ _ _ _ Hs Hw Hk) as [Ha Hk']. split_and!; [|done|by eapply step_well_formed].
    intros k. specialize (IH k). specialize (Ha k). unfold lost_for, logged in *. rewrite !sumZ_app. lia.
Qed.

(** C4: every request served at the edge is accounted for, in the whole system: along any run
    of requests and scheduler turns, one after the other, scripts, restarts and crashes, what
    the database holds for an agent's hour, what is counted and not yet written, and what was
    lost, add up to what there was at the start plus one for each served request.  Lost are
    only the counts in memory at a crash or a failed flush at shutdown, and the batch of a flush
    of the scheduler that a shutdown cancels before its commit. *)
Theorem served_requests_accounted w0 s l w k :
  sys_run w0 s l w → well_formed (committed_db w0) → owners_known w0 →
  requests_at (committed_db w) k + counted_for k (pending w) + lost_for k l =
    requests_at (committed_db w0) k + counted_for k (pending w0) + logged k s.
Proof. intros Hr Hw Hk. exact (proj1 (run_account w0 s l w Hr Hw Hk) k). Qed.

(** C22: served requests reach the database: after any run that lost no counts, clean restarts
    included, the next turn of the scheduler loop that finds the database working leaves nothing
    pending, and the usage rows then hold everything served so far. *)
Theorem next_turn_writes_all w0 s w last_tick started k :
  sys_run w0 s [] w → well_formed (committed_db w0) → owners_known w0 →
  let w' := (loop_turn cfg None last_tick started w).1 in
  pending w' = ∅ ∧
  requests_at (committed_db w') k = requests_at (committed_db w0) k + counted_for k (pending w0) + logged k s.
Proof.
  intros Hr Hw Hk w'. destruct (run_account w0 s [] w Hr Hw Hk) as (Ha & Hk' & Hw').
  subst w'. rewrite loop_turn_state.
  destruct (tick_account None (loop_elapsed cfg last_tick started) w Hw' Hk') as (Hacc & _ & Hp).
  specialize (Hp eq_refl). split; [done|]. specialize (Hacc k). specialize (Ha k). unfold account in *.
  rewrite Hp, counted_empty in Hacc. unfold lost_for, sumZ in Ha. cbn in Ha. lia.
Qed.
End system.

(** ** Witnesses *)
#[export] Instance fixture_init : CoreRuntimeInit fixture_rt := λ _, ∅.

(** One request at the edge, then a restart with a working database. *)
Definition sys_w1 : world fixture_rt := (request (route ingress_cfg 0%N ingress_request) ingress_world).1.
Definition sys_w2 : world fixture_rt := restart ingress_cfg None AtSleep None sys_w1.
Definition sys_hour : pystr * datetime := (str "agt_1", 0).
Definition sys_agent : Agent.Agent := fixture_agent <| Agent.access := PUBLIC |>.

Lemma sys_run_w1 : sys_run ingress_cfg ingress_world [(sys_agent, 0)] [] sys_w1.
Proof.
  apply (sys_next ingress_cfg ingress_world [] [] ingress_world [(sys_agent, 0)] [] sys_w1); [apply sys_start|].
  assert (served_request ingress_cfg ingress_world ingress_request
    (request (route ingress_cfg 0%N ingress_request) ingress_world).2 = [(sys_agent, 0)]) as <-
    by (vm_compute; reflexivity).
  apply step_edge.
Qed.
Lemma sys_run_w2 : sys_run ingress_cfg ingress_world [(sys_agent, 0)] [] sys_w2.
Proof.
  apply (sys_next ingress_cfg ingress_world [(sys_agent, 0)] [] sys_w1 [] [] sys_w2); [apply sys_run_w1|].
  assert (lost_by AtSleep ++ lost_of (pending (shutdown ingress_cfg None AtSleep None sys_w1).1) = []) as <-
    by (vm_compute; reflexivity).
  by apply step_restart.
Qed.
Lemma sys_start_ok : well_formed (committed_db ingress_world).
Proof. split; by_decide. Qed.
Lemma sys_start_known : owners_known ingress_world.
Proof. apply known_empty. Qed.

Theorem rows_stay_well_formed_witness :
  well_formed (committed_db sys_w2) ∧ requests_at (committed_db sys_w2) sys_hour = 1.
Proof.
  split; [|vm_compute; reflexivity].
  apply (rows_stay_well_formed ingress_cfg ingress_world [(sys_agent, 0)] [] sys_w2 sys_run_w2 sys_start_ok).
Defined.
Theorem tick_reaches_every_agent_witness :
  let p := request (tick ingress_cfg (Some ValueError) None) sys_w2 in
  p.2 = Ok tt ∧ ∃ h, agents (committed_db p.1) !! str "agt_1" = Some (reported sys_agent h).
Proof.
  assert (well_formed (committed_db sys_w2)) as Hw by (split; by_decide).
  pose proof (tick_reaches_every_agent ingress_cfg (Some ValueError) None sys_w2 Hw) as Ht.
  assert (filter (λ a, Agent.status a ∈ [RUNNING; SCALING; STARTING]) (rows (agents (committed_db sys_w2))) = [sys_agent])
    as Hs by (vm_compute; reflexivity).
  destruct (request (tick ingress_cfg (Some ValueError) None) sys_w2) as [w' r]. cbv zeta in Ht. rewrite Hs in Ht.
  destruct Ht as [Hr (hs & _ & Ha & _)]. split; [exact Hr|].
  inversion Ha as [|a h l l' Hh]; subst. exists h. exact Hh.
Defined.
(** The same request, lost: the gateway is restarted while the scheduler flushes it. *)
Definition sys_point : cancel_point := InFlush (pending sys_w1) ∅ false.
Definition sys_w3 : world fixture_rt := restart ingress_cfg None sys_point None sys_w1.
Lemma sys_run_w3 : sys_run ingress_cfg ingress_world [(sys_agent, 0)] [pending sys_w1] sys_w3.
Proof.
  apply (sys_next ingress_cfg ingress_world [(sys_agent, 0)] [] sys_w1 [] [pending sys_w1] sys_w3); [apply sys_run_w1|].
  assert (lost_by sys_point ++ lost_of (pending (shutdown ingress_cfg None sys_point None sys_w1).1) = [pending sys_w1]) as <-
    by (vm_compute; reflexivity).
  apply step_restart. split; [by_decide|vm_compute; reflexivity].
Qed.
Theorem served_requests_accounted_witness :
  requests_at (committed_db sys_w3) sys_hour = 0 ∧ counted_for sys_hour (pending sys_w3) = 0 ∧
  requests_at (committed_db sys_w3) sys_hour + counted_for sys_hour (pending sys_w3) +
    lost_for sys_hour [pending sys_w1] = 0 + 0 + 1 ∧ logged sys_hour [(sys_agent, 0)] = 1.
Proof.
  split_and!; [vm_compute; reflexivity..| |vm_compute; reflexivity].
  rewrite (served_requests_accounted ingress_cfg ingress_world [(sys_agent, 0)] [pending sys_w1] sys_w3 sys_hour sys_run_w3
    sys_start_ok sys_start_known). vm_compute. reflexivity.
Defined.
Theorem next_turn_writes_all_witness :
  let w' := (loop_turn ingress_cfg None None (float_of_Z 0) sys_w2).1 in
  pending w' = ∅ ∧ requests_at (committed_db w') sys_hour = 1.
Proof.
  intros w'. destruct (next_turn_writes_all ingress_cfg ingress_world [(sys_agent, 0)] sys_w2 None (float_of_Z 0)
    sys_hour sys_run_w2 sys_start_ok sys_start_known) as [Hp Hr].
  split; [exact Hp|]. etransitivity; [exact Hr|]. vm_compute. reflexivity.
Defined.
