(* ===== verification/Fleet.v ===== *)
(** Who owns which agent, along runs of the whole gateway.

    [fleet d] maps the agents of a database to their owners.  Every operation but the
    creation of an agent only ever writes agents back under their identifier and owner, by the
    program logic of [StoredRows.v] with that restriction; the creation adds one agent, of the
    account it authenticated and within that account's quota. *)

From S2P Require Import Prelude PyText Codec Sha256 PyFloat Config Errors Plans Models Runtime IngressLimits World.
From S2P Require Import Schemas Fixtures Quota Hostnames AgentEnv AgentService AgentLifecycle.
From S2P Require Import Metering AccessKeys Ingress Invites Auth Billing Scheduler Admin Api App Hoare StoredRows System.

Definition fleet (d : db) : gmap pystr uuid := Agent.user_id <$> agents d.

Lemma fleet_lookup d aid uid :
  fleet d !! aid = Some uid ↔ ∃ a, agents d !! aid = Some a ∧ Agent.user_id a = uid.
Proof. unfold fleet. rewrite lookup_fmap, fmap_Some. naive_solver. Qed.
Lemma fleet_put a d : fleet (put_agent a d) = <[Agent.id a := Agent.user_id a]> (fleet d).
Proof. unfold fleet. cbn. apply fmap_insert. Qed.

(** An account's part of the fleet has as many agents as the quota counts. *)
Lemma agents_of_fleet d uid :
  length (agents_of d uid) = size (filter (λ kv : pystr * uuid, kv.2 = uid) (fleet d)).
Proof.
  unfold agents_of, fleet. induction (agents d) as [|k a m Hk IH] using map_ind; [done|].
  unfold rows in *. rewrite map_to_list_insert by done. rewrite fmap_insert, map_filter_insert.
  rewrite fmap_cons, filter_cons. cbn [snd]. case_decide.
  - rewrite map_size_insert_None; [cbn; by rewrite IH|]. rewrite map_lookup_filter, lookup_fmap, Hk. done.
  - rewrite delete_id; [done|]. by rewrite lookup_fmap, Hk.
Qed.
Lemma agents_of_subset d d' uid :
  fleet d' ⊆ fleet d → (length (agents_of d' uid) ≤ length (agents_of d uid))%nat.
Proof.
  intros Hs. rewrite !agents_of_fleet. apply map_subseteq_size, map_subseteq_spec.
  intros k v [Hk Hv]%map_lookup_filter_Some. apply map_lookup_filter_Some. split; [|done]. by eapply lookup_weaken.
Qed.
Lemma agents_of_new d d' aid owner uid :
  fleet d !! aid = None → fleet d' = <[aid := owner]> (fleet d) →
  length (agents_of d' uid) = ((if decide (owner = uid) then 1 else 0) + length (agents_of d uid))%nat.
Proof.
  intros Hn Hf. rewrite !agents_of_fleet, Hf, map_filter_insert. cbn. case_decide.
  - rewrite map_size_insert, map_lookup_filter, Hn. done.
  - by rewrite delete_id.
Qed.

(** ** Operations that make no agents *)
Definition owned_in (d0 : db) (aid : pystr) (uid : uuid) : Prop := fleet d0 !! aid = Some uid.
Definition fleet_kept (d0 d : db) : Prop :=
  map_Forall (λ _ a, owned_in d0 (Agent.id a) (Agent.user_id a)) (agents d).

Lemma fleet_kept_refl d : db_ok d → fleet_kept d d.
Proof.
  intros [_ [Hid _ _ _] _ _] k a Ha. apply fleet_lookup. exists a. by rewrite (Hid k a Ha).
Qed.
Lemma fleet_kept_subset d0 d : db_ok d → fleet_kept d0 d → fleet d ⊆ fleet d0.
Proof.
  intros [_ [Hid _ _ _] _ _] Hk. apply map_subseteq_spec. intros k uid (a & Ha & <-)%fleet_lookup.
  pose proof (Hk k a Ha) as Ho. unfold owned_in in Ho. by rewrite (Hid k a Ha) in Ho.
Qed.
Lemma fleet_rows_free d0 : rows_free (owned_in d0) (fleet_kept d0).
Proof.
  split; try done.
  - intros d aid a Hk Ha. by apply (Hk aid).
  - intros a d Ha Hk. by apply map_Forall_insert_2.
  - intros aid d Hk. by apply map_Forall_delete.
  - intros a n s t d Hk. unfold fleet_kept, record. by case_match.
Qed.

Section fleet.
Context {R : Type} `{AgentRuntime R} `{CoreRuntimeInit R} `{CoreLLM} `{CoreRoleLaws} `{Fernet} `{CoreErrors}.
Context `{UnicodeTables} `{Jwt} `{CoreApiKeysLaws} `{Bcrypt} `{HStamps : AgentStamps}.
Context (cfg : GatewaySettings).
Implicit Types (w : world R) (d : db).

Lemma kept_write_batch d0 b d : inv (fleet_kept d0) d → inv (fleet_kept d0) (write_batch b d).
Proof.
  intros [Hs Hk]. destruct (inv_write_batch b d (conj Hs Logic.I)) as [Hs' _]. split; [done|].
  unfold fleet_kept. by destruct (write_batch_frame b d) as [-> _].
Qed.
Lemma request_keeps_fleet {A} (m : MW R A) w :
  well_formed (committed_db w) → keeps (inv (fleet_kept (committed_db w))) m (λ _, True) →
  fleet (committed_db (request m w).1) ⊆ fleet (committed_db w).
Proof.
  intros [Hok Hst] Hm. destruct (keeps_request_committed _ m _ w Hm Hok) as [Hok' [_ Hk]].
  - split; [done|by apply fleet_kept_refl].
  - by apply fleet_kept_subset.
Qed.

(** ** Creating an agent *)
Lemma create_fleet d uid tok rnd body at_ rt rt' d' r :
  db_ok d → create_result (R:=R) d uid body (described uid tok rnd body at_) rt rt' d' r →
  fleet d' = fleet d ∨
  ∃ aid, fleet d !! aid = None ∧ ensure_can_create_agent d uid = Ok tt ∧ fleet d' = <[aid := uid]> (fleet d).
Proof.
  intros Hd Hr.
  assert (check_create d uid body = Ok tt → ensure_can_create_agent d uid = Ok tt) as Hc
    by (unfold check_create; by destruct (ensure_can_create_agent d uid) as [[]|]).
  assert (∀ a, agents d !! Agent.id a = None → fleet d !! Agent.id a = None) as Hn
    by (intros a Ha; unfold fleet; by rewrite lookup_fmap, Ha).
  destruct Hr as [| | |env Hch _ [Ha _] _|env d' r Hch _ [Ha Hok] _ Hdep]; [by left..| |]; right;
    eexists; (split_and!; [by apply Hn|by apply Hc|]).
  - by rewrite fleet_put.
  - destruct (deploy_result_row _ _ _ _ _ _ _ _ Hok Hdep) as [->|(b & b' & _ & Hi & Hub & ->)];
      rewrite ?fleet_put; [done|]. by rewrite Hi, Hub, insert_insert_eq.
Qed.

(** The route creates the agent as its authenticated account; the access key that may
    follow changes no agent. *)
Lemma post_agent_effect creds body tok rnd kid ktok w :
  db_ok (committed_db w) →
  let w' := (request (post_agent cfg creds body tok rnd kid ktok;; mret tt) w).1 in
  agents (committed_db w') = agents (committed_db w) ∨
  ∃ p d1 rt' r, (request (require_role (R:=R) cfg OPERATOR false creds) w).2 = Ok p ∧
    create_result (committed_db w) (p_user_id p) body (described (p_user_id p) tok rnd body (now w)) (runtime w) rt' d1 r ∧
    agents (committed_db w') = agents d1.
Proof.
  intros Hd w'. subst w'. rewrite request_committed. unfold request at 1. rewrite !begin_session_eq, bind_run.
  unfold post_agent. rewrite bind_run. unfold require_developer.
  pose proof (require_role_reads cfg OPERATOR false creds (committed_db w) w Hd) as Hw.
  destruct (require_role _ _ _ _ (publish _ w)) as [w1 [p|e]]; cbn in Hw; subst w1; cbv beta iota; [|by left].
  right. rewrite bind_run.
  destruct (create_contract (committed_db w) w (p_user_id p) tok rnd body Hd) as (d1 & rt1 & r1 & -> & Hr & Hd1).
  exists p, d1, rt1, r1. split_and!; [done..|].
  destruct r1 as [a|e]; cbv beta iota; [|done]. rewrite bind_run. unfold respond, reads at 1. cbv beta iota.
  destruct (to_agent_response cfg a) as [r|e]; cbv beta iota; [|done]. case_bool_decide; [|done].
  rewrite bind_run. unfold create_access_key. rewrite bind_run. unfold gets. cbv beta iota zeta.
  unfold add_access_key. rewrite add_commit_then. by case_decide.
Qed.

(** ** Steps and runs *)
Definition grows_by_quota w w' : Prop :=
  ∃ creds p aid, (request (require_role (R:=R) cfg OPERATOR false creds) w).2 = Ok p ∧
    fleet (committed_db w) !! aid = None ∧ ensure_can_create_agent (committed_db w) (p_user_id p) = Ok tt ∧
    fleet (committed_db w') = <[aid := p_user_id p]> (fleet (committed_db w)).

Lemma fleet_step w s l w' :
  sys_step cfg w s l w' → well_formed (committed_db w) →
  fleet (committed_db w') ⊆ fleet (committed_db w) ∨ grows_by_quota w w'.
Proof.
  intros Hstep Hw. pose proof (fleet_rows_free (committed_db w)) as HJ.
  destruct Hstep as [creds route Hr|draw req|domain|fault lt st|email role|elapsed point fault _| |rt|t].
  - destruct Hr as [body tok rnd kid ktok Hv|route Hr].
    + destruct (post_agent_effect creds body tok rnd kid ktok w (proj1 Hw))
        as [E|(p & d1 & rt' & r & Hp & Hc & E)]; [left; unfold fleet; by rewrite E|].
      destruct (create_fleet _ _ _ _ _ _ _ _ _ _ (proj1 Hw) Hc) as [Ef|(aid & Hn & Hq & Ef)];
        [left|right]; unfold grows_by_quota; unfold fleet at 1 in Ef; rewrite <- E in Ef; [by rewrite <- Ef|].
      by exists creds, p, aid.
    + left. apply request_keeps_fleet; [done|by eapply safe_route].
  - left. apply request_keeps_fleet; [done|by eapply safe_edge].
  - left. apply request_keeps_fleet; [done|by eapply safe_tls_ask].
  - left. rewrite loop_turn_state. apply request_keeps_fleet; [done|].
    eapply safe_tick; [exact HJ|apply kept_write_batch].
  - left. apply request_keeps_fleet; [done|by eapply safe_set_role].
  - left. change (committed_db (restart cfg elapsed point fault w)) with (committed_db (shutdown cfg elapsed point fault w).1).
    rewrite shutdown_state. set (w1 := (request (cancelled_turn cfg elapsed point) w).1).
    assert (well_formed (committed_db w1)) as Hw1.
    { apply request_well_formed; [apply (safe_cancelled_turn _ _ true_rows_free), inv_write_batch|done]. }
    transitivity (fleet (committed_db w1)).
    + apply request_keeps_fleet; [done|apply safe_flush, kept_write_batch].
    + apply request_keeps_fleet; [done|apply (safe_cancelled_turn _ _ HJ), kept_write_batch].
  - by left.
  - by left.
  - by left.
Qed.

(** C12: agents never change hands, whatever the gateway does: after any step an agent that
    existed still has its owner, and an agent that did not exist belongs to an account whose
    credentials the step authenticated as a developer's and whose quota of agents allowed it. *)
Theorem agents_never_change_hands w s l w' aid a' :
  sys_step cfg w s l w' → well_formed (committed_db w) → agents (committed_db w') !! aid = Some a' →
  match agents (committed_db w) !! aid with
  | Some a => Agent.user_id a' = Agent.user_id a
  | None => ∃ creds p, (request (require_role (R:=R) cfg OPERATOR false creds) w).2 = Ok p ∧
      p_user_id p = Agent.user_id a' ∧ ensure_can_create_agent (committed_db w) (Agent.user_id a') = Ok tt
  end.
Proof.
  intros Hstep Hw Ha'. assert (fleet (committed_db w') !! aid = Some (Agent.user_id a')) as Hf
    by (apply fleet_lookup; by exists a').
  assert (fleet (committed_db w) !! aid = Agent.user_id <$> agents (committed_db w) !! aid) as Hf0
    by apply lookup_fmap.
  destruct (fleet_step _ _ _ _ Hstep Hw) as [Hsub|(creds & p & aid' & Hp & Hn & Hq & E)].
  - eapply lookup_weaken in Hf; [|exact Hsub]. rewrite Hf0 in Hf.
    destruct (agents (committed_db w) !! aid) as [a|]; [|done]. cbn in Hf. congruence.
  - rewrite E, lookup_insert in Hf. case_decide as He.
    + subst aid'. rewrite Hn in Hf0. destruct (agents (committed_db w) !! aid); [done|].
      exists creds, p. injection Hf as Hf. rewrite <- Hf. by split_and!.
    + rewrite Hf0 in Hf. destruct (agents (committed_db w) !! aid); [|done]. cbn in Hf. congruence.
Qed.

(** Steps while the account [uid] is held to a plan of at most [m] agents. *)
Definition limited_step (uid : uuid) (m : Z) w w' : Prop :=
  (∀ u, users (committed_db w) !! uid = Some u → is_exempt u = Ok false ∧ max_agents (limits_for (User.plan u)) ≤ m) ∧
  ∃ s l, sys_step cfg w s l w'.

(** C6: the limit on agents holds for the whole gateway as long as requests do not overlap: over
    any run, one request, turn or event after the other, in which an account is held to plans
    of at most [m] agents, whatever requests of whatever accounts, turns,
    scripts, restarts and crashes the run consists of and whenever plans change, the account
    never has more than [m] agents, or than it started with.  What requests that overlap add is
    bounded by [quota_overshoot_bounded] in [Races.v]. *)
Theorem fleet_within_plan uid m w0 w :
  rtc (limited_step uid m) w0 w → well_formed (committed_db w0) →
  Z.of_nat (length (agents_of (committed_db w) uid)) ≤ m `max` Z.of_nat (length (agents_of (committed_db w0) uid)).
Proof.
  induction 1 as [w|w1 w2 w3 [Hheld (s & l & Hs)] _ IH]; intros Hw; [lia|].
  etrans; [by apply IH; eapply step_well_formed|]. clear IH.
  destruct (fleet_step _ _ _ _ Hs Hw) as [Hsub|(creds & p & aid & Hp & Hn & Hq & E)].
  - pose proof (agents_of_subset _ _ uid Hsub). lia.
  - rewrite (agents_of_new _ _ _ _ uid Hn E). case_decide as Hu; [|lia]. subst uid.
    destruct (users (committed_db w1) !! p_user_id p) as [u|] eqn:Eu.
    + destruct (Hheld u eq_refl) as [Hex Hle].
      pose proof (ensure_can_create_bounds _ _ u (conj Eu Hex) Hq). lia.
    + exfalso. revert Hq. unfold ensure_can_create_agent, get_user. by rewrite Eu.
Qed.
End fleet.

(** ** Witnesses *)
Definition fleet_world : world fixture_rt := fixture_world (fixture_db [fixture_user] []) ∅.
Definition fleet_next : world fixture_rt :=
  (request (post_agent default_settings (Some api_token) fixture_body (str "x") (λ _, 0%N) 5%N (str "t");; mret tt)
     fleet_world).1.
Lemma fleet_world_ok : well_formed (committed_db fleet_world).
Proof. split; by_decide. Qed.
Lemma fleet_created : sys_step default_settings fleet_world [] [] fleet_next.
Proof. apply (step_api default_settings fleet_world (Some api_token)), vr_create. by vm_compute. Qed.

Theorem agents_never_change_hands_witness :
  ∃ aid a', agents (committed_db fleet_next) !! aid = Some a' ∧
    ∃ creds p, (request (require_role (R:=fixture_rt) default_settings OPERATOR false creds) fleet_world).2 = Ok p ∧
      p_user_id p = Agent.user_id a'.
Proof.
  assert (∃ a', agents (committed_db fleet_next) !! (str "agt_x") = Some a') as [a' Ha']
    by (vm_compute; eexists; reflexivity).
  exists (str "agt_x"), a'. split; [exact Ha'|].
  destruct (agents_never_change_hands default_settings fleet_world [] [] fleet_next (str "agt_x") a'
    fleet_created fleet_world_ok Ha') as (creds & p & Hp & Hu & _).
  exists creds, p. split; [exact Hp|exact Hu].
Defined.

Theorem fleet_within_plan_witness :
  length (agents_of (committed_db fleet_next) 7%N) = 1%nat ∧
  Z.of_nat (length (agents_of (committed_db fleet_next) 7%N)) ≤ 3 `max` 0.
Proof.
  split; [vm_compute; reflexivity|].
  apply (fleet_within_plan default_settings 7%N 3 fleet_world fleet_next).
  - apply rtc_once. split; [|exists [], []; exact fleet_created].
    assert (users (committed_db fleet_world) !! 7%N = Some fixture_user) as -> by (vm_compute; reflexivity).
    intros u [= <-].
    split; vm_compute; [reflexivity|discriminate].
  - exact fleet_world_ok.
Defined.
