(* ===== verification/Ddl.v ===== *)
(** Relational schemas and the statements of schema migrations: what Alembic's operations
    ([op.create_table], [op.add_column], ...) do to a PostgreSQL database.

    A database is a schema and rows.  A statement changes the schema or is refused because of
    it ([schema_op]), changes the rows ([data_op]), and fails when the rows then break a
    constraint the new schema declares ([conforms]): a column that may not be null, a primary
    key, a unique constraint or a unique index.  Which rows a foreign key refers to is not
    tracked, since no statement here changes a referring or a referred column.  The server is
    taken to have the extensions that are created. *)

From S2P Require Import Prelude.

(** ** Schemas *)
Inductive sql_type :=
  TUuid | TString (n : option Z) | TText | TSmallInteger | TInteger | TBigInteger | TFloat
| TBoolean | TDateTime | TStringArray | TJson.
Inductive sql_default := DLit (s : pystr) | DTrue | DFalse | DNow.
Inductive on_delete := CASCADE | SET_NULL.
#[export] Instance sql_type_eq : EqDecision sql_type.
Proof. solve_decision. Defined.
#[export] Instance sql_default_eq : EqDecision sql_default.
Proof. solve_decision. Defined.
#[export] Instance on_delete_eq : EqDecision on_delete.
Proof. solve_decision. Defined.

Record foreign_key := { fk_table : pystr; fk_column : pystr; fk_on_delete : on_delete }.
Record column := {
  c_name : pystr;
  c_type : sql_type;
  c_nullable : bool;
  c_primary : bool;
  c_default : option sql_default;
  c_foreign_key : option foreign_key;
}.
#[export] Instance foreign_key_eq : EqDecision foreign_key.
Proof. solve_decision. Defined.
#[export] Instance column_eq : EqDecision column.
Proof. solve_decision. Defined.

Record table_def := {
  td_columns : gmap pystr column;
  td_uniques : gmap pystr (list pystr);
}.
Record index_def := { ix_table : pystr; ix_columns : list pystr; ix_unique : bool }.
Record schema := {
  s_tables : gmap pystr table_def;
  s_indexes : gmap pystr index_def;
  s_extensions : gset pystr;
}.
#[export] Instance table_def_eq : EqDecision table_def.
Proof. solve_decision. Defined.
#[export] Instance index_def_eq : EqDecision index_def.
Proof. solve_decision. Defined.
#[export] Instance schema_eq : EqDecision schema.
Proof. solve_decision. Defined.
#[export] Instance table_def_eta : Eta table_def := λ t, {|
  td_columns := td_columns t; td_uniques := td_uniques t |}.
#[export] Instance schema_eta : Eta schema := λ s, {|
  s_tables := s_tables s; s_indexes := s_indexes s; s_extensions := s_extensions s |}.

Definition empty_schema : schema := {| s_tables := ∅; s_indexes := ∅; s_extensions := ∅ |}.

(** ** Rows *)
(** A cell; types no statement looks into keep the literal they were given. *)
Inductive cell :=
  VNull | VText (s : pystr) | VInt (z : Z) | VBool (b : bool) | VTime (t : Z) | VArray (l : list pystr) | VRaw (s : pystr).
#[export] Instance cell_eq : EqDecision cell.
Proof. solve_decision. Defined.

Abbreviation row := (gmap pystr cell).
Abbreviation data := (gmap pystr (list row)).

Definition rows_of (d : data) (t : pystr) : list row := default [] (d !! t).
Definition cell_of (r : row) (c : pystr) : cell := default VNull (r !! c).

Definition int_of_digits (s : pystr) : Z := foldl (λ n c, 10 * n + (Z.of_N c - 48)) 0 s.
(** The value a server default gives to a column of some type. *)
Definition default_cell (now : Z) (t : sql_type) (d : option sql_default) : cell :=
  match d, t with
  | None, _ => VNull
  | Some (DLit s), (TSmallInteger | TInteger | TBigInteger) => VInt (int_of_digits s)
  | Some (DLit s), (TString _ | TText) => VText s
  | Some (DLit s), _ => VRaw s
  | Some DTrue, _ => VBool true
  | Some DFalse, _ => VBool false
  | Some DNow, _ => VTime now
  end.

(** The cells of some columns, unless one is null: nulls are never equal. *)
Definition key_of (cs : list pystr) (r : row) : option (list cell) :=
  let vs := cell_of r <$> cs in
  if bool_decide (VNull ∈ vs) then None else Some vs.
Definition distinct_on (cs : list pystr) (rs : list row) : Prop := NoDup (omap (key_of cs) rs).
#[export] Instance distinct_on_dec cs rs : Decision (distinct_on cs rs).
Proof. unfold distinct_on. apply _. Defined.

(** The column sets on which the rows of a table are distinct. *)
Definition unique_sets (s : schema) (t : pystr) : list (list pystr) :=
  match s_tables s !! t with
  | None => []
  | Some td =>
      ((λ kc, [kc.1]) <$> filter (λ kc : pystr * column, c_primary kc.2 = true) (map_to_list (td_columns td))) ++
      rows (td_uniques td) ++
      (ix_columns <$> filter (λ ix, ix_unique ix = true ∧ ix_table ix = t) (rows (s_indexes s)))
  end.

(** The cells a type admits, with the widths of strings and integers and the characters of
    text; a [json] column takes any text, escaped. *)
Definition cell_fits (t : sql_type) (v : cell) : bool :=
  match v, t with
  | VNull, _ | VBool _, TBoolean | VTime _, TDateTime | VRaw _, (TUuid | TFloat | TJson) => true
  | VRaw s, TStringArray => s == str "{}"
  | VArray l, TStringArray => bool_decide (Forall pg_text l)
  | VText s, (TString None | TText) => bool_decide (pg_text s)
  | VText s, TString (Some n) => (Z.of_nat (length s) <=? n) && bool_decide (pg_text s)
  | VInt z, TSmallInteger => (-2 ^ 15 <=? z) && (z <? 2 ^ 15)
  | VInt z, TInteger => (-2 ^ 31 <=? z) && (z <? 2 ^ 31)
  | VInt z, TBigInteger => (-2 ^ 63 <=? z) && (z <? 2 ^ 63)
  | _, _ => false
  end.

Definition cell_ok (col : column) (v : cell) : Prop :=
  (c_nullable col = false → v ≠ VNull) ∧ cell_fits (c_type col) v = true.
Definition row_ok (td : table_def) (r : row) : Prop :=
  dom r = dom (td_columns td) ∧ map_Forall (λ c col, cell_ok col (cell_of r c)) (td_columns td).
#[export] Instance cell_ok_dec col v : Decision (cell_ok col v).
Proof. unfold cell_ok. apply _. Defined.
#[export] Instance row_ok_dec td r : Decision (row_ok td r).
Proof. unfold row_ok. apply _. Defined.

Definition conforms (s : schema) (d : data) : Prop :=
  map_Forall (λ t td, Forall (row_ok td) (rows_of d t) ∧
                      Forall (λ cs, distinct_on cs (rows_of d t)) (unique_sets s t)) (s_tables s) ∧
  map_Forall (λ t rs, rs = [] ∨ is_Some (s_tables s !! t)) d.
#[export] Instance conforms_dec s d : Decision (conforms s d).
Proof. unfold conforms. apply _. Defined.

(** ** Statements *)
Inductive ddl_error :=
  DuplicateTable | UndefinedTable | DuplicateColumn | UndefinedColumn | DuplicateName
| UndefinedName | DependentObjects | ConstraintViolation.

Inductive op :=
| create_table (t : pystr) (cols : list column) (uniques : list (pystr * list pystr))
| drop_table (t : pystr)
| add_column (t : pystr) (col : column)
| drop_column (t : pystr) (c : pystr)
| set_not_null (t : pystr) (c : pystr)
| create_index (name t : pystr) (cs : list pystr) (unique : bool)
| drop_index (name t : pystr)
| create_extension (e : pystr)
| drop_extension (e : pystr)
| update_where (t c : pystr) (e : row → cell) (p : row → bool).

(** The tables whose columns refer to table [t]. *)
Definition refers_to (t : pystr) (td : table_def) : Prop :=
  Exists (λ c, match c_foreign_key c with Some fk => fk_table fk = t | None => False end)
    (rows (td_columns td)).
#[export] Instance refers_to_dec t td : Decision (refers_to t td).
Proof.
  unfold refers_to. apply Exists_dec. intros c. destruct (c_foreign_key c); apply _.
Defined.
(** What a foreign key refers to must be there. *)
Definition target_exists (s : schema) (c : column) : bool :=
  match c_foreign_key c with
  | None => true
  | Some fk => match s_tables s !! fk_table fk with
               | Some td => bool_decide (is_Some (td_columns td !! fk_column fk))
               | None => false
               end
  end.
Definition columns_map (cols : list column) : gmap pystr column :=
  list_to_map ((λ c, (c_name c, c)) <$> cols).

Definition in_table (t : pystr) (s : schema) (f : table_def → result ddl_error table_def)
  : result ddl_error schema :=
  match s_tables s !! t with
  | None => Err UndefinedTable
  | Some td => td' ← f td; mret (s <| s_tables := <[t := td']> (s_tables s) |>)
  end.

Definition schema_op (o : op) (s : schema) : result ddl_error schema :=
  match o with
  | create_table t cols uniques =>
      if bool_decide (is_Some (s_tables s !! t)) then Err DuplicateTable
      else if negb (bool_decide (NoDup (c_name <$> cols))) then Err DuplicateColumn
      else if negb (forallb (target_exists s) cols) then Err UndefinedTable
      else Ok (s <| s_tables := <[t := {| td_columns := columns_map cols;
                                          td_uniques := list_to_map uniques |}]> (s_tables s) |>)
  | drop_table t =>
      if bool_decide (s_tables s !! t = None) then Err UndefinedTable
      else if bool_decide (map_Forall (λ t' td, t' = t ∨ ¬ refers_to t td) (s_tables s))
      then Ok (s <| s_tables := delete t (s_tables s) |>
                 <| s_indexes := filter (λ ix, ix_table ix.2 ≠ t) (s_indexes s) |>)
      else Err DependentObjects
  | add_column t col =>
      in_table t s (λ td,
        if bool_decide (is_Some (td_columns td !! c_name col)) then Err DuplicateColumn
        else Ok (td <| td_columns := <[c_name col := col]> (td_columns td) |>))
  | drop_column t c =>
      s' ← in_table t s (λ td,
        if bool_decide (td_columns td !! c = None) then Err UndefinedColumn
        else Ok {| td_columns := delete c (td_columns td);
                   td_uniques := filter (λ u, c ∉ u.2) (td_uniques td) |});
      mret (s' <| s_indexes := filter (λ ix, ix_table ix.2 ≠ t ∨ c ∉ ix_columns ix.2) (s_indexes s') |>)
  | set_not_null t c =>
      in_table t s (λ td,
        match td_columns td !! c with
        | None => Err UndefinedColumn
        | Some col => Ok (td <| td_columns := <[c := {| c_name := c_name col; c_type := c_type col;
                            c_nullable := false; c_primary := c_primary col; c_default := c_default col;
                            c_foreign_key := c_foreign_key col |}]> (td_columns td) |>)
        end)
  | create_index name t cs unique =>
      match s_tables s !! t with
      | None => Err UndefinedTable
      | Some td =>
          if negb (forallb (λ c, bool_decide (is_Some (td_columns td !! c))) cs) then Err UndefinedColumn
          else if bool_decide (is_Some (s_indexes s !! name)) then Err DuplicateName
          else Ok (s <| s_indexes := <[name := {| ix_table := t; ix_columns := cs; ix_unique := unique |}]>
                                       (s_indexes s) |>)
      end
  | drop_index name t =>
      if bool_decide (s_indexes s !! name = None) then Err UndefinedName
      else Ok (s <| s_indexes := delete name (s_indexes s) |>)
  | create_extension e => Ok (s <| s_extensions := {[ e ]} ∪ s_extensions s |>)
  | drop_extension e => Ok (s <| s_extensions := s_extensions s ∖ {[ e ]} |>)
  | update_where t c _ _ =>
      in_table t s (λ td, if bool_decide (is_Some (td_columns td !! c)) then Ok td else Err UndefinedColumn)
  end.

Definition map_rows (t : pystr) (f : row → row) (d : data) : data := alter (fmap f) t d.

Definition data_op (now : Z) (o : op) (d : data) : data :=
  match o with
  | drop_table t => delete t d
  | add_column t col => map_rows t (insert (c_name col) (default_cell now (c_type col) (c_default col))) d
  | drop_column t c => map_rows t (delete c) d
  | update_where t c e p => map_rows t (λ r, if p r then <[c := e r]> r else r) d
  | _ => d
  end.

Definition run_op (now : Z) (o : op) (sd : schema * data) : result ddl_error (schema * data) :=
  s ← schema_op o sd.1;
  let d := data_op now o sd.2 in
  if bool_decide (conforms s d) then Ok (s, d) else Err ConstraintViolation.

Fixpoint run_ops (now : Z) (os : list op) (sd : schema * data) : result ddl_error (schema * data) :=
  match os with
  | [] => Ok sd
  | o :: rest => sd ← run_op now o sd; run_ops now rest sd
  end.
Fixpoint schema_ops (os : list op) (s : schema) : result ddl_error schema :=
  match os with
  | [] => Ok s
  | o :: rest => s ← schema_op o s; schema_ops rest s
  end.
Definition data_ops (now : Z) (os : list op) (d : data) : data := foldl (λ d o, data_op now o d) d os.

(** ** What statements do to rows that conform *)
Lemma rows_of_map_rows t f d t' :
  rows_of (map_rows t f d) t' = if decide (t' = t) then f <$> rows_of d t' else rows_of d t'.
Proof.
  unfold rows_of, map_rows. case_decide as Ht; [subst t'|by rewrite lookup_alter_ne].
  rewrite lookup_alter_eq. by destruct (d !! t).
Qed.
Lemma rows_of_undefined s d t : conforms s d → s_tables s !! t = None → rows_of d t = [].
Proof.
  intros [_ Hd] Ht. unfold rows_of. destruct (d !! t) as [rs|] eqn:E; [|done].
  destruct (Hd _ _ E) as [->|[td Htd]]; [done|congruence].
Qed.
Lemma conforms_row s d t td r :
  conforms s d → s_tables s !! t = Some td → r ∈ rows_of d t → row_ok td r.
Proof. intros [Ht _] Htd. destruct (Ht _ _ Htd) as [Hr _]. rewrite Forall_forall in Hr. auto. Qed.
Lemma row_ok_lookup td r c : row_ok td r → td_columns td !! c = None → r !! c = None.
Proof. intros [Hdom _] Hc. apply not_elem_of_dom. rewrite Hdom. by apply not_elem_of_dom. Qed.

Lemma key_of_ext cs r r' : (∀ c, c ∈ cs → cell_of r' c = cell_of r c) → key_of cs r' = key_of cs r.
Proof.
  intros Hc. unfold key_of. assert (cell_of r' <$> cs = cell_of r <$> cs) as ->; [|done].
  apply list_fmap_ext. intros i c Hi. apply Hc. by eapply list_elem_of_lookup_2.
Qed.
Lemma distinct_on_fmap cs f rs :
  (∀ r c, c ∈ cs → cell_of (f r) c = cell_of r c) → distinct_on cs rs → distinct_on cs (f <$> rs).
Proof.
  intros Hf. unfold distinct_on. assert (omap (key_of cs) (f <$> rs) = omap (key_of cs) rs) as ->; [|done].
  induction rs as [|r rs IH]; [done|]. cbn. rewrite (key_of_ext _ r) by auto. by rewrite IH.
Qed.

Lemma cell_of_insert_ne r c c' v : c' ≠ c → cell_of (<[c := v]> r) c' = cell_of r c'.
Proof. intros. unfold cell_of. by rewrite lookup_insert_ne. Qed.
Lemma cell_of_delete_ne r c c' : c' ≠ c → cell_of (delete c r) c' = cell_of r c'.
Proof. intros. unfold cell_of. by rewrite lookup_delete_ne. Qed.

Inductive unique_set (s : schema) (t : pystr) (td : table_def) (cs : list pystr) : Prop :=
| unique_primary c col : td_columns td !! c = Some col → c_primary col = true → cs = [c] → unique_set s t td cs
| unique_constraint u : td_uniques td !! u = Some cs → unique_set s t td cs
| unique_index n ix : s_indexes s !! n = Some ix → ix_unique ix = true → ix_table ix = t →
    cs = ix_columns ix → unique_set s t td cs.

Lemma elem_unique_sets s t td cs :
  s_tables s !! t = Some td → cs ∈ unique_sets s t ↔ unique_set s t td cs.
Proof.
  intros Ht. unfold unique_sets. rewrite Ht, !elem_of_app, !list_elem_of_fmap. split.
  - intros [([c col] & -> & [Hp Hc%elem_of_map_to_list]%list_elem_of_filter)|[[u Hu]%elem_of_rows|Hix]].
    + by eapply unique_primary.
    + by eapply unique_constraint.
    + destruct Hix as (ix & -> & [[Hu Hix] [n Hn]%elem_of_rows]%list_elem_of_filter).
      by eapply unique_index.
  - intros [c col Hc Hp ->|u Hu|n ix Hn Hu Hix ->].
    + left. exists (c, col). split; [done|]. apply list_elem_of_filter. split; [done|]. by apply elem_of_map_to_list.
    + right. left. apply elem_of_rows. by exists u.
    + right. right. exists ix. split; [done|]. apply list_elem_of_filter. split; [done|].
      apply elem_of_rows. by exists n.
Qed.

Lemma conforms_intro s d :
  (∀ t td, s_tables s !! t = Some td →
     Forall (row_ok td) (rows_of d t) ∧ ∀ cs, unique_set s t td cs → distinct_on cs (rows_of d t)) →
  map_Forall (λ t rs, rs = [] ∨ is_Some (s_tables s !! t)) d → conforms s d.
Proof.
  intros Ht Hd. split; [|done]. intros t td Htd. destruct (Ht _ _ Htd) as [Hr Hu]. split; [done|].
  apply Forall_forall. intros cs Hcs. by apply Hu, elem_unique_sets.
Qed.
Lemma conforms_table s d t td :
  conforms s d → s_tables s !! t = Some td →
  Forall (row_ok td) (rows_of d t) ∧ ∀ cs, unique_set s t td cs → distinct_on cs (rows_of d t).
Proof.
  intros [Ht _] Htd. destruct (Ht _ _ Htd) as [Hr Hu]. split; [done|]. rewrite Forall_forall in Hu.
  intros cs Hcs. apply Hu. by rewrite elem_unique_sets.
Qed.
Lemma conforms_dom s s' d t f :
  conforms s d → (∀ t, is_Some (s_tables s !! t) → is_Some (s_tables s' !! t)) →
  map_Forall (λ t rs, rs = [] ∨ is_Some (s_tables s' !! t)) (map_rows t f d).
Proof.
  intros [_ Hd] Hs t' rs. unfold map_rows. destruct (decide (t' = t)) as [->|Hne].
  - rewrite lookup_alter_eq. destruct (d !! t) as [rs0|] eqn:E; [|done]. intros [= <-].
    destruct (Hd _ _ E) as [->|]; [by left|right; auto].
  - rewrite lookup_alter_ne by done. intros E. destruct (Hd _ _ E); [by left|right; auto].
Qed.
Lemma map_rows_id t d : map_rows t id d = d.
Proof.
  unfold map_rows. apply map_eq. intros t'. destruct (decide (t' = t)) as [->|];
    [rewrite lookup_alter_eq; destruct (d !! t); cbn; by rewrite ?list_fmap_id|by rewrite lookup_alter_ne].
Qed.

(** A statement cannot fail on the rows when it adds no constraint that they might break.
    Part of that shows in the schema ([static_ok]), the rest depends on the rows. *)
Definition static_ok (o : op) (s : schema) : bool :=
  match o with
  | add_column t col =>
      bool_decide (cell_ok col (default_cell 0 (c_type col) (c_default col))) && negb (c_primary col) &&
      forallb (λ cs, bool_decide (c_name col ∉ cs)) (unique_sets s t)
  | update_where t c _ _ => forallb (λ cs, bool_decide (c ∉ cs)) (unique_sets s t)
  | _ => true
  end.
Definition column_of (s : schema) (t c : pystr) : option column :=
  s_tables s !! t ≫= λ td, td_columns td !! c.
Definition dynamic_ok (o : op) (s : schema) (d : data) : Prop :=
  match o with
  | set_not_null t c => Forall (λ r, cell_of r c ≠ VNull) (rows_of d t)
  | create_index _ t cs true => distinct_on cs (rows_of d t)
  | update_where t c e p =>
      ∀ col, column_of s t c = Some col → Forall (λ r, p r = true → cell_ok col (e r)) (rows_of d t)
  | _ => True
  end.
(** The clock does not matter for whether a default fits. *)
Lemma default_fits col now :
  cell_ok col (default_cell 0 (c_type col) (c_default col)) →
  cell_ok col (default_cell now (c_type col) (c_default col)).
Proof.
  unfold cell_ok. destruct (c_default col) as [[]|], (c_type col); intros [Hn Hf]; (split; [|done]);
    first [done|by intros _].
Qed.
Lemma fresh_column c (css : list (list pystr)) :
  forallb (λ cs, bool_decide (c ∉ cs)) css = true → Forall (λ cs, c ∉ cs) css.
Proof.
  rewrite forallb_forall, Forall_forall. intros H cs Hcs%list_elem_of_In.
  apply (bool_decide_eq_true_1 _ (H cs Hcs)).
Qed.

Lemma in_table_ok t s f s' :
  in_table t s f = Ok s' → ∃ td td', s_tables s !! t = Some td ∧ f td = Ok td' ∧
    s' = s <| s_tables := <[t := td']> (s_tables s) |>.
Proof.
  unfold in_table. destruct (s_tables s !! t) as [td|] eqn:E; [|done].
  destruct (f td) as [td'|e] eqn:Ef; cbn; [|done]. intros [= <-]. eauto.
Qed.

(** A statement on one table: the others keep their rows and constraints. *)
Lemma conforms_one_table t f s s' d td' :
  conforms s d → s_tables s' !! t = Some td' →
  (∀ t', t' ≠ t → s_tables s' !! t' = s_tables s !! t') →
  (∀ t' td cs, t' ≠ t → unique_set s' t' td cs → unique_set s t' td cs) →
  Forall (row_ok td') (f <$> rows_of d t) →
  (∀ cs, unique_set s' t td' cs → distinct_on cs (f <$> rows_of d t)) →
  conforms s' (map_rows t f d).
Proof.
  intros Hc Ht Hother Husets Hrows Huniq. apply conforms_intro.
  - intros t0 td0 Ht0. rewrite rows_of_map_rows. case_decide as Hd; [subst t0|].
    + rewrite Ht in Ht0. by injection Ht0 as <-.
    + rewrite Hother in Ht0 by done. destruct (conforms_table _ _ _ _ Hc Ht0) as [Hr Hu]. eauto.
  - apply (conforms_dom s); [done|]. intros t0 Ht0. destruct (decide (t0 = t)) as [->|]; [by exists td'|].
    by rewrite Hother.
Qed.

Lemma conforms_add_column now t col s s' d :
  schema_op (add_column t col) s = Ok s' → conforms s d → static_ok (add_column t col) s = true →
  conforms s' (data_op now (add_column t col) d).
Proof.
  intros Hop Hc [[Hnn%bool_decide_eq_true Hpk%negb_true_iff]%andb_true_iff Hfresh%fresh_column]%andb_true_iff.
  apply (default_fits _ now) in Hnn. cbn in Hop.
  apply in_table_ok in Hop as (td & td' & Htd & Hf & ->). case_bool_decide as Hnew; [done|].
  injection Hf as <-. destruct (conforms_table _ _ _ _ Hc Htd) as [Hr Hu]. cbn [data_op].
  eapply (conforms_one_table t _ s); [done|apply lookup_insert_eq|intros; by apply lookup_insert_ne| | |].
  - intros t' td0 cs _ []; eauto using unique_set.
  - rewrite Forall_fmap. eapply Forall_impl; [exact Hr|]. intros r [Hdom Hn]. split; cbn.
    + by rewrite !dom_insert_L, Hdom.
    + intros c col' Hcol. destruct (decide (c = c_name col)) as [->|Hc'].
      * rewrite lookup_insert_eq in Hcol. injection Hcol as <-. unfold cell_of. by rewrite lookup_insert_eq.
      * rewrite cell_of_insert_ne by done. rewrite lookup_insert_ne in Hcol by done. by apply (Hn c col').
  - rewrite Forall_forall in Hfresh. intros cs Hcs.
    assert (unique_set s t td cs) as Hcs'.
    { destruct Hcs as [c col' Hcol Hp ->|u Hu'|n ix Hn Hui Hit ->]; cbn in *; [|eauto using unique_set..].
      destruct (decide (c = c_name col)) as [->|Hc']; [rewrite lookup_insert_eq in Hcol; congruence|].
      rewrite lookup_insert_ne in Hcol by done. by eapply unique_primary. }
    apply distinct_on_fmap; [|by apply Hu]. intros r c Hin. apply cell_of_insert_ne. intros ->.
    by apply (Hfresh cs); [apply (elem_unique_sets _ _ td)|].
Qed.

Lemma conforms_drop_column now t c s s' d :
  schema_op (drop_column t c) s = Ok s' → conforms s d → conforms s' (data_op now (drop_column t c) d).
Proof.
  cbn -[in_table]. destruct (in_table t s _) as [s1|e] eqn:E; cbn; [|done]. intros [= <-] Hc.
  apply in_table_ok in E as (td & td' & Htd & Hf & ->). case_bool_decide; [done|]. injection Hf as <-.
  destruct (conforms_table _ _ _ _ Hc Htd) as [Hr Hu].
  eapply (conforms_one_table t _ s); [done|apply lookup_insert_eq|intros; by apply lookup_insert_ne| | |].
  - intros t' td0 cs _ [|u|n ix Hn]; [eauto using unique_set..|].
    cbn in Hn. apply map_lookup_filter_Some in Hn as [Hn _]. eauto using unique_set.
  - rewrite Forall_fmap. eapply Forall_impl; [exact Hr|]. intros r [Hdom Hn]. split; cbn.
    + by rewrite !dom_delete_L, Hdom.
    + intros c' col [Hne Hcol]%lookup_delete_Some. rewrite cell_of_delete_ne by done.
      by apply (Hn c' col).
  - intros cs Hcs. assert (unique_set s t td cs ∧ c ∉ cs) as [Hcs' Hin].
    { destruct Hcs as [c' col Hcol Hp ->|u Hu'|n ix Hn Hui Hit ->]; cbn in *.
      - apply lookup_delete_Some in Hcol as [Hne Hcol]. split; [by eapply unique_primary|set_solver].
      - apply map_lookup_filter_Some in Hu' as [Hu' Hin]. split; [by eapply unique_constraint|done].
      - apply map_lookup_filter_Some in Hn as [Hn Hin]. split; [by eapply unique_index|]. cbn in Hin. tauto. }
    apply distinct_on_fmap; [|by apply Hu]. intros r c' Hc'. apply cell_of_delete_ne. set_solver.
Qed.

Lemma conforms_set_not_null now t c s s' d :
  schema_op (set_not_null t c) s = Ok s' → conforms s d → dynamic_ok (set_not_null t c) s d →
  conforms s' (data_op now (set_not_null t c) d).
Proof.
  cbn -[in_table]. intros Hop Hc Hnn. apply in_table_ok in Hop as (td & td' & Htd & Hf & ->).
  destruct (td_columns td !! c) as [col|] eqn:Hcol; [|done]. injection Hf as <-.
  destruct (conforms_table _ _ _ _ Hc Htd) as [Hr Hu]. rewrite <- (map_rows_id t d).
  eapply (conforms_one_table t _ s); [done|apply lookup_insert_eq|intros; by apply lookup_insert_ne| | |].
  - intros t' td0 cs _ []; eauto using unique_set.
  - rewrite list_fmap_id. rewrite Forall_forall in Hr, Hnn. apply Forall_forall. intros r Hin.
    destruct (Hr r Hin) as [Hdom Hn]. split; cbn.
    + rewrite dom_insert_lookup_L by (by exists col). done.
    + intros c' col' Hcol'. destruct (decide (c' = c)) as [->|].
      * rewrite lookup_insert_eq in Hcol'. injection Hcol' as <-. split; [by intros _; apply Hnn|].
        by apply (Hn c col).
      * rewrite lookup_insert_ne in Hcol' by done. by apply (Hn c' col').
  - rewrite list_fmap_id. intros cs Hcs. apply Hu.
    destruct Hcs as [c' col' Hcol' Hp ->|u Hu'|n ix Hn Hui Hit ->]; cbn in *; [|eauto using unique_set..].
    destruct (decide (c' = c)) as [->|]; [|rewrite lookup_insert_ne in Hcol' by done; eauto using unique_set].
    rewrite lookup_insert_eq in Hcol'. injection Hcol' as <-. by eapply unique_primary.
Qed.

Lemma conforms_update now t c e p s s' d :
  schema_op (update_where t c e p) s = Ok s' → conforms s d → static_ok (update_where t c e p) s = true →
  dynamic_ok (update_where t c e p) s d → conforms s' (data_op now (update_where t c e p) d).
Proof.
  cbn -[in_table]. intros Hop Hc Hst Hnn. unfold column_of in Hnn.
  apply fresh_column in Hst as Hfresh.
  apply in_table_ok in Hop as (td & td' & Htd & Hf & ->).
  case_bool_decide as Hex; [|done]. injection Hf as <-. destruct Hex as [col0 Hcol0]. rewrite Htd in Hnn.
  specialize (Hnn col0 Hcol0).
  destruct (conforms_table _ _ _ _ Hc Htd) as [Hr Hu].
  eapply (conforms_one_table t _ s); [done|apply lookup_insert_eq|intros; by apply lookup_insert_ne| | |].
  - intros t' td0 cs _ []; eauto using unique_set.
  - rewrite Forall_fmap. rewrite Forall_forall in Hr, Hnn. apply Forall_forall. intros r Hin.
    destruct (Hr r Hin) as [Hdom Hn]. specialize (Hnn r Hin). cbn. destruct (p r); [|done]. split.
    + rewrite dom_insert_L, Hdom. apply subseteq_union_1_L, singleton_subseteq_l, elem_of_dom. by exists col0.
    + intros c' col Hcol. destruct (decide (c' = c)) as [->|].
      * unfold cell_of. rewrite lookup_insert_eq. cbn. assert (col = col0) as -> by congruence. auto.
      * rewrite cell_of_insert_ne by done. by apply (Hn c' col).
  - intros cs Hcs. assert (unique_set s t td cs) as Hcs' by (destruct Hcs; eauto using unique_set).
    apply distinct_on_fmap; [|by apply Hu]. intros r c' Hc'. destruct (p r); [|done].
    apply cell_of_insert_ne. intros ->. rewrite Forall_forall in Hfresh.
    by apply (Hfresh cs); [apply (elem_unique_sets _ _ td)|].
Qed.

Lemma conforms_index now name t cs unique s s' d :
  schema_op (create_index name t cs unique) s = Ok s' → conforms s d →
  dynamic_ok (create_index name t cs unique) s d → conforms s' (data_op now (create_index name t cs unique) d).
Proof.
  intros Hop Hc Hd. revert Hop. cbn [schema_op].
  destruct (s_tables s !! t) as [td|] eqn:Htd; [|done]. repeat case_match; try done. intros [= <-].
  apply conforms_intro; [|apply Hc]. intros t0 td0 Ht0. cbn in Ht0.
  destruct (conforms_table _ _ _ _ Hc Ht0) as [Hr Hu]. split; [done|].
  intros cs0 [| |n ix Hn Hui Hit ->]; [eauto using unique_set..|]. cbn in Hn.
  destruct (decide (n = name)) as [->|Hne]; [|rewrite lookup_insert_ne in Hn by done; eauto using unique_set].
  rewrite lookup_insert_eq in Hn. injection Hn as <-. cbn in *. subst. done.
Qed.

Lemma conforms_op now o s s' d :
  schema_op o s = Ok s' → conforms s d → static_ok o s = true → dynamic_ok o s d →
  conforms s' (data_op now o d).
Proof.
  destruct o as [t cols uniques|t|t col|t c|t c|n t cs u|n t|e|e|t c e p]; intros Hop Hc Hst Hdy;
    [| |by eapply conforms_add_column|by eapply conforms_drop_column|by eapply conforms_set_not_null|
     by eapply conforms_index| | | |by eapply conforms_update]; cbn in Hop |- *.
  - case_bool_decide as Hnew; [done|]. rewrite <- eq_None_not_Some in Hnew. repeat case_match; simplify_eq.
    apply conforms_intro; cbn.
    + intros t0 td0 Ht0. destruct (decide (t0 = t)) as [->|Hne].
      * rewrite (rows_of_undefined s) by done. split; [done|]. intros. constructor.
      * rewrite lookup_insert_ne in Ht0 by done. destruct (conforms_table _ _ _ _ Hc Ht0) as [Hr Hu].
        split; [done|]. intros cs Hcs. apply Hu. destruct Hcs; eauto using unique_set.
    + intros t0 rs E. destruct Hc as [_ Hd]. destruct (Hd _ _ E) as [|[td0 Ht0]]; [by left|right].
      cbn. destruct (decide (t0 = t)) as [->|]; [by rewrite lookup_insert_eq|].
      rewrite lookup_insert_ne by done. by exists td0.
  - repeat case_match; simplify_eq. apply conforms_intro; cbn.
    + intros t0 td0 [Hne Ht0]%lookup_delete_Some. destruct (conforms_table _ _ _ _ Hc Ht0) as [Hr Hu].
      assert (rows_of (delete t d) t0 = rows_of d t0) as -> by (unfold rows_of; by rewrite lookup_delete_ne).
      split; [done|]. intros cs [| |n ix Hn]; [eauto using unique_set..|]. cbn in Hn.
      apply map_lookup_filter_Some in Hn as [Hn _]. eauto using unique_set.
    + intros t0 rs [Hne E]%lookup_delete_Some. destruct Hc as [_ Hd].
      destruct (Hd _ _ E) as [|Ht0]; [by left|right]. by rewrite lookup_delete_ne.
  - repeat case_match; simplify_eq. apply conforms_intro; [|apply Hc]. intros t0 td0 Ht0.
    destruct (conforms_table _ _ _ _ Hc Ht0) as [Hr Hu]. split; [done|].
    intros cs [| |n' ix Hn]; [eauto using unique_set..|]. cbn in Hn.
    apply lookup_delete_Some in Hn as [_ Hn]. eauto using unique_set.
  - by injection Hop as <-.
  - by injection Hop as <-.
Qed.

(** ** Sequences of statements *)
Fixpoint static_ops (os : list op) (s : schema) : bool :=
  match os with
  | [] => true
  | o :: rest => static_ok o s && match schema_op o s with Ok s' => static_ops rest s' | Err _ => true end
  end.
Fixpoint dynamic_ops (now : Z) (os : list op) (s : schema) (d : data) : Prop :=
  match os with
  | [] => True
  | o :: rest => dynamic_ok o s d ∧
                 ∀ s', schema_op o s = Ok s' → dynamic_ops now rest s' (data_op now o d)
  end.

Lemma run_ops_ok now os s s' d :
  schema_ops os s = Ok s' → static_ops os s = true → conforms s d → dynamic_ops now os s d →
  run_ops now os (s, d) = Ok (s', data_ops now os d) ∧ conforms s' (data_ops now os d).
Proof.
  revert s d. induction os as [|o os IH]; intros s d; cbn [schema_ops static_ops dynamic_ops run_ops].
  - by intros [= <-].
  - destruct (schema_op o s) as [s1|e] eqn:E; cbn [mbind result_bind]; [|done].
    intros Hs [Hst Hrest]%andb_true_iff Hc [Hdy Hnext].
    assert (conforms s1 (data_op now o d)) as Hc1 by (by eapply conforms_op).
    unfold run_op at 1. cbn [fst snd]. rewrite E. cbn [mbind result_bind]. rewrite bool_decide_eq_true_2 by done.
    cbn [mbind result_bind]. apply IH; auto.
Qed.

Lemma run_ops_inv now os s d s' d' :
  run_ops now os (s, d) = Ok (s', d') →
  schema_ops os s = Ok s' ∧ d' = data_ops now os d ∧ (conforms s d → conforms s' d').
Proof.
  revert s d. induction os as [|o os IH]; intros s d; cbn [schema_ops run_ops].
  - by intros [= <- <-].
  - unfold run_op at 1. cbn [fst snd]. destruct (schema_op o s) as [s1|e]; cbn [mbind result_bind]; [|done].
    case_bool_decide as Hc1; cbn [mbind result_bind]; [|done]. intros (Hs & -> & Hc)%IH. eauto.
Qed.
