(* ===== verification/Migrations.v ===== *)
(** Schema migrations ([alembic/versions/]) and the schema the models declare ([models/],
    [Base.metadata]).

    Each revision is its [upgrade] and [downgrade] as lists of statements ([Ddl.v]).  Alembic
    follows the [down_revision] links and runs everything in one transaction
    ([run_migrations_online] of [alembic/env.py]), so a failing statement leaves the database
    as it was.  PostgreSQL's [md5] is an interface. *)

From S2P Require Import Prelude PyText Codec Ddl.

(** [md5(text)]: the bytes of the digest, in hexadecimal. *)
Class PgFunctions := md5_bytes : pystr → list N.
Definition md5 `{PgFunctions} (s : pystr) : pystr := mjoin (hex_text 2 <$> md5_bytes s).
Lemma hex_pg_text s : Forall (λ c, is_hex c = true) s → pg_text s.
Proof. intros Hs. eapply Forall_impl; [exact Hs|]. intros c. cbn. unfold is_hex, is_digit, pg_char. lia. Qed.
Lemma md5_text `{PgFunctions} s : pg_text (md5 s).
Proof.
  unfold md5. apply hex_pg_text. induction (md5_bytes s) as [|b l IH]; [constructor|].
  apply Forall_app. split; [apply hex_text_hex|done].
Qed.

(** ** Columns as the scripts write them *)
Definition Column (name : string) (type : sql_type) (nullable : bool) : column := {|
  c_name := str name; c_type := type; c_nullable := nullable; c_primary := false;
  c_default := None; c_foreign_key := None |}.
Definition with_default (d : sql_default) (c : column) : column := {|
  c_name := c_name c; c_type := c_type c; c_nullable := c_nullable c; c_primary := c_primary c;
  c_default := Some d; c_foreign_key := c_foreign_key c |}.
Definition ForeignKey (t c : string) (od : on_delete) (col : column) : column := {|
  c_name := c_name col; c_type := c_type col; c_nullable := c_nullable col; c_primary := c_primary col;
  c_default := c_default col;
  c_foreign_key := Some {| fk_table := str t; fk_column := str c; fk_on_delete := od |} |}.
Definition PrimaryKey (name : string) (type : sql_type) : column := {|
  c_name := str name; c_type := type; c_nullable := false; c_primary := true;
  c_default := None; c_foreign_key := None |}.
Definition VarChar (n : Z) : sql_type := TString (Some n).
Definition lit (s : string) : sql_default := DLit (str s).
Arguments Column _%_string_scope.
Arguments ForeignKey (_ _)%_string_scope.
Arguments PrimaryKey _%_string_scope.
Arguments lit _%_string_scope.

(** [sa.Column("created_at", sa.DateTime(timezone=True), server_default=sa.func.now(), ...)] *)
Definition timestamp (name : string) : column := with_default DNow (Column name TDateTime false).
Arguments timestamp _%_string_scope.

(** ** The revisions *)
Record revision := {
  rev_id : pystr;
  down_revision : option pystr;
  upgrade : list op;
  downgrade : list op;
}.

Definition rev_0001 : revision := {|
  rev_id := str "0001"; down_revision := None;
  upgrade := [
    create_table (str "users") [
      PrimaryKey "id" TUuid;
      Column "email" (VarChar 255) false;
      Column "password_hash" (VarChar 255) false;
      Column "name" (VarChar 255) false;
      with_default (lit "0") (Column "role" TSmallInteger false);
      with_default DTrue (Column "is_active" TBoolean false);
      timestamp "created_at";
      timestamp "updated_at" ] [];
    create_index (str "ix_users_email") (str "users") [str "email"] true;
    create_table (str "api_keys") [
      PrimaryKey "id" TUuid;
      ForeignKey "users" "id" CASCADE (Column "user_id" TUuid false);
      Column "label" (VarChar 128) false;
      Column "key_prefix" (VarChar 16) false;
      Column "key_hash" (VarChar 64) false;
      with_default (lit "{}") (Column "scopes" TStringArray false);
      Column "project_id" (VarChar 64) true;
      timestamp "created_at";
      Column "last_used_at" TDateTime true;
      Column "revoked_at" TDateTime true;
      Column "expires_at" TDateTime true ] [];
    create_index (str "ix_api_keys_user_id") (str "api_keys") [str "user_id"] false;
    create_index (str "ix_api_keys_key_hash") (str "api_keys") [str "key_hash"] true ];
  downgrade := [ drop_table (str "api_keys"); drop_table (str "users") ] |}.

Definition rev_0002 : revision := {|
  rev_id := str "0002"; down_revision := Some (str "0001");
  upgrade := [
    create_table (str "agents") [
      PrimaryKey "id" (VarChar 32);
      ForeignKey "users" "id" CASCADE (Column "user_id" TUuid false);
      Column "name" (VarChar 128) false;
      with_default (lit "python3.12") (Column "runtime" (VarChar 32) false);
      with_default (lit "custom") (Column "framework" (VarChar 32) false);
      with_default (lit "gpt-4o") (Column "model" (VarChar 128) false);
      Column "system_prompt" TText true;
      with_default (lit "{}") (Column "tags" TStringArray false);
      with_default (lit "{}") (Column "agent_metadata" TJson false);
      with_default (lit "pending") (Column "status" (VarChar 32) false);
      Column "error" TText true;
      Column "url" (VarChar 512) true;
      with_default (lit "1") (Column "version" TInteger false);
      with_default (lit "0") (Column "replicas" TInteger false);
      with_default (lit "1.0") (Column "cpu" TFloat false);
      with_default (lit "512") (Column "memory_mb" TInteger false);
      with_default (lit "0") (Column "gpu" TInteger false);
      Column "gpu_type" (VarChar 64) true;
      with_default (lit "10") (Column "disk_gb" TInteger false);
      with_default (lit "5") (Column "ephemeral_storage_gb" TInteger false);
      with_default (lit "[]") (Column "env" TJson false);
      Column "image" (VarChar 512) true;
      Column "build_path" (VarChar 512) true;
      Column "command" (VarChar 512) true;
      with_default (lit "{}") (Column "args" TStringArray false);
      Column "health_check_path" (VarChar 256) true;
      with_default DFalse (Column "auto_scale" TBoolean false);
      with_default (lit "1") (Column "min_replicas" TInteger false);
      with_default (lit "10") (Column "max_replicas" TInteger false);
      with_default (lit "8080") (Column "port" TInteger false);
      timestamp "created_at";
      timestamp "updated_at" ] [];
    create_index (str "ix_agents_user_id") (str "agents") [str "user_id"] false ];
  downgrade := [ drop_table (str "agents") ] |}.

Definition rev_0003 : revision := {|
  rev_id := str "0003"; down_revision := Some (str "0002");
  upgrade := [ create_extension (str "vector") ];
  downgrade := [ drop_extension (str "vector") ] |}.

Section revisions.
Context `{PgFunctions}.

(** ['agent-' || substr(md5(id), 1, 12)] *)
Definition legacy_slug (r : row) : cell :=
  match cell_of r (str "id") with
  | VText id => VText (str "agent-" ++ take 12 (md5 id))
  | _ => VNull
  end.
Definition is_null (c : pystr) (r : row) : bool := cell_of r c == VNull.

Definition rev_0004 : revision := {|
  rev_id := str "0004"; down_revision := Some (str "0003");
  upgrade := [
    add_column (str "agents") (Column "slug" (VarChar 63) true);
    update_where (str "agents") (str "slug") legacy_slug (is_null (str "slug"));
    set_not_null (str "agents") (str "slug");
    create_index (str "ix_agents_slug") (str "agents") [str "slug"] true ];
  downgrade := [
    drop_index (str "ix_agents_slug") (str "agents");
    drop_column (str "agents") (str "slug") ] |}.
End revisions.

Definition rev_0005 : revision := {|
  rev_id := str "0005"; down_revision := Some (str "0004");
  upgrade := [
    create_table (str "invites") [
      PrimaryKey "id" TUuid;
      Column "code_hash" (VarChar 64) false;
      Column "code_prefix" (VarChar 16) false;
      with_default (lit "") (Column "note" (VarChar 255) false);
      ForeignKey "users" "id" SET_NULL (Column "created_by" TUuid true);
      with_default (lit "1") (Column "max_uses" TInteger false);
      with_default (lit "0") (Column "use_count" TInteger false);
      Column "expires_at" TDateTime true;
      Column "revoked_at" TDateTime true;
      timestamp "created_at" ] [];
    create_index (str "ix_invites_code_hash") (str "invites") [str "code_hash"] true ];
  downgrade := [ drop_table (str "invites") ] |}.

(** [UPDATE users SET role = 1 WHERE role = 0] *)
Definition has_role_0 (r : row) : bool := cell_of r (str "role") == VInt 0.

Definition rev_0006 : revision := {|
  rev_id := str "0006"; down_revision := Some (str "0005");
  upgrade := [
    add_column (str "users") (with_default (lit "free") (Column "plan" (VarChar 32) false));
    update_where (str "users") (str "role") (λ _, VInt 1) has_role_0 ];
  downgrade := [ drop_column (str "users") (str "plan") ] |}.

Definition rev_0007 : revision := {|
  rev_id := str "0007"; down_revision := Some (str "0006");
  upgrade := [
    create_table (str "usage_hours") [
      PrimaryKey "id" TUuid;
      ForeignKey "users" "id" CASCADE (Column "user_id" TUuid false);
      Column "agent_id" (VarChar 32) false;
      Column "hour_start" TDateTime false;
      with_default (lit "0") (Column "replica_seconds" TFloat false);
      with_default (lit "0") (Column "vcpu_seconds" TFloat false);
      with_default (lit "0") (Column "memory_mb_seconds" TFloat false) ]
      [(str "uq_usage_hours_agent_hour", [str "agent_id"; str "hour_start"])];
    create_index (str "ix_usage_hours_user_id") (str "usage_hours") [str "user_id"] false;
    create_index (str "ix_usage_hours_hour_start") (str "usage_hours") [str "hour_start"] false ];
  downgrade := [ drop_table (str "usage_hours") ] |}.

Definition rev_0008 : revision := {|
  rev_id := str "0008"; down_revision := Some (str "0007");
  upgrade := [
    add_column (str "users") (Column "stripe_customer_id" (VarChar 64) true);
    add_column (str "users") (Column "stripe_subscription_id" (VarChar 64) true);
    add_column (str "users") (Column "subscription_status" (VarChar 32) true);
    create_index (str "ix_users_stripe_customer_id") (str "users") [str "stripe_customer_id"] true ];
  downgrade := [
    drop_index (str "ix_users_stripe_customer_id") (str "users");
    drop_column (str "users") (str "subscription_status");
    drop_column (str "users") (str "stripe_subscription_id");
    drop_column (str "users") (str "stripe_customer_id") ] |}.

Definition rev_0009 : revision := {|
  rev_id := str "0009"; down_revision := Some (str "0008");
  upgrade := [
    add_column (str "agents") (with_default (lit "public") (Column "access" (VarChar 16) false));
    add_column (str "agents") (Column "rate_limit_rpm" TInteger true);
    add_column (str "usage_hours") (with_default (lit "0") (Column "requests" TBigInteger false));
    create_table (str "agent_access_keys") [
      PrimaryKey "id" TUuid;
      ForeignKey "agents" "id" CASCADE (Column "agent_id" (VarChar 32) false);
      Column "label" (VarChar 128) false;
      Column "key_prefix" (VarChar 16) false;
      Column "key_hash" (VarChar 64) false;
      timestamp "created_at" ] [];
    create_index (str "ix_agent_access_keys_agent_id") (str "agent_access_keys") [str "agent_id"] false;
    create_index (str "ix_agent_access_keys_key_hash") (str "agent_access_keys") [str "key_hash"] true ];
  downgrade := [
    drop_table (str "agent_access_keys");
    drop_column (str "usage_hours") (str "requests");
    drop_column (str "agents") (str "rate_limit_rpm");
    drop_column (str "agents") (str "access") ] |}.

(** ** Running them *)
Section driver.
Context `{PgFunctions}.

Definition revisions : list revision :=
  [rev_0001; rev_0002; rev_0003; rev_0004; rev_0005; rev_0006; rev_0007; rev_0008; rev_0009].

(** The database with the revision [alembic_version] records. *)
Record pg := { pg_version : option pystr; pg_schema : schema; pg_data : data }.

(** The revisions after [v], along the [down_revision] links. *)
Fixpoint after (v : option pystr) (revs : list revision) : list revision :=
  match revs with
  | [] => []
  | r :: rest => if down_revision r == v then r :: rest else after v rest
  end.
Definition known_version (v : option pystr) : bool :=
  match v with None => true | Some id => bool_decide (id ∈ rev_id <$> revisions) end.

Definition run_revision (now : Z) (r : revision) (db : pg) : result ddl_error pg :=
  sd ← run_ops now (upgrade r) (pg_schema db, pg_data db);
  mret {| pg_version := Some (rev_id r); pg_schema := sd.1; pg_data := sd.2 |}.
Fixpoint run_revisions (now : Z) (revs : list revision) (db : pg) : result ddl_error pg :=
  match revs with
  | [] => Ok db
  | r :: rest => db ← run_revision now r db; run_revisions now rest db
  end.

(** [alembic upgrade head] *)
Definition upgrade_head (now : Z) (db : pg) : result ddl_error pg :=
  if known_version (pg_version db) then run_revisions now (after (pg_version db) revisions) db
  else Err UndefinedName.

(** [alembic downgrade -1] *)
Definition downgrade_one (now : Z) (db : pg) : result ddl_error pg :=
  match filter (λ r, Some (rev_id r) = pg_version db) revisions with
  | r :: _ =>
      sd ← run_ops now (downgrade r) (pg_schema db, pg_data db);
      mret {| pg_version := down_revision r; pg_schema := sd.1; pg_data := sd.2 |}
  | [] => Err UndefinedName
  end.

(** The schema after the first [k] revisions. *)
Definition schema_at (k : nat) : schema :=
  match schema_ops (concat (upgrade <$> take k revisions)) empty_schema with
  | Ok s => s
  | Err _ => empty_schema
  end.
Definition version_at (k : nat) : option pystr :=
  match k with O => None | S j => rev_id <$> revisions !! j end.
End driver.

(** ** What the models declare *)
Record mapped := { m_column : column; m_unique : bool; m_index : bool }.
Definition mapped_column (c : column) : mapped := {| m_column := c; m_unique := false; m_index := false |}.
Definition indexed (c : column) : mapped := {| m_column := c; m_unique := false; m_index := true |}.
Definition unique_indexed (c : column) : mapped := {| m_column := c; m_unique := true; m_index := true |}.

(** A model class: its table, columns and further unique constraints. *)
Record model := { md_table : pystr; md_columns : list mapped; md_uniques : list (pystr * list pystr) }.

Definition user_model : model := {|
  md_table := str "users";
  md_columns := [
    mapped_column (PrimaryKey "id" TUuid);
    unique_indexed (Column "email" (VarChar 255) false);
    mapped_column (Column "password_hash" (VarChar 255) false);
    mapped_column (Column "name" (VarChar 255) false);
    mapped_column (Column "role" TSmallInteger false);
    mapped_column (with_default (lit "free") (Column "plan" (VarChar 32) false));
    unique_indexed (Column "stripe_customer_id" (VarChar 64) true);
    mapped_column (Column "stripe_subscription_id" (VarChar 64) true);
    mapped_column (Column "subscription_status" (VarChar 32) true);
    mapped_column (Column "is_active" TBoolean false);
    mapped_column (timestamp "created_at");
    mapped_column (timestamp "updated_at") ];
  md_uniques := [] |}.

Definition agent_model : model := {|
  md_table := str "agents";
  md_columns := [
    mapped_column (PrimaryKey "id" (VarChar 32));
    indexed (ForeignKey "users" "id" CASCADE (Column "user_id" TUuid false));
    unique_indexed (Column "slug" (VarChar 63) false);
    mapped_column (Column "name" (VarChar 128) false);
    mapped_column (Column "runtime" (VarChar 32) false);
    mapped_column (Column "framework" (VarChar 32) false);
    mapped_column (Column "model" (VarChar 128) false);
    mapped_column (Column "system_prompt" TText true);
    mapped_column (Column "tags" TStringArray false);
    mapped_column (Column "agent_metadata" TJson false);
    mapped_column (Column "status" (VarChar 32) false);
    mapped_column (Column "error" TText true);
    mapped_column (Column "url" (VarChar 512) true);
    mapped_column (Column "version" TInteger false);
    mapped_column (with_default (lit "public") (Column "access" (VarChar 16) false));
    mapped_column (Column "rate_limit_rpm" TInteger true);
    mapped_column (Column "replicas" TInteger false);
    mapped_column (Column "cpu" TFloat false);
    mapped_column (Column "memory_mb" TInteger false);
    mapped_column (Column "gpu" TInteger false);
    mapped_column (Column "gpu_type" (VarChar 64) true);
    mapped_column (Column "disk_gb" TInteger false);
    mapped_column (Column "ephemeral_storage_gb" TInteger false);
    mapped_column (Column "env" TJson false);
    mapped_column (Column "image" (VarChar 512) true);
    mapped_column (Column "build_path" (VarChar 512) true);
    mapped_column (Column "command" (VarChar 512) true);
    mapped_column (Column "args" TStringArray false);
    mapped_column (Column "health_check_path" (VarChar 256) true);
    mapped_column (Column "auto_scale" TBoolean false);
    mapped_column (Column "min_replicas" TInteger false);
    mapped_column (Column "max_replicas" TInteger false);
    mapped_column (Column "port" TInteger false);
    mapped_column (timestamp "created_at");
    mapped_column (timestamp "updated_at") ];
  md_uniques := [] |}.

Definition api_key_model : model := {|
  md_table := str "api_keys";
  md_columns := [
    mapped_column (PrimaryKey "id" TUuid);
    indexed (ForeignKey "users" "id" CASCADE (Column "user_id" TUuid false));
    mapped_column (Column "label" (VarChar 128) false);
    mapped_column (Column "key_prefix" (VarChar 16) false);
    unique_indexed (Column "key_hash" (VarChar 64) false);
    mapped_column (Column "scopes" TStringArray false);
    mapped_column (Column "project_id" (VarChar 64) true);
    mapped_column (timestamp "created_at");
    mapped_column (Column "last_used_at" TDateTime true);
    mapped_column (Column "revoked_at" TDateTime true);
    mapped_column (Column "expires_at" TDateTime true) ];
  md_uniques := [] |}.

Definition access_key_model : model := {|
  md_table := str "agent_access_keys";
  md_columns := [
    mapped_column (PrimaryKey "id" TUuid);
    indexed (ForeignKey "agents" "id" CASCADE (Column "agent_id" (VarChar 32) false));
    mapped_column (Column "label" (VarChar 128) false);
    mapped_column (Column "key_prefix" (VarChar 16) false);
    unique_indexed (Column "key_hash" (VarChar 64) false);
    mapped_column (timestamp "created_at") ];
  md_uniques := [] |}.

Definition invite_model : model := {|
  md_table := str "invites";
  md_columns := [
    mapped_column (PrimaryKey "id" TUuid);
    unique_indexed (Column "code_hash" (VarChar 64) false);
    mapped_column (Column "code_prefix" (VarChar 16) false);
    mapped_column (Column "note" (VarChar 255) false);
    mapped_column (ForeignKey "users" "id" SET_NULL (Column "created_by" TUuid true));
    mapped_column (Column "max_uses" TInteger false);
    mapped_column (Column "use_count" TInteger false);
    mapped_column (Column "expires_at" TDateTime true);
    mapped_column (Column "revoked_at" TDateTime true);
    mapped_column (timestamp "created_at") ];
  md_uniques := [] |}.

Definition usage_hour_model : model := {|
  md_table := str "usage_hours";
  md_columns := [
    mapped_column (PrimaryKey "id" TUuid);
    indexed (ForeignKey "users" "id" CASCADE (Column "user_id" TUuid false));
    mapped_column (Column "agent_id" (VarChar 32) false);
    indexed (Column "hour_start" TDateTime false);
    mapped_column (Column "replica_seconds" TFloat false);
    mapped_column (Column "vcpu_seconds" TFloat false);
    mapped_column (Column "memory_mb_seconds" TFloat false);
    mapped_column (Column "requests" TBigInteger false) ];
  md_uniques := [(str "uq_usage_hours_agent_hour", [str "agent_id"; str "hour_start"])] |}.

Definition metadata : list model :=
  [user_model; agent_model; api_key_model; access_key_model; invite_model; usage_hour_model].

(** SQLAlchemy's reading of a model: an indexed column gets the index [ix_<table>_<column>],
    unique when the column is. *)
Definition model_indexes (m : model) : list (pystr * index_def) :=
  (λ c, (str "ix_" ++ md_table m ++ str "_" ++ c_name (m_column c),
         {| ix_table := md_table m; ix_columns := [c_name (m_column c)]; ix_unique := m_unique c |}))
  <$> filter (λ c, m_index c = true) (md_columns m).
Definition metadata_schema : schema := {|
  s_tables := list_to_map ((λ m, (md_table m, {| td_columns := columns_map (m_column <$> md_columns m);
                                                 td_uniques := list_to_map (md_uniques m) |})) <$> metadata);
  s_indexes := list_to_map (concat (model_indexes <$> metadata));
  s_extensions := ∅ |}.

(** ** What a migration keeps *)
Definition users_t : pystr := str "users".
Definition agents_t : pystr := str "agents".
Definition role_c : pystr := str "role".
Definition slug_c : pystr := str "slug".

(** A stored cell keeps its value; role 0 becomes role 1. *)
Definition cell_kept (t c : pystr) (v v' : cell) : Prop :=
  v' = v ∨ (t = users_t ∧ c = role_c ∧ v = VInt 0 ∧ v' = VInt 1).
Definition row_kept (t : pystr) (r r' : row) : Prop :=
  ∀ c v, r !! c = Some v → ∃ v', r' !! c = Some v' ∧ cell_kept t c v v'.
Definition data_kept (d d' : data) : Prop := ∀ t, Forall2 (row_kept t) (rows_of d t) (rows_of d' t).

#[export] Instance row_kept_preorder t : PreOrder (row_kept t).
Proof.
  split.
  - intros r c v Hv. exists v. by split; [|left].
  - intros r1 r2 r3 H12 H23 c v Hv. destruct (H12 _ _ Hv) as (v2 & Hv2 & Hk2).
    destruct (H23 _ _ Hv2) as (v3 & Hv3 & Hk3). exists v3. split; [done|].
    destruct Hk2 as [->|(-> & -> & -> & ->)]; [done|].
    destruct Hk3 as [->|(_ & _ & ? & _)]; [by right|done].
Qed.
#[export] Instance data_kept_preorder : PreOrder data_kept.
Proof.
  split.
  - intros d t. reflexivity.
  - intros d1 d2 d3 H12 H23 t. etrans; [apply H12|apply H23].
Qed.

(** The columns a statement writes, and the row it makes of a row. *)
Definition writes (o : op) (t c : pystr) : bool :=
  match o with
  | add_column t' col => (t == t') && (c == c_name col)
  | drop_column t' c' | update_where t' c' _ _ => (t == t') && (c == c')
  | drop_table t' => t == t'
  | _ => false
  end.
Definition drops (o : op) : bool := match o with drop_table _ => true | _ => false end.
Definition row_op (now : Z) (t : pystr) (o : op) (r : row) : row :=
  match o with
  | add_column t' col =>
      if decide (t = t') then <[c_name col := default_cell now (c_type col) (c_default col)]> r else r
  | drop_column t' c => if decide (t = t') then delete c r else r
  | update_where t' c e p => if decide (t = t') then if p r then <[c := e r]> r else r else r
  | _ => r
  end.
Definition row_ops (now : Z) (t : pystr) (os : list op) (r : row) : row := foldl (λ r o, row_op now t o r) r os.

Lemma row_op_rows now t o d : drops o = false → rows_of (data_op now o d) t = row_op now t o <$> rows_of d t.
Proof.
  intros Hd. destruct o; cbn [drops] in Hd; unfold row_op; cbn [data_op]; try done;
    rewrite ?rows_of_map_rows; try case_decide; solve [done | symmetry; apply list_fmap_id].
Qed.
Lemma row_ops_rows now t os d :
  forallb (negb ∘ drops) os = true → rows_of (data_ops now os d) t = row_ops now t os <$> rows_of d t.
Proof.
  revert d. unfold data_ops, row_ops. induction os as [|o os IH]; intros d; cbn.
  - intros _. by rewrite list_fmap_id.
  - intros [Ho%negb_true_iff Hos]%andb_true_iff. rewrite IH by done. rewrite row_op_rows by done.
    by rewrite <- list_fmap_compose.
Qed.
Lemma row_op_other now t o r c : writes o t c = false → row_op now t o r !! c = r !! c.
Proof.
  destruct o as [| |t' col|t' c'| | | | | |t' c' e p]; cbn; try done; case_decide as Ht; try done; subst t';
    rewrite bool_decide_eq_true_2 by done; cbn; intros Hc%bool_decide_eq_false.
  - by rewrite lookup_insert_ne.
  - by rewrite lookup_delete_ne.
  - destruct (p r); [by rewrite lookup_insert_ne|done].
Qed.
Lemma row_ops_other now t os r c :
  forallb (λ o, negb (writes o t c)) os = true → row_ops now t os r !! c = r !! c.
Proof.
  revert r. unfold row_ops. induction os as [|o os IH]; intros r; cbn; [done|].
  intros [Ho%negb_true_iff Hos]%andb_true_iff. rewrite IH by done. by apply row_op_other.
Qed.

(** No statement writes a column the schema has. *)
Definition writes_new (os : list op) (s : schema) : bool :=
  forallb (λ kt, forallb (λ c, forallb (λ o, negb (writes o kt.1 c)) os) (elements (dom (td_columns kt.2))))
    (map_to_list (s_tables s)).

Lemma writes_new_lookup now os s d t r c v :
  writes_new os s = true → conforms s d → r ∈ rows_of d t → r !! c = Some v →
  row_ops now t os r !! c = Some v.
Proof.
  intros Hw Hc Hr Hv. destruct (s_tables s !! t) as [td|] eqn:Ht.
  2:{ rewrite (rows_of_undefined s) in Hr by done. by apply not_elem_of_nil in Hr. }
  destruct (conforms_row _ _ _ _ _ Hc Ht Hr) as [Hdom _].
  rewrite row_ops_other; [done|]. unfold writes_new in Hw. rewrite forallb_forall in Hw.
  specialize (Hw (t, td)). cbn in Hw. rewrite forallb_forall in Hw. apply Hw.
  - by apply list_elem_of_In, elem_of_map_to_list.
  - apply list_elem_of_In, elem_of_elements. rewrite <- Hdom. apply elem_of_dom. by exists v.
Qed.

Lemma rows_kept now os d :
  forallb (negb ∘ drops) os = true →
  (∀ t r, r ∈ rows_of d t → row_kept t r (row_ops now t os r)) → data_kept d (data_ops now os d).
Proof.
  intros Hd Hr t. rewrite row_ops_rows by done. apply Forall2_fmap_r, Forall_Forall2_diag.
  rewrite Forall_forall. auto.
Qed.

(** [schema_ops] compared with the schema it should give, by evaluation. *)
Definition leads_to (os : list op) (s s' : schema) : bool :=
  match schema_ops os s with Ok s1 => s1 == s' | Err _ => false end.
Lemma leads_to_ok os s s' : leads_to os s s' = true → schema_ops os s = Ok s'.
Proof. unfold leads_to. destruct (schema_ops os s); [|done]. by intros ->%bool_decide_eq_true. Qed.

Section upgrades.
Context `{PgFunctions}.

Lemma schema_step k r : revisions !! k = Some r →
  schema_ops (upgrade r) (schema_at k) = Ok (schema_at (S k)) ∧
  static_ops (upgrade r) (schema_at k) = true ∧ forallb (negb ∘ drops) (upgrade r) = true.
Proof.
  do 9 (destruct k as [|k]; [intros [= <-]; split; [apply leads_to_ok|split]; vm_compute; reflexivity|]). done.
Qed.
Lemma writes_step k r : revisions !! k = Some r → k ≠ 5%nat → writes_new (upgrade r) (schema_at k) = true.
Proof.
  do 9 (destruct k as [|k]; [intros [= <-] ?; first [done | vm_compute; reflexivity]|]). done.
Qed.

Lemma rev_0006_row now t r : row_kept t r (row_ops now t (upgrade rev_0006) r) ∨ is_Some (r !! str "plan").
Proof.
  destruct (r !! str "plan") as [p|] eqn:Hp; [by right; exists p|left]. intros c v Hv.
  unfold row_ops. cbn [upgrade rev_0006 foldl row_op].
  destruct (decide (t = str "users")) as [->|]; [|exists v; by split; [|left]].
  assert (c ≠ str "plan") as Hc by congruence. set (r1 := <[_ := _]> r).
  assert (r1 !! c = Some v) as Hv1 by (subst r1; by rewrite lookup_insert_ne).
  destruct (has_role_0 r1) eqn:H0; [|exists v; by split; [|left]].
  destruct (decide (c = str "role")) as [->|Hne].
  - rewrite lookup_insert_eq. exists (VInt 1). split; [done|right]. apply bool_decide_eq_true in H0.
    unfold cell_of in H0. rewrite Hv1 in H0. cbn in H0. by subst v.
  - rewrite lookup_insert_ne by done. exists v. by split; [|left].
Qed.

Lemma upgrade_kept now k r d :
  revisions !! k = Some r → conforms (schema_at k) d → data_kept d (data_ops now (upgrade r) d).
Proof.
  intros Hr Hc. destruct (schema_step k r Hr) as (_ & _ & Hd). apply rows_kept; [done|].
  intros t row Hrow. destruct (decide (k = 5%nat)) as [->|Hk].
  - injection Hr as <-. destruct (rev_0006_row now t row) as [|[p Hp]]; [done|].
    assert (t = users_t ∨ t ≠ users_t) as [->|Ht] by (destruct (decide (t = users_t)); tauto).
    + assert (∃ td, s_tables (schema_at 5) !! users_t = Some td ∧ td_columns td !! str "plan" = None)
        as (td & Htd & Hcol) by (eexists; split; vm_compute; reflexivity).
      pose proof (row_ok_lookup _ _ _ (conforms_row _ _ _ _ _ Hc Htd Hrow) Hcol). congruence.
    + unfold row_ops. cbn [upgrade rev_0006 foldl row_op]. rewrite !decide_False by done. reflexivity.
  - intros c v Hv. exists v. split; [|by left].
    eapply (writes_new_lookup now (upgrade r)); [by apply writes_step|done..].
Qed.

(** *** No statement fails on the rows *)
Lemma column_of_added t col s s' :
  schema_op (add_column t col) s = Ok s' →
  column_of s' t (c_name col) = Some col ∧
  ∀ c, c ≠ c_name col → column_of s' t c = column_of s t c.
Proof.
  cbn. intros (td & td' & Htd & Hf & ->)%in_table_ok. case_bool_decide; [done|]. injection Hf as <-.
  unfold column_of. cbn. rewrite lookup_insert_eq, Htd. cbn. split; [apply lookup_insert_eq|].
  intros c Hc. by rewrite lookup_insert_ne.
Qed.
Lemma distinct_on_nulls c rs : Forall (λ r, cell_of r c = VNull) rs → distinct_on [c] rs.
Proof.
  intros Hn. unfold distinct_on. assert (omap (key_of [c]) rs = []) as ->; [|constructor].
  induction Hn as [|r rs Hr _ IH]; [done|]. cbn. unfold key_of. cbn. rewrite Hr.
  by rewrite bool_decide_eq_true_2 by set_solver.
Qed.
Lemma distinct_on_single c rs :
  Forall (λ r, cell_of r c ≠ VNull) rs → NoDup ((λ r, cell_of r c) <$> rs) → distinct_on [c] rs.
Proof.
  intros Hn Hd. unfold distinct_on.
  assert (omap (key_of [c]) rs = (λ v, [v]) <$> ((λ r, cell_of r c) <$> rs)) as ->.
  { clear Hd. induction Hn as [|r rs Hr _ IH]; [done|]. cbn. unfold key_of at 1. cbn.
    rewrite bool_decide_eq_false_2 by set_solver. by f_equal. }
  apply NoDup_fmap_2; [|done]. by intros ?? [= ->].
Qed.

Lemma legacy_slug_other c v r : c ≠ str "id" → legacy_slug (<[c := v]> r) = legacy_slug r.
Proof. intros. unfold legacy_slug. by rewrite cell_of_insert_ne. Qed.
Lemma legacy_slug_fits r : cell_fits (VarChar 63) (legacy_slug r) = true.
Proof.
  unfold legacy_slug. destruct (cell_of r (str "id")) as [|id| | | | |]; try done. cbn -[take length pg_text].
  apply andb_true_iff. split; [|apply bool_decide_eq_true_2].
  - apply Z.leb_le. rewrite length_app, length_take. change (length (str "agent-")) with 6%nat. lia.
  - apply Forall_app. split; [by repeat constructor|]. apply Forall_take, md5_text.
Qed.
(** What the first two statements of 0004 make of an agent. *)
Definition slugged (r : row) : row := <[slug_c := legacy_slug r]> r.
Lemma slugged_ops now r :
  row_ops now agents_t (take 2 (upgrade rev_0004)) r = slugged r.
Proof.
  unfold row_ops. cbn [upgrade rev_0004 take foldl row_op]. rewrite !decide_True by done.
  unfold is_null, cell_of. cbn [c_name Column]. rewrite lookup_insert_eq. cbn [default_cell c_default Column].
  rewrite bool_decide_eq_true_2 by done. rewrite insert_insert_eq. unfold slugged.
  by rewrite legacy_slug_other by done.
Qed.

(** Agents stored before 0004 must get different slugs. *)
Definition slugs_ready (k : nat) (d : data) : Prop :=
  (4 <= k)%nat ∨ NoDup (legacy_slug <$> rows_of d agents_t).

Lemma agent_slug_text d r :
  conforms (schema_at 3) d → r ∈ rows_of d agents_t → legacy_slug r ≠ VNull.
Proof.
  intros Hc Hr. assert (∃ td col, s_tables (schema_at 3) !! agents_t = Some td ∧ td_columns td !! str "id" = Some col
    ∧ c_nullable col = false ∧ c_type col = VarChar 32) as (td & col & Htd & Hcol & Hn & Hty)
    by (do 2 eexists; repeat split; vm_compute; reflexivity).
  destruct (conforms_row _ _ _ _ _ Hc Htd Hr) as [_ Hcell]. specialize (Hcell _ _ Hcol) as [Hnn Hfits].
  specialize (Hnn Hn). rewrite Hty in Hfits. unfold legacy_slug. by destruct (cell_of r (str "id")).
Qed.

Lemma rev_0004_dynamic now d :
  conforms (schema_at 3) d → slugs_ready 3 d → dynamic_ops now (upgrade rev_0004) (schema_at 3) d.
Proof.
  intros Hc [Hk|Hnd]; [lia|].
  set (d2 := data_ops now (take 2 (upgrade rev_0004)) d).
  assert (rows_of d2 agents_t = slugged <$> rows_of d agents_t) as Hrows.
  { subst d2. rewrite row_ops_rows by done. apply list_fmap_ext. intros i r _. apply slugged_ops. }
  assert (∀ r, cell_of (slugged r) slug_c = legacy_slug r) as Hcell
    by (intros r; unfold slugged, cell_of; by rewrite lookup_insert_eq).
  assert (Forall (λ r, cell_of r slug_c ≠ VNull) (rows_of d2 agents_t)) as Hnn.
  { rewrite Hrows, Forall_fmap. apply Forall_forall. intros r Hr. cbn. rewrite Hcell.
    by eapply agent_slug_text. }
  split; [done|]. intros s1 Hs1. split; [|intros s2 _; split; [exact Hnn|intros s3 _; split; [|done]]].
  - intros col Hcol. apply column_of_added in Hs1 as [Hs1 _]. cbn [c_name Column] in Hs1.
    unfold slug_c in Hcol. rewrite Hs1 in Hcol. injection Hcol as <-. apply Forall_forall. intros r _ _.
    split; [done|apply legacy_slug_fits].
  - apply distinct_on_single; [exact Hnn|]. change (NoDup ((λ r, cell_of r slug_c) <$> rows_of d2 agents_t)).
    rewrite Hrows, <- list_fmap_compose.
    rewrite (list_fmap_ext _ legacy_slug (rows_of d agents_t)); [done|]. intros i r _. apply Hcell.
Qed.
Lemma rev_0006_dynamic now d : dynamic_ops now (upgrade rev_0006) (schema_at 5) d.
Proof.
  split; [done|]. intros s1 Hs1. split; [|done]. intros col Hcol.
  apply column_of_added in Hs1 as [_ Hs1]. rewrite Hs1 in Hcol by done.
  assert (Some col = Some (with_default (lit "0") (Column "role" TSmallInteger false))) as [= ->]
    by (rewrite <- Hcol; vm_compute; reflexivity).
  clear. apply Forall_forall. intros r _ _. split; [by intros _|by vm_compute].
Qed.
Lemma rev_0008_dynamic now d : dynamic_ops now (upgrade rev_0008) (schema_at 7) d.
Proof.
  split; [done|]. intros s1 _. split; [done|]. intros s2 _. split; [done|]. intros s3 _. split; [|done].
  cbn [dynamic_ok]. apply distinct_on_nulls.
  change (data_op _ _ _) with (data_ops now (take 3 (upgrade rev_0008)) d).
  rewrite row_ops_rows by done. rewrite Forall_fmap. apply Forall_forall. intros r _. cbn.
  unfold row_ops. cbn [foldl row_op]. rewrite !decide_True by done. unfold cell_of.
  do 2 rewrite lookup_insert_ne by done. by rewrite lookup_insert_eq.
Qed.

(** Revisions that only create tables: their unique indexes are on empty tables. *)
Fixpoint only_new_tables (os : list op) (s : schema) : bool :=
  match os with
  | [] => true
  | o :: rest =>
      match o with
      | create_table _ _ _ | create_extension _ | add_column _ _ => true
      | create_index _ t _ u => negb u || bool_decide (s_tables s !! t = None)
      | _ => false
      end && only_new_tables rest s
  end.
Lemma only_new_tables_dynamic now os s d s0 :
  conforms s d → only_new_tables os s = true → dynamic_ops now os s0 d.
Proof.
  intros Hc. assert (∀ t, s_tables s !! t = None → rows_of d t = []) as He by eauto using rows_of_undefined.
  clear Hc. revert d s0 He. induction os as [|o os IH]; intros d s0 He; [done|].
  cbn [only_new_tables dynamic_ops]. intros [Ho Hos]%andb_true_iff. split.
  - destruct o as [| |t col| | |n t cs u| | | |]; try done. cbn in *. destruct u; [|done].
    apply bool_decide_eq_true in Ho. rewrite He by done. constructor.
  - intros s1 _. apply IH; [|done]. intros t Ht.
    destruct o as [| |t' col| | |n t' cs u| | | |]; try done; cbn; auto.
    rewrite rows_of_map_rows, He by done. by case_decide.
Qed.
Lemma upgrade_dynamic now k r d :
  revisions !! k = Some r → conforms (schema_at k) d → slugs_ready k d →
  dynamic_ops now (upgrade r) (schema_at k) d.
Proof.
  intros Hr Hc Hs. destruct (decide (k = 3%nat)) as [->|]; [injection Hr as <-; by apply rev_0004_dynamic|].
  destruct (decide (k = 5%nat)) as [->|]; [injection Hr as <-; apply rev_0006_dynamic|].
  destruct (decide (k = 7%nat)) as [->|]; [injection Hr as <-; apply rev_0008_dynamic|].
  apply (only_new_tables_dynamic _ _ (schema_at k)); [done|]. clear Hc Hs.
  revert Hr. do 9 (destruct k as [|k]; [intros [= <-]; first [done|vm_compute; reflexivity]|]). done.
Qed.

Lemma upgrade_step now k r d :
  revisions !! k = Some r → conforms (schema_at k) d → slugs_ready k d →
  run_ops now (upgrade r) (schema_at k, d) = Ok (schema_at (S k), data_ops now (upgrade r) d) ∧
  conforms (schema_at (S k)) (data_ops now (upgrade r) d) ∧
  data_kept d (data_ops now (upgrade r) d) ∧ slugs_ready (S k) (data_ops now (upgrade r) d).
Proof.
  intros Hr Hc Hs. destruct (schema_step k r Hr) as (Hstep & Hst & _).
  destruct (run_ops_ok now _ _ _ _ Hstep Hst Hc) as [Hrun Hc']; [by apply upgrade_dynamic|].
  split_and!; [done..|by eapply upgrade_kept|]. destruct (decide (3 <= k)%nat); [left; lia|right].
  destruct Hs as [|Hs]; [lia|]. destruct k as [|[|[|k]]]; [injection Hr as <-; exact Hs..|lia].
Qed.
Lemma version_after k : (k <= 9)%nat →
  known_version (version_at k) = true ∧ after (version_at k) revisions = drop k revisions.
Proof. intros Hk. do 10 (destruct k as [|k]; [split; [by vm_compute|reflexivity]|]). lia. Qed.

Lemma run_from now n k d :
  (k + n = 9)%nat → conforms (schema_at k) d → slugs_ready k d →
  ∃ d', run_revisions now (drop k revisions) {| pg_version := version_at k; pg_schema := schema_at k; pg_data := d |}
          = Ok {| pg_version := version_at 9; pg_schema := schema_at 9; pg_data := d' |} ∧
        conforms (schema_at 9) d' ∧ data_kept d d'.
Proof.
  revert k d. induction n as [|n IH]; intros k d Hk Hc Hs.
  - assert (k = 9%nat) as -> by lia. exists d. split; [|by split]. reflexivity.
  - destruct (lookup_lt_is_Some_2 revisions k) as [r Hr]; [cbn; lia|].
    destruct (upgrade_step now k r d Hr Hc Hs) as (Hrun & Hc' & Hk' & Hs').
    destruct (IH (S k) _ ltac:(lia) Hc' Hs') as (d' & Hd' & Hconf & Hkept).
    exists d'. split; [|split; [done|by etrans]]. rewrite (drop_S _ r) by done. cbn [run_revisions].
    unfold run_revision. cbn [pg_schema pg_data]. rewrite Hrun. cbn [mbind result_bind mret result_ret fst snd].
    rewrite <- Hd'. unfold version_at. cbn [version_at]. by rewrite Hr.
Qed.

(** ** Downgrading *)
Lemma schema_down k r : revisions !! k = Some r →
  schema_ops (downgrade r) (schema_at (S k)) = Ok (schema_at k) ∧
  static_ops (downgrade r) (schema_at (S k)) = true.
Proof.
  do 9 (destruct k as [|k]; [intros [= <-]; split; [apply leads_to_ok|]; vm_compute; reflexivity|]). done.
Qed.
(** Statements that only drop things cannot fail on the rows. *)
Lemma drops_dynamic now os s d :
  forallb (λ o, match o with drop_table _ | drop_column _ _ | drop_index _ _ | drop_extension _ => true
                | _ => false end) os = true → dynamic_ops now os s d.
Proof.
  revert s d. induction os as [|o os IH]; intros s d; [done|]. cbn.
  intros [Ho Hos]%andb_true_iff. split; [by destruct o|auto].
Qed.
Lemma down_dynamic now k r s d : revisions !! k = Some r → dynamic_ops now (downgrade r) s d.
Proof.
  intros Hr. apply drops_dynamic. revert Hr.
  do 9 (destruct k as [|k]; [intros [= <-]; vm_compute; reflexivity|]). done.
Qed.
Lemma downgrade_step now k r d :
  revisions !! k = Some r → conforms (schema_at (S k)) d →
  downgrade_one now {| pg_version := version_at (S k); pg_schema := schema_at (S k); pg_data := d |} =
    Ok {| pg_version := version_at k; pg_schema := schema_at k; pg_data := data_ops now (downgrade r) d |}.
Proof.
  intros Hr Hc. destruct (schema_down k r Hr) as [Hs Hst].
  destruct (run_ops_ok now _ _ _ _ Hs Hst Hc) as [Hrun _]; [by eapply down_dynamic|].
  unfold downgrade_one. cbn [pg_version pg_schema pg_data version_at]. rewrite Hr. cbn [fmap option_fmap option_map].
  assert (∃ rest, filter (λ r0, Some (rev_id r0) = Some (rev_id r)) revisions = r :: rest
    ∧ down_revision r = version_at k) as (rest & -> & Hdown).
  { clear -Hr. revert Hr.
    do 9 (destruct k as [|k]; [intros [= <-]; eexists; split; reflexivity|]). done. }
  rewrite Hrun. cbn [mbind result_bind mret result_ret fst snd]. by rewrite Hdown.
Qed.

(** What is left of the rows after an upgrade and its downgrade. *)
Definition promoted (r : row) : row := if has_role_0 r then <[role_c := VInt 1]> r else r.
Definition undone (k : nat) (t : pystr) (rs : list row) : list row :=
  if decide (k = 5%nat ∧ t = users_t) then promoted <$> rs else rs.

Lemma rows_of_delete d t t' : rows_of d t = [] → rows_of (delete t d) t' = rows_of d t'.
Proof.
  intros He. destruct (decide (t' = t)) as [->|]; unfold rows_of in *;
    [by rewrite lookup_delete_eq, He|by rewrite lookup_delete_ne].
Qed.
Lemma new_column k d t c r :
  conforms (schema_at k) d → column_of (schema_at k) t c = None → r ∈ rows_of d t → r !! c = None.
Proof.
  unfold column_of. intros Hc Hcol Hr. destruct (s_tables (schema_at k) !! t) as [td|] eqn:Ht.
  - eapply row_ok_lookup; [by eapply conforms_row|done].
  - rewrite (rows_of_undefined (schema_at k)) in Hr by done. by apply not_elem_of_nil in Hr.
Qed.
(** A table whose rows come back. *)
Lemma rows_back now now' up down d t f :
  forallb (negb ∘ drops) up = true → forallb (negb ∘ drops) down = true →
  (∀ r, r ∈ rows_of d t → row_ops now' t down (row_ops now t up r) = f r) →
  rows_of (data_ops now' down (data_ops now up d)) t = f <$> rows_of d t.
Proof.
  intros Hu Hd Hf. rewrite !row_ops_rows by done. rewrite <- list_fmap_compose.
  apply list_fmap_ext. intros i r Hi. apply Hf. by eapply list_elem_of_lookup_2.
Qed.
Lemma rows_id (rs : list row) : rs = id <$> rs.
Proof. by rewrite list_fmap_id. Qed.

Lemma back_0004 now now' d t :
  conforms (schema_at 3) d →
  rows_of (data_ops now' (downgrade rev_0004) (data_ops now (upgrade rev_0004) d)) t = rows_of d t.
Proof.
  intros Hc. rewrite (rows_id (rows_of d t)). apply rows_back; [done..|]. intros r Hr.
  destruct (decide (t = agents_t)) as [->|Ht].
  - change (row_ops now agents_t (upgrade rev_0004) r) with (row_ops now agents_t (take 2 (upgrade rev_0004)) r).
    rewrite slugged_ops. unfold row_ops. cbn [downgrade rev_0004 foldl row_op]. rewrite decide_True by done.
    unfold slugged, slug_c. apply delete_insert_id, (new_column 3 d agents_t); [done|by vm_compute|done].
  - unfold row_ops. cbn [upgrade downgrade rev_0004 foldl row_op]. by rewrite !decide_False by done.
Qed.
Lemma back_0006 now now' d t :
  conforms (schema_at 5) d →
  rows_of (data_ops now' (downgrade rev_0006) (data_ops now (upgrade rev_0006) d)) t = undone 5 t (rows_of d t).
Proof.
  intros Hc. assert (undone 5 t (rows_of d t) = (if decide (t = users_t) then promoted else id) <$> rows_of d t) as ->.
  { unfold undone. destruct (decide (t = users_t)); [by rewrite decide_True|]. rewrite decide_False by naive_solver.
    apply rows_id. }
  apply rows_back; [done..|]. intros r Hr. unfold row_ops. cbn [upgrade downgrade rev_0006 foldl row_op].
  destruct (decide (t = str "users")) as [->|Ht]; [|by rewrite (decide_False (P := t = users_t)) by done].
  rewrite (decide_True (P := str "users" = users_t)) by done.
  assert (r !! str "plan" = None) as Hp by (apply (new_column 5 d (str "users")); [done|by vm_compute|exact Hr]).
  unfold promoted, has_role_0. cbn [c_name with_default Column]. rewrite cell_of_insert_ne by done.
  case_bool_decide; [|by apply delete_insert_id]. rewrite delete_insert_ne by done.
  by rewrite delete_insert_id.
Qed.
Ltac undo_columns k d t :=
  repeat (rewrite delete_insert_id; [|rewrite ?lookup_insert_ne by done; apply (new_column k d t);
    [done|vm_compute; reflexivity|done]]).
Lemma back_0008 now now' d t :
  conforms (schema_at 7) d →
  rows_of (data_ops now' (downgrade rev_0008) (data_ops now (upgrade rev_0008) d)) t = rows_of d t.
Proof.
  intros Hc. rewrite (rows_id (rows_of d t)). apply rows_back; [done..|]. intros r Hr.
  unfold row_ops. cbn [upgrade downgrade rev_0008 foldl row_op].
  destruct (decide (t = str "users")) as [->|Ht]; [|done]. cbn [c_name Column]. by undo_columns 7%nat d (str "users").
Qed.
Lemma back_0009 now now' d t :
  conforms (schema_at 8) d →
  rows_of (data_ops now' (downgrade rev_0009) (data_ops now (upgrade rev_0009) d)) t = rows_of d t.
Proof.
  intros Hc. set (t0 := str "agent_access_keys").
  assert (rows_of d t0 = []) as He by (apply (rows_of_undefined (schema_at 8)); [done|by vm_compute]).
  assert (rows_of (data_ops now (upgrade rev_0009) d) t0 = []) as He'
    by (rewrite row_ops_rows by done; by rewrite He).
  change (data_ops now' (downgrade rev_0009) ?d2) with
    (data_ops now' (drop 1 (downgrade rev_0009)) (delete t0 d2)).
  rewrite row_ops_rows, rows_of_delete, row_ops_rows by done. rewrite <- list_fmap_compose.
  etrans; [|symmetry; apply rows_id]. apply list_fmap_ext. intros i r Hr%list_elem_of_lookup_2. cbn [compose].
  unfold row_ops. cbn [upgrade downgrade rev_0009 drop foldl row_op c_name Column with_default].
  destruct (decide (t = str "agents")) as [->|Ht].
  - rewrite !(decide_False (P := str "agents" = str "usage_hours")) by done. by undo_columns 8%nat d (str "agents").
  - destruct (decide (t = str "usage_hours")) as [->|]; [|done]. by undo_columns 8%nat d (str "usage_hours").
Qed.

(** Tables that are created and dropped again. *)
Lemma rows_back_tables now now' up down d ts t :
  data_ops now up d = d → down = drop_table <$> ts → Forall (λ t, rows_of d t = []) ts →
  rows_of (data_ops now' down (data_ops now up d)) t = rows_of d t.
Proof.
  intros -> -> He. revert d He. unfold data_ops. induction ts as [|t0 ts IH]; intros d He; [done|].
  cbn. inversion_clear He as [|?? H0 Hts]. rewrite IH; [by apply rows_of_delete|].
  eapply Forall_impl; [exact Hts|]. intros t1 H1. by rewrite rows_of_delete.
Qed.

Lemma rows_restored now now' k r d t :
  revisions !! k = Some r → conforms (schema_at k) d →
  rows_of (data_ops now' (downgrade r) (data_ops now (upgrade r) d)) t = undone k t (rows_of d t).
Proof.
  intros Hr Hc.
  assert (∀ t', s_tables (schema_at k) !! t' = None → rows_of d t' = []) as He by eauto using rows_of_undefined.
  destruct (decide (k = 5%nat)) as [->|Hk]; [injection Hr as <-; by apply back_0006|].
  unfold undone. rewrite decide_False by tauto.
  destruct k as [|[|[|[|[|[|[|[|[|k]]]]]]]]]; injection Hr as <- || done;
    [| | |by apply back_0004| |done| |by apply back_0008|by apply back_0009].
  - apply rows_back_tables with [str "api_keys"; str "users"]; [done..|].
    repeat constructor; apply He; vm_compute; reflexivity.
  - apply rows_back_tables with [str "agents"]; [done..|]. repeat constructor; apply He; vm_compute; reflexivity.
  - done.
  - apply rows_back_tables with [str "invites"]; [done..|]. repeat constructor; apply He; vm_compute; reflexivity.
  - apply rows_back_tables with [str "usage_hours"]; [done..|]. repeat constructor; apply He; vm_compute; reflexivity.
Qed.

Lemma run_from_schema now n k d db :
  (k + n = 9)%nat →
  run_revisions now (drop k revisions) {| pg_version := version_at k; pg_schema := schema_at k; pg_data := d |}
    = Ok db → pg_version db = version_at 9 ∧ pg_schema db = schema_at 9.
Proof.
  revert k d. induction n as [|n IH]; intros k d Hk.
  - assert (k = 9%nat) as -> by lia. cbn [drop run_revisions revisions]. by intros [= <-].
  - destruct (lookup_lt_is_Some_2 revisions k) as [r Hr]; [cbn; lia|].
    rewrite (drop_S _ r) by done. cbn [run_revisions]. unfold run_revision at 1. cbn [pg_schema pg_data].
    destruct (run_ops now (upgrade r) (schema_at k, d)) as [[s d1]|e] eqn:E; cbn [mbind result_bind]; [|done].
    apply run_ops_inv in E as (Hs & -> & _). destruct (schema_step k r Hr) as (Hstep & _).
    rewrite Hstep in Hs. injection Hs as <-. cbn [mret result_ret mbind result_bind fst snd].
    replace (Some (rev_id r)) with (version_at (S k)) by (cbn [version_at]; by rewrite Hr).
    apply IH. lia.
Qed.
End upgrades.

(** ** The theorems *)
(** Tables, columns with their types and keys, unique constraints and indexes; a server default
    is what an [INSERT] without the column would use, and SQLAlchemy always names the column when
    the model has a Python-side default. *)
Definition without_default (c : column) : column := {|
  c_name := c_name c; c_type := c_type c; c_nullable := c_nullable c; c_primary := c_primary c;
  c_default := None; c_foreign_key := c_foreign_key c |}.
Definition shape (s : schema) : gmap pystr table_def * gmap pystr index_def :=
  ((λ td, td <| td_columns := without_default <$> td_columns td |>) <$> s_tables s, s_indexes s).
(** The server defaults a model declares are in the database. *)
Definition declared_defaults (s db : schema) : Prop :=
  map_Forall (λ t td, map_Forall (λ c col, c_default col = None ∨
    (column_of db t c ≫= c_default) = c_default col) (td_columns td)) (s_tables s).
#[export] Instance declared_defaults_dec s db : Decision (declared_defaults s db).
Proof. unfold declared_defaults. apply _. Defined.

Section theorems.
Context `{PgFunctions}.

Lemma head_matches : bool_decide (shape (schema_at 9) = shape metadata_schema) = true ∧
  bool_decide (declared_defaults metadata_schema (schema_at 9)) = true.
Proof. split; vm_compute; reflexivity. Qed.

(** C15: running the migration scripts from any revision (from the empty database too), whenever
    it succeeds, leaves the database at 0009 with exactly the tables, columns, keys, unique
    constraints and indexes that the SQLAlchemy models declare, and with the server defaults
    they declare. *)
Theorem migrations_match_models now k d db :
  (k <= 9)%nat →
  upgrade_head now {| pg_version := version_at k; pg_schema := schema_at k; pg_data := d |} = Ok db →
  pg_version db = Some (str "0009") ∧ shape (pg_schema db) = shape metadata_schema ∧
  declared_defaults metadata_schema (pg_schema db).
Proof.
  intros Hk. unfold upgrade_head. cbn [pg_version]. destruct (version_after k Hk) as [-> ->].
  intros (Hv & Hs)%(run_from_schema now (9 - k)); [|lia]. rewrite Hv, Hs.
  destruct head_matches as [Hsh Hdef]. split_and!; [done|exact (bool_decide_eq_true_1 _ Hsh)|exact (bool_decide_eq_true_1 _ Hdef)].
Qed.

(** C21: [alembic upgrade head] succeeds on every database that conforms to the schema of some
    revision, and loses nothing: the rows stay in place with every stored cell as it was, except
    that role 0 becomes role 1, and the new columns satisfy the constraints put on them.  Agents
    from before 0004 need different slugs, which the twelve digits of [md5] give them unless
    they collide. *)
Theorem upgrade_keeps_data now k d :
  (k <= 9)%nat → conforms (schema_at k) d → slugs_ready k d →
  ∃ d', upgrade_head now {| pg_version := version_at k; pg_schema := schema_at k; pg_data := d |} =
          Ok {| pg_version := version_at 9; pg_schema := schema_at 9; pg_data := d' |} ∧
        conforms (schema_at 9) d' ∧ data_kept d d'.
Proof.
  intros Hk Hc Hs. unfold upgrade_head. cbn [pg_version]. destruct (version_after k Hk) as [-> ->].
  by apply (run_from now (9 - k)); [lia|..].
Qed.

(** C35: a revision and its [downgrade] are inverse: on every database that conforms to the
    schema before it the revision applies, its downgrade applies to the result, and gives back
    the version, the schema and the rows, except that 0006 leaves role 0 as role 1. *)
Theorem downgrade_restores now now' k r d :
  revisions !! k = Some r → conforms (schema_at k) d → slugs_ready k d →
  ∃ db d', run_revision now r {| pg_version := version_at k; pg_schema := schema_at k; pg_data := d |} = Ok db ∧
    downgrade_one now' db = Ok {| pg_version := version_at k; pg_schema := schema_at k; pg_data := d' |} ∧
    ∀ t, rows_of d' t = undone k t (rows_of d t).
Proof.
  intros Hr Hc Hs. destruct (upgrade_step now k r d Hr Hc Hs) as (Hrun & Hc' & _).
  eexists _, _. split_and!.
  - unfold run_revision. cbn [pg_schema pg_data]. rewrite Hrun. reflexivity.
  - cbn [fst snd]. replace (Some (rev_id r)) with (version_at (S k)) by (cbn [version_at]; by rewrite Hr).
    by apply (downgrade_step now' k r).
  - intros t. by apply rows_restored.
Qed.
End theorems.

(** 0006 makes every viewer a developer, and leaves viewer as what the database itself gives
    to an account inserted without a role. *)
Theorem role_server_default_stays_viewer `{PgFunctions} :
  (column_of (schema_at 9) users_t role_c ≫= c_default) = Some (lit "0").
Proof. vm_compute. reflexivity. Qed.

(** *** Evaluated examples *)
(** A digest that keeps ids apart. *)
#[local] Instance demo_md5 : PgFunctions := id.
(** Two users, one of each role, as of 0001 to 0005. *)
Definition demo_user (id role : Z) : row := list_to_map [
  (str "id", VRaw [Z.to_N id]); (str "email", VText [Z.to_N id]); (str "password_hash", VText []);
  (str "name", VText []); (str "role", VInt role); (str "is_active", VBool true);
  (str "created_at", VTime 0); (str "updated_at", VTime 0)].
Definition demo_users : data := {[ users_t := [demo_user 1 0; demo_user 2 2] ]}.

Theorem migrations_match_models_witness :
  ∃ db, upgrade_head 0 {| pg_version := version_at 1; pg_schema := schema_at 1;
          pg_data := demo_users |} = Ok db ∧ shape (pg_schema db) = shape metadata_schema.
Proof.
  destruct (upgrade_head 0 {| pg_version := version_at 1; pg_schema := schema_at 1;
    pg_data := demo_users |}) as [db|e] eqn:E.
  - exists db. split; [done|].
    exact (proj1 (proj2 (migrations_match_models 0 1 demo_users db ltac:(lia) E))).
  - exfalso. assert (is_ok (upgrade_head 0 {| pg_version := version_at 1; pg_schema := schema_at 1;
      pg_data := demo_users |}) = true) as Hok by (vm_compute; reflexivity).
    rewrite E in Hok. discriminate Hok.
Defined.
Theorem upgrade_keeps_data_witness :
  ∃ d', upgrade_head 0 {| pg_version := version_at 1; pg_schema := schema_at 1; pg_data := demo_users |} =
          Ok {| pg_version := version_at 9; pg_schema := schema_at 9; pg_data := d' |} ∧
        conforms (schema_at 9) d' ∧ data_kept demo_users d'.
Proof.
  apply (upgrade_keeps_data 0 1 demo_users); [lia| |].
  - refine (bool_decide_eq_true_1 _ _). vm_compute. reflexivity.
  - right. constructor.
Defined.
Theorem downgrade_restores_witness :
  ∃ db d', run_revision 0 rev_0006 {| pg_version := version_at 5;
      pg_schema := schema_at 5; pg_data := demo_users |} = Ok db ∧
    downgrade_one 7 db = Ok {| pg_version := version_at 5;
      pg_schema := schema_at 5; pg_data := d' |} ∧
    ∀ t, rows_of d' t = undone 5 t (rows_of demo_users t).
Proof.
  apply (downgrade_restores 0 7 5 rev_0006 demo_users); [done| |].
  - refine (bool_decide_eq_true_1 _ _). vm_compute. reflexivity.
  - left. lia.
Defined.
