(* ===== verification/Coroutine.v ===== *)
(** Handlers as coroutines: what interleaves when requests run at the same time.

    An asyncio handler runs until an [await] and then other handlers may run.  A [proc] is a
    handler cut at its awaits: each [Await] is one indivisible action on what the handlers
    share, the committed database and the container runtime, followed by the rest of the
    handler.  PostgreSQL runs in its default isolation, READ COMMITTED: each [SELECT] sees what
    is committed at its moment.  The statements of a [flush] and the [COMMIT] after it are one
    action: the rows they write are locked in between, and nobody sees them before.

    The session ([AsyncSession], [expire_on_commit=False] in [db.py]) does not write whole
    rows: an [UPDATE] sets the columns whose value differs from the one that was loaded
    ([merge_row]), is left out when there are none, and raises [StaleDataError] when its row
    is gone. *)

From Stdlib Require Import SpecFloat.
From S2P Require Import Prelude PyText PyFloat Config Errors Plans Models Runtime IngressLimits.
From S2P Require Import World Schemas Fixtures Quota Hostnames AgentEnv AgentService AgentLifecycle.

Section proc.
Context {R : Type}.

(** [Await act next]: [act] is the change of the shared state and [next] the rest of the
    handler, both from the state the action finds. *)
Inductive proc (A : Type) : Type :=
| Done (r : result exn A)
| Await (act : db * R → db * R) (next : db * R → proc A).
Arguments Done {A}.
Arguments Await {A}.

Fixpoint proc_then {A B} (k : A → proc B) (p : proc A) : proc B :=
  match p with
  | Done (Ok a) => k a
  | Done (Err e) => Done (Err e)
  | Await act next => Await act (λ s, proc_then k (next s))
  end.
#[global] Instance proc_ret : MRet proc := λ _ a, Done (Ok a).
#[global] Instance proc_bind : MBind proc := λ _ _ k p, proc_then k p.

(** The handler with nobody else running. *)
Fixpoint alone {A} (p : proc A) (s : db * R) : (db * R) * result exn A :=
  match p with
  | Done r => (s, r)
  | Await act next => alone (next s) (act s)
  end.

(** ** Actions *)
(** A [SELECT] and what the code makes of its rows. *)
Definition fetch {A} (f : db → result exn A) : proc A := Await id (λ s, Done (f s.1)).
(** The statements of a flush, then [COMMIT]: all or nothing. *)
Definition committing (f : db → result exn db) (d : db) : result exn db :=
  match f d with
  | Ok d' => if decide (db_ok d') then Ok d' else Err IntegrityError
  | Err e => Err e
  end.
Definition transact (f : db → result exn db) : proc unit :=
  Await (λ s, match committing f s.1 with Ok d => (d, s.2) | Err _ => s end)
        (λ s, Done (match committing f s.1 with Ok _ => Ok tt | Err e => Err e end)).
(** A call of the runtime in a worker thread; the caller handles its exception. *)
Definition call {A} (f : R → R * result core_exn A) : proc (result core_exn A) :=
  Await (λ s, (s.1, (f s.2).1)) (λ s, Done (Ok (f s.2).2)).
(** A call of the runtime that does not wait. *)
Definition inspect {A} (f : R → A) : proc A := Await id (λ s, Done (Ok (f s.2))).

Lemma alone_bind {A B} (p : proc A) (k : A → proc B) s :
  alone (p ≫= k) s =
  match alone p s with (s', Ok a) => alone (k a) s' | (s', Err e) => (s', Err e) end.
Proof. revert s. induction p as [[a|e]|act next IH]; intros s; [done|done|]. apply IH. Qed.
End proc.
Arguments proc : clear implicits.
Arguments Done {R A}.
Arguments Await {R A}.

(** ** Row updates of the session *)
#[export] Instance float_eq : EqDecision float.
Proof. solve_decision. Defined.
#[export] Instance AgentRuntimeKind_eq : EqDecision AgentRuntimeKind.
Proof. solve_decision. Defined.
#[export] Instance Agent_eq : EqDecision Agent.Agent.
Proof. solve_decision. Defined.

(** The value of a column after the [UPDATE] that turns [old] into [new]: the new one when
    it was changed, else whatever the row has by now. *)
Definition pick {X} `{EqDecision X} (f : Agent.Agent → X) (old new row : Agent.Agent) : X :=
  if decide (f new = f old) then f row else f new.

Definition merge_row (old new row : Agent.Agent) : Agent.Agent :=
  let pick {X} `{EqDecision X} f := pick (X := X) f old new row in {|
  Agent.id := pick Agent.id; Agent.user_id := pick Agent.user_id; Agent.slug := pick Agent.slug;
  Agent.name := pick Agent.name; Agent.runtime := pick Agent.runtime;
  Agent.framework := pick Agent.framework; Agent.model := pick Agent.model;
  Agent.system_prompt := pick Agent.system_prompt; Agent.tags := pick Agent.tags;
  Agent.agent_metadata := pick Agent.agent_metadata; Agent.status := pick Agent.status;
  Agent.error := pick Agent.error; Agent.version := pick Agent.version;
  Agent.access := pick Agent.access; Agent.rate_limit_rpm := pick Agent.rate_limit_rpm;
  Agent.replicas := pick Agent.replicas; Agent.cpu := pick Agent.cpu;
  Agent.memory_mb := pick Agent.memory_mb; Agent.gpu := pick Agent.gpu;
  Agent.gpu_type := pick Agent.gpu_type; Agent.disk_gb := pick Agent.disk_gb;
  Agent.ephemeral_storage_gb := pick Agent.ephemeral_storage_gb; Agent.env := pick Agent.env;
  Agent.image := pick Agent.image; Agent.build_path := pick Agent.build_path;
  Agent.command := pick Agent.command; Agent.args := pick Agent.args;
  Agent.health_check_path := pick Agent.health_check_path;
  Agent.auto_scale := pick Agent.auto_scale; Agent.min_replicas := pick Agent.min_replicas;
  Agent.max_replicas := pick Agent.max_replicas; Agent.port := pick Agent.port;
  Agent.created_at := pick Agent.created_at |}.

Lemma pick_old {X} `{EqDecision X} (f : Agent.Agent → X) old new : pick f old new old = f new.
Proof. unfold pick. by case_decide. Qed.
Lemma pick_kept {X} `{EqDecision X} (f : Agent.Agent → X) old new row :
  f new = f old → pick f old new row = f row.
Proof. intros Hf. unfold pick. by rewrite decide_True. Qed.
(** On the row that was loaded the update gives the row that was meant. *)
Lemma merge_row_old old new : merge_row old new old = new.
Proof. unfold merge_row. rewrite !pick_old. by destruct new. Qed.

Definition StaleDataError : exn := ForeignError (str "StaleDataError").
Definition InvalidRequestError : exn := ForeignError (str "InvalidRequestError").

(** Flushing a loaded agent that now has the attributes of [new]. *)
Definition flush_agent (old new : Agent.Agent) (d : db) : result exn db :=
  if decide (new = old) then Ok d else
  match agents d !! Agent.id old with
  | None => Err StaleDataError
  | Some row => Ok (put_agent (merge_row old new row) d)
  end.
(** [db.add(agent)] and [db.delete(agent)], flushed; deleting no row is only a warning. *)
Definition insert_agent (a : Agent.Agent) (d : db) : result exn db :=
  if decide (is_Some (agents d !! Agent.id a)) then Err IntegrityError else Ok (put_agent a d).
Definition drop_agent (aid : pystr) (d : db) : result exn db := Ok (remove_agent aid d).

Section session.
Context {R : Type}.

Definition commit_agent (old new : Agent.Agent) : proc R unit := transact (flush_agent old new).
(** [await db.refresh(agent)] *)
Definition refresh_agent (aid : pystr) : proc R Agent.Agent :=
  fetch (λ d, match agents d !! aid with Some a => Ok a | None => Err InvalidRequestError end).
End session.

(** ** Coroutines and atomic handlers

    [sim P m p Q]: from rest on a consistent database that satisfies [P], handler [m] run as
    one step and coroutine [p] run alone end on the same database and runtime with the same
    result; a returned value [a] and the database then satisfy [Q a]. *)
Section simulation.
Context {R : Type} (t : datetime).
Implicit Types (w : world R) (d : db).

Definition sim {A} (P : db → Prop) (m : MW R A) (p : proc R A) (Q : A → db → Prop) : Prop :=
  ∀ d w, now w = t → db_ok d → P d →
  ∃ d' rt' r, m (publish d w) = (publish d' (w <| runtime := rt' |>), r) ∧
    alone p (d, runtime w) = ((d', rt'), r) ∧ db_ok d' ∧ ∀ a, r = Ok a → Q a d'.

(** The same for a handler and a coroutine that return different values. *)
Definition simr {A B} (P : db → Prop) (m : MW R A) (p : proc R B) (Q : A → B → db → Prop) : Prop :=
  ∀ d w, now w = t → db_ok d → P d →
  ∃ d' rt' r r', m (publish d w) = (publish d' (w <| runtime := rt' |>), r) ∧
    alone p (d, runtime w) = ((d', rt'), r') ∧ db_ok d' ∧
    match r, r' with Ok a, Ok b => Q a b d' | Err e, Err e' => e = e' | _, _ => False end.

Lemma simr_bind {A B A' B'} P (m : MW R A) (p : proc R B) Q (k : A → MW R A') (k' : B → proc R B') Q' :
  simr P m p Q → (∀ a b, simr (Q a b) (k a) (k' b) Q') → simr P (m ≫= k) (p ≫= k') Q'.
Proof.
  intros Hm Hk d w Ht Hd HP. destruct (Hm d w Ht Hd HP) as (d1 & rt1 & r1 & r1' & E & E' & Hd1 & HQ).
  rewrite bind_run, alone_bind, E, E'. destruct r1 as [a|e], r1' as [b|e']; try done.
  - set (w1 := w <| runtime := rt1 |>). exact (Hk a b d1 w1 Ht Hd1 HQ).
  - by exists d1, rt1, (Err e), (Err e').
Qed.
Lemma simr_of_sim {A} P (m : MW R A) p Q : sim P m p Q → simr P m p (λ a b d, a = b ∧ Q a d).
Proof.
  intros Hs d w Ht Hd HP. destruct (Hs d w Ht Hd HP) as (d' & rt' & r & E & E' & Hd' & HQ).
  exists d', rt', r, r. destruct r; eauto 10.
Qed.
Lemma sim_of_simr {A} P (m : MW R A) p (Q : A → A → db → Prop) (Q' : A → db → Prop) :
  simr P m p Q → (∀ a b d, Q a b d → a = b ∧ Q' a d) → sim P m p Q'.
Proof.
  intros Hs HQ d w Ht Hd HP. destruct (Hs d w Ht Hd HP) as (d' & rt' & r & r' & E & E' & Hd' & Hr).
  exists d', rt', r. destruct r as [a|e], r' as [b|e']; try done.
  - destruct (HQ a b d' Hr) as [-> Hq]. split_and!; [done..|]. by intros ? [= <-].
  - subst e'. by split_and!.
Qed.
Lemma simr_weaken {A B} (P P' : db → Prop) (m : MW R A) (p : proc R B) Q :
  simr P' m p Q → (∀ d, db_ok d → P d → P' d) → simr P m p Q.
Proof. intros Hs HP d w Ht Hd Hd'. by apply Hs, HP. Qed.
Lemma simr_with {A B} (φ : Prop) (P : db → Prop) (m : MW R A) (p : proc R B) Q :
  (∀ d, db_ok d → P d → φ) → (φ → simr P m p Q) → simr P m p Q.
Proof. intros Hφ Hs d w Ht Hd HP. by apply (Hs (Hφ d Hd HP) d w). Qed.
Lemma simr_ret {A B} (a : A) (b : B) (Q : A → B → db → Prop) : simr (Q a b) (mret a) (mret b) Q.
Proof. intros d w Ht Hd HP. exists d, (runtime w), (Ok a), (Ok b). split_and!; [by destruct w|done..]. Qed.
Lemma simr_return {A B C} P (m : MW R A) (p : proc R B) (c : C) Q :
  simr P m p (λ a _, Q a c) → simr P m (p;; mret c) Q.
Proof.
  intros Hs d w Ht Hd HP. destruct (Hs d w Ht Hd HP) as (d' & rt' & r & r' & E & E' & Hd' & Hr).
  rewrite alone_bind, E'. destruct r as [a|e], r' as [b|e']; try done.
  - exists d', rt', (Ok a), (Ok c). done.
  - exists d', rt', (Err e), (Err e'). done.
Qed.

Lemma sim_bind {A B} P (m : MW R A) p Q (k : A → MW R B) (k' : A → proc R B) Q' :
  sim P m p Q → (∀ a, sim (Q a) (k a) (k' a) Q') → sim P (m ≫= k) (p ≫= k') Q'.
Proof.
  intros Hm Hk d w Ht Hd HP. destruct (Hm d w Ht Hd HP) as (d1 & rt1 & r1 & E & E' & Hd1 & HQ).
  rewrite bind_run, alone_bind, E, E'. destruct r1 as [a|e].
  - set (w1 := w <| runtime := rt1 |>). exact (Hk a d1 w1 Ht Hd1 (HQ a eq_refl)).
  - by exists d1, rt1, (Err e).
Qed.
(** A step of the coroutine that does nothing to the state. *)
Lemma sim_then {A B} P (m : MW R B) (p : proc R A) (k : A → proc R B) (f : db → A) Q :
  (∀ d rt, db_ok d → P d → alone p (d, rt) = ((d, rt), Ok (f d))) →
  (∀ a, sim (λ d, P d ∧ a = f d) m (k a) Q) → sim P m (p ≫= k) Q.
Proof.
  intros Hp Hk d w Ht Hd HP. destruct (Hk (f d) d w Ht Hd (conj HP eq_refl)) as (d' & rt' & r & E & E' & HQ).
  exists d', rt', r. rewrite alone_bind, Hp by done. done.
Qed.
Lemma sim_weaken {A} (P P' : db → Prop) (m : MW R A) p (Q Q' : A → db → Prop) :
  sim P' m p Q' → (∀ d, P d → P' d) → (∀ a d, Q' a d → Q a d) → sim P m p Q.
Proof.
  intros Hs HP HQ d w Ht Hd Hd'. destruct (Hs d w Ht Hd (HP d Hd')) as (d' & rt' & r & ? & ? & ? & ?).
  exists d', rt', r. naive_solver.
Qed.
Lemma sim_with {A} (φ : Prop) (P : db → Prop) (m : MW R A) p Q :
  (∀ d, db_ok d → P d → φ) → (φ → sim P m p Q) → sim P m p Q.
Proof. intros Hφ Hs d w Ht Hd HP. by apply (Hs (Hφ d Hd HP) d w). Qed.

Lemma sim_still {A} P (m : MW R A) p (f : db → result exn A) Q :
  (∀ d w, now w = t → P d → m (publish d w) = (publish d w, f d)) →
  (∀ d rt, db_ok d → P d → alone p (d, rt) = ((d, rt), f d)) →
  (∀ d a, db_ok d → P d → f d = Ok a → Q a d) → sim P m p Q.
Proof.
  intros Hm Hp HQ d w Ht Hd HP. exists d, (runtime w), (f d). rewrite Hm, Hp by done.
  split_and!; [by destruct w|done|done|eauto].
Qed.
Lemma sim_ret {A} (a : A) (Q : A → db → Prop) : sim (Q a) (mret a) (mret a) Q.
Proof. apply (sim_still _ _ _ (λ _, Ok a)); [done|done|]. by intros d b _ HP [= <-]. Qed.
Lemma sim_return {A} P (a : A) : sim P (mret a) (mret a) (λ _ _, True).
Proof. by apply (sim_still _ _ _ (λ _, Ok a)). Qed.
Lemma sim_raise {A} P e (Q : A → db → Prop) : sim P (raise e) (Done (Err e)) Q.
Proof. by apply (sim_still _ _ _ (λ _, Err e)). Qed.
(** The handler's own reading of the clock. *)
Lemma sim_now {A} P (k : datetime → MW R A) p Q : sim P (k t) p Q → sim P (gets now ≫= k) p Q.
Proof.
  intros Hk d w Ht Hd HP. rewrite bind_run. cbn [gets]. change (now (publish d w)) with (now w). rewrite Ht.
  by apply Hk.
Qed.

Lemma sim_call {A} (P : db → Prop) (f : R → R * result core_exn A) :
  sim P (on_runtime f) (call f) (λ _, P).
Proof.
  intros d w Ht Hd HP. rewrite on_runtime_publish. cbn. destruct (f (runtime w)) as [rt a]. cbn. eauto 10.
Qed.
Lemma sim_inspect {A} (P : db → Prop) (f : R → A) :
  sim P (gets (λ w, f (runtime w))) (inspect f) (λ _, P).
Proof. intros d w Ht Hd HP. exists d, (runtime w). eexists. split_and!; [by destruct w|done|done|done]. Qed.

(** Changing rows and committing. *)
Lemma sim_update (P : db → Prop) f g :
  (∀ d, db_ok d → P d → f d = Ok (g d) ∨ f d = Err IntegrityError ∧ ¬ db_ok (g d)) →
  sim P (update g;; commit) (transact f) (λ _ d, ∃ d0, db_ok d0 ∧ P d0 ∧ d = g d0).
Proof.
  intros Hf d w Ht Hd HP. rewrite update_commit_run. cbn. unfold committing.
  destruct (Hf d Hd HP) as [->|[-> Hn]].
  - case_decide as Hok; [exists (g d), (runtime w)|exists d, (runtime w)]; eexists;
      (split_and!; [by destruct w|done|done|]); [intros [] _; eauto|done].
  - rewrite decide_False by done. exists d, (runtime w). eexists. split_and!; [by destruct w|done|done|done].
Qed.
Lemma simr_update (P P' : db → Prop) f g :
  (∀ d, db_ok d → P d → f d = Ok (g d)) → (∀ d, P d → P' (g d)) →
  simr P (update g;; commit) (transact f) (λ _ _, P').
Proof.
  intros Hf HP d w Ht Hd Hd'. destruct (sim_update P f g) with (d := d) (w := w)
    as (d' & rt' & r & E & E' & Hok & HQ); [by left; apply Hf|done..|].
  exists d', rt', r, r. split_and!; [done..|]. destruct r as [u|]; [|done].
  destruct (HQ u eq_refl) as (d0 & _ & Hd0 & ->). by apply HP.
Qed.

Definition has_row (a : Agent.Agent) d : Prop := agents d !! Agent.id a = Some a.

Lemma flush_loaded a a' d :
  has_row a d → Agent.id a' = Agent.id a → flush_agent a a' d = Ok (put_agent a' d).
Proof.
  intros Ha Hid. unfold flush_agent. case_decide as He; [subst a'; by rewrite put_agent_same|].
  by rewrite Ha, merge_row_old.
Qed.
Lemma sim_commit_agent {B} a a' (k : Agent.Agent → MW R B) (p : proc R B) Q :
  Agent.id a' = Agent.id a → sim (has_row a') (k a') p Q →
  sim (has_row a) (save_commit a' ≫= k) (commit_agent a a' ≫= λ _, p) Q.
Proof.
  intros Hid Hk. assert (sim (has_row a) (save_agent a';; commit) (commit_agent a a')
    (λ _ d, ∃ d0, db_ok d0 ∧ has_row a d0 ∧ d = put_agent a' d0)) as Hs.
  { apply sim_update. intros d _ Ha. left. by apply flush_loaded. }
  intros d w Ht Hd Ha. unfold save_commit.
  destruct (sim_bind _ _ _ _ (λ _, k a') (λ _, p) Q Hs) with (d := d) (w := w)
    as (d' & rt' & r & E & E' & Hrest); [|done..|].
  - intros []. eapply sim_weaken; [exact Hk| |done]. intros d1 (d0 & _ & _ & ->). apply lookup_insert_eq.
  - exists d', rt', r. split; [|done]. rewrite <- E. unfold save_agent.
    rewrite (bind_run (update _;; commit;; mret a')), (bind_run (update _;; commit)).
    rewrite update_commit_publish, update_commit_run. by case_decide.
Qed.
Lemma alone_refresh a d rt : has_row a d → alone (refresh_agent (Agent.id a)) (d, rt) = ((d : db, rt : R), Ok a).
Proof. unfold has_row, refresh_agent. cbn. by intros ->. Qed.
Lemma sim_refresh {B} a (m : MW R B) (k : Agent.Agent → proc R B) Q :
  sim (has_row a) m (k a) Q → sim (has_row a) m (refresh_agent (Agent.id a) ≫= k) Q.
Proof.
  intros Hk. apply (sim_then _ _ _ _ (λ _, a)); [intros d rt _; apply alone_refresh|].
  intros b. apply (sim_with (b = a)); [tauto|]. intros ->. by eapply sim_weaken; [exact Hk|tauto|].
Qed.
Lemma sim_commit_refresh a a' :
  Agent.id a' = Agent.id a →
  sim (has_row a) (save_commit a') (commit_agent a a';; refresh_agent (Agent.id a)) has_row.
Proof.
  intros Hid d w Ht Hd Ha. unfold save_commit.
  destruct (sim_commit_agent a a' mret (refresh_agent (Agent.id a)) has_row Hid) with (d := d) (w := w)
    as (d' & rt' & r & E & Hrest); [|done..|].
  - rewrite <- Hid. apply (sim_still _ _ _ (λ _, Ok a')); [done|intros d1 rt _; apply alone_refresh|].
    by intros ? ? _ ? [= <-].
  - exists d', rt', r. split; [|done]. rewrite <- E, (bind_run (save_commit a')). unfold save_commit, save_agent.
    rewrite update_commit_publish. by case_decide.
Qed.
End simulation.
