(* ===== verification/Concurrent.v ===== *)
(** The agent operations and the scheduler's tick as coroutines
    ([services/agent_service.py], [services/quota_service.py], [scheduler.py]).

    The definitions repeat the code with every await in its place.  [alone_op] and
    [alone_tick] show that each, with nobody else running, is the handler that the other
    files treat as one step. *)

From S2P Require Import Prelude PyText PyFloat Config Errors Plans Models Runtime IngressLimits.
From S2P Require Import World Schemas Fixtures Quota Hostnames AgentEnv AgentService AgentLifecycle.
From S2P Require Import Metering Scheduler Coroutine.

Section handlers.
Context {R : Type} `{AgentRuntime R} `{CoreLLM} `{CoreRole} `{Fernet} `{CoreErrors} `{UnicodeTables}.
Implicit Types (d : db) (view : db → db).

(** [quota_service]; [view] is how the session sees the rows that a query returns. *)
(** [current_usage]: one query counts the agents, another one reads the active ones. *)
Definition usage_of (total : Z) (active : list Agent.Agent) : Usage :=
  {| u_agents := total;
     u_replicas := sumZ Agent.replicas active;
     u_vcpu := num_round
       (py_sum ((λ a, num_mul (NInt (Agent.replicas a)) (NFloat (Agent.cpu a))) <$> active)) 3;
     u_memory_mb := sumZ (λ a, Agent.replicas a * Agent.memory_mb a) active |}.
Definition current_usage_c view (user_id : uuid) (exclude : option pystr) : proc R Usage :=
  total ← fetch (λ d, Ok (Z.of_nat (length (agents_of d user_id))));
  active ← fetch (λ d, Ok (active_agents (view d) user_id exclude));
  mret (usage_of total active).

Definition ensure_can_create_agent_c (user_id : uuid) : proc R unit :=
  u ← fetch (λ d, get_user d user_id);
  ex ← Done (is_exempt u);
  if ex : bool then mret tt else
  let limits := limits_for (User.plan u) in
  usage ← current_usage_c id user_id None;
  if max_agents limits <? u_agents usage + 1
  then Done (Err (QuotaExceededError RAgents (User.plan u) (NInt (max_agents limits)) (NInt 1)
                    (Some (NInt (u_agents usage)))))
  else mret tt.

Definition ensure_resources_c view (user_id : uuid) (agent_id : option pystr)
  (replicas : Z) (cpu : float) (memory_mb : Z) : proc R unit :=
  u ← fetch (λ d, get_user d user_id);
  ex ← Done (is_exempt u);
  if ex : bool then mret tt else
  let limits := limits_for (User.plan u) in
  if num_gtb (NFloat cpu) (NFloat (max_replica_cpu limits))
  then Done (Err (QuotaExceededError RCpuPerReplica (User.plan u)
                    (NFloat (max_replica_cpu limits)) (NFloat cpu) None))
  else if max_replica_memory_mb limits <? memory_mb
  then Done (Err (QuotaExceededError RMemoryPerReplica (User.plan u)
                    (NInt (max_replica_memory_mb limits)) (NInt memory_mb) None))
  else
  usage ← current_usage_c view user_id agent_id;
  Done (run_checks (User.plan u) (resource_checks limits usage replicas cpu memory_mb)).

(** [_get_owned].  When the session already has the object of the row, [known], the query
    returns that object as it is. *)
Definition get_owned_c (known : option Agent.Agent) (user_id : uuid) (agent_id : pystr)
  : proc R Agent.Agent :=
  fetch (λ d, match agents d !! agent_id with
              | Some a => if decide (Agent.user_id a = user_id) then Ok (default a known)
                          else Err (AgentNotFoundError agent_id)
              | None => Err (AgentNotFoundError agent_id)
              end).

(** The guarded call of [rt.deploy_agent]. *)
Definition try_deploy_c (agent : Agent.Agent) : proc R (result pystr (list ContainerInfo)) :=
  match env_for_container (Agent.env agent) with
  | Err e => mret (Err (exn_str e))
  | Ok env =>
      r ← call (rt_deploy_agent (Agent.id agent) (Agent.name agent) (Agent.model agent)
                  (Agent.system_prompt agent) (Agent.replicas agent) env (Agent.image agent)
                  (Some (Some (Agent.cpu agent), Some (Agent.memory_mb agent))));
      mret (match r with Ok cs => Ok cs | Err e => Err (core_text e) end)
  end.

Definition launch_c (agent : Agent.Agent) : proc R Agent.Agent :=
  let starting := agent <| Agent.status := STARTING |> in
  commit_agent agent starting;;
  r ← try_deploy_c starting;
  match r with
  | Err reason =>
      commit_agent starting (starting <| Agent.status := FAILED |> <| Agent.error := Some reason |>);;
      refresh_agent (Agent.id starting);;
      Done (Err (DeploymentFailedError (Agent.id starting) reason))
  | Ok containers =>
      commit_agent starting (starting <| Agent.status := RUNNING |>
                                      <| Agent.replicas := Z.of_nat (length containers) |>
                                      <| Agent.error := None |>
                                      <| Agent.version := Agent.version starting + 1 |>);;
      refresh_agent (Agent.id starting)
  end.

Definition deploy_agent_c (known : option Agent.Agent) (user_id : uuid) (agent_id : pystr)
  (deploy : option DeployConfig) : proc R Agent.Agent :=
  agent ← get_owned_c known user_id agent_id;
  (match deploy with
   | Some dc => ensure_resources_c id user_id (Some (Agent.id agent)) (dc_replicas dc)
                  (rl_cpu (dc_resources dc)) (rl_memory_mb (dc_resources dc))
   | None => ensure_resources_c id user_id (Some (Agent.id agent)) (Agent.replicas agent)
               (Agent.cpu agent) (Agent.memory_mb agent)
   end);;
  agent ← (match deploy with
           | Some dc => commit_agent agent (apply_deploy_config agent dc);; refresh_agent (Agent.id agent)
           | None => mret agent
           end);
  if bool_decide (Agent.image agent = None ∧ is_Some (Agent.build_path agent))
  then Done (Err BuildNotSupportedError)
  else launch_c agent.

Definition create_agent_c (user_id : uuid) (tok : pystr) (rnd : nat → N) (at_ : datetime)
  (body : AgentConfigIn) : proc R Agent.Agent :=
  ensure_can_create_agent_c user_id;;
  (match ci_deploy body with
   | Some dc => ensure_resources_c id user_id None (dc_replicas dc)
                  (rl_cpu (dc_resources dc)) (rl_memory_mb (dc_resources dc))
   | None => mret tt
   end);;
  let agent := fresh_agent (new_agent_id tok) (new_slug ucd_lower (ci_name body) rnd) user_id body at_ in
  let agent := match ci_deploy body with
               | Some dc => apply_deploy_config agent dc
               | None => agent
               end in
  agent ← Done (if truthy (ci_api_key body)
                then env ← with_provider_key (Agent.env agent) (ci_model body)
                             (default [] (ci_api_key body));
                     Ok (agent <| Agent.env := env |>)
                else Ok agent);
  transact (insert_agent agent);;
  agent ← refresh_agent (Agent.id agent);
  match ci_deploy body with
  | Some _ => deploy_agent_c (Some agent) user_id (Agent.id agent) None
  | None => mret agent
  end.

Definition update_agent_c (user_id : uuid) (agent_id : pystr) (body : AgentUpdate)
  : proc R Agent.Agent :=
  agent ← get_owned_c None user_id agent_id;
  commit_agent agent (updated agent body);;
  refresh_agent (Agent.id agent).

Definition delete_agent_c (user_id : uuid) (agent_id : pystr) : proc R unit :=
  agent ← get_owned_c None user_id agent_id;
  r ← call (core_remove (Agent.id agent));
  match r with
  | Err e => Done (Err (ForeignError (core_text e)))
  | Ok _ => transact (drop_agent (Agent.id agent))
  end.

Definition scale_agent_c (user_id : uuid) (agent_id : pystr) (direction : ScaleDirection) (count : Z)
  : proc R (Agent.Agent * Z) :=
  agent ← get_owned_c None user_id agent_id;
  let previous_replicas := Agent.replicas agent in
  (match direction with
   | UP => ensure_resources_c id user_id (Some (Agent.id agent)) (Agent.replicas agent + count)
             (Agent.cpu agent) (Agent.memory_mb agent)
   | DOWN => mret tt
   end);;
  let scaling := agent <| Agent.status := SCALING |> in
  commit_agent agent scaling;;
  r ← call (core_scale (Agent.id scaling) direction count);
  match r with
  | Err (CoreScalingError reason) | Err (CoreContainerNotFoundError reason) =>
      commit_agent scaling (scaling <| Agent.status := FAILED |> <| Agent.error := Some reason |>);;
      refresh_agent (Agent.id scaling);;
      Done (Err (DeploymentFailedError (Agent.id scaling) reason))
  | Err (CoreOtherError reason) => Done (Err (ForeignError reason))
  | Ok _ =>
      live ← inspect (λ rt, Z.of_nat (length (core_get_containers rt (Agent.id scaling))));
      commit_agent scaling (scaling <| Agent.replicas := if live =? 0 then Agent.replicas scaling else live |>
                                    <| Agent.status := RUNNING |>);;
      agent ← refresh_agent (Agent.id scaling);
      mret (agent, previous_replicas)
  end.

Definition forget {A} (p : proc R A) : proc R unit := p;; mret tt.
Definition op_c (uid : uuid) (at_ : datetime) (op : agent_op) : proc R unit :=
  match op with
  | OpCreate tok rnd body => forget (create_agent_c uid tok rnd at_ body)
  | OpUpdate aid body => forget (update_agent_c uid aid body)
  | OpDeploy aid deploy => forget (deploy_agent_c None uid aid deploy)
  | OpScale aid direction count => forget (scale_agent_c uid aid direction count)
  | OpDelete aid => delete_agent_c uid aid
  end.

(** [has_headroom_for_replica]; [attempt] makes an exception a value, for [try]. *)
Fixpoint attempt {A} (p : proc R A) : proc R (result exn A) :=
  match p with
  | Done r => Done (Ok r)
  | Await act next => Await act (λ s, attempt (next s))
  end.
Definition has_headroom_c view (agent : Agent.Agent) : proc R bool :=
  r ← attempt (ensure_resources_c view (Agent.user_id agent) (Some (Agent.id agent))
                 (Agent.replicas agent + 1) (Agent.cpu agent) (Agent.memory_mb agent));
  match r with
  | Ok _ => mret true
  | Err (QuotaExceededError _ _ _ _ _) => mret false
  | Err e => Done (Err e)
  end.

(** The session of a tick keeps the agents it loaded: a later query selects rows by what the
    database has, and then returns the loaded objects with the attributes they had. *)
Definition session_view (objs : gmap pystr Agent.Agent) d : db :=
  d <| agents := map_imap (λ aid row,
         Some (match objs !! aid with
               | Some o => o <| Agent.status := Agent.status row |> <| Agent.user_id := Agent.user_id row |>
               | None => row
               end)) (agents d) |>.

(** The body of the loop over the active agents; it returns the loaded object. *)
Definition tick_agent_c (seconds : num) (at_ : datetime) (objs : gmap pystr Agent.Agent)
  (agent : Agent.Agent) : proc R Agent.Agent :=
  h ← call (core_health_check (Agent.id agent));
  match h with
  | Err _ => mret agent
  | Ok health =>
      let live := Z.of_nat (length (health_containers health)) in
      let changed := bool_decide (live ≠ Agent.replicas agent) ||
        bool_decide (next_status (Agent.status agent) live (health_healthy health) (health_failures health)
                     ≠ Agent.status agent) in
      let agent' := refreshed agent health in
      (if changed then commit_agent agent agent' else mret tt);;
      (if bool_decide (Agent.status agent' ∈ [RUNNING; SCALING]) && (0 <? live)
       then transact (λ d, Ok (record agent' live seconds at_ d)) else mret tt);;
      (if Agent.auto_scale agent' && (Agent.status agent' == RUNNING) && (0 <? live) then
         headroom ← has_headroom_c (session_view (<[Agent.id agent' := agent']> objs)) agent';
         if headroom : bool then call (core_auto_scale (Agent.id agent'));; mret tt else mret tt
       else mret tt);;
      mret agent'
  end.

Fixpoint tick_agents_c (seconds : num) (at_ : datetime) (objs : gmap pystr Agent.Agent)
  (todo : list Agent.Agent) : proc R unit :=
  match todo with
  | [] => mret tt
  | a :: rest =>
      a' ← tick_agent_c seconds at_ objs a;
      tick_agents_c seconds at_ (<[Agent.id a' := a']> objs) rest
  end.

(** [_tick] after its flush, whose own interleavings are those of [Metering.v]. *)
Definition tick_c (seconds : num) (at_ : datetime) : proc R unit :=
  todo ← fetch (λ d, Ok (filter is_active_row (rows (agents d))));
  tick_agents_c seconds at_ (list_to_map ((λ a, (Agent.id a, a)) <$> todo)) todo.
End handlers.

(** ** The coroutines, run alone *)
Section equivalence.
Context {R : Type} `{AgentRuntime R} `{CoreLLM} `{CoreRole} `{Fernet} `{CoreErrors} `{UnicodeTables}.
Context (t : datetime).
Implicit Types (d : db) (view : db → db) (rt : R).

Lemma alone_usage view uid aid d rt :
  current_usage (view d) uid aid = current_usage d uid aid →
  alone (current_usage_c (R := R) view uid aid) (d, rt) = ((d, rt), Ok (current_usage d uid aid)).
Proof.
  intros Hv. unfold current_usage_c. rewrite !alone_bind. cbn [alone fetch fst]. rewrite alone_bind.
  cbn [alone fetch fst mret proc_ret]. do 2 f_equal.
  exact (f_equal (λ u, {| u_agents := Z.of_nat (length (agents_of d uid)); u_replicas := u_replicas u;
                          u_vcpu := u_vcpu u; u_memory_mb := u_memory_mb u |}) Hv).
Qed.
Lemma alone_can_create uid d rt :
  alone (ensure_can_create_agent_c uid) (d, rt) = ((d, rt), ensure_can_create_agent d uid).
Proof.
  unfold ensure_can_create_agent_c, ensure_can_create_agent. rewrite alone_bind. cbn.
  destruct (get_user d uid) as [u|e]; [|done]. cbn. destruct (is_exempt u) as [[]|e]; cbn; by try case_match.
Qed.
Lemma alone_resources view uid aid n cpu m d rt :
  current_usage (view d) uid aid = current_usage d uid aid →
  alone (ensure_resources_c view uid aid n cpu m) (d, rt) = ((d, rt), ensure_resources d uid aid n cpu m).
Proof.
  intros Hv. unfold ensure_resources_c, ensure_resources. rewrite alone_bind. cbn [alone fetch fst].
  destruct (get_user d uid) as [u|e]; [|done]. rewrite alone_bind. cbn [alone mbind result_bind].
  destruct (is_exempt u) as [[]|e]; [done| |done].
  destruct (num_gtb _ _); [done|]. destruct (_ <? m); [done|].
  rewrite alone_bind. cbn [id]. by rewrite alone_usage.
Qed.

(** What the session knows of a row is what the row is. *)
Definition known_row (known : option Agent.Agent) (aid : pystr) d : Prop :=
  ∀ a, known = Some a → Agent.id a = aid ∧ has_row a d.
Lemma known_nothing aid d : known_row None aid d.
Proof. by intros ?. Qed.

Lemma sim_get_owned known uid aid :
  sim (R := R) t (known_row known aid) (get_owned uid aid) (get_owned_c known uid aid)
    (λ a d, has_row a d ∧ Agent.id a = aid ∧ Agent.user_id a = uid).
Proof.
  apply (sim_still t _ _ _ (λ d, match agents d !! aid with
    | Some a => if decide (Agent.user_id a = uid) then Ok a else Err (AgentNotFoundError aid)
    | None => Err (AgentNotFoundError aid) end)); [done| |].
  { intros d rt _ Hk. cbn. destruct (agents d !! aid) as [b|] eqn:Hb; [|done].
    destruct known as [a|]; [|done]. destruct (Hk a eq_refl) as [Hid Ha]. unfold has_row in Ha. cbn.
    by rewrite Hid, Hb in Ha; injection Ha as ->. }
  intros d a Hd _. destruct (agents d !! aid) as [b|] eqn:Ha; [|done]. case_decide; [|done]. intros [= ->].
  pose proof (db_ok_agent_id _ _ _ Hd Ha) as Hid. unfold has_row. by rewrite Hid.
Qed.

Lemma sim_try_deploy P a : sim t P (try_deploy (R := R) a) (try_deploy_c a) (λ _, P).
Proof.
  unfold try_deploy, try_deploy_c. destruct (env_for_container (Agent.env a)); [|apply (sim_ret t _ (λ _, P))].
  eapply sim_bind; [apply sim_call|]. intros r. apply (sim_ret t _ (λ _, P)).
Qed.

Lemma sim_launch a : sim t (has_row a) (launch a) (launch_c a) (λ _ _, True).
Proof.
  apply sim_commit_agent; [done|]. eapply sim_bind; [apply sim_try_deploy|]. intros [cs|reason].
  - eapply sim_weaken; [by apply sim_commit_refresh|done|done].
  - apply sim_commit_agent; [done|]. apply (sim_refresh t (failed (a <| Agent.status := STARTING |>) reason)).
    apply sim_raise.
Qed.

(** A check, which reads only. *)
Lemma sim_check {B} (P : db → Prop) (c : db → result exn unit) (p : proc R unit) (m : MW R B) k Q :
  (∀ d rt, P d → alone p (d, rt) = ((d, rt), c d)) → sim t P m k Q →
  sim t P (query c;; m) (p;; k) Q.
Proof.
  intros Hp Hk. apply (sim_bind t P (query c) p (λ _, P)); [|done].
  apply (sim_still t _ _ _ c); [done|intros d rt _; apply Hp|done].
Qed.

Lemma sim_deploy known uid aid deploy :
  sim t (known_row known aid) (deploy_agent uid aid deploy) (deploy_agent_c known uid aid deploy) (λ _ _, True).
Proof.
  eapply sim_bind; [apply sim_get_owned|]. intros a.
  eapply sim_weaken; [|by intros d (Ha & _ & _); exact Ha|done].
  apply sim_check. { intros d rt _. destruct deploy; by apply alone_resources. }
  eapply (sim_bind t (has_row a) _ _ has_row).
  { destruct deploy; [by apply sim_commit_refresh|apply sim_ret]. }
  intros b. case_bool_decide; [apply sim_raise|apply sim_launch].
Qed.

Lemma sim_insert {B} (P : db → Prop) a (m : MW R B) p Q :
  sim t (has_row a) m p Q → sim t P (add_agent a;; commit;; m) (transact (insert_agent a);; p) Q.
Proof.
  intros Hk d w Ht Hd HP. rewrite add_agent_commit, alone_bind. cbn [alone transact fst].
  assert (committing (insert_agent a) d =
    if decide (agents d !! Agent.id a = None ∧ db_ok (put_agent a d)) then Ok (put_agent a d)
    else Err IntegrityError) as ->.
  { unfold committing, insert_agent. pose proof (eq_None_not_Some (agents d !! Agent.id a)).
    repeat case_decide; tauto. }
  case_decide as Hc.
  - apply (Hk (put_agent a d) w Ht); [apply Hc|apply lookup_insert_eq].
  - exists d, (runtime w). eexists. split_and!; [by rewrite <- runtime_id|done|done|done].
Qed.

Lemma sim_create uid tok rnd body :
  sim t (λ _, True) (create_agent uid tok rnd body) (create_agent_c uid tok rnd t body) (λ _ _, True).
Proof.
  unfold create_agent, create_agent_c. apply sim_check; [intros; apply alone_can_create|].
  apply sim_check. { intros d rt _. destruct (ci_deploy body); [by apply alone_resources|done]. }
  apply sim_now. cbv zeta. set (a0 := match ci_deploy body with Some _ => _ | None => _ end).
  eapply (sim_bind t _ _ _ (λ _ _, True)); [by eapply (sim_still t _ _ _ (λ _, _))|]. intros a.
  apply sim_insert, sim_refresh. destruct (ci_deploy body); [|apply sim_return].
  eapply sim_weaken; [apply sim_deploy| |done]. by intros ? Ha b [= <-].
Qed.

Lemma sim_update_agent uid aid body :
  sim (R := R) t (λ _, True) (update_agent uid aid body) (update_agent_c uid aid body) (λ _ _, True).
Proof.
  apply (sim_weaken t _ (known_row None aid) _ _ _ (λ _ _, True)); [|by intros; apply known_nothing|done].
  eapply sim_bind; [apply sim_get_owned|].
  intros a. cbv zeta. assert (match up_rate_limit_rpm body with Some _ => _ | None => _ end = updated a body) as ->.
  { unfold updated. destruct a; by destruct (up_access body), (up_rate_limit_rpm body). }
  by eapply sim_weaken; [apply sim_commit_refresh|intros d (Ha & _); exact Ha|].
Qed.

Lemma sim_delete uid aid : sim t (λ _, True) (delete_agent uid aid) (delete_agent_c uid aid) (λ _ _, True).
Proof.
  apply (sim_weaken t _ (known_row None aid) _ _ _ (λ _ _, True)); [|by intros; apply known_nothing|done].
  eapply sim_bind; [apply sim_get_owned|].
  intros a. eapply sim_bind; [apply sim_call|]. intros [cs|e]; [|apply sim_raise].
  eapply (sim_weaken t _ (λ _, True)); [apply sim_update; by left|done|done].
Qed.

Lemma sim_scale uid aid direction count :
  sim t (λ _, True) (scale_agent uid aid direction count) (scale_agent_c uid aid direction count) (λ _ _, True).
Proof.
  apply (sim_weaken t _ (known_row None aid) _ _ _ (λ _ _, True)); [|by intros; apply known_nothing|done].
  eapply sim_bind; [apply sim_get_owned|].
  intros a. cbv zeta. eapply sim_weaken; [|by intros d (Ha & _ & _); exact Ha|done].
  apply sim_check. { intros d rt _. destruct direction; [by apply alone_resources|done]. }
  apply sim_commit_agent; [done|]. eapply sim_bind; [apply sim_call|].
  set (a1 := a <| Agent.status := SCALING |>).
  assert (∀ reason, sim (R := R) t (has_row a1)
    (save_commit (failed a1 reason);; raise (DeploymentFailedError (Agent.id a1) reason))
    (commit_agent a1 (failed a1 reason);; refresh_agent (Agent.id a1);;
     Done (Err (DeploymentFailedError (Agent.id a1) reason))) (λ (_ : Agent.Agent * Z) _, True)) as Hfail.
  { intros reason. apply sim_commit_agent; [done|]. apply (sim_refresh t (failed a1 reason)). apply sim_raise. }
  intros [[]|[reason|reason|reason]]; [|apply Hfail|apply Hfail|apply sim_raise].
  eapply sim_bind; [apply (sim_inspect t (has_row a1) (λ rt, Z.of_nat (length (core_get_containers rt (Agent.id a1)))))|].
  intros live. apply sim_commit_agent; [done|].
  match goal with |- sim _ (has_row ?b) _ _ _ => apply (sim_refresh t b) end.
  apply sim_return.
Qed.

Lemma sim_forget {A} (m : MW R A) p :
  sim t (λ _, True) m p (λ _ _, True) → sim t (λ _, True) (discard m) (forget p) (λ _ _, True).
Proof. intros Hm. eapply sim_bind; [exact Hm|]. intros a. apply sim_return. Qed.
Lemma sim_op uid op : sim t (λ _, True) (run_op uid op) (op_c uid t op) (λ _ _, True).
Proof.
  destruct op; cbn [run_op op_c]; [apply sim_forget..|apply sim_delete].
  - apply sim_create.
  - apply sim_update_agent.
  - eapply sim_weaken; [apply sim_deploy|by intros; apply known_nothing|done].
  - apply sim_scale.
Qed.

(** *** The tick *)
Definition loaded (objs : gmap pystr Agent.Agent) d : Prop :=
  map_Forall (λ aid o, Agent.id o = aid ∧ agents d !! aid = Some o) objs.

(** An object that is as its row is changes nothing of what a query returns. *)
Lemma session_view_loaded objs d : loaded objs d → session_view objs d = d.
Proof.
  intros Hl. unfold session_view. assert (map_imap _ (agents d) = agents d) as ->; [|by destruct d].
  apply map_eq. intros aid. rewrite map_lookup_imap. destruct (agents d !! aid) as [row|] eqn:Ha; [|done]. cbn.
  destruct (objs !! aid) as [o|] eqn:Ho; [|done]. destruct (Hl _ _ Ho) as [_ Hrow].
  assert (o = row) as -> by congruence. by destruct row.
Qed.
Lemma loaded_put objs a d :
  loaded objs d → loaded (<[Agent.id a := a]> objs) (put_agent a d).
Proof.
  intros Hl aid o Ho. cbn. rewrite lookup_insert in Ho |- *. case_decide as He; [|by apply Hl].
  injection Ho as ->. done.
Qed.
Lemma record_agents a live s at_ d : agents (record a live s at_ d) = agents d.
Proof. unfold record, upsert, put_usage. by case_match. Qed.

Lemma sim_headroom objs a :
  sim (R := R) t (loaded objs) (query (λ d, has_headroom_for_replica d a)) (has_headroom_c (session_view objs) a)
    (λ _, loaded objs).
Proof.
  apply (sim_still t _ _ _ (λ d, has_headroom_for_replica d a)); [done| |done].
  intros d rt _ Hl. unfold has_headroom_c, has_headroom_for_replica. rewrite alone_bind.
  assert (∀ A (p : proc R A) s, alone (attempt p) s = ((alone p s).1, Ok (alone p s).2)) as ->.
  { intros A p. induction p as [r|act next IH]; intros s; [done|]. apply IH. }
  rewrite alone_resources by (by rewrite session_view_loaded). cbn [fst snd].
  by destruct (ensure_resources _ _ _ _ _ _) as [[]|[]].
Qed.

Lemma sim_tick_agent seconds at_ objs a :
  objs !! Agent.id a = Some a →
  simr t (loaded objs) (tick_agent (R := R) seconds at_ a) (tick_agent_c seconds at_ objs a)
    (λ _ a' d, Agent.id a' = Agent.id a ∧ loaded (<[Agent.id a' := a']> objs) d).
Proof.
  intros Ho. eapply simr_bind; [apply simr_of_sim, (sim_call t (loaded objs))|]. intros h h'.
  apply (simr_with t (h = h')); [tauto|]. intros <-.
  eapply simr_weaken; [|by intros d _ [_ Hl]; exact Hl]. destruct h as [h|e].
  2: { eapply simr_weaken; [apply simr_ret|]. intros d _ Hl. cbn. by rewrite insert_id. }
  unfold commit_refreshed, commit_metered. cbv zeta. set (a' := refreshed a h). set (objs' := <[Agent.id a' := a']> objs).
  eapply (simr_bind t _ _ _ (λ _ _, loaded objs')); [|intros _ _].
  { match goal with |- simr _ _ (when ?b _) _ _ => destruct b eqn:Hc end; cbn [when].
    - apply simr_update; [|intros d; apply loaded_put]. intros d _ Hl.
      destruct (Hl _ _ Ho) as [_ Ha]. by apply flush_loaded.
    - assert (a' = a) as Ha'.
      { apply orb_false_iff in Hc as [E1%bool_decide_eq_false_1%dec_stable E2%bool_decide_eq_false_1%dec_stable].
        unfold a', refreshed. rewrite E2, E1. by destruct a. }
      eapply simr_weaken; [apply simr_ret|]. intros d _ Hl. unfold objs'. by rewrite Ha', insert_id. }
  assert (∀ P : db → Prop, simr (R := R) t P (mret tt) (mret tt) (λ _ _, P)) as Hnop.
  { intros P. apply (simr_ret t _ _ (λ _ _, P)). }
  eapply (simr_bind t _ _ _ (λ _ _, loaded objs')); [|intros _ _].
  { match goal with |- simr _ _ (when ?b _) _ _ => destruct b end; cbn [when]; [|apply Hnop].
    apply simr_update; [done|]. intros d Hl. unfold loaded. by rewrite record_agents. }
  apply simr_return. match goal with |- simr _ _ (if ?b then _ else _) _ _ => destruct b end.
  2: { eapply simr_weaken; [apply simr_ret|done]. }
  eapply simr_bind; [apply simr_of_sim, sim_headroom|]. intros b b'.
  apply (simr_with t (b = b')); [tauto|]. intros <-. destruct b.
  2: { eapply simr_weaken; [apply simr_ret|]. by intros d _ [_ Hl]. }
  eapply simr_bind; [apply simr_of_sim, sim_call|]. intros r r'.
  eapply simr_weaken; [apply simr_ret|]. by intros d _ (_ & _ & Hl).
Qed.

Lemma sim_tick_agents seconds at_ todo objs :
  NoDup (Agent.id <$> todo) → Forall (λ a, objs !! Agent.id a = Some a) todo →
  simr t (loaded objs) (tick_agents (R := R) seconds at_ todo) (tick_agents_c seconds at_ objs todo) (λ _ _ _, True).
Proof.
  revert objs. induction todo as [|a todo IH]; intros objs; cbn [tick_agents tick_agents_c].
  { intros _ _. eapply simr_weaken; [apply simr_ret|done]. }
  rewrite fmap_cons, NoDup_cons, Forall_cons. intros [Ha Hn] [Ho Hf]. eapply simr_bind; [by apply sim_tick_agent|].
  intros [] a'. apply (simr_with t (Agent.id a' = Agent.id a)); [by intros d _ [Hid _]|]. intros Hid.
  eapply simr_weaken; [apply IH|by intros d _ [_ Hl]; exact Hl]; [done|].
  rewrite Forall_forall in Hf |- *. intros b Hb. rewrite lookup_insert_ne; [by apply Hf|].
  rewrite Hid. intros He. apply Ha. rewrite He. by apply list_elem_of_fmap_2.
Qed.

Lemma sim_tick seconds at_ :
  simr t (λ _, True) (todo ← select (R := R) (λ d, filter is_active_row (rows (agents d))); tick_agents seconds at_ todo)
    (tick_c seconds at_) (λ _ _ _, True).
Proof.
  eapply (simr_bind t _ _ _ (λ l l' d, l' = l ∧ l = filter is_active_row (rows (agents d)))).
  { intros d w Ht Hd _. exists d, (runtime w). eexists _, _. split_and!; [by rewrite <- runtime_id|done..]. }
  intros l l'. apply (simr_with t (l' = l)); [tauto|]. intros ->.
  intros d w Ht Hd [_ ->]. destruct (active_rows_ok d Hd) as [Hnd Hrows].
  set (l := filter is_active_row (rows (agents d))) in *. rewrite Forall_forall in Hrows.
  apply sim_tick_agents; [done| |done|done|].
  - apply Forall_forall. intros a Ha. apply elem_of_list_to_map_1;
      [by rewrite <- list_fmap_compose|by apply (list_elem_of_fmap_2 (λ a, (Agent.id a, a)))].
  - intros aid o Ho%elem_of_list_to_map_2. apply list_elem_of_fmap in Ho as (b & [= -> ->] & Hb).
    split; [done|]. by apply Hrows.
Qed.

(** What a run alone leaves, in place of the database and runtime of [w]. *)
Definition after {A} (w : world R) (x : (db * R) * result exn A) : world R * result exn A :=
  (publish x.1.1 (w <| runtime := x.1.2 |>), x.2).
End equivalence.

(** The coroutines are the handlers: an agent operation, or the scheduler's pass over the
    active agents, cut at its awaits and run with nobody in between, ends with the same
    database, runtime and result as the handler run in one step, for every outcome. *)
Theorem coroutines_match_handlers {R} `{AgentRuntime R} `{CoreLLM} `{CoreRole} `{Fernet}
  `{CoreErrors} `{UnicodeTables} (w : world R) uid op seconds :
  db_ok (committed_db w) →
  let s := (committed_db w, runtime w) in
  request (run_op uid op) w = after w (alone (op_c uid (now w) op) s) ∧
  request (todo ← select (λ d, filter is_active_row (rows (agents d))); tick_agents seconds (now w) todo) w =
    after w (alone (tick_c seconds (now w)) s).
Proof.
  intros Hd s. split.
  - destruct (sim_op (now w) uid op (committed_db w) w) as (d' & rt' & r & E & E' & _); [done..|].
    unfold s. rewrite E'. by apply request_publish.
  - destruct (sim_tick (now w) seconds (now w) (committed_db w) w) as (d' & rt' & r & r' & E & E' & _ & Hr); [done..|].
    unfold s. rewrite E'. replace r' with r; [by apply request_publish|].
    destruct r as [[]|], r' as [[]|]; naive_solver.
Qed.

Theorem coroutines_match_handlers_witness :
  request (run_op 7%N (OpDeploy (str "agt_1") None)) lifecycle_world =
    after lifecycle_world (alone (op_c 7%N (now lifecycle_world) (OpDeploy (str "agt_1") None))
      (committed_db lifecycle_world, runtime lifecycle_world)) ∧
  is_ok (request (run_op 7%N (OpDeploy (str "agt_1") None)) lifecycle_world).2 = true.
Proof.
  split; [|vm_compute; reflexivity].
  exact (proj1 (coroutines_match_handlers lifecycle_world 7%N (OpDeploy (str "agt_1") None) (NInt 30)
    lifecycle_world_ok)).
Defined.
