(* ===== verification/Races.v ===== *)
(** Requests that run at the same time.

    A configuration is the shared state and the threads: agent operations and scheduler
    ticks, each with what is left of its coroutine.  [pool_step] runs one action of any
    thread, starts or drops threads (a handler may be cancelled at any await), and lets
    everything else change what these handlers do not write.  [guarantees] is a logic for what
    the actions of one thread can do whatever the others do in between. *)

From S2P Require Import Prelude PyText PyFloat Config Errors Plans Models Runtime IngressLimits.
From S2P Require Import World Schemas Fixtures Quota Hostnames AgentEnv AgentService AgentLifecycle.
From S2P Require Import AgentQuota Metering Scheduler Coroutine Concurrent.

(** ** What a thread may do *)
Section logic.
Context {R : Type}.
Implicit Types (d : db) (s : db * R).

(** Every action keeps [I] and is within [G], whatever the state is by then; a returned
    value satisfies [Q]. *)
Fixpoint guarantees {A} (I : db → Prop) (G : db → db → Prop) (p : proc R A) (Q : A → Prop) : Prop :=
  match p with
  | Done r => ∀ a, r = Ok a → Q a
  | Await act next => ∀ s, I s.1 → (I (act s).1 ∧ G s.1 (act s).1) ∧ guarantees I G (next s) Q
  end.

Context (I : db → Prop) (G : db → db → Prop) `{!Reflexive G}.

Lemma guar_ret {A} (a : A) (Q : A → Prop) : Q a → guarantees I G (mret a) Q.
Proof. intros Ha. cbn. by intros ? [= <-]. Qed.
Lemma guar_err {A} e (Q : A → Prop) : guarantees I G (Done (Err e)) Q.
Proof. done. Qed.
Lemma guar_done {A} (r : result exn A) : guarantees I G (Done r) (λ _, True).
Proof. done. Qed.
Lemma guar_weaken {A} (p : proc R A) (P Q : A → Prop) :
  guarantees I G p P → (∀ a, P a → Q a) → guarantees I G p Q.
Proof.
  intros Hp HPQ. induction p as [r|act next IH]; cbn in *; [naive_solver|].
  intros s Hs. destruct (Hp s Hs). eauto.
Qed.
Lemma guar_bind {A B} (p : proc R A) (k : A → proc R B) P Q :
  guarantees I G p P → (∀ a, P a → guarantees I G (k a) Q) → guarantees I G (p ≫= k) Q.
Proof.
  intros Hp Hk. induction p as [[a|e]|act next IH]; cbn in *; [by apply Hk, Hp|done|].
  intros s Hs. destruct (Hp s Hs). split; [done|]. by apply IH.
Qed.
Lemma guar_fetch {A} (f : db → result exn A) (Q : A → Prop) :
  (∀ d a, I d → f d = Ok a → Q a) → guarantees I G (fetch f) Q.
Proof. intros Hf s Hs. cbn. eauto. Qed.
Lemma guar_look {A} (f : db → result exn A) : guarantees I G (fetch f) (λ _, True).
Proof. by apply guar_fetch. Qed.
Lemma guar_transact f :
  (∀ d d', I d → f d = Ok d' → db_ok d' → I d' ∧ G d d') → guarantees I G (transact f) (λ _, True).
Proof.
  intros Hf s Hs. cbn. split; [|done]. unfold committing. destruct (f s.1) as [d'|e] eqn:E; [|done].
  case_decide; [|done]. cbn. eauto.
Qed.
Lemma guar_call {A} (f : R → R * result core_exn A) : guarantees I G (call f) (λ _, True).
Proof. intros s Hs. done. Qed.
Lemma guar_inspect {A} (f : R → A) : guarantees I G (inspect f) (λ _, True).
Proof. intros s Hs. done. Qed.
Lemma guar_attempt {A} (p : proc R A) (Q : A → Prop) :
  guarantees I G p Q → guarantees I G (attempt p) (λ _, True).
Proof.
  intros Hp. induction p as [r|act next IH]; cbn in *; [done|]. intros s Hs. destruct (Hp s Hs). eauto.
Qed.
End logic.

Create HintDb guar.
#[export] Hint Resolve guar_ret guar_err guar_done guar_look guar_call guar_inspect : guar.
#[export] Hint Extern 1 (Reflexive _) => apply _ : guar.
(** Take a coroutine apart where nothing is known of the values it passes on. *)
Ltac guar_step :=
  lazymatch goal with
  | |- guarantees _ _ (_ ≫= _) _ => eapply (guar_bind _ _ _ _ (λ _, True)); [|intros ? _]
  | |- guarantees _ _ (if ?b then _ else _) _ => destruct b
  | |- guarantees _ _ (match ?x with _ => _ end) _ => destruct x
  end.
Ltac guar := repeat first [solve [auto with guar]|guar_step].

Lemma guar_usage {R} (I : db → Prop) (G : db → db → Prop) view uid aid :
  Reflexive G → guarantees (R := R) I G (current_usage_c view uid aid) (λ _, True).
Proof. intros HG. unfold current_usage_c. guar. Qed.
#[export] Hint Resolve guar_usage : guar.

(** An edit of a loaded row: its identity and owner stay. *)
Definition edits (old new : Agent.Agent) : Prop :=
  Agent.id new = Agent.id old ∧ Agent.user_id new = Agent.user_id old.

(** What the operations of account [uid] need to be allowed: to edit and to delete the rows
    [mine], which include every row the account owns. *)
Class MayWrite (I : db → Prop) (G : db → db → Prop) (uid : uuid) (mine : pystr → Prop) : Prop := {
  mw_refl :: Reflexive G;
  mw_id d aid a : I d → agents d !! aid = Some a → Agent.id a = aid;
  mw_mine d aid a : I d → agents d !! aid = Some a → Agent.user_id a = uid → mine aid;
  mw_put d old new row :
    I d → mine (Agent.id old) → agents d !! Agent.id old = Some row → edits old new →
    db_ok (put_agent (merge_row old new row) d) →
    I (put_agent (merge_row old new row) d) ∧ G d (put_agent (merge_row old new row) d);
  mw_drop d aid :
    I d → mine aid → db_ok (remove_agent aid d) → I (remove_agent aid d) ∧ G d (remove_agent aid d);
}.

Section operations.
Context {R : Type} `{AgentRuntime R} `{CoreLLM} `{CoreRole} `{Fernet} `{CoreErrors} `{UnicodeTables}.
Context (I : db → Prop) (G : db → db → Prop) (uid : uuid) (mine : pystr → Prop) `{HM : !MayWrite I G uid mine}.
Implicit Types (d : db).

Lemma guar_get_owned aid :
  guarantees (R := R) I G (get_owned_c None uid aid) (λ a, mine (Agent.id a)).
Proof.
  apply guar_fetch; [apply _|]. intros d a Hd. destruct (agents d !! aid) as [b|] eqn:Hb; [|done].
  case_decide as Hu; [|done]. intros [= <-]. cbn. rewrite (mw_id d aid b) by done. by apply (mw_mine d aid b).
Qed.
Lemma guar_get_known a aid :
  mine (Agent.id a) → guarantees (R := R) I G (get_owned_c (Some a) uid aid) (λ a, mine (Agent.id a)).
Proof.
  intros Ha. apply guar_fetch; [apply _|]. intros d b Hd. destruct (agents d !! aid); [|done].
  case_decide; [|done]. by intros [= <-].
Qed.
Lemma guar_commit old new :
  mine (Agent.id old) → edits old new → guarantees (R := R) I G (commit_agent old new) (λ _, True).
Proof.
  intros Hm He. apply guar_transact; [apply _|]. intros d d' Hd. unfold flush_agent. case_decide; [by intros [= <-]|].
  destruct (agents d !! Agent.id old) as [row|] eqn:Hr; [|done]. intros [= <-]. by apply mw_put.
Qed.
Lemma guar_refresh aid :
  mine aid → guarantees (R := R) I G (refresh_agent aid) (λ a, mine (Agent.id a)).
Proof.
  intros Hm. apply guar_fetch; [apply _|]. intros d a Hd. destruct (agents d !! aid) as [b|] eqn:Hb; [|done].
  intros [= <-]. by rewrite (mw_id d aid b).
Qed.
Lemma guar_resources view aid n cpu m : guarantees (R := R) I G (ensure_resources_c view uid aid n cpu m) (λ _, True).
Proof. unfold ensure_resources_c. guar. Qed.
Lemma guar_can_create : guarantees (R := R) I G (ensure_can_create_agent_c uid) (λ _, True).
Proof. unfold ensure_can_create_agent_c. guar. Qed.

Lemma guar_then {A B} (p : proc R A) (k : A → proc R B) Q :
  guarantees I G p (λ _, True) → (∀ a, guarantees I G (k a) Q) → guarantees I G (p ≫= k) Q.
Proof. intros Hp Hk. eapply guar_bind; [exact Hp|auto]. Qed.

Lemma guar_launch a : mine (Agent.id a) → guarantees (R := R) I G (launch_c a) (λ _, True).
Proof.
  intros Hm. unfold launch_c. cbv zeta. apply guar_then; [by apply guar_commit|]. intros _.
  apply guar_then; [unfold try_deploy_c; guar|]. intros [cs|reason]; (apply guar_then; [by apply guar_commit|]); intros _.
  - eapply guar_weaken; [by apply guar_refresh|done].
  - eapply guar_bind; [by apply guar_refresh|]. guar.
Qed.
Lemma guar_deploy_from (p : proc R Agent.Agent) deploy :
  guarantees I G p (λ a, mine (Agent.id a)) →
  guarantees I G
    (agent ← p;
     (match deploy with
      | Some dc => ensure_resources_c id uid (Some (Agent.id agent)) (dc_replicas dc)
                     (rl_cpu (dc_resources dc)) (rl_memory_mb (dc_resources dc))
      | None => ensure_resources_c id uid (Some (Agent.id agent)) (Agent.replicas agent)
                  (Agent.cpu agent) (Agent.memory_mb agent)
      end);;
     agent ← (match deploy with
              | Some dc => commit_agent agent (apply_deploy_config agent dc);; refresh_agent (Agent.id agent)
              | None => mret agent
              end);
     if bool_decide (Agent.image agent = None ∧ is_Some (Agent.build_path agent))
     then Done (Err BuildNotSupportedError) else launch_c agent) (λ _, True).
Proof.
  intros Hp. eapply guar_bind; [exact Hp|]. intros a Hm. cbv beta.
  apply guar_then; [destruct deploy; apply guar_resources|]. intros _.
  eapply (guar_bind _ _ _ _ (λ a, mine (Agent.id a))).
  { destruct deploy; [|by apply guar_ret]. apply guar_then; [by apply guar_commit|]. intros _. by apply guar_refresh. }
  intros b Hb. case_bool_decide; [apply guar_err|by apply guar_launch].
Qed.
Lemma guar_deploy known aid deploy :
  (∀ a, known = Some a → mine (Agent.id a)) →
  guarantees (R := R) I G (deploy_agent_c known uid aid deploy) (λ _, True).
Proof.
  intros Hk. apply guar_deploy_from. destruct known as [a|]; [by apply guar_get_known, Hk|apply guar_get_owned].
Qed.
Lemma guar_update aid body : guarantees (R := R) I G (update_agent_c uid aid body) (λ _, True).
Proof.
  eapply guar_bind; [apply guar_get_owned|]. intros a Hm. cbv beta.
  apply guar_then; [by apply guar_commit|]. intros _. eapply guar_weaken; [by apply guar_refresh|done].
Qed.
Lemma guar_delete aid : guarantees (R := R) I G (delete_agent_c uid aid) (λ _, True).
Proof.
  eapply guar_bind; [apply guar_get_owned|]. intros a Hm. cbv beta.
  apply guar_then; [apply guar_call; apply _|]. intros [cs|e]; [|apply guar_err].
  apply guar_transact; [apply _|]. intros d d' Hd [= <-] Hok. by apply mw_drop.
Qed.
Lemma guar_scale aid direction count :
  guarantees (R := R) I G (scale_agent_c uid aid direction count) (λ _, True).
Proof.
  eapply guar_bind; [apply guar_get_owned|]. intros a Hm. cbv beta zeta.
  apply guar_then; [destruct direction; [apply guar_resources|guar]|]. intros _.
  apply guar_then; [by apply guar_commit|]. intros _. apply guar_then; [apply guar_call; apply _|].
  intros [[]|[reason|reason|reason]]; [|(apply guar_then; [by apply guar_commit|]; intros _;
    eapply guar_bind; [by apply guar_refresh|]; guar)..|apply guar_err].
  apply guar_then; [apply guar_inspect; apply _|]. intros live. apply guar_then; [by apply guar_commit|]. intros _.
  eapply guar_bind; [by apply guar_refresh|]. guar.
Qed.
End operations.

Section tick.
Context {R : Type} `{AgentRuntime R} `{CoreRole}.
Context (I : db → Prop) (G : db → db → Prop) `{!Reflexive G}.
Context (Hput : ∀ d old h row, I d → agents d !! Agent.id old = Some row →
  let d' := put_agent (merge_row old (refreshed old h) row) d in db_ok d' → I d' ∧ G d d').
Context (Hrecord : ∀ d a live seconds at_, I d →
  let d' := record a live seconds at_ d in db_ok d' → I d' ∧ G d d').

Lemma guar_headroom view a : guarantees (R := R) I G (has_headroom_c view a) (λ _, True).
Proof.
  unfold has_headroom_c. apply guar_bind with (P := λ _, True).
  - apply (guar_attempt _ _ _ (λ _, True)). unfold ensure_resources_c. guar.
  - intros [] _; guar.
Qed.
Lemma guar_tick_agent seconds at_ objs a :
  guarantees (R := R) I G (tick_agent_c seconds at_ objs a) (λ _, True).
Proof.
  unfold tick_agent_c. guar_step; [guar|]. match goal with h : result _ Health |- _ => destruct h as [h|] end; [|guar].
  cbv zeta. guar_step.
  { destruct (_ || _); [|guar]. apply guar_transact; [apply _|]. intros d d' Hd. unfold flush_agent.
    case_decide; [by intros [= <-]|]. destruct (agents d !! Agent.id a) as [row|] eqn:Hr; [|done].
    intros [= <-]. by apply Hput. }
  guar_step.
  { destruct (_ && _); [|guar]. apply guar_transact; [apply _|]. intros d d' Hd [= <-]. by apply Hrecord. }
  guar_step; [|guar]. destruct (_ && _); [|guar]. guar_step; [apply guar_headroom|]. guar.
Qed.
Lemma guar_tick seconds at_ : guarantees (R := R) I G (tick_c seconds at_) (λ _, True).
Proof.
  unfold tick_c. guar_step; [guar|]. match goal with |- guarantees _ _ (tick_agents_c _ _ ?o ?l) _ =>
    generalize o as objs; induction l as [|b l IH]; intros objs end; [by apply guar_ret|].
  cbn [tick_agents_c]. guar_step; [apply guar_tick_agent|]. apply IH.
Qed.
End tick.

(** ** Threads *)
Inductive task := AgentOp (uid : uuid) (op : agent_op) | Tick.
Record thread (R : Type) := Thread { th_task : task; th_rest : proc R unit }.
Arguments Thread {R}.
Arguments th_task {R}.
Arguments th_rest {R}.

Section pool.
Context {R : Type} `{AgentRuntime R} `{CoreLLM} `{CoreRole} `{Fernet} `{CoreErrors} `{UnicodeTables}.
Abbreviation config := ((db * R) * list (thread R))%type.

(** The coroutine of a task; the clock is read when the row is made. *)
Definition task_c (at_ : datetime) (seconds : num) (k : task) : proc R unit :=
  match k with
  | AgentOp uid op => op_c uid at_ op
  | Tick => tick_c seconds at_
  end.

(** [permits ths k]: task [k] may start next to the threads [ths].  [outside d d']: what the
    rest of the gateway may do to the database.  The runtime may change by itself. *)
Inductive pool_step (permits : list (thread R) → task → Prop) (outside : db → db → Prop)
  : config → config → Prop :=
| pool_start s ths k at_ seconds :
    permits ths k → pool_step permits outside (s, ths) (s, Thread k (task_c at_ seconds k) :: ths)
| pool_act s l1 k act next l2 :
    pool_step permits outside (s, l1 ++ Thread k (Await act next) :: l2)
                            (act s, l1 ++ Thread k (next s) :: l2)
| pool_leave s l1 th l2 : pool_step permits outside (s, l1 ++ th :: l2) (s, l1 ++ l2)
| pool_outside d d' rt rt' ths : outside d d' → pool_step permits outside ((d, rt), ths) ((d', rt'), ths).

Lemma rtc_invariant {A} (step : relation A) (P : A → Prop) :
  (∀ x y, step x y → P x → P y) → ∀ x y, rtc step x y → P x → P y.
Proof. induction 2; eauto. Qed.

(** Threads that each guarantee [I] and [G] do so together. *)
Lemma pool_guarantees permits outside (I : db → Prop) (G : db → db → Prop) `{!PreOrder G} s ths :
  (∀ ths k at_ seconds, permits ths k → guarantees I G (task_c at_ seconds k) (λ _, True)) →
  (∀ d d', outside d d' → I d → I d' ∧ G d d') →
  ∀ s0, rtc (pool_step permits outside) (s0, []) (s, ths) → I s0.1 → I s.1 ∧ G s0.1 s.1.
Proof.
  intros Htask Hout s0 Hrun HI.
  set (inv := λ c : config, I c.1.1 ∧ G s0.1 c.1.1 ∧ Forall (λ th, guarantees I G (th_rest th) (λ _, True)) c.2).
  assert (inv (s, ths)) as (? & ? & _); [|done].
  apply (rtc_invariant (pool_step permits outside) inv) with (x := (s0, [])); [|exact Hrun|by split_and!].
  intros c c' Hstep (Hc & Hg & Hths).
  destruct Hstep as [s1 ths1 k at_ seconds Ha|s1 l1 k act next l2|s1 l1 th l2|d d' rt rt' ths1 Ho]; cbn in *.
  - split_and!; [done|done|]. constructor; [by eapply Htask|done].
  - apply Forall_app in Hths as [? [Hth ?]%Forall_cons]. destruct (Hth s1 Hc) as [[Hi Hg'] Hn].
    split_and!; [done|by etrans|]. apply Forall_app. split; [done|]. by constructor.
  - apply Forall_app in Hths as [? [_ ?]%Forall_cons]. split_and!; [done|done|]. by apply Forall_app.
  - destruct (Hout d d' Ho Hc). split_and!; [done|by etrans|done].
Qed.
End pool.

(** ** Isolation of accounts *)
Section isolation.
Context {R : Type} `{AgentRuntime R} `{CoreLLM} `{CoreRole} `{Fernet} `{CoreErrors} `{UnicodeTables}.
(** Generated ids do not collide across accounts: each id is ever used by one of them. *)
Context (own : pystr → uuid) (v : uuid).
Implicit Types (d : db).

Definition owners_ok d : Prop := map_Forall (λ aid a, Agent.user_id a = own aid) (agents d).
Definition isolation_inv d : Prop := db_ok d ∧ owners_ok d.

(** At most the replica count and the status differ, which the scheduler refreshes. *)
Definition refreshed_at_most (o o' : option Agent.Agent) : Prop :=
  match o, o' with
  | Some a, Some a' => a' <| Agent.replicas := Agent.replicas a |> <| Agent.status := Agent.status a |> = a
  | None, None => True
  | _, _ => False
  end.
(** The agents of [v] and their access keys are as they were. *)
Definition untouched d d' : Prop :=
  (∀ aid, own aid = v → refreshed_at_most (agents d !! aid) (agents d' !! aid)) ∧
  (∀ kid k, own (AgentAccessKey.agent_id k) = v →
     access_keys d !! kid = Some k ↔ access_keys d' !! kid = Some k).

Lemma refreshed_same o : refreshed_at_most o o.
Proof. destruct o as [[]|]; done. Qed.
#[local] Instance untouched_preorder : PreOrder untouched.
Proof.
  split.
  - intros d. split; [|done]. intros aid _. apply refreshed_same.
  - intros d1 d2 d3 [Ha Hk] [Ha' Hk']. split; [|intros kid k Hv; rewrite Hk, Hk'; done].
    intros aid Hv. specialize (Ha aid Hv). specialize (Ha' aid Hv). unfold refreshed_at_most in *.
    destruct (agents d1 !! aid) as [a1|], (agents d2 !! aid) as [a2|], (agents d3 !! aid) as [a3|]; try done.
    rewrite <- Ha, <- Ha'. by destruct a3.
Qed.

(** Writing the row of another account. *)
Lemma untouched_put a d : own (Agent.id a) ≠ v → untouched d (put_agent a d).
Proof.
  intros Hne. split; [|done]. intros aid Hv. cbn. rewrite lookup_insert_ne by congruence. apply refreshed_same.
Qed.
Lemma isolation_put a d :
  isolation_inv d → db_ok (put_agent a d) → Agent.user_id a = own (Agent.id a) → isolation_inv (put_agent a d).
Proof. intros [_ Ho] Hok Ha. split; [done|]. by apply map_Forall_insert_2. Qed.
Lemma isolation_row d old row :
  isolation_inv d → agents d !! Agent.id old = Some row →
  Agent.id row = Agent.id old ∧ Agent.user_id row = own (Agent.id row).
Proof.
  intros [Hd Ho] Hr. pose proof (db_ok_agent_id _ _ _ Hd Hr) as Hid. split; [done|]. rewrite Hid. by apply (Ho _ _ Hr).
Qed.

Lemma isolation_writes uid :
  uid ≠ v → MayWrite isolation_inv untouched uid (λ aid, own aid ≠ v).
Proof.
  intros Hne. split; [apply _|by intros d aid a [Hd _] Ha; apply (db_ok_agent_id d)|..].
  - intros d aid a [_ Ho] Ha Hu. by rewrite <- (Ho _ _ Ha), Hu.
  - intros d old new row Hd Hm Hr [Hid Hu] Hok. destruct (isolation_row _ _ _ Hd Hr) as [Hid' Hu'].
    assert (Agent.id (merge_row old new row) = Agent.id row) as E1 by (by apply pick_kept).
    assert (Agent.user_id (merge_row old new row) = Agent.user_id row) as E2 by (by apply pick_kept).
    split; [apply isolation_put; [done|done|by rewrite E1, E2]|apply untouched_put; by rewrite E1, Hid'].
  - intros d aid [_ Ho] Hm Hok. split; [split; [done|by apply map_Forall_delete]|]. split.
    + intros aid' Hv. cbn. rewrite lookup_delete_ne by congruence. apply refreshed_same.
    + intros kid k Hv. cbn. rewrite map_lookup_filter_Some. cbn. naive_solver.
Qed.

(** The row a creation inserts. *)
Lemma guar_create_row I G `{!Reflexive G} uid tok rnd at_ body :
  let a := fresh_agent (new_agent_id tok) (new_slug ucd_lower (ci_name body) rnd) uid body at_ in
  let a := match ci_deploy body with Some dc => apply_deploy_config a dc | None => a end in
  guarantees (R := R) I G
    (Done (if truthy (ci_api_key body)
           then env ← with_provider_key (Agent.env a) (ci_model body) (default [] (ci_api_key body));
                Ok (a <| Agent.env := env |>)
           else Ok a)) (λ a, Agent.id a = new_agent_id tok ∧ Agent.user_id a = uid).
Proof.
  intros a0 a b. assert (∀ env, Agent.id (a <| Agent.env := env |>) = new_agent_id tok ∧
    Agent.user_id (a <| Agent.env := env |>) = uid) as Ha by (intros env; subst a a0; by destruct (ci_deploy body)).
  destruct (truthy _); [|intros [= <-]; apply (Ha [])].
  destruct (with_provider_key _ _ _); cbn; [|done]. intros [= <-]. apply Ha.
Qed.

Lemma isolation_create uid tok rnd at_ body :
  uid ≠ v → own (new_agent_id tok) = uid →
  guarantees (R := R) isolation_inv untouched (create_agent_c uid tok rnd at_ body) (λ _, True).
Proof.
  intros Hne Hown. pose proof (isolation_writes uid Hne) as HM. unfold create_agent_c.
  apply guar_then; [by eapply guar_can_create|]. intros _.
  apply guar_then; [destruct (ci_deploy body); [by eapply guar_resources|guar]|]. intros _. cbv zeta.
  eapply guar_bind; [apply guar_create_row; apply _|]. intros a [Hid Hu]. cbv beta.
  assert (own (Agent.id a) ≠ v) as Hv by (by rewrite Hid, Hown). apply guar_then.
  { apply guar_transact; [apply _|]. intros d d' Hd. unfold insert_agent. case_decide; [done|]. intros [= <-] Hok.
    split; [apply isolation_put; [done|done|congruence]|by apply untouched_put]. }
  intros _. eapply guar_bind; [by eapply guar_refresh|]. intros b Hb. cbv beta.
  destruct (ci_deploy body); [|guar]. eapply guar_deploy; [done|]. by intros ? [= <-].
Qed.

Lemma isolation_tick at_ seconds : guarantees (R := R) isolation_inv untouched (tick_c seconds at_) (λ _, True).
Proof.
  apply guar_tick; [apply _|..].
  - intros d old h row Hd Hr d' Hok. destruct (isolation_row _ _ _ Hd Hr) as [Hid Hu].
    set (row' := merge_row old (refreshed old h) row) in *.
    assert (row' <| Agent.replicas := Agent.replicas row |> <| Agent.status := Agent.status row |> = row) as Hrow.
    { unfold row', merge_row, setf. cbn. rewrite !pick_kept by done. by destruct row. }
    assert (Agent.id row' = Agent.id row) as E1 by (by apply pick_kept).
    assert (Agent.user_id row' = Agent.user_id row) as E2 by (by apply pick_kept). subst d'. clearbody row'.
    split; [apply isolation_put; [done|done|by rewrite E1, E2]|]. split; [|done]. intros aid Hv. cbn.
    rewrite lookup_insert. case_decide as He; [|apply refreshed_same]. subst aid. rewrite E1, Hid, Hr. exact Hrow.
  - intros d a live s at' [Hd Ho] d' Hok. subst d'. unfold record in *. case_match; [by split; [split|]|].
    split; [by split|]. split; [|done]. intros aid Hv. apply refreshed_same.
Qed.

(** Tasks of other accounts, with ids of their own. *)
Definition of_others (_ : list (thread R)) (k : task) : Prop :=
  match k with
  | Tick => True
  | AgentOp uid op => uid ≠ v ∧ ∀ tok rnd body, op = OpCreate tok rnd body → own (new_agent_id tok) = uid
  end.
(** The other routes do not write agents, and only [v] writes its access keys. *)
Definition other_routes d d' : Prop :=
  db_ok d' ∧ agents d' = agents d ∧
  ∀ kid k, own (AgentAccessKey.agent_id k) = v → access_keys d !! kid = Some k ↔ access_keys d' !! kid = Some k.

Lemma isolation_task at_ seconds ths k :
  of_others ths k → guarantees isolation_inv untouched (task_c at_ seconds k) (λ _, True).
Proof.
  destruct k as [uid op|]; cbn [of_others task_c]; [|intros _; apply isolation_tick]. intros [Hne Hown].
  pose proof (isolation_writes uid Hne) as HM.
  destruct op as [tok rnd body|aid body|aid deploy|aid direction count|aid]; cbn [op_c]; unfold forget;
    [apply guar_then; [|guar]..|].
  - apply isolation_create; [done|]. by eapply Hown.
  - by eapply guar_update.
  - by eapply guar_deploy.
  - by eapply guar_scale.
  - by eapply guar_delete.
Qed.

(** C14: accounts stay isolated under concurrency: however the requests of other accounts to
    create, update, deploy, scale and delete agents interleave at their awaits, with each
    other, with ticks of the scheduler, with cancellations and with the rest of the gateway,
    account [v] keeps exactly its agents, unchanged but for the replica counts and statuses
    that ticks refresh, and exactly its access keys; the database stays consistent. *)
Theorem concurrent_accounts_isolated s0 s ths :
  rtc (pool_step of_others other_routes) (s0, []) (s, ths) →
  db_ok s0.1 → owners_ok s0.1 → untouched s0.1 s.1 ∧ db_ok s.1.
Proof.
  intros Hrun Hd Ho. destruct (pool_guarantees of_others other_routes isolation_inv untouched s ths) with (s0 := s0)
    as [[Hok _] Hu]; [|..|done|by split|done].
  - intros ths' k at_ seconds. apply isolation_task.
  - intros d d' (Hok & Ha & Hk) [_ Hown]. split; [split; [done|unfold owners_ok; by rewrite Ha]|].
    split; [|done]. intros aid _. rewrite Ha. apply refreshed_same.
Qed.
End isolation.

(** ** How far concurrent creations overshoot the plan *)
Section overshoot.
Context {R : Type} `{AgentRuntime R} `{CoreLLM} `{CoreRole} `{Fernet} `{CoreErrors} `{UnicodeTables}.
Context (v : uuid) (u : User.User) (Hheld : is_exempt u = Ok false).
Implicit Types (d : db).
Abbreviation limit := (max_agents (limits_for (User.plan u))).
Definition account_is d : Prop := db_ok d ∧ users d !! v = Some u.
Definition no_more_agents d d' : Prop := count_of d' v ≤ count_of d v.

#[local] Instance no_more_preorder : PreOrder no_more_agents.
Proof. split; intros ?; unfold no_more_agents; lia. Qed.

Lemma count_edit d old new row :
  db_ok d → agents d !! Agent.id old = Some row → edits old new →
  count_of (put_agent (merge_row old new row) d) v = count_of d v.
Proof.
  intros Hd Hr [Hid Hu]. rewrite count_of_put.
  assert (Agent.id (merge_row old new row) = Agent.id row) as -> by (by apply pick_kept).
  assert (Agent.user_id (merge_row old new row) = Agent.user_id row) as -> by (by apply pick_kept).
  rewrite (db_ok_agent_id _ _ _ Hd Hr), Hr. lia.
Qed.
Lemma account_writes uid : MayWrite account_is no_more_agents uid (λ _, True).
Proof.
  split; [apply _|by intros d aid a [Hd _] Ha; apply (db_ok_agent_id d)|done|..].
  - intros d old new row [Hd Hu] _ Hr He Hok. split; [by split|]. unfold no_more_agents. rewrite count_edit by done. lia.
  - intros d aid [_ Hu] _ Hok. split; [by split|]. apply count_of_remove.
Qed.
Lemma account_tick seconds at_ : guarantees (R := R) account_is no_more_agents (tick_c seconds at_) (λ _, True).
Proof.
  apply guar_tick; [apply _|..].
  - intros d old h row [Hd Hu] Hr d' Hok. split; [by split|]. unfold no_more_agents, d'. rewrite count_edit by done. lia.
  - intros d a live s at' [Hd Hu] d' Hok. subst d'. unfold account_is, no_more_agents, record in *.
    case_match; cbn; (split; [by split|]); unfold count_of; cbn; lia.
Qed.

(** A creation that has passed the check may insert one agent; before, it may pass the check
    only where the account has room. *)
Fixpoint armed {A} (p : proc R A) : Prop :=
  match p with
  | Done _ => True
  | Await act next => ∀ s, account_is s.1 → account_is (act s).1 ∧
      ((count_of (act s).1 v ≤ count_of s.1 v ∧ armed (next s)) ∨
       (count_of (act s).1 v ≤ count_of s.1 v + 1 ∧ guarantees account_is no_more_agents (next s) (λ _, True)))
  end.
Fixpoint unarmed {A} (p : proc R A) : Prop :=
  match p with
  | Done _ => True
  | Await act next => ∀ s, account_is s.1 → account_is (act s).1 ∧ count_of (act s).1 v ≤ count_of s.1 v ∧
      (unarmed (next s) ∨ (count_of s.1 v + 1 ≤ limit ∧ armed (next s)))
  end.

Lemma armed_after {A B} (p : proc R A) (k : A → proc R B) Q :
  guarantees account_is no_more_agents p Q → (∀ a, Q a → armed (k a)) → armed (p ≫= k).
Proof.
  intros Hp Hk. induction p as [[a|e]|act next IH]; cbn in *; [by apply Hk, Hp|done|].
  intros s Hs. destruct (Hp s Hs) as [[Hi Hg] Hn]. split; [done|]. left. split; [done|]. by apply IH.
Qed.
Lemma quiet_armed {A} (p : proc R A) Q : guarantees account_is no_more_agents p Q → armed p.
Proof.
  intros Hp. induction p as [r|act next IH]; cbn in *; [done|].
  intros s Hs. destruct (Hp s Hs) as [[Hi Hg] Hn]. split; [done|]. left. split; [done|]. by apply IH.
Qed.
Lemma quiet_unarmed {A} (p : proc R A) Q : guarantees account_is no_more_agents p Q → unarmed p.
Proof.
  intros Hp. induction p as [r|act next IH]; cbn in *; [done|].
  intros s Hs. destruct (Hp s Hs) as [[Hi Hg] Hn]. split_and!; [done|done|]. left. by apply IH.
Qed.
Lemma armed_before {A B} (p : proc R A) (k : A → proc R B) :
  armed p → (∀ a, guarantees account_is no_more_agents (k a) (λ _, True)) → armed (p ≫= k).
Proof.
  intros Hp Hk. induction p as [[a|e]|act next IH]; cbn in *; [by eapply quiet_armed|done|].
  intros s Hs. destruct (Hp s Hs) as [Hi [[Hc Ha]|[Hc Hg]]]; (split; [done|]).
  - left. split; [done|]. by apply IH.
  - right. split; [done|]. by apply (guar_then account_is no_more_agents).
Qed.
Lemma unarmed_before {A B} (p : proc R A) (k : A → proc R B) :
  unarmed p → (∀ a, guarantees account_is no_more_agents (k a) (λ _, True)) → unarmed (p ≫= k).
Proof.
  intros Hp Hk. induction p as [[a|e]|act next IH]; cbn in *; [by eapply quiet_unarmed|done|].
  intros s Hs. destruct (Hp s Hs) as (Hi & Hc & [Hn|[Hl Hn]]); (split_and!; [done|done|]).
  - left. by apply IH.
  - right. split; [done|]. by apply (armed_before (next s) k).
Qed.
Lemma armed_insert a {B} (k : unit → proc R B) :
  (∀ x, guarantees account_is no_more_agents (k x) (λ _, True)) → armed (transact (insert_agent a) ≫= k).
Proof.
  intros Hk s [Hd Hu]. cbn. unfold committing, insert_agent.
  case_decide as Hf; [split; [by split|left; split; [lia|done]]|].
  case_decide as Hok; [|split; [by split|left; split; [lia|done]]]. split; [by split|]. right. split; [|apply Hk].
  cbn. rewrite count_of_put. rewrite (proj2 (eq_None_not_Some _) Hf). case_decide; lia.
Qed.

Lemma unarmed_check {B} (k : unit → proc R B) :
  (∀ x, armed (k x)) → unarmed (ensure_can_create_agent_c v ≫= k).
Proof.
  intros Hk s [Hd Hu]. cbn. split_and!; [done|done|]. left. unfold get_user. rewrite Hu.
  cbn. rewrite Hheld. cbn. intros s2 [Hd2 Hu2]. split_and!; [done|done|].
  rewrite agents_of_count. destruct (limit <? count_of s2.1 v + 1) eqn:E; [left|right; split; [lia|]];
    intros s3 Hs3; [split_and!; [done..|by left]|].
  split; [done|left]. split; [done|]. apply Hk.
Qed.

Lemma create_unarmed tok rnd at_ body : unarmed (forget (create_agent_c v tok rnd at_ body)).
Proof.
  pose proof (account_writes v) as HM. apply unarmed_before; [|guar]. apply unarmed_check. intros x.
  eapply (armed_after _ _ (λ _, True)). { destruct (ci_deploy body); [by eapply guar_resources|guar]. }
  intros _ _. cbv zeta. eapply armed_after; [apply guar_create_row; apply _|]. intros a _. cbv beta.
  apply armed_insert. intros _. eapply guar_bind; [by eapply guar_refresh|]. intros b Hb. cbv beta.
  destruct (ci_deploy body); [by eapply guar_deploy|guar].
Qed.

(** Is the task a creation by the account? *)
Definition creates (k : task) : bool :=
  match k with AgentOp uid (OpCreate _ _ _) => uid == v | _ => false end.
Definition creating (th : thread R) : Z := if creates (th_task th) then 1 else 0.

Lemma create_other_quiet uid tok rnd at_ body :
  uid ≠ v → guarantees (R := R) account_is no_more_agents (create_agent_c uid tok rnd at_ body) (λ _, True).
Proof.
  intros Hne. pose proof (account_writes uid) as HM. unfold create_agent_c.
  apply guar_then; [by eapply guar_can_create|]. intros _.
  apply guar_then; [destruct (ci_deploy body); [by eapply guar_resources|guar]|]. intros _. cbv zeta.
  eapply guar_bind; [apply guar_create_row; apply _|]. intros a [_ Hu]. cbv beta. apply guar_then.
  { apply guar_transact; [apply _|]. intros d d' [_ Hd]. unfold insert_agent. case_decide as Hf; [done|].
    intros [= <-] Hok. split; [by split|]. unfold no_more_agents.
    rewrite count_of_put, (proj2 (eq_None_not_Some _) Hf), decide_False by congruence. lia. }
  intros _. eapply guar_bind; [by eapply guar_refresh|]. intros b Hb. cbv beta.
  destruct (ci_deploy body); [|guar]. by eapply guar_deploy.
Qed.

Lemma task_starts at_ seconds k :
  if creates k then unarmed (task_c at_ seconds k)
  else guarantees account_is no_more_agents (task_c at_ seconds k) (λ _, True).
Proof.
  destruct k as [uid op|]; cbn [creates task_c]; [|apply account_tick]. pose proof (account_writes uid) as HM.
  destruct op as [tok rnd body|aid body|aid deploy|aid direction count|aid]; cbn [op_c].
  - case_bool_decide as Hu; [subst uid; apply create_unarmed|].
    apply guar_then; [by apply create_other_quiet|]. guar.
  - apply guar_then; [by eapply guar_update|]. guar.
  - apply guar_then; [by eapply guar_deploy|]. guar.
  - apply guar_then; [by eapply guar_scale|]. guar.
  - by eapply guar_delete.
Qed.

(** A thread with whether it has passed the check. *)
Definition stage (tb : thread R * bool) : Prop :=
  if tb.2 then creates (th_task tb.1) = true ∧ armed (th_rest tb.1)
  else if creates (th_task tb.1) then unarmed (th_rest tb.1)
  else guarantees account_is no_more_agents (th_rest tb.1) (λ _, True).
Definition passed (tb : thread R * bool) : Z := if tb.2 then 1 else 0.

Lemma passed_creating tbs : Forall stage tbs → sumZ passed tbs ≤ sumZ creating tbs.*1.
Proof.
  induction 1 as [|[th []] tbs Hs _ IH]; [done|..]; rewrite fmap_cons, !sumZ_cons; unfold passed, creating in *; cbn in *.
  - destruct Hs as [-> _]. lia.
  - case_match; lia.
Qed.

Context (n : Z).
(** At most [n] creations of the account are in flight; the rest of the gateway writes no
    agents and does not change the account's role or plan. *)
Definition few_creations (ths : list (thread R)) (k : task) : Prop :=
  creates k = true → sumZ creating ths + 1 ≤ n.
Definition account_kept d d' : Prop := db_ok d' ∧ agents d' = agents d ∧ users d' !! v = users d !! v.

Definition overshoot_inv (c : (db * R) * list (thread R)) : Prop :=
  account_is c.1.1 ∧ sumZ creating c.2 ≤ n ∧
  ∃ tbs, c.2 = tbs.*1 ∧ Forall stage tbs ∧ count_of c.1.1 v + sumZ passed tbs ≤ limit + n - 1.

Lemma stage_act s k act next b :
  account_is s.1 → stage (Thread k (Await act next), b) →
  account_is (act s).1 ∧ ∃ b', stage (Thread k (next s), b') ∧
    let old := passed (Thread k (Await act next), b) in let new := passed (Thread k (next s), b') in
    (count_of (act s).1 v + new ≤ count_of s.1 v + old ∨
     creates k = true ∧ count_of (act s).1 v + 1 ≤ limit ∧ new = 1).
Proof.
  intros Hs. unfold stage, passed. destruct b; cbn.
  - intros [Hk Ha]. destruct (Ha s Hs) as [Hi [[Hc Hn]|[Hc Hn]]]; (split; [done|]).
    + exists true. split; [done|]. lia.
    + exists false. rewrite Hk. split; [by eapply quiet_unarmed|]. lia.
  - destruct (creates k) eqn:Hk; intros Hp.
    + destruct (Hp s Hs) as (Hi & Hc & [Hn|[Hl Hn]]); (split; [done|]).
      * exists false. split; [done|]. lia.
      * exists true. split; [done|]. right. split_and!; [done|lia|done].
    + destruct (Hp s Hs) as [[Hi Hg] Hn]. split; [done|]. exists false. split; [done|].
      unfold no_more_agents in Hg. lia.
Qed.

Lemma overshoot_step c c' : pool_step few_creations account_kept c c' → overshoot_inv c → overshoot_inv c'.
Proof.
  intros Hstep (Hi & Hn & tbs & Htbs & Hst & Hc).
  destruct Hstep as [s ths k at_ seconds Ha|s l1 k act next l2|s l1 th l2|d d' rt rt' ths Ho]; cbn in *.
  - split_and!; [done| |].
    + cbn. rewrite sumZ_cons. unfold creating at 1. cbn. destruct (creates k) eqn:Hk; [specialize (Ha Hk)|]; lia.
    + exists ((Thread k (task_c at_ seconds k), false) :: tbs). cbn. split_and!; [by rewrite Htbs| |].
      * constructor; [|done]. apply task_starts.
      * rewrite sumZ_cons. unfold passed at 1. cbn. lia.
  - symmetry in Htbs. apply fmap_app_inv in Htbs as (t1 & t2 & -> & Htbs & ->).
    symmetry in Htbs. apply fmap_cons_inv in Htbs as ([th b] & t2' & Hth & -> & ->). cbn in Hth. subst th.
    apply Forall_app in Hst as [S1 [S0 S2]%Forall_cons]. destruct (stage_act s k act next b Hi S0) as [Hi' (b' & S0' & Hcase)].
    rewrite sumZ_app, sumZ_cons in Hn. rewrite sumZ_app, sumZ_cons in Hc. unfold creating at 2 in Hn. cbn in Hn.
    pose proof (passed_creating t1 S1). pose proof (passed_creating t2' S2).
    split_and!; [done| |]; cbn.
    + rewrite sumZ_app, sumZ_cons. unfold creating at 2. cbn. done.
    + exists (t1 ++ (Thread k (next s), b') :: t2'). rewrite fmap_app, fmap_cons. split_and!; [done| |].
      * apply Forall_app. split; [done|]. by constructor.
      * rewrite sumZ_app, sumZ_cons. destruct Hcase as [Hle|(Hk & Hle & Hp)]; [lia|]. rewrite Hk in Hn. lia.
  - symmetry in Htbs. apply fmap_app_inv in Htbs as (t1 & t2 & -> & Htbs & ->).
    symmetry in Htbs. apply fmap_cons_inv in Htbs as ([th' b] & t2' & Hth & -> & ->). cbn in Hth. subst th'.
    apply Forall_app in Hst as [S1 [S0 S2]%Forall_cons]. rewrite sumZ_app, sumZ_cons in Hn. rewrite sumZ_app, sumZ_cons in Hc.
    assert (0 ≤ creating th) by (unfold creating; case_match; lia).
    assert (0 ≤ passed (th, b)) by (unfold passed; case_match; lia).
    split_and!; [done|cbn; rewrite sumZ_app; lia|]. exists (t1 ++ t2'). rewrite fmap_app, sumZ_app. cbn.
    split_and!; [done|by apply Forall_app|lia].
  - destruct Ho as (Hok & Ha & Hu). destruct Hi as [_ Hv]. split_and!; [by split; [|cbn; congruence]|done|].
    exists tbs. split_and!; [done|done|]. cbn. unfold count_of in *. by rewrite Ha.
Qed.
End overshoot.

(** C13: the quota checks run without a lock, and what that costs is bounded: while at most
    [n] creation requests of an account held to its plan are in flight, however they
    interleave with each other, with the account's other requests, with ticks and with
    everything else that leaves its plan alone, the account never has more than [n - 1] agents
    over its plan, if it starts within it. *)
Theorem quota_overshoot_bounded {R} `{AgentRuntime R} `{CoreLLM} `{CoreRole} `{Fernet}
  `{CoreErrors} `{UnicodeTables} v u n (s0 s : db * R) ths :
  rtc (pool_step (few_creations v n) (account_kept v)) (s0, []) (s, ths) → 1 ≤ n →
  db_ok s0.1 → held_to_plan s0.1 v u →
  Z.of_nat (length (agents_of s0.1 v)) ≤ max_agents (limits_for (User.plan u)) →
  Z.of_nat (length (agents_of s.1 v)) ≤ max_agents (limits_for (User.plan u)) + (n - 1).
Proof.
  intros Hrun Hn Hd [Hu Hex]. rewrite !agents_of_count. intros Hstart.
  destruct (rtc_invariant _ (overshoot_inv (R := R) v u n) (overshoot_step v u Hex n) _ _ Hrun)
    as (_ & _ & tbs & _ & _ & Hc).
  - split_and!; [by split|cbn; unfold sumZ; cbn; lia|]. exists []. split_and!; [done|done|]. cbn. unfold sumZ. cbn. lia.
  - cbn in Hc. assert (0 ≤ sumZ passed tbs) by (apply sumZ_nonneg; intros [? []] _; unfold passed; cbn; lia). lia.
Qed.

(** ** Playing out schedules *)
(** Run the next action of the threads with the given numbers, in this order. *)
Fixpoint play {R} (sched : list nat) (c : (db * R) * list (thread R)) : (db * R) * list (thread R) :=
  match sched with
  | [] => c
  | i :: rest =>
      play rest (match c.2 !! i with
                 | Some (Thread k (Await act next)) => (act c.1, <[i := Thread k (next c.1)]> c.2)
                 | _ => c
                 end)
  end.
Definition outcome {R} (th : thread R) : option (result exn unit) :=
  match th_rest th with Done r => Some r | Await _ _ => None end.

Lemma play_steps {R} `{AgentRuntime R} `{CoreLLM} `{CoreRole} `{Fernet} `{CoreErrors} `{UnicodeTables}
  permits outside sched (c : (db * R) * list (thread R)) : rtc (pool_step permits outside) c (play sched c).
Proof.
  revert c. induction sched as [|i sched IH]; intros [s ths]; [done|]. cbn.
  destruct (ths !! i) as [[k [r|act next]]|] eqn:Hi; [apply IH| |apply IH].
  eapply rtc_l; [|apply IH].
  pose proof (pool_act permits outside s (take i ths) k act next (drop (S i) ths)) as Hs.
  rewrite (take_drop_middle _ _ _ Hi), <- insert_take_drop in Hs by (by eapply lookup_lt_Some). exact Hs.
Qed.

Definition race_start (ks : list task) : list (thread fixture_rt) := (λ k, Thread k (task_c 0 (NInt 30) k)) <$> ks.
Definition redeploy : task := AgentOp 7%N (OpDeploy (str "agt_1") None).
Definition failed_agent : Agent.Agent := fixture_agent <| Agent.status := FAILED |>.
Definition race_db : db := fixture_db [fixture_user] [failed_agent].

(** A delete that runs while a deployment is about to start its containers: the delete
    succeeds and the row is gone, the deployment then starts its containers, cannot record
    them, and leaves them running with nothing in the database that refers to them. *)
Theorem delete_during_deploy_orphans :
  let '((d, rt), ths) :=
    play [0; 0; 0; 0; 0; 1; 1; 1; 0; 0]%nat
      ((race_db, ∅), race_start [redeploy; AgentOp 7%N (OpDelete (str "agt_1"))]) in
  outcome <$> ths = [Some (Err StaleDataError); Some (Ok tt)] ∧
  agents d = ∅ ∧ length (core_get_containers rt (str "agt_1")) = 2%nat.
Proof. vm_compute. done. Qed.

(** A tick that finds no containers while a deployment is starting them records the agent as
    stopped with no replicas; the deployment then writes the status back, but not the replica
    count, which it never changed.  The deployment succeeds, and the agent it returns, running
    with no replicas recorded, cannot be turned into a response. *)
Theorem tick_during_deploy_hides_agent :
  let c := play [0; 0; 0; 0; 0; 1; 1; 1; 0; 0; 0]%nat ((race_db, ∅), race_start [redeploy; Tick]) in
  outcome <$> c.2 = [Some (Ok tt); Some (Ok tt)] ∧
  length (core_get_containers c.1.2 (str "agt_1")) = 2%nat ∧
  ∃ a, agents c.1.1 !! str "agt_1" = Some a ∧ Agent.status a = RUNNING ∧ Agent.replicas a = 0 ∧
    ∀ cfg, to_agent_response cfg a = Err ValidationError.
Proof.
  intros c. split; [vm_compute; done|]. split; [vm_compute; done|].
  exists (fixture_agent <| Agent.replicas := 0 |> <| Agent.version := 2 |>). split; [vm_compute; done|].
  split; [done|]. split; [done|]. intros cfg. unfold to_agent_response. by rewrite deploy_config_no_replicas.
Qed.

(** Two deployments at the same time count as one version. *)
Theorem concurrent_deploys_count_once :
  let '((d, rt), ths) :=
    play [0; 0; 0; 0; 0; 1; 1; 1; 1; 1; 0; 0; 0; 1; 1; 1]%nat ((race_db, ∅), race_start [redeploy; redeploy]) in
  outcome <$> ths = [Some (Ok tt); Some (Ok tt)] ∧
  Agent.version <$> agents d !! str "agt_1" = Some (Agent.version failed_agent + 1).
Proof. vm_compute. done. Qed.

(** An agent that is deleted while a tick checks its health ends the tick: the row it refreshes
    is gone, and the agents after it are not checked, here one that is still recorded as running
    with no containers left. *)
Theorem delete_during_tick_ends_it :
  let two := fixture_db [fixture_user]
    [fixture_agent; fixture_agent <| Agent.id := str "agt_2" |> <| Agent.slug := str "bot-def456" |>] in
  let '((d, rt), ths) :=
    play [0; 0; 1; 1; 1; 0; 0; 0; 0]%nat ((two, ∅), race_start [Tick; AgentOp 7%N (OpDelete (str "agt_2"))]) in
  outcome <$> ths = [Some (Err StaleDataError); Some (Ok tt)] ∧
  (Agent.status <$> agents d !! str "agt_1") = Some RUNNING ∧
  core_get_containers rt (str "agt_1") = [].
Proof. vm_compute. done. Qed.

(** Two deployments at the same time, of 5 to 10 and of 1 to 3 replicas, each write the bound
    they change: the row ends with a minimum above its maximum, which neither asked for, and
    cannot be turned into a response any more. *)
Definition bounds (lo hi : Z) : DeployConfig := {|
  dc_replicas := 2; dc_resources := {| rl_cpu := float_of_Z 1; rl_memory_mb := 512; rl_gpu := 0;
    rl_gpu_type := None; rl_disk_gb := 10; rl_ephemeral_storage_gb := 5 |};
  dc_env := []; dc_image := Some (str "nginx"); dc_build_path := None; dc_command := None; dc_args := [];
  dc_health_check_path := None; dc_auto_scale := false; dc_min_replicas := lo; dc_max_replicas := hi;
  dc_port := 8080 |}.
Definition deploy_bounds (lo hi : Z) : task := AgentOp 7%N (OpDeploy (str "agt_1") (Some (bounds lo hi))).
Theorem concurrent_deploys_break_bounds :
  let c := play [0; 0; 0; 0; 1; 1; 1; 1; 0; 1; 0; 0; 0; 0; 0; 1; 1; 1; 1; 1]%nat
    ((race_db, ∅), race_start [deploy_bounds 5 10; deploy_bounds 1 3]) in
  DeployConfig_valid (bounds 5 10) = true ∧ DeployConfig_valid (bounds 1 3) = true ∧
  outcome <$> c.2 = [Some (Ok tt); Some (Ok tt)] ∧
  ∃ a, agents c.1.1 !! str "agt_1" = Some a ∧ Agent.min_replicas a = 5 ∧ Agent.max_replicas a = 3 ∧
    to_agent_response default_settings a = Err ValidationError.
Proof.
  intros c. split; [vm_compute; done|]. split; [vm_compute; done|]. split; [vm_compute; done|].
  eexists. split; [vm_compute; done|]. split; [done|]. split; [done|]. vm_compute. done.
Qed.

(** ** Witnesses *)
Definition creation (tok : string) (c : N) : task := AgentOp 7%N (OpCreate (str tok) (λ _, c) fixture_body).
Definition second_agent : Agent.Agent :=
  fixture_agent <| Agent.id := str "agt_2" |> <| Agent.slug := str "bot-def456" |>.
Definition crowded_db : db := fixture_db [fixture_user] [fixture_agent; second_agent].
(** Two creations on a free plan with one agent left: both pass the check. *)
Definition overshoot_run : (db * fixture_rt) * list (thread fixture_rt) :=
  play [0; 0; 0; 1; 1; 1; 0; 0; 1; 1]%nat ((crowded_db, ∅), race_start [creation "b" 1%N; creation "a" 0%N]).

Theorem quota_overshoot_bounded_witness :
  Z.of_nat (length (agents_of overshoot_run.1.1 7%N)) = 4 ∧
  max_agents (limits_for (User.plan fixture_user)) = 3 ∧
  Z.of_nat (length (agents_of overshoot_run.1.1 7%N)) ≤ max_agents (limits_for (User.plan fixture_user)) + (2 - 1).
Proof.
  split; [vm_compute; reflexivity|]. split; [vm_compute; reflexivity|].
  apply (quota_overshoot_bounded 7%N fixture_user 2 (crowded_db, ∅) overshoot_run.1 overshoot_run.2).
  - eapply rtc_l; [apply (pool_start _ _ _ _ (creation "a" 0%N) 0 (NInt 30)); vm_compute; congruence|].
    eapply rtc_l; [apply (pool_start _ _ _ _ (creation "b" 1%N) 0 (NInt 30)); vm_compute; congruence|].
    rewrite <- surjective_pairing. apply play_steps.
  - lia.
  - by_decide.
  - split; vm_compute; reflexivity.
  - vm_compute. discriminate.
Defined.

(** Account 8 creates an agent while a tick refreshes the agent of account 7. *)
Definition two_accounts : db :=
  fixture_db [fixture_user; fixture_user <| User.id := 8%N |> <| User.email := str "x@example.com" |>] [fixture_agent].
Definition fixture_owner (aid : pystr) : uuid := if aid == str "agt_1" then 7%N else 8%N.
Definition isolated_run : (db * fixture_rt) * list (thread fixture_rt) :=
  play [0; 1; 0; 1; 0; 1; 0; 1; 1]%nat
    ((two_accounts, ∅), race_start [Tick; AgentOp 8%N (OpCreate (str "b") (λ _, 0%N) fixture_body)]).

Theorem concurrent_accounts_isolated_witness :
  size (agents isolated_run.1.1) = 2%nat ∧
  (untouched fixture_owner 7%N two_accounts isolated_run.1.1 ∧ db_ok isolated_run.1.1).
Proof.
  split; [vm_compute; reflexivity|].
  apply (concurrent_accounts_isolated fixture_owner 7%N (two_accounts, ∅) isolated_run.1 isolated_run.2).
  - eapply rtc_l; [apply (pool_start _ _ _ _ (AgentOp 8%N (OpCreate (str "b") (λ _, 0%N) fixture_body)) 0 (NInt 30))|].
    { split; [discriminate|]. intros tok rnd body [= <- _ _]. vm_compute. reflexivity. }
    eapply rtc_l; [apply (pool_start _ _ _ _ Tick 0 (NInt 30)); exact Logic.I|].
    rewrite <- surjective_pairing. apply play_steps.
  - by_decide.
  - apply map_Forall_singleton. vm_compute. reflexivity.
Defined.
