(* ===== verification/Tables.v ===== *)
(** The model's tables as PostgreSQL stores them, and the constraints of [db_ok] as those of
    the migrated schema.

    [stored d] is the content of the six tables ([models/], [alembic/versions/]) for the
    database [d] of the handlers: one row per record, one cell per column, with the columns
    the records leave out ([updated_at], the unused [url], the key of [usage_hours]) given
    by the interface [HiddenColumns].  [accepts] is what PostgreSQL checks of them: types and
    widths, the characters of text (no U+0000), NOT NULL, primary and unique keys ([conforms]), and foreign keys ([refs_ok]). *)

From S2P Require Import Prelude PyFloat Errors Plans Models Runtime IngressLimits World Schemas Fixtures.
From S2P Require Import PyText Codec Sha256 Config Quota AgentEnv AgentService Ingress Invites Auth App.
From S2P Require Import StoredRows System Ddl Migrations.

(** ** Foreign keys *)
Definition foreign_keys (s : schema) : list (pystr * pystr * foreign_key) :=
  concat ((λ tt, omap (λ kc, (λ fk, (tt.1, kc.1, fk)) <$> c_foreign_key kc.2) (map_to_list (td_columns tt.2)))
          <$> map_to_list (s_tables s)).
Definition ref_ok (d : data) (k : pystr * pystr * foreign_key) : Prop :=
  Forall (λ r, cell_of r k.1.2 = VNull ∨
               cell_of r k.1.2 ∈ (λ r', cell_of r' (fk_column k.2)) <$> rows_of d (fk_table k.2)) (rows_of d k.1.1).
Definition refs_ok (s : schema) (d : data) : Prop := Forall (ref_ok d) (foreign_keys s).
Definition accepts (s : schema) (d : data) : Prop := conforms s d ∧ refs_ok s d.

(** ** Rows *)
(** What the records leave out, and the text PostgreSQL stores for composite values. *)
Class HiddenColumns := {
  user_stamp : uuid → datetime;
  agent_stamp : pystr → datetime;
  usage_id : pystr * datetime → uuid;
  float_text : float → pystr;
  json_text : gmap pystr pystr → pystr;
  env_text : list EnvEntry → pystr;
}.
Class HiddenColumnsLaws `{HiddenColumns} : Prop := usage_id_inj :: Inj (=) (=) usage_id.

Definition VUuid (u : uuid) : cell := VRaw [u].
Definition nullable {A} (f : A → cell) (o : option A) : cell := match o with Some a => f a | None => VNull end.
Definition column_names (m : model) : list pystr := (λ c, c_name (m_column c)) <$> md_columns m.
Definition row_of (m : model) (cells : list cell) : row := list_to_map (zip (column_names m) cells).

Section rows.
Context `{HiddenColumns}.

Definition user_cells (u : User.User) : list cell := [
  VUuid (User.id u); VText (User.email u); VText (User.password_hash u); VText (User.name u);
  VInt (User.role u); VText (User.plan u); nullable VText (User.stripe_customer_id u);
  nullable VText (User.stripe_subscription_id u); nullable VText (User.subscription_status u);
  VBool (User.is_active u); VTime (User.created_at u); VTime (user_stamp (User.id u)) ].

Definition access_text (a : AgentAccess) : pystr :=
  match a with PUBLIC => str "public" | PRIVATE => str "private" end.
Definition agent_cells (a : Agent.Agent) : list cell := [
  VText (Agent.id a); VUuid (Agent.user_id a); VText (Agent.slug a); VText (Agent.name a);
  VText (runtime_value (Agent.runtime a)); VText (Agent.framework a); VText (Agent.model a);
  nullable VText (Agent.system_prompt a); VArray (Agent.tags a);
  VRaw (json_text (Agent.agent_metadata a)); VText (status_value (Agent.status a));
  nullable VText (Agent.error a); VNull; VInt (Agent.version a); VText (access_text (Agent.access a));
  nullable VInt (Agent.rate_limit_rpm a); VInt (Agent.replicas a); VRaw (float_text (Agent.cpu a));
  VInt (Agent.memory_mb a); VInt (Agent.gpu a); nullable VText (Agent.gpu_type a);
  VInt (Agent.disk_gb a); VInt (Agent.ephemeral_storage_gb a); VRaw (env_text (Agent.env a));
  nullable VText (Agent.image a); nullable VText (Agent.build_path a); nullable VText (Agent.command a);
  VArray (Agent.args a); nullable VText (Agent.health_check_path a);
  VBool (Agent.auto_scale a); VInt (Agent.min_replicas a); VInt (Agent.max_replicas a);
  VInt (Agent.port a); VTime (Agent.created_at a); VTime (agent_stamp (Agent.id a)) ].

Definition api_key_cells (k : ApiKey.ApiKey) : list cell := [
  VUuid (ApiKey.id k); VUuid (ApiKey.user_id k); VText (ApiKey.label k); VText (ApiKey.key_prefix k);
  VText (ApiKey.key_hash k); VArray (ApiKey.scopes k); nullable VText (ApiKey.project_id k);
  VTime (ApiKey.created_at k); nullable VTime (ApiKey.last_used_at k);
  nullable VTime (ApiKey.revoked_at k); nullable VTime (ApiKey.expires_at k) ].

Definition access_key_cells (k : AgentAccessKey.AgentAccessKey) : list cell := [
  VUuid (AgentAccessKey.id k); VText (AgentAccessKey.agent_id k); VText (AgentAccessKey.label k);
  VText (AgentAccessKey.key_prefix k); VText (AgentAccessKey.key_hash k);
  VTime (AgentAccessKey.created_at k) ].

Definition invite_cells (i : Invite.Invite) : list cell := [
  VUuid (Invite.id i); VText (Invite.code_hash i); VText (Invite.code_prefix i); VText (Invite.note i);
  nullable VUuid (Invite.created_by i); VInt (Invite.max_uses i); VInt (Invite.use_count i);
  nullable VTime (Invite.expires_at i); nullable VTime (Invite.revoked_at i); VTime (Invite.created_at i) ].

Definition usage_cells (k : pystr * datetime) (h : UsageHour.UsageHour) : list cell := [
  VUuid (usage_id k); VUuid (UsageHour.user_id h); VText k.1; VTime k.2;
  VRaw (float_text (UsageHour.replica_seconds h)); VRaw (float_text (UsageHour.vcpu_seconds h));
  VRaw (float_text (UsageHour.memory_mb_seconds h)); VInt (UsageHour.requests h) ].

Definition api_keys_t : pystr := str "api_keys".
Definition access_keys_t : pystr := str "agent_access_keys".
Definition invites_t : pystr := str "invites".
Definition usage_t : pystr := str "usage_hours".

Definition stored (d : db) : data := list_to_map [
  (users_t, (λ u, row_of user_model (user_cells u)) <$> rows (users d));
  (agents_t, (λ a, row_of agent_model (agent_cells a)) <$> rows (agents d));
  (api_keys_t, (λ k, row_of api_key_model (api_key_cells k)) <$> rows (api_keys d));
  (access_keys_t, (λ k, row_of access_key_model (access_key_cells k)) <$> rows (access_keys d));
  (invites_t, (λ i, row_of invite_model (invite_cells i)) <$> rows (invites d));
  (usage_t, (λ kh, row_of usage_hour_model (usage_cells kh.1 kh.2)) <$> map_to_list (usage_hours d)) ].
End rows.

(** The bounds of the columns that [db_ok] leaves to the request schemas and to what the
    code stores: the widths of generated and validated texts and the integer columns. *)
Definition int2 (z : Z) : Prop := -2 ^ 15 ≤ z < 2 ^ 15.
Definition int4 (z : Z) : Prop := -2 ^ 31 ≤ z < 2 ^ 31.
Definition int8 (z : Z) : Prop := -2 ^ 63 ≤ z < 2 ^ 63.
Definition opt_int4 (o : option Z) : Prop := match o with Some z => int4 z | None => True end.

Definition user_narrow (u : User.User) : Prop :=
  fits 255 (User.email u) ∧ fits 255 (User.password_hash u) ∧ fits 255 (User.name u) ∧ int2 (User.role u) ∧
  fits 32 (User.plan u) ∧ fits_opt 64 (User.stripe_customer_id u) ∧
  fits_opt 64 (User.stripe_subscription_id u) ∧ fits_opt 32 (User.subscription_status u).
Definition agent_narrow (a : Agent.Agent) : Prop :=
  int4 (Agent.version a) ∧ opt_int4 (Agent.rate_limit_rpm a) ∧ int4 (Agent.replicas a) ∧
  int4 (Agent.memory_mb a) ∧ int4 (Agent.gpu a) ∧ int4 (Agent.disk_gb a) ∧
  int4 (Agent.ephemeral_storage_gb a) ∧ int4 (Agent.min_replicas a) ∧ int4 (Agent.max_replicas a) ∧
  int4 (Agent.port a) ∧ opt_text (Agent.error a).
Definition api_key_narrow (k : ApiKey.ApiKey) : Prop :=
  fits 128 (ApiKey.label k) ∧ fits 16 (ApiKey.key_prefix k) ∧ fits 64 (ApiKey.key_hash k) ∧
  fits_opt 64 (ApiKey.project_id k) ∧ Forall pg_text (ApiKey.scopes k).
Definition access_key_narrow (k : AgentAccessKey.AgentAccessKey) : Prop :=
  fits 32 (AgentAccessKey.agent_id k) ∧ fits 128 (AgentAccessKey.label k) ∧
  fits 16 (AgentAccessKey.key_prefix k) ∧ fits 64 (AgentAccessKey.key_hash k).
Definition invite_narrow (i : Invite.Invite) : Prop :=
  fits 64 (Invite.code_hash i) ∧ fits 16 (Invite.code_prefix i) ∧ fits 255 (Invite.note i) ∧
  int4 (Invite.max_uses i) ∧ int4 (Invite.use_count i).
Record narrow (d : db) : Prop := {
  narrow_users : map_Forall (λ _, user_narrow) (users d);
  narrow_agents : map_Forall (λ _, agent_narrow) (agents d);
  narrow_api_keys : map_Forall (λ _, api_key_narrow) (api_keys d);
  narrow_access_keys : map_Forall (λ _, access_key_narrow) (access_keys d);
  narrow_invites : map_Forall (λ _, invite_narrow) (invites d);
  narrow_usage : map_Forall (λ k h, fits 32 k.1 ∧ int8 (UsageHour.requests h)) (usage_hours d);
}.
(** Rows sit under their primary keys. *)
Record tables_keyed (d : db) : Prop := {
  tk_users : keyed User.id (users d);
  tk_agents : keyed Agent.id (agents d);
  tk_api_keys : keyed ApiKey.id (api_keys d);
  tk_access_keys : keyed AgentAccessKey.id (access_keys d);
  tk_invites : keyed Invite.id (invites d);
}.

(** ** Reading constraints off rows *)
Lemma map_Forall_of_list {V} (P : pystr → V → Prop) (l : list (pystr * V)) :
  NoDup l.*1 → map_Forall P (list_to_map l : gmap pystr V) ↔ Forall (λ kv, P kv.1 kv.2) l.
Proof.
  intros Hn. rewrite Forall_forall. split.
  - intros Hm [k v] Hkv. by apply Hm, elem_of_list_to_map_1.
  - intros Hl k v Hk%elem_of_list_to_map_2. by apply (Hl (k, v)).
Qed.

Lemma row_keys m (cells : list cell) :
  length cells = length (md_columns m) → (zip (column_names m) cells).*1 = column_names m.
Proof. intros Hl. apply fst_zip. unfold column_names. rewrite length_fmap. lia. Qed.

Lemma cell_of_row m cells i c v :
  NoDup (column_names m) → length cells = length (md_columns m) →
  column_names m !! i = Some c → cells !! i = Some v → cell_of (row_of m cells) c = v.
Proof.
  intros Hn Hl Hc Hv. unfold cell_of, row_of.
  rewrite (elem_of_list_to_map_1 (M := gmap pystr) (zip (column_names m) cells) c v); [done|by rewrite row_keys|].
  apply list_elem_of_lookup. exists i. by rewrite lookup_zip_with, Hc, Hv.
Qed.

(** The table a model declares. *)
Definition model_table (m : model) : table_def :=
  {| td_columns := columns_map (m_column <$> md_columns m); td_uniques := list_to_map (md_uniques m) |}.

(** A row is admitted when each of its cells is. *)
Lemma row_ok_cells m cells :
  NoDup (column_names m) → length cells = length (md_columns m) →
  row_ok (model_table m) (row_of m cells) ↔ Forall2 (λ c v, cell_ok (m_column c) v) (md_columns m) cells.
Proof.
  intros Hn Hl. unfold row_ok, model_table. cbn [td_columns]. unfold columns_map.
  set (cols := (λ c, (c_name c, c)) <$> (m_column <$> md_columns m)).
  assert (cols.*1 = column_names m) as Hcols.
  { unfold cols, column_names. by rewrite <- !list_fmap_compose. }
  rewrite map_Forall_of_list by (by rewrite Hcols).
  assert (dom (row_of m cells) = dom (list_to_map cols : gmap pystr column)) as Hdom.
  { unfold row_of. rewrite !dom_list_to_map_L, row_keys by done. by rewrite Hcols. }
  trans (Forall (λ c, cell_ok (m_column c) (cell_of (row_of m cells) (c_name (m_column c)))) (md_columns m)).
  { unfold cols in *. rewrite <- list_fmap_compose, Forall_fmap in *. by split; [intros [_ ?]|]. }
  rewrite Forall_lookup, Forall2_lookup. split.
  - intros Hc i. destruct (md_columns m !! i) as [c|] eqn:Hi.
    + destruct (lookup_lt_is_Some_2 cells i) as [v Hv]; [rewrite Hl; by eapply lookup_lt_Some|].
      rewrite Hv. constructor. specialize (Hc i c Hi).
      by rewrite (cell_of_row m cells i _ v) in Hc by (try done; unfold column_names; by rewrite list_lookup_fmap, Hi).
    + rewrite lookup_ge_None_2; [constructor|]. rewrite Hl. by apply lookup_ge_None_1.
  - intros Hc i c Hi. specialize (Hc i). rewrite Hi in Hc.
    inversion Hc as [? v Hok E1 E2|]; subst.
    by rewrite (cell_of_row m cells i _ v) by (try done; unfold column_names; by rewrite list_lookup_fmap, Hi).
Qed.

(** Rows that are distinct where a value is not null. *)
Lemma NoDup_omap_rows {K V X} `{Countable K} (h : V → option X) (m : gmap K V) :
  NoDup (omap h (rows m)) ↔ unique_by h m.
Proof.
  induction m as [|k v m Hk IH] using map_ind; [by split; [intros _ ? ? ?|constructor]|].
  assert (omap h (rows (<[k := v]> m)) ≡ₚ omap h (v :: rows m)) as ->.
  { rewrite rows_insert, rows_delete_id by done. done. }
  assert (unique_by h (<[k := v]> m) ↔ unique_by h m ∧ ∀ k' v', m !! k' = Some v' → h v ≠ None → h v ≠ h v') as ->.
  { split.
    - intros Hu. split.
      + intros k1 v1 H1 k2 v2 H2. apply Hu; rewrite lookup_insert_ne; congruence.
      + intros k' v' H' Hn He. assert (k = k') as <-; [|congruence].
        apply (Hu k v (lookup_insert_eq _ _ _) k' v'); [rewrite lookup_insert_ne; congruence|done|done].
    - intros [Hu Hv]. apply unique_by_new; [done|]. intros k' v' Hk' Hn He. by apply (Hv k' v'). }
  rewrite <- IH. cbn. destruct (h v) as [x|] eqn:Hx; [|naive_solver]. rewrite NoDup_cons.
  assert (x ∉ omap h (rows m) ↔ ∀ k' v', m !! k' = Some v' → Some x ≠ None → Some x ≠ h v') as ->; [|tauto].
  rewrite list_elem_of_omap. split.
  - intros Hx' k' v' Hk' _ He. apply Hx'. exists v'. split; [|done]. apply elem_of_rows. by exists k'.
  - intros Hall (v' & [k' Hk']%elem_of_rows & He). by apply (Hall k' v').
Qed.

(** A unique key of one column, through an injective encoding. *)
Lemma distinct_on_column {K V X : Type} `{Countable K} (c : pystr) (enrow : V → row) (f : V → option X) (enc : X → cell)
  `{!Inj (=) (=) enc} (m : gmap K V) :
  (∀ x, enc x ≠ VNull) → (∀ v, cell_of (enrow v) c = nullable enc (f v)) →
  distinct_on [c] (enrow <$> rows m) ↔ unique_by f m.
Proof.
  intros Hnn Hrow. unfold distinct_on.
  assert (∀ l, omap (key_of [c]) (enrow <$> l) = omap (λ v, (λ x, [enc x]) <$> f v) l) as ->.
  { induction l as [|v l IH]; [done|]. cbn. unfold key_of at 1. cbn. rewrite Hrow, IH.
    destruct (f v) as [x|]; cbn; [|by rewrite bool_decide_eq_true_2 by set_solver].
    rewrite bool_decide_eq_false_2; [done|]. specialize (Hnn x). set_solver. }
  rewrite NoDup_omap_rows. unfold unique_by, map_Forall.
  assert (∀ v1 v2, (λ x, [enc x]) <$> f v1 = (λ x, [enc x]) <$> f v2 ↔ f v1 = f v2) as Hf.
  { intros v1 v2. split; [|by intros ->]. destruct (f v1), (f v2); cbn; intros [=]; [f_equal; by apply (inj enc)|done]. }
  split; intros Hu k1 v1 H1 k2 v2 H2 Hn He; apply (Hu k1 v1 H1 k2 v2 H2); [|by apply Hf| |by apply Hf];
    by destruct (f v1).
Qed.

(** ** Server defaults do not matter to stored rows *)
Lemma shape_table s s' t td :
  shape s = shape s' → s_tables s !! t = Some td →
  ∃ td', s_tables s' !! t = Some td' ∧ td_uniques td' = td_uniques td ∧
    ∀ c, without_default <$> td_columns td' !! c = without_default <$> td_columns td !! c.
Proof.
  intros [= Ht _] Htd. apply (f_equal (.!! t)) in Ht. rewrite !lookup_fmap, Htd in Ht.
  destruct (s_tables s' !! t) as [td'|]; [|done]. cbn in Ht. injection Ht as Hc Hu. exists td'.
  split_and!; [done|by destruct td, td'|]. intros c. rewrite <- !lookup_fmap. f_equal.
  by destruct td, td'; cbn in *.
Qed.
Lemma conforms_shape s s' d : shape s = shape s' → conforms s d → conforms s' d.
Proof.
  intros Hs Hc.
  assert (∀ t td', s_tables s' !! t = Some td' → ∃ td, s_tables s !! t = Some td ∧ td_uniques td = td_uniques td' ∧
    ∀ c, without_default <$> td_columns td !! c = without_default <$> td_columns td' !! c) as Hback.
  { intros t td' Htd'. by apply (shape_table s' s t td'). }
  apply conforms_intro.
  - intros t td' Htd'. destruct (Hback t td' Htd') as (td & Htd & Hu & Hcols).
    destruct (conforms_table _ _ _ _ Hc Htd) as [Hr Hd]. split.
    + eapply Forall_impl; [exact Hr|]. intros r [Hdom Hcells]. split.
      * rewrite Hdom. apply set_eq. intros c. rewrite !elem_of_dom. specialize (Hcols c).
        destruct (td_columns td !! c), (td_columns td' !! c); cbn in Hcols; try done; by split; intros [? [=]].
      * intros c col' Hcol'. specialize (Hcols c). rewrite Hcol' in Hcols. cbn in Hcols.
        destruct (td_columns td !! c) as [col|] eqn:Hcol; [|done]. cbn in Hcols. injection Hcols as Hw.
        destruct (Hcells _ _ Hcol) as [Hn Hf].
        assert (c_nullable col' = c_nullable col ∧ c_type col' = c_type col) as [E1 E2] by (by destruct col, col').
        split; [by rewrite E1|by rewrite E2].
    + intros cs Hcs. apply Hd. destruct Hcs as [c col' Hcol' Hp ->|un Hun|n ix Hn Hu' Hix ->].
      * specialize (Hcols c). rewrite Hcol' in Hcols. destruct (td_columns td !! c) as [col|] eqn:Hcol; [|done].
        eapply unique_primary; [exact Hcol| |done]. injection Hcols as ?. congruence.
      * eapply unique_constraint. by rewrite Hu.
      * eapply unique_index; [|done|done|done]. injection Hs as _ Hi. by rewrite Hi.
  - intros t rs Hrs. destruct Hc as [_ Hd]. destruct (Hd t rs Hrs) as [|[td Htd]]; [by left|right].
    destruct (shape_table s s' t td Hs Htd) as (td' & -> & _). done.
Qed.

(** ** Cells *)
Lemma cell_text col n s : c_type col = VarChar n → (0 <=? n) = true → cell_ok col (VText s) ↔ fits (Z.to_nat n) s.
Proof.
  intros Ht Hn. unfold cell_ok, fits. rewrite Ht. cbn. rewrite andb_true_iff, bool_decide_eq_true.
  split; [intros [_ [? ?]]; split; [lia|done]|intros [? ?]; split; [done|]; split; [lia|done]].
Qed.
Lemma cell_text_null col n o :
  c_type col = VarChar n → c_nullable col = true → (0 <=? n) = true →
  cell_ok col (nullable VText o) ↔ fits_opt (Z.to_nat n) o.
Proof.
  intros Ht Hc Hn. destruct o as [s|]; [by apply cell_text|]. unfold cell_ok. rewrite Hc. cbn. naive_solver.
Qed.
Lemma cell_long_text col o :
  c_type col = TText → c_nullable col = true → cell_ok col (nullable VText o) ↔ opt_text o.
Proof.
  intros Ht Hc. unfold cell_ok. rewrite Ht, Hc. destruct o as [s|]; cbn; [rewrite bool_decide_eq_true|]; naive_solver.
Qed.
Lemma cell_array col l : c_type col = TStringArray → cell_ok col (VArray l) ↔ Forall pg_text l.
Proof. intros Ht. unfold cell_ok. rewrite Ht. cbn. rewrite bool_decide_eq_true. naive_solver. Qed.
Lemma cell_int2 col z : c_type col = TSmallInteger → cell_ok col (VInt z) ↔ int2 z.
Proof. intros Ht. unfold cell_ok, int2. rewrite Ht. cbn [cell_fits]. split; [intros [_ ?]; lia|intros ?; split; [done|lia]]. Qed.
Lemma cell_int4 col z : c_type col = TInteger → cell_ok col (VInt z) ↔ int4 z.
Proof. intros Ht. unfold cell_ok, int4. rewrite Ht. cbn [cell_fits]. split; [intros [_ ?]; lia|intros ?; split; [done|lia]]. Qed.
Lemma cell_int8 col z : c_type col = TBigInteger → cell_ok col (VInt z) ↔ int8 z.
Proof. intros Ht. unfold cell_ok, int8. rewrite Ht. cbn [cell_fits]. split; [intros [_ ?]; lia|intros ?; split; [done|lia]]. Qed.
Lemma cell_int4_null col o :
  c_type col = TInteger → c_nullable col = true → cell_ok col (nullable VInt o) ↔ opt_int4 o.
Proof.
  intros Ht Hc. destruct o as [z|]; [by apply cell_int4|]. unfold cell_ok. rewrite Hc. cbn. naive_solver.
Qed.
(** Cells every value of their type fits. *)
Lemma cell_any col v : v ≠ VNull → cell_fits (c_type col) v = true → cell_ok col v.
Proof. by split. Qed.
Lemma cell_any_null {A} col (f : A → cell) o :
  c_nullable col = true → (∀ a, cell_fits (c_type col) (f a) = true) → cell_ok col (nullable f o).
Proof. intros Hn Hf. unfold cell_ok. rewrite Hn. split; [done|]. destruct o; [apply Hf|by destruct (c_type col)]. Qed.

(** From the cells of a row to the bounds of its fields, and back. *)
Ltac cells_out :=
  repeat match goal with H : Forall2 _ (_ :: _) (_ :: _) |- _ => apply Forall2_cons_1 in H as [? H] end;
  repeat match goal with
  | H : cell_ok ?c (VText ?s) |- _ => apply (proj1 (cell_text c _ s eq_refl eq_refl)) in H
  | H : cell_ok ?c (nullable VText ?o) |- _ =>
      first [apply (proj1 (cell_text_null c _ o eq_refl eq_refl eq_refl)) in H
            | apply (proj1 (cell_long_text c o eq_refl eq_refl)) in H]
  | H : cell_ok ?c (VArray ?l) |- _ => apply (proj1 (cell_array c l eq_refl)) in H
  | H : cell_ok ?c (nullable VInt ?o) |- _ => apply (proj1 (cell_int4_null c o eq_refl eq_refl)) in H
  | H : cell_ok ?c (VInt ?z) |- _ =>
      first [apply (proj1 (cell_int4 c z eq_refl)) in H | apply (proj1 (cell_int2 c z eq_refl)) in H
            | apply (proj1 (cell_int8 c z eq_refl)) in H]
  | H : cell_ok _ _ |- _ => clear H
  end.
Ltac cell_in :=
  lazymatch goal with
  | |- cell_ok ?c (VText ?s) =>
      apply (proj2 (cell_text c _ s eq_refl eq_refl)); assumption
  | |- cell_ok ?c (nullable VText ?o) =>
      first [apply (proj2 (cell_text_null c _ o eq_refl eq_refl eq_refl)); assumption
            | apply (proj2 (cell_long_text c o eq_refl eq_refl)); assumption]
  | |- cell_ok ?c (VArray ?l) => apply (proj2 (cell_array c l eq_refl)); assumption
  | |- cell_ok ?c (nullable VInt ?o) => apply (proj2 (cell_int4_null c o eq_refl eq_refl)); assumption
  | |- cell_ok ?c (VInt ?z) =>
      first [apply (proj2 (cell_int4 c z eq_refl)); assumption | apply (proj2 (cell_int2 c z eq_refl)); assumption
            | apply (proj2 (cell_int8 c z eq_refl)); assumption]
  | |- cell_ok _ (nullable _ _) => apply cell_any_null; [reflexivity|intros ?; reflexivity]
  | |- cell_ok _ VNull => by split
  | |- cell_ok _ _ => apply cell_any; [discriminate|reflexivity]
  end.
Ltac cells_in := repeat (apply Forall2_cons_2; [cell_in|]); apply Forall2_nil_2.

Section cells.
Context `{HiddenColumns}.
Definition cells_ok (m : model) (cells : list cell) : Prop :=
  Forall2 (λ c v, cell_ok (m_column c) v) (md_columns m) cells.

Lemma user_cells_ok u : cells_ok user_model (user_cells u) ↔ user_narrow u.
Proof.
  unfold cells_ok, user_narrow. unfold user_cells. cbn [md_columns user_model]. split.
  - intros Hc. cells_out. by split_and!.
  - intros Hu. destruct_and! Hu. cells_in.
Qed.
Lemma agent_cells_ok a : cells_ok agent_model (agent_cells a) ↔ agent_widths a ∧ agent_narrow a.
Proof.
  assert (fits 32 (runtime_value (Agent.runtime a)) ∧ fits 32 (status_value (Agent.status a)) ∧
          fits 16 (access_text (Agent.access a))) as (Hr & Hs & Ha).
  { split_and!; [destruct (Agent.runtime a)|destruct (Agent.status a)|destruct (Agent.access a)];
      by_decide. }
  unfold cells_ok, agent_widths, agent_narrow. unfold agent_cells. cbn [md_columns agent_model]. split.
  - intros Hc. cells_out. by split_and!.
  - intros [Hw Hn]. destruct_and! Hw. destruct_and! Hn. cells_in.
Qed.
Lemma api_key_cells_ok k : cells_ok api_key_model (api_key_cells k) ↔ api_key_narrow k.
Proof.
  unfold cells_ok, api_key_narrow. unfold api_key_cells. cbn [md_columns api_key_model]. split.
  - intros Hc. cells_out. by split_and!.
  - intros Hk. destruct_and! Hk. cells_in.
Qed.
Lemma access_key_cells_ok k : cells_ok access_key_model (access_key_cells k) ↔ access_key_narrow k.
Proof.
  unfold cells_ok, access_key_narrow. unfold access_key_cells. cbn [md_columns access_key_model]. split.
  - intros Hc. cells_out. by split_and!.
  - intros Hk. destruct_and! Hk. cells_in.
Qed.
Lemma invite_cells_ok i : cells_ok invite_model (invite_cells i) ↔
  fits 64 (Invite.code_hash i) ∧ fits 16 (Invite.code_prefix i) ∧ fits 255 (Invite.note i) ∧
  int4 (Invite.max_uses i) ∧ int4 (Invite.use_count i).
Proof.
  unfold cells_ok. unfold invite_cells. cbn [md_columns invite_model]. split.
  - intros Hc. cells_out. by split_and!.
  - intros Hk. destruct_and! Hk. cells_in.
Qed.
Lemma usage_cells_ok k h : cells_ok usage_hour_model (usage_cells k h) ↔ fits 32 k.1 ∧ int8 (UsageHour.requests h).
Proof.
  unfold cells_ok. unfold usage_cells. cbn [md_columns usage_hour_model]. split.
  - intros Hc. cells_out. by split_and!.
  - intros Hk. destruct_and! Hk. cells_in.
Qed.
End cells.

(** ** The constraints of the tables *)
Section constraints.
Context `{HiddenColumnsLaws}.
Implicit Types (d : db).

Definition table_ok (dat : data) (m : model) : Prop :=
  Forall (row_ok (model_table m)) (rows_of dat (md_table m)) ∧
  Forall (λ cs, distinct_on cs (rows_of dat (md_table m))) (unique_sets metadata_schema (md_table m)).

Lemma conforms_tables dat :
  conforms metadata_schema dat ↔
  Forall (table_ok dat) metadata ∧ map_Forall (λ t rs, rs = [] ∨ is_Some (s_tables metadata_schema !! t)) dat.
Proof.
  assert (∀ P : pystr → table_def → Prop,
    map_Forall P (s_tables metadata_schema) ↔ Forall (λ m, P (md_table m) (model_table m)) metadata) as Hall.
  { intros P. change (s_tables metadata_schema) with
      (list_to_map ((λ m, (md_table m, model_table m)) <$> metadata) : gmap pystr table_def).
    rewrite map_Forall_of_list by by_decide. by rewrite Forall_fmap. }
  unfold conforms. by rewrite Hall.
Qed.

Lemma Forall_rows {K V} `{Countable K} (P : V → Prop) (m : gmap K V) : Forall P (rows m) ↔ map_Forall (λ _, P) m.
Proof.
  rewrite Forall_forall. split.
  - intros Hp k v Hk. apply Hp, elem_of_rows. eauto.
  - intros Hp v [k Hk]%elem_of_rows. by apply (Hp k).
Qed.
Lemma map_Forall_conj {K V} `{Countable K} (P Q : V → Prop) (m : gmap K V) :
  map_Forall (λ _ v, P v ∧ Q v) m ↔ map_Forall (λ _, P) m ∧ map_Forall (λ _, Q) m.
Proof. unfold map_Forall. naive_solver. Qed.
Lemma rows_admitted {K V} `{Countable K} m (cells : V → list cell) (tbl : gmap K V) (P : V → Prop) :
  bool_decide (NoDup (column_names m)) = true → (∀ v, length (cells v) = length (md_columns m)) →
  (∀ v, cells_ok m (cells v) ↔ P v) →
  Forall (row_ok (model_table m)) ((λ v, row_of m (cells v)) <$> rows tbl) ↔ map_Forall (λ _, P) tbl.
Proof.
  intros Hn%bool_decide_eq_true Hl Hp. rewrite Forall_fmap, <- Forall_rows. apply Forall_iff. intros v. cbn.
  rewrite row_ok_cells by done. apply Hp.
Qed.
Lemma keyed_unique {K V} `{Countable K} (f : V → K) (m : gmap K V) : keyed f m → unique_by (λ v, Some (f v)) m.
Proof. intros Hk k1 v1 L1 k2 v2 L2 _ [= He]. by rewrite <- (Hk _ _ L1), <- (Hk _ _ L2). Qed.

#[local] Instance VText_inj : Inj (=) (=) VText.
Proof. by intros ? ? [=]. Qed.
#[local] Instance VUuid_inj : Inj (=) (=) VUuid.
Proof. by intros ? ? [=]. Qed.

(** A column that is never null. *)
Lemma distinct_total {K V X : Type} `{Countable K} (c : pystr) (enrow : V → row) (f : V → X) (enc : X → cell)
  `{!Inj (=) (=) enc} (m : gmap K V) :
  (∀ x, enc x ≠ VNull) → (∀ v, cell_of (enrow v) c = enc (f v)) →
  distinct_on [c] (enrow <$> rows m) ↔ unique_by (λ v, Some (f v)) m.
Proof. intros Hn Hr. by apply (distinct_on_column c enrow (λ v, Some (f v)) enc). Qed.

(** Text that fits its column is text. *)
Lemma map_Forall_sub {K V} `{Countable K} (P Q : V → Prop) (m : gmap K V) :
  map_Forall (λ _, P) m → (∀ v, P v → Q v) → map_Forall (λ _, Q) m.
Proof. intros Hm HPQ k v Hk. by apply HPQ, (Hm k). Qed.
Lemma user_narrow_text u : user_narrow u → pg_text (User.name u).
Proof. by intros (_ & _ & [_ ?] & _). Qed.
Lemma api_key_narrow_text k : api_key_narrow k → api_key_text k.
Proof. by intros ([_ ?] & _ & _ & _ & ?). Qed.
Lemma access_key_narrow_text k : access_key_narrow k → pg_text (AgentAccessKey.label k).
Proof. by intros (_ & [_ ?] & _). Qed.
Lemma invite_narrow_text i : invite_narrow i → pg_text (Invite.note i).
Proof. by intros (_ & _ & [_ ?] & _). Qed.

Lemma users_table d :
  keyed User.id (users d) →
  table_ok (stored d) user_model ↔ users_ok d ∧ map_Forall (λ _, user_narrow) (users d).
Proof.
  intros Hk. unfold table_ok. change (rows_of (stored d) (md_table user_model)) with
    ((λ u, row_of user_model (user_cells u)) <$> rows (users d)).
  rewrite (rows_admitted user_model user_cells (users d) user_narrow) by (done || apply user_cells_ok).
  replace (unique_sets metadata_schema (md_table user_model)) with [[str "id"]; [str "email"]; [str "stripe_customer_id"]]
    by (vm_compute; reflexivity).
  rewrite !Forall_cons, Forall_nil, (distinct_total (str "id") _ User.id VUuid) by done.
  rewrite (distinct_total (str "email") _ User.email VText) by done.
  rewrite (distinct_on_column (str "stripe_customer_id") _ User.stripe_customer_id VText) by done.
  pose proof (keyed_unique _ _ Hk). split; [intros (Hn & ? & ? & ? & _);
    pose proof (map_Forall_sub _ _ _ Hn user_narrow_text); by split; [split|]|intros [[] ?]; by split_and!].
Qed.
Lemma agents_table d :
  keyed Agent.id (agents d) →
  table_ok (stored d) agent_model ↔ unique_by (λ a, Some (Agent.slug a)) (agents d) ∧
    map_Forall (λ _, agent_widths) (agents d) ∧ map_Forall (λ _, agent_narrow) (agents d).
Proof.
  intros Hk. unfold table_ok. change (rows_of (stored d) (md_table agent_model)) with
    ((λ a, row_of agent_model (agent_cells a)) <$> rows (agents d)).
  rewrite (rows_admitted agent_model agent_cells (agents d) (λ a, agent_widths a ∧ agent_narrow a))
    by (done || apply agent_cells_ok).
  replace (unique_sets metadata_schema (md_table agent_model)) with [[str "id"]; [str "slug"]]
    by (vm_compute; reflexivity).
  rewrite !Forall_cons, Forall_nil, (distinct_total (str "id") _ Agent.id VText) by done.
  rewrite (distinct_total (str "slug") _ Agent.slug VText) by done. rewrite map_Forall_conj.
  pose proof (keyed_unique _ _ Hk). tauto.
Qed.
Lemma api_keys_table d :
  keyed ApiKey.id (api_keys d) →
  table_ok (stored d) api_key_model ↔
  unique_by (λ k, Some (ApiKey.key_hash k)) (api_keys d) ∧ map_Forall (λ _, api_key_narrow) (api_keys d).
Proof.
  intros Hk. unfold table_ok. change (rows_of (stored d) (md_table api_key_model)) with
    ((λ k, row_of api_key_model (api_key_cells k)) <$> rows (api_keys d)).
  rewrite (rows_admitted api_key_model api_key_cells (api_keys d) api_key_narrow) by (done || apply api_key_cells_ok).
  replace (unique_sets metadata_schema (md_table api_key_model)) with [[str "id"]; [str "key_hash"]]
    by (vm_compute; reflexivity).
  rewrite !Forall_cons, Forall_nil, (distinct_total (str "id") _ ApiKey.id VUuid) by done.
  rewrite (distinct_total (str "key_hash") _ ApiKey.key_hash VText) by done.
  pose proof (keyed_unique _ _ Hk). tauto.
Qed.
Lemma access_keys_table d :
  keyed AgentAccessKey.id (access_keys d) →
  table_ok (stored d) access_key_model ↔
  unique_by (λ k, Some (AgentAccessKey.key_hash k)) (access_keys d) ∧
  map_Forall (λ _, access_key_narrow) (access_keys d).
Proof.
  intros Hk. unfold table_ok. change (rows_of (stored d) (md_table access_key_model)) with
    ((λ k, row_of access_key_model (access_key_cells k)) <$> rows (access_keys d)).
  rewrite (rows_admitted access_key_model access_key_cells (access_keys d) access_key_narrow)
    by (done || apply access_key_cells_ok).
  replace (unique_sets metadata_schema (md_table access_key_model)) with [[str "id"]; [str "key_hash"]]
    by (vm_compute; reflexivity).
  rewrite !Forall_cons, Forall_nil, (distinct_total (str "id") _ AgentAccessKey.id VUuid) by done.
  rewrite (distinct_total (str "key_hash") _ AgentAccessKey.key_hash VText) by done.
  pose proof (keyed_unique _ _ Hk). tauto.
Qed.
Lemma invites_table d :
  keyed Invite.id (invites d) →
  table_ok (stored d) invite_model ↔
  unique_by (λ i, Some (Invite.code_hash i)) (invites d) ∧ map_Forall (λ _, invite_narrow) (invites d).
Proof.
  intros Hk. unfold table_ok. change (rows_of (stored d) (md_table invite_model)) with
    ((λ i, row_of invite_model (invite_cells i)) <$> rows (invites d)).
  rewrite (rows_admitted invite_model invite_cells (invites d) invite_narrow) by (done || apply invite_cells_ok).
  replace (unique_sets metadata_schema (md_table invite_model)) with [[str "id"]; [str "code_hash"]]
    by (vm_compute; reflexivity).
  rewrite !Forall_cons, Forall_nil, (distinct_total (str "id") _ Invite.id VUuid) by done.
  rewrite (distinct_total (str "code_hash") _ Invite.code_hash VText) by done.
  pose proof (keyed_unique _ _ Hk). tauto.
Qed.
(** The key of [usage_hours] in the model is its unique pair. *)
Lemma usage_table d :
  table_ok (stored d) usage_hour_model ↔
  map_Forall (λ k h, fits 32 k.1 ∧ int8 (UsageHour.requests h)) (usage_hours d).
Proof.
  unfold table_ok. set (enrow := λ kh : (pystr * datetime) * UsageHour.UsageHour,
    row_of usage_hour_model (usage_cells kh.1 kh.2)).
  change (rows_of (stored d) (md_table usage_hour_model)) with (enrow <$> map_to_list (usage_hours d)).
  replace (unique_sets metadata_schema (md_table usage_hour_model))
    with [[str "id"]; [str "agent_id"; str "hour_start"]] by (vm_compute; reflexivity).
  assert (Forall (row_ok (model_table usage_hour_model)) (enrow <$> map_to_list (usage_hours d)) ↔
    map_Forall (λ k h, fits 32 k.1 ∧ int8 (UsageHour.requests h)) (usage_hours d)) as ->.
  { rewrite Forall_fmap, map_Forall_to_list. apply Forall_iff. intros [k h]. unfold enrow. cbn [fst snd uncurry].
    trans (cells_ok usage_hour_model (usage_cells k h)); [|apply usage_cells_ok].
    by apply row_ok_cells; [by_decide|]. }
  assert (∀ cs (key : pystr * datetime → list cell), Inj (=) (=) key →
    (∀ kh, key_of cs (enrow kh) = Some (key kh.1)) → distinct_on cs (enrow <$> map_to_list (usage_hours d))) as Hd.
  { intros cs key Hinj Hkey. unfold distinct_on. clearbody enrow.
    assert (∀ l, omap (key_of cs) (enrow <$> l) = key <$> l.*1) as ->.
    { induction l as [|kh l IH]; [done|]. cbn -[key_of]. rewrite Hkey. cbn. by f_equal. }
    apply NoDup_fmap_2; [done|]. apply NoDup_fst_map_to_list. }
  rewrite !Forall_cons, Forall_nil. split; [tauto|]. intros Hr. split_and!; [done|..|done].
  - apply (Hd _ (λ k, [VUuid (usage_id k)])); [|done]. intros k k' [= He]. by apply (inj usage_id).
  - apply (Hd _ (λ k, [VText k.1; VTime k.2])); [|done]. by intros [] [] [= -> ->].
Qed.

(** ** Foreign keys *)
Lemma foreign_keys_models :
  foreign_keys metadata_schema = [
    (access_keys_t, str "agent_id", {| fk_table := agents_t; fk_column := str "id"; fk_on_delete := CASCADE |});
    (api_keys_t, str "user_id", {| fk_table := users_t; fk_column := str "id"; fk_on_delete := CASCADE |});
    (agents_t, str "user_id", {| fk_table := users_t; fk_column := str "id"; fk_on_delete := CASCADE |});
    (usage_t, str "user_id", {| fk_table := users_t; fk_column := str "id"; fk_on_delete := CASCADE |});
    (invites_t, str "created_by", {| fk_table := users_t; fk_column := str "id"; fk_on_delete := SET_NULL |}) ].
Proof. vm_compute. reflexivity. Qed.

Lemma id_listed {J W : Type} `{Countable J} (enrow : W → row) (f : W → J) (enc : J → cell) `{!Inj (=) (=) enc}
  (n : gmap J W) (j : J) :
  keyed f n → (∀ w, cell_of (enrow w) (str "id") = enc (f w)) →
  enc j ∈ (λ r, cell_of r (str "id")) <$> (enrow <$> rows n) ↔ is_Some (n !! j).
Proof.
  intros Hk Hr. rewrite <- list_fmap_compose, list_elem_of_fmap. split.
  - intros (w & He & [j' Hj]%elem_of_rows). cbn in He. rewrite Hr in He. apply (inj enc) in He.
    rewrite He, (Hk _ _ Hj). by exists w.
  - intros [w Hw]. exists w. cbn. rewrite Hr, (Hk _ _ Hw). split; [done|]. apply elem_of_rows. by exists j.
Qed.

(** A foreign key on the [id] column of another table. *)
Lemma ref_ok_rows {V J W : Type} `{Countable J} (dat : data) (t c t' : pystr) (act : on_delete) (enrow : V → row)
  (enrow' : W → row) (f : V → option J) (g : W → J) (enc : J → cell) `{!Inj (=) (=) enc} (l : list V) (n : gmap J W) :
  (∀ j, enc j ≠ VNull) → rows_of dat t = enrow <$> l → rows_of dat t' = enrow' <$> rows n → keyed g n →
  (∀ w, cell_of (enrow' w) (str "id") = enc (g w)) → (∀ v, cell_of (enrow v) c = nullable enc (f v)) →
  ref_ok dat (t, c, {| fk_table := t'; fk_column := str "id"; fk_on_delete := act |}) ↔
  Forall (λ v, ∀ j, f v = Some j → is_Some (n !! j)) l.
Proof.
  intros Hn Ht Ht' Hg Hid Hc. unfold ref_ok. cbn [fst snd fk_table fk_column]. rewrite Ht, Ht', Forall_fmap.
  apply Forall_iff. intros v. cbn beta delta [compose]. rewrite Hc. destruct (f v) as [j|]; cbn [nullable].
  - rewrite (id_listed enrow' g enc n j Hg Hid). specialize (Hn j). naive_solver.
  - naive_solver.
Qed.
Lemma Forall_refers {K V J W} `{Countable K} `{Countable J} (f : V → J) (m : gmap K V) (n : gmap J W) :
  Forall (λ v, ∀ j, Some (f v) = Some j → is_Some (n !! j)) (rows m) ↔ refers f m n.
Proof. rewrite Forall_rows. unfold refers, map_Forall. naive_solver. Qed.

Lemma Forall_refers_opt {K V J W} `{Countable K} `{Countable J} (f : V → option J) (m : gmap K V) (n : gmap J W) :
  Forall (λ v, ∀ j, f v = Some j → is_Some (n !! j)) (rows m) ↔ refers_opt f m n.
Proof.
  rewrite Forall_rows. unfold refers_opt, map_Forall. apply forall_proper. intros k. apply forall_proper. intros v.
  destruct (f v); naive_solver.
Qed.

Lemma refs_stored d :
  tables_keyed d →
  refs_ok metadata_schema (stored d) ↔
  refers AgentAccessKey.agent_id (access_keys d) (agents d) ∧ refers ApiKey.user_id (api_keys d) (users d) ∧
  refers Agent.user_id (agents d) (users d) ∧ refers UsageHour.user_id (usage_hours d) (users d) ∧
  refers_opt Invite.created_by (invites d) (users d).
Proof.
  intros [Hu Ha _ _ _]. unfold refs_ok. rewrite foreign_keys_models, !Forall_cons, Forall_nil.
  rewrite (ref_ok_rows (stored d) access_keys_t (str "agent_id") agents_t CASCADE _ _
    (λ k, Some (AgentAccessKey.agent_id k)) Agent.id VText (rows (access_keys d)) (agents d)) by done.
  rewrite (ref_ok_rows (stored d) api_keys_t (str "user_id") users_t CASCADE _ _
    (λ k, Some (ApiKey.user_id k)) User.id VUuid (rows (api_keys d)) (users d)) by done.
  rewrite (ref_ok_rows (stored d) agents_t (str "user_id") users_t CASCADE _ _
    (λ a, Some (Agent.user_id a)) User.id VUuid (rows (agents d)) (users d)) by done.
  rewrite (ref_ok_rows (stored d) usage_t (str "user_id") users_t CASCADE _ _
    (λ kh : (pystr * datetime) * UsageHour.UsageHour, Some (UsageHour.user_id kh.2)) User.id VUuid
    (map_to_list (usage_hours d)) (users d)) by done.
  rewrite (ref_ok_rows (stored d) invites_t (str "created_by") users_t SET_NULL _ _
    Invite.created_by User.id VUuid (rows (invites d)) (users d)) by done.
  rewrite !Forall_refers, Forall_refers_opt.
  assert (Forall (λ kh : (pystr * datetime) * UsageHour.UsageHour, ∀ j, Some (UsageHour.user_id kh.2) = Some j →
      is_Some (users d !! j)) (map_to_list (usage_hours d)) ↔ refers UsageHour.user_id (usage_hours d) (users d)) as ->.
  { unfold refers. rewrite map_Forall_to_list. apply Forall_iff. intros [k h]. cbn. naive_solver. }
  tauto.
Qed.
Lemma stored_known d : map_Forall (λ t rs, rs = [] ∨ is_Some (s_tables metadata_schema !! t)) (stored d).
Proof.
  intros t rs Hrs%elem_of_list_to_map_2. right. revert Hrs.
  apply (Forall_forall (λ p : pystr * list row, is_Some (s_tables metadata_schema !! p.1))).
  repeat constructor; by eexists.
Qed.

(** The same on the schema that the migrations build. *)
Context `{PgFunctions}.
Lemma accepts_head dat : accepts (schema_at 9) dat ↔ accepts metadata_schema dat.
Proof.
  destruct head_matches as [Hsh%bool_decide_eq_true _].
  assert (foreign_keys (schema_at 9) = foreign_keys metadata_schema) as Hfk by (vm_compute; reflexivity).
  unfold accepts, refs_ok. rewrite Hfk. split; (intros [Hc Hr]; split; [|exact Hr]).
  - exact (conforms_shape _ _ dat Hsh Hc).
  - exact (conforms_shape _ _ dat (eq_sym Hsh) Hc).
Qed.

Lemma accepts_stored d :
  tables_keyed d → accepts (schema_at 9) (stored d) ↔ db_ok d ∧ narrow d.
Proof.
  intros Hk. rewrite accepts_head. unfold accepts. rewrite conforms_tables, refs_stored by done.
  pose proof Hk as [Hu Ha Hap Hac Hi]. change metadata with
    [user_model; agent_model; api_key_model; access_key_model; invite_model; usage_hour_model].
  rewrite !Forall_cons, Forall_nil, users_table, agents_table, api_keys_table, access_keys_table, invites_table,
    usage_table by done.
  pose proof (stored_known d). split.
  - intros [[Ht _] Hr]. destruct_and! Ht. destruct_and! Hr.
    assert (map_Forall (λ _, api_key_text) (api_keys d)) by eauto using map_Forall_sub, api_key_narrow_text.
    assert (map_Forall (λ _ k, pg_text (AgentAccessKey.label k)) (access_keys d))
      by (eapply (map_Forall_sub access_key_narrow); [done|apply access_key_narrow_text]).
    assert (map_Forall (λ _ i, pg_text (Invite.note i)) (invites d))
      by (eapply (map_Forall_sub invite_narrow); [done|apply invite_narrow_text]).
    split; [split; first [assumption | by split]|by split].
  - intros [[[] [] [] []] []]. by split_and!.
Qed.

(** C16: PostgreSQL accepts the stored rows of a database exactly when the model's commit check does
    and every value fits its column. *)
Theorem commit_check_is_schema d :
  tables_keyed d → accepts (schema_at 9) (stored d) ↔ db_ok d ∧ narrow d.
Proof. apply accepts_stored. Qed.
End constraints.

(** Agents written by the handlers fit their integer columns while the counters do: every other
    bound of [agent_narrow] follows from the request schemas. *)
Lemma agent_ok_narrow a :
  agent_ok a → Agent.replicas a < 2 ^ 31 → Agent.version a < 2 ^ 31 → opt_text (Agent.error a) → agent_narrow a.
Proof.
  intros (Hc & Hr & Hv & Hl) Hr' Hv' He. unfold deploy_columns_valid, ResourceLimits_valid, in_range in Hc.
  cbn in Hc. unfold agent_narrow, opt_int4, int4. clear -Hc Hr Hv Hl Hr' Hv' He.
  rewrite !andb_true_iff in Hc. destruct_and? Hc.
  split_and!; try lia; [|done]. destruct (Agent.rate_limit_rpm a); [|done]. cbn in Hl. unfold in_range in Hl. lia.
Qed.

(** ** Reachable databases

    What a run of the gateway can store, apart from texts that other systems make (addresses
    passed by the e-mail validator, bcrypt hashes, role numbers, Stripe's identifiers, the
    runtime's error messages, random tokens) and from counters, fits its columns: a request
    whose text PostgreSQL cannot store is refused when it commits. *)
Record foreign_values_fit (d : db) : Prop := {
  fv_users : map_Forall (λ _ u, fits 255 (User.email u) ∧ fits 255 (User.password_hash u) ∧
    int2 (User.role u) ∧ fits_opt 64 (User.stripe_customer_id u) ∧
    fits_opt 64 (User.stripe_subscription_id u) ∧ fits_opt 32 (User.subscription_status u)) (users d);
  fv_agents : map_Forall (λ _ a, Agent.replicas a < 2 ^ 31 ∧ Agent.version a < 2 ^ 31 ∧ opt_text (Agent.error a)) (agents d);
  fv_api_keys : map_Forall (λ _ k, pg_text (ApiKey.key_prefix k)) (api_keys d);
  fv_access_keys : map_Forall (λ _ k, pg_text (AgentAccessKey.key_prefix k)) (access_keys d);
  fv_invites : map_Forall (λ _ i, pg_text (Invite.code_prefix i)) (invites d);
  fv_usage : map_Forall (λ k h, fits 32 k.1 ∧ int8 (UsageHour.requests h)) (usage_hours d);
}.

Lemma short_fits m n s : short m s → pg_text s → (m ≤ n)%nat → fits n s.
Proof. unfold short, fits. intros ? ? ?. split; [lia|done]. Qed.
Lemma digest_fits s : digest s → fits 64 s.
Proof. intros [Hl Hh]. split; [lia|by apply hex_pg_text]. Qed.
Lemma plan_fits p : is_Some (PLANS !! p) → fits 32 p.
Proof.
  intros [pl Hp]. assert (map_Forall (λ k _, fits 32 k) PLANS) as Hall by by_decide. by apply (Hall p pl).
Qed.
Lemma well_formed_narrow `{CoreRole} d : well_formed d → foreign_values_fit d → narrow d.
Proof.
  intros [Hd [Hu Ha Hk Hc Hi]] [Fu Fa Fk Fc Fi Fh].
  pose proof Hd as [[_ _ _ Tu] [Hkey _ _ Hw] [_ _ _ _ _ Href Tk Tc] [_ _ _ _ Ti]]. split.
  - intros k u E. destruct (Hu k u E) as (_ & Hp%plan_fits & Hn), (Fu k u E) as (? & ? & ? & ? & ? & ?).
    split_and!; try done. eapply short_fits; [exact Hn|by apply (Tu k)|lia].
  - intros k a E. destruct (Fa k a E) as (? & ? & ?). apply agent_ok_narrow; [by apply (Ha k)|done..].
  - intros k x E. destruct (Hk k x E) as (Hh & Hp & Hl & Hpr), (Tk k x E) as [Tl Ts].
    split_and!; [by eapply short_fits|by eapply short_fits; [exact Hp|by apply (Fk k)|lia]|by apply digest_fits
      |by rewrite Hpr|done].
  - intros k x E. destruct (Hc k x E) as (Hh & Hp & Hl). destruct (Href k x E) as [a Ea].
    pose proof (Hkey _ _ Ea) as Hid. cbn in Hid.
    split_and!; [rewrite <- Hid; apply (Hw _ _ Ea)|eapply short_fits; [exact Hl|by apply (Tc k)|lia]
      |by eapply short_fits; [exact Hp|by apply (Fc k)|lia]|by apply digest_fits].
  - intros k i E. destruct (Hi k i E) as (Hm & Hu' & Hh & Hp & Hn). unfold invite_narrow, int4.
    split_and!; [by apply digest_fits|by eapply short_fits; [exact Hp|by apply (Fi k)|lia]
      |eapply short_fits; [exact Hn|by apply (Ti k)|lia]|lia..].
  - done.
Qed.

Lemma db_ok_keyed d : db_ok d → tables_keyed d.
Proof. by intros [[] [] [] []]. Qed.

Section reachable.
Context {R : Type} `{AgentRuntime R} `{CoreRuntimeInit R} `{CoreLLM} `{CoreRoleLaws} `{Fernet} `{CoreErrors}.
Context `{UnicodeTables} `{Jwt} `{CoreApiKeysLaws} `{Bcrypt} `{HStamps : AgentStamps}.
Context `{HiddenColumnsLaws} `{PgFunctions}.

(** C17: every database the gateway reaches is one that PostgreSQL, with the schema the
    migrations build, accepts: whatever sequence of requests, scheduler turns, scripts,
    restarts and crashes led to it, every stored row fits its columns and every key and
    reference holds, provided the values made by other systems and the counters fit. *)
Theorem reachable_databases_accepted cfg (w0 w : world R) served lost :
  well_formed (committed_db w0) → sys_run cfg w0 served lost w →
  foreign_values_fit (committed_db w) → accepts (schema_at 9) (stored (committed_db w)).
Proof.
  intros Hw0 Hrun Hf. pose proof (run_well_formed _ _ _ _ _ Hrun Hw0) as Hw.
  apply accepts_stored; [by apply db_ok_keyed, Hw|]. split; [apply Hw|by apply well_formed_narrow].
Qed.
End reachable.

(** ** Example *)
#[local] Instance demo_hidden : HiddenColumns := {|
  user_stamp := λ _, 0; agent_stamp := λ _, 0; usage_id := λ k, N.pos (encode k); float_text := λ _, [];
  json_text := λ _, []; env_text := λ _, [] |}.
#[local] Instance demo_hidden_laws : HiddenColumnsLaws.
Proof. intros k k' [= He]. by apply (inj encode). Qed.
#[local] Instance demo_pg : PgFunctions := id.
Definition one_agent : db := fixture_db [fixture_user] [fixture_agent].
Definition slug_twice : db := fixture_db [fixture_user] [fixture_agent; fixture_agent <| Agent.id := str "agt_2" |>].

Theorem commit_check_is_schema_witness :
  accepts (schema_at 9) (stored one_agent) ∧ ¬ accepts (schema_at 9) (stored slug_twice).
Proof.
  split.
  - apply (commit_check_is_schema one_agent); [split; by_decide|]. split; [by_decide|].
    split; [| |apply map_Forall_empty..].
    + refine (map_Forall_insert_2 _ ∅ (User.id fixture_user) fixture_user _ (map_Forall_empty _)).
      unfold user_narrow, int2. split_and!; by_decide.
    + refine (map_Forall_insert_2 _ ∅ (Agent.id fixture_agent) fixture_agent _ (map_Forall_empty _)).
      apply agent_ok_narrow; by_decide.
  - intros Hacc. apply (commit_check_is_schema slug_twice) in Hacc as [Hok _]; [|split; by_decide].
    assert (bool_decide (db_ok slug_twice) = true) as Hb by (by apply bool_decide_eq_true).
    vm_compute in Hb. discriminate Hb.
Defined.

Theorem reachable_databases_accepted_witness :
  accepts (schema_at 9) (stored (committed_db sys_w2)) ∧ size (usage_hours (committed_db sys_w2)) = 1%nat.
Proof.
  split; [|vm_compute; reflexivity].
  apply (reachable_databases_accepted ingress_cfg ingress_world sys_w2 [(sys_agent, 0)] []
           sys_start_ok sys_run_w2).
  split; unfold int2, int8; by_decide.
Defined.
