(* ===== verification/Loops.v ===== *)
(** The endless loops of the process as interaction trees: the generators behind the log and
    metric streams ([routers/agents.py]) and [run_scheduler_loop] ([scheduler.py]).

    A loop is an [itree] whose events are what it awaits: the disconnect check, a poll, the
    event it yields, a sleep, the clock, a tick.  [drive] runs a tree against an environment
    that answers events from a state of its own; the environments are arbitrary, so that they
    cover clients, other requests and the scheduler.  Being stopped at an await (a cancelled
    task, a closed generator) is a run with less fuel. *)

From ITree Require Import Core.ITreeDefinition Eq.Shallow.
From S2P Require Import Prelude PyText PyFloat Config Errors Plans Models Runtime IngressLimits World.
From S2P Require Import Schemas Fixtures Quota Hostnames AgentEnv AgentService AgentLifecycle.
From S2P Require Import Metering AccessKeys Invites Auth Billing Scheduler Admin LoginRateLimit Api.

(** Trees are built with the notation of the development's monads. *)
#[local] Instance itree_ret {E} : MRet (itree E) := λ A a, Ret a.
#[local] Instance itree_bind {E} : MBind (itree E) := λ A B k t, ITree.bind t k.

(** ** Running a tree *)
Section drive.
Context {E : Type → Type} {S : Type} (answer : ∀ T, E T → S → S * T).

(** An event and its answer. *)
Inductive happened : Type := Happened : ∀ T : Type, E T → T → happened.
#[local] Arguments Happened {T} e x.

(** At most [n] steps: the fuel left, the environment, what happened, the result if there is one. *)
Fixpoint drive {A} (n : nat) (t : itree E A) (s : S) : nat * S * list happened * option A :=
  match observe t, n with
  | RetF r, _ => (n, s, [], Some r)
  | _, O => (O, s, [], None)
  | TauF t, Datatypes.S n => drive n t s
  | VisF e k, Datatypes.S n =>
      let '(s', x) := answer _ e s in
      let '(m, s'', l, o) := drive n (k x) s' in (m, s'', Happened e x :: l, o)
  end.

Lemma drive_observe {A} n (t t' : itree E A) s : observe t = observe t' → drive n t s = drive n t' s.
Proof. intros Ho. destruct n; cbn; by rewrite Ho. Qed.
Lemma drive_ret {A} n (a : A) s : drive n (Ret a) s = (n, s, [], Some a).
Proof. by destruct n. Qed.
Lemma drive_trigger {T} n (e : E T) s :
  drive n (ITree.trigger e) s =
  match n with
  | O => (O, s, [], None)
  | Datatypes.S n => let '(s', x) := answer _ e s in (n, s', [Happened e x], Some x)
  end.
Proof. destruct n; cbn; [done|]. destruct (answer T e s). by rewrite drive_ret. Qed.

Lemma drive_bind {A B} n (t : itree E A) (k : A → itree E B) s :
  drive n (ITree.bind t k) s =
  let '(m, s', l, o) := drive n t s in
  match o with
  | None => (m, s', l, None)
  | Some a => let '(m', s'', l', o') := drive m (k a) s' in (m', s'', l ++ l', o')
  end.
Proof.
  revert t s. induction n as [|n IH]; intros t s.
  - cbn. rewrite observe_bind. destruct (observe t) as [a|t'|T e ke]; cbn; [|done..].
    by destruct (observe (k a)).
  - cbn [drive]. rewrite observe_bind. destruct (observe t) as [a|t'|T e ke] eqn:Ht.
    + change (drive (Datatypes.S n) (k a) s = let '(m', s'', l', o') := drive (Datatypes.S n) (k a) s in
        (m', s'', [] ++ l', o')). by destruct (drive (Datatypes.S n) (k a) s) as [[[??]?]?].
    + cbn [observe _observe]. apply IH.
    + cbn [observe _observe]. destruct (answer T e s) as [s' x]. rewrite IH.
      destruct (drive n (ke x) s') as [[[m s1] l] [a|]]; [|done].
      by destruct (drive m (k a) s1) as [[[??]?]?].
Qed.
Lemma drive_iter {I A} n (body : I → itree E (I + A)) i s :
  drive n (ITree.iter body i) s =
  let '(m, s', l, o) := drive n (body i) s in
  match o with
  | None => (m, s', l, None)
  | Some (inr a) => (m, s', l, Some a)
  | Some (inl j) =>
      match m with
      | O => (O, s', l, None)
      | Datatypes.S m => let '(m', s'', l', o') := drive m (ITree.iter body j) s' in (m', s'', l ++ l', o')
      end
  end.
Proof.
  rewrite (drive_observe n _ _ s (observing_observe (unfold_aloop_ body i))), drive_bind.
  destruct (drive n (body i) s) as [[[m s'] l] [[j|a]|]]; cbn; [|by rewrite drive_ret, app_nil_r|done].
  destruct m; cbn; [by rewrite app_nil_r|done].
Qed.

Lemma drive_fuel {A} n (t : itree E A) s m s' l o : drive n t s = (m, s', l, o) → (m ≤ n)%nat.
Proof.
  revert t s m s' l o. induction n as [|n IH]; intros t s m s' l o; cbn.
  - destruct (observe t); by intros [= <- _ _ _].
  - destruct (observe t) as [a|t'|T e k]; [by intros [= <- _ _ _]|intros ?%IH; lia|].
    destruct (answer T e s) as [s1 x]. destruct (drive n (k x) s1) as [[[m1 s2] l1] o1] eqn:Hd.
    intros [= <- _ _ _]. apply IH in Hd. lia.
Qed.
(** More fuel does not change a finished run. *)
Lemma drive_more {A} n j (t : itree E A) s m s' l a :
  drive n t s = (m, s', l, Some a) → drive (n + j) t s = ((m + j)%nat, s', l, Some a).
Proof.
  revert t s m s' l. induction n as [|n IH]; intros t s m s' l; cbn.
  - destruct (observe t) eqn:Ht; intros [= <- <- <- <-].
    rewrite (drive_observe j t (Ret r) s) by (by rewrite Ht). by rewrite drive_ret.
  - destruct (observe t) as [b|t'|T e k]; [by intros [= <- <- <- <-]|apply IH|].
    destruct (answer T e s) as [s1 x]. destruct (drive n (k x) s1) as [[[m1 s2] l1] [b|]] eqn:Hd; [|done].
    intros [= <- <- <- <-]. by rewrite (IH _ _ _ _ _ Hd).
Qed.

(** Runs of a loop, round by round. *)
Lemma drive_iter_ind {I A} (body : I → itree E (I + A)) (Q : I → S → list happened → option A → Prop) :
  (∀ n i s, let '(m, s', l, o) := drive n (body i) s in
     match o with
     | None => Q i s l None
     | Some (inr a) => Q i s l (Some a)
     | Some (inl j) => Q i s l None ∧ ∀ l' o', Q j s' l' o' → Q i s (l ++ l') o'
     end) →
  ∀ n i s, let '(m, s', l, o) := drive n (ITree.iter body i) s in Q i s l o.
Proof.
  intros Hb n. induction n as [n IH] using (well_founded_induction lt_wf); intros i s.
  rewrite drive_iter. specialize (Hb n i s). destruct (drive n (body i) s) as [[[m s'] l] o] eqn:Hd.
  destruct o as [[j|a]|]; [|done..]. destruct Hb as [Hn Hc]. destruct m as [|m]; [done|].
  apply drive_fuel in Hd. specialize (IH m ltac:(lia) j s').
  destruct (drive m (ITree.iter body j) s') as [[[??]?]?]. by apply Hc.
Qed.

(** A tree finishes, whatever the answers, when there is fuel enough. *)
Definition finishes {A} (t : itree E A) (P : list happened → A → Prop) : Prop :=
  ∀ s, ∃ n m s' l a, drive n t s = (m, s', l, Some a) ∧ P l a.
Lemma finishes_ret {A} (a : A) (P : list happened → A → Prop) : P [] a → finishes (Ret a) P.
Proof. intros HP s. exists O. eexists _, _, _, _. by rewrite drive_ret. Qed.
Lemma finishes_trigger {T} (e : E T) (P : list happened → T → Prop) :
  (∀ x, P [Happened e x] x) → finishes (ITree.trigger e) P.
Proof.
  intros HP s. exists 1%nat. rewrite drive_trigger. destruct (answer T e s) as [s' x]. by eexists _, _, _, _.
Qed.
Lemma finishes_bind {A B} (t : itree E A) (k : A → itree E B) (P : list happened → A → Prop) Q :
  finishes t P → (∀ l a, P l a → finishes (k a) (λ l', Q (l ++ l'))) → finishes (ITree.bind t k) Q.
Proof.
  intros Ht Hk s. destruct (Ht s) as (n & m & s1 & l & a & Hd & HP).
  destruct (Hk l a HP s1) as (n' & m' & s2 & l' & b & Hd' & HQ).
  exists (n + n')%nat. rewrite drive_bind, (drive_more n n' _ _ _ _ _ _ Hd).
  rewrite (Nat.add_comm m n'), (drive_more n' m _ _ _ _ _ _ Hd'). by eexists _, _, _, _.
Qed.
Lemma finishes_await {T A} (e : E T) (k : T → itree E A) (Q : list happened → A → Prop) :
  (∀ x, finishes (k x) (λ l, Q (Happened e x :: l))) → finishes (ITree.bind (ITree.trigger e) k) Q.
Proof.
  intros Hk. apply (finishes_bind _ _ (λ l x, l = [Happened e x])); [by apply finishes_trigger|].
  intros l x ->. apply Hk.
Qed.

(** A loop whose rounds finish goes on for as long as it likes. *)
Lemma iter_progress {I A X} (f : happened → option X) (body : I → itree E (I + A)) :
  (∀ i, finishes (body i) (λ l r, match r with inl _ => (1 ≤ length (omap f l))%nat | inr _ => True end)) →
  ∀ k i s, ∃ n0, ∀ n, (n0 ≤ n)%nat →
    let '(m, s', l, o) := drive n (ITree.iter body i) s in is_Some o ∨ (k ≤ length (omap f l))%nat.
Proof.
  intros Hb k. induction k as [|k IH]; intros i s.
  { exists O. intros n _. destruct (drive n _ s) as [[[??]?]?]. right. lia. }
  destruct (Hb i s) as (n1 & m1 & s1 & l1 & [j|a] & Hd & HP).
  - destruct (IH j s1) as [n2 Hn2]. exists (n1 + Datatypes.S n2)%nat. intros n Hn.
    replace n with (n1 + Datatypes.S (n - n1 - 1))%nat by lia.
    rewrite drive_iter, (drive_more _ _ _ _ _ _ _ _ Hd), Nat.add_succ_r.
    specialize (Hn2 (m1 + (n - n1 - 1))%nat ltac:(lia)).
    destruct (drive _ (ITree.iter body j) s1) as [[[??] l] o]. rewrite omap_app, length_app.
    destruct Hn2; [by left|right; lia].
  - exists n1. intros n Hn. replace n with (n1 + (n - n1))%nat by lia.
    rewrite drive_iter, (drive_more _ _ _ _ _ _ _ _ Hd). left. by eexists.
Qed.
End drive.
Arguments happened _ : clear implicits.
Arguments Happened {E T} e x.

(** ** Streams *)
(** What a stream's generator awaits: whether the client is gone, reading ([Poll], with what
    it raises), the consumer of the event it yields, and a sleep. *)
Inductive streamE (A B : Type) : Type → Type :=
| IsDisconnected : streamE A B bool
| Poll : streamE A B (result exn A)
| Yield (event : B) : streamE A B unit
| Sleep (seconds : Z) : streamE A B unit.
Arguments IsDisconnected {A B}.
Arguments Poll {A B}.
Arguments Yield {A B} event.
Arguments Sleep {A B} seconds.

Section observers.
Context {A B : Type}.
Implicit Types (h : happened (streamE A B)).

Definition poll_of h : option (result exn A) :=
  match h with Happened e x =>
    match e in streamE _ _ T return T → option (result exn A) with Poll => Some | _ => λ _, None end x
  end.
Definition yield_of h : option B :=
  match h with Happened e _ => match e with Yield b => Some b | _ => None end end.
Definition sleep_of h : option Z :=
  match h with Happened e _ => match e with Sleep z => Some z | _ => None end end.
(** The client was found to be gone. *)
Definition gone h : bool :=
  match h with Happened e x =>
    match e in streamE _ _ T return T → bool with IsDisconnected => λ b, b | _ => λ _, false end x
  end.
Definition polls (l : list (happened (streamE A B))) : list (result exn A) := omap poll_of l.
Definition yields (l : list (happened (streamE A B))) : list B := omap yield_of l.
End observers.

(** [stream_logs]: the entries of one poll that were not sent before. *)
Fixpoint send_entries (seen : gset (pystr * datetime)) (logs : list AgentLog)
  : itree (streamE (list AgentLog) stream_event) (gset (pystr * datetime)) :=
  match logs with
  | [] => mret seen
  | entry :: rest =>
      if decide (log_key entry ∈ seen) then send_entries seen rest
      else ITree.trigger (Yield (LogEvent entry));; send_entries ({[ log_key entry ]} ∪ seen) rest
  end.
Definition logs_read (r : result exn (list AgentLog)) : list AgentLog := match r with Ok l => l | Err _ => [] end.
Definition logs_round (seen : gset (pystr * datetime))
  : itree (streamE (list AgentLog) stream_event) (gset (pystr * datetime) + unit) :=
  disconnected ← ITree.trigger IsDisconnected;
  if disconnected : bool then mret (inr tt)
  else logs ← ITree.trigger Poll;
       seen ← send_entries seen (logs_read logs);
       ITree.trigger (Yield Heartbeat);;
       ITree.trigger (Sleep 2);;
       mret (inl seen).
Definition stream_logs : itree (streamE (list AgentLog) stream_event) unit := ITree.iter logs_round ∅.

(** [stream_metrics] *)
Definition metric_of (r : result exn Metrics) : metric_event :=
  match r with Ok m => MetricEvent m | Err _ => MetricHeartbeat end.
Definition metrics_round (interval : Z) (_ : unit) : itree (streamE Metrics metric_event) (unit + unit) :=
  disconnected ← ITree.trigger IsDisconnected;
  if disconnected : bool then mret (inr tt)
  else metrics ← ITree.trigger Poll;
       ITree.trigger (Yield (metric_of metrics));;
       ITree.trigger (Sleep interval);;
       mret (inl tt).
Definition stream_metrics (interval : Z) : itree (streamE Metrics metric_event) unit :=
  ITree.iter (metrics_round interval) tt.

(** ** What a stream has sent *)
(** [sent] is what the events sent should be, given the answers read. *)
Record stream_run_ok {A B} (sent : list (result exn A) → list B) (pause : Z)
  (l : list (happened (streamE A B))) (o : option unit) : Prop := {
  (** nothing else is ever sent, nor in another order *)
  run_prefix : yields l `prefix_of` sent (polls l);
  (** everything read is sent before the stream sleeps *)
  run_complete : ∀ l1 h l2, l = l1 ++ h :: l2 → is_Some (sleep_of h) →
    sleep_of h = Some pause ∧ yields l1 = sent (polls l1);
  (** the stream ends exactly when the client is found to be gone, at once *)
  run_end : match o with
            | None => Forall (λ h, gone h = false) l
            | Some _ => ∃ l0 h, l = l0 ++ [h] ∧ gone h = true ∧ Forall (λ h, gone h = false) l0
            end;
}.

Section runs.
Context {A B : Type} (pause : Z).
Implicit Types (h : happened (streamE A B)) (l : list (happened (streamE A B))) (sent : list (result exn A) → list B).
Definition quiet h : Prop := sleep_of h = None ∧ gone h = false.

Lemma sleep_silent h : is_Some (sleep_of h) → poll_of h = None ∧ yield_of h = None ∧ gone h = false.
Proof. destruct h as [T [] x]; cbn; by intros []. Qed.
Lemma polls_app l l' : polls (l ++ l') = polls l ++ polls l'.
Proof. apply omap_app. Qed.
Lemma yields_app l l' : yields (l ++ l') = yields l ++ yields l'.
Proof. apply omap_app. Qed.
Lemma polls_sleep h l : is_Some (sleep_of h) → polls (h :: l) = polls l ∧ yields (h :: l) = yields l.
Proof. intros (Hp & Hy & _)%sleep_silent. unfold polls, yields. cbn. by rewrite Hp, Hy. Qed.
Lemma quiet_gone l : Forall quiet l → Forall (λ h, gone h = false) l.
Proof. intros Hq. eapply Forall_impl; [exact Hq|]. by intros h []. Qed.

Lemma run_ok_partial sent l :
  Forall quiet l → yields l `prefix_of` sent (polls l) → stream_run_ok sent pause l None.
Proof.
  intros Hq Hp. split; [done| |by apply quiet_gone]. intros l1 h l2 -> [z Hz].
  apply Forall_app in Hq as [_ [[Hn _] _]%Forall_cons]. congruence.
Qed.
Lemma run_ok_gone sent h : sleep_of h = None → yield_of h = None → gone h = true → stream_run_ok sent pause [h] (Some ()).
Proof.
  intros Hs Hy Hg. split.
  - unfold yields. cbn. rewrite Hy. apply prefix_nil.
  - intros l1 h' l2 He [z Hz]. destruct l1 as [|? [|? ?]]; simplify_eq/=.
  - exists [], h. by split_and!.
Qed.
Lemma run_ok_round sent sent' l h r l' o :
  Forall quiet l → sleep_of h = Some pause → polls l = [r] →
  (∀ rs, sent (r :: rs) = yields l ++ sent' rs) → sent' [] = [] →
  stream_run_ok sent' pause l' o → stream_run_ok sent pause (l ++ h :: l') o.
Proof.
  intros Hq Hh Hr Hs Hnil [Hp Hc He]. destruct (polls_sleep h l') as [Hpl Hyl]; [by eexists|].
  assert (gone h = false) as Hg by (apply sleep_silent; by eexists). split.
  - rewrite yields_app, polls_app, Hr, Hpl, Hyl. cbn. rewrite Hs. by apply prefix_app.
  - intros l1 h' l2 Heq Hh'. apply app_eq_app in Heq as (k & [[-> Hk]|[-> Hk]]).
    + destruct k as [|h1 k].
      * cbn in Hk. simplify_eq. rewrite app_nil_r in *. split; [done|].
        rewrite Hr, Hs, Hnil, app_nil_r. done.
      * simplify_eq/=. apply Forall_app in Hq as [_ [[Hn _] _]%Forall_cons]. destruct Hh'. congruence.
    + destruct k as [|h1 k]; simplify_eq/=.
      * rewrite app_nil_r. split; [done|]. by rewrite Hr, Hs, Hnil, app_nil_r.
      * destruct (Hc k h' l2 eq_refl Hh') as [Hz Hy]. split; [done|].
        destruct (polls_sleep h1 k) as [Hpk Hyk]; [by eexists|].
        rewrite yields_app, polls_app, Hr, Hpk, Hyk, Hy. cbn. by rewrite Hs.
  - destruct o as [u|].
    + destruct He as (l0 & h0 & -> & Hg0 & Hf). exists (l ++ h :: l0), h0. rewrite <- app_assoc. split_and!; [done..|].
      apply Forall_app. split; [by apply quiet_gone|by constructor].
    + apply Forall_app. split; [by apply quiet_gone|by constructor].
Qed.
End runs.

(** ** Log streams *)
(** One event of a round: out of fuel, or its answer. *)
Ltac drive_event n s x :=
  unfold mbind, itree_bind; rewrite drive_bind, drive_trigger; destruct n as [|n]; [|
    match goal with |- context [?answer _ ?e s] =>
      let s' := fresh s in destruct (answer _ e s) as [s' x]; clear s; rename s' into s end].

Definition logs_sent (seen : gset (pystr * datetime)) (rs : list (result exn (list AgentLog))) : list stream_event :=
  stream_run seen (logs_read <$> rs).

Section log_stream.
Context {S : Type} (answer : ∀ T, streamE (list AgentLog) stream_event T → S → S * T).

Lemma drive_send_entries n seen logs s :
  let '(m, s', l, o) := drive answer n (send_entries seen logs) s in
  Forall quiet l ∧ polls l = [] ∧
  match o with
  | Some seen' => send_new seen logs = (seen', yields l)
  | None => yields l `prefix_of` (send_new seen logs).2
  end.
Proof.
  revert n seen s. induction logs as [|e logs IH]; intros n seen s; cbn [send_entries send_new].
  { unfold mret, itree_ret. rewrite drive_ret. by split_and!. }
  case_decide; [apply IH|]. drive_event n s x.
  { destruct (send_new _ logs). split_and!; [done..|]. apply prefix_nil. }
  specialize (IH n ({[ log_key e ]} ∪ seen) s). destruct (drive _ n _ s) as [[[m s'] l] o].
  destruct IH as (Hq & Hp & Ho). destruct (send_new _ logs) as [seen2 es2]. split_and!; [by constructor|done|].
  destruct o as [seen'|]; cbn in *; [by simplify_eq|]. by apply prefix_cons.
Qed.

Definition started_round (r : result exn (list AgentLog)) l : list (happened (streamE (list AgentLog) stream_event)) :=
  Happened IsDisconnected false :: Happened Poll r :: l.
Lemma started_round_quiet r l : Forall quiet l → Forall quiet (started_round r l).
Proof. by repeat constructor. Qed.
Lemma started_round_polls r l : polls l = [] → polls (started_round r l) = [r].
Proof. intros Hp. change (polls (started_round r l)) with (r :: polls l). by rewrite Hp. Qed.

Lemma logs_sent_cons seen r rs :
  logs_sent seen (r :: rs) = (send_new seen (logs_read r)).2 ++ Heartbeat :: logs_sent (send_new seen (logs_read r)).1 rs.
Proof. unfold logs_sent. cbn [fmap list_fmap stream_run]. by destruct (send_new seen (logs_read r)). Qed.

Lemma stream_logs_run n seen s :
  let '(m, s', l, o) := drive answer n (ITree.iter logs_round seen) s in stream_run_ok (logs_sent seen) 2 l o.
Proof.
  apply (drive_iter_ind answer logs_round (λ seen _ l o, stream_run_ok (logs_sent seen) 2 l o)). clear.
  intros n seen s. unfold logs_round. drive_event n s x; [by apply run_ok_partial|].
  destruct x; [unfold mret, itree_ret; rewrite drive_ret; by apply run_ok_gone|].
  drive_event n s r; [apply run_ok_partial; [by repeat constructor|done]|].
  rewrite drive_bind.
  pose proof (drive_send_entries n seen (logs_read r) s) as Hse.
  destruct (drive answer n (send_entries seen (logs_read r)) s) as [[[m s1] l] o]. clear n s.
  destruct Hse as (Hq & Hp & Ho). pose proof (logs_sent_cons seen r) as Hcons.
  destruct o as [seen1|].
  2: { apply (run_ok_partial 2 _ (started_round r l)); [by apply started_round_quiet|].
       rewrite started_round_polls, Hcons by done. by apply prefix_app_r. }
  rewrite Ho in Hcons. cbn [fst snd] in Hcons.
  drive_event m s1 u.
  { rewrite app_nil_r. apply (run_ok_partial 2 _ (started_round r l)); [by apply started_round_quiet|].
    rewrite started_round_polls, Hcons by done. by apply prefix_app_r. }
  set (l1 := started_round r (l ++ [Happened (Yield Heartbeat) u])).
  assert (Forall quiet l1) as Hq1 by (apply started_round_quiet, Forall_app; by repeat constructor).
  assert (polls l1 = [r]) as Hp1 by (apply started_round_polls; by rewrite polls_app, Hp).
  assert (∀ rs, logs_sent seen (r :: rs) = yields l1 ++ logs_sent seen1 rs) as Hs1.
  { intros rs. rewrite Hcons. change (yields l1) with (yields (l ++ [Happened (Yield Heartbeat) u])).
    by rewrite yields_app, <- app_assoc. }
  drive_event m s1 u'.
  { apply (run_ok_partial 2 _ l1); [done|]. by rewrite Hp1, Hs1, app_nil_r. }
  unfold mret, itree_ret. rewrite drive_ret. cbn [app].
  assert (∀ l' o', stream_run_ok (logs_sent seen1) 2 l' o' →
    stream_run_ok (logs_sent seen) 2 (l1 ++ Happened (Sleep 2) u' :: l') o') as Hround.
  { intros l' o'. by apply (run_ok_round 2 _ _ _ _ r). }
  split; [eapply (eq_ind (l1 ++ Happened (Sleep 2) u' :: []) (λ k, stream_run_ok _ 2 k _))
         |intros l' o' Hl'; eapply (eq_ind (l1 ++ Happened (Sleep 2) u' :: l') (λ k, stream_run_ok _ 2 k _))];
    [by apply Hround, run_ok_partial| |by apply Hround|];
    unfold l1, started_round; cbn; by rewrite <- !app_assoc.
Qed.

Lemma send_entries_finishes seen logs : finishes answer (send_entries seen logs) (λ _ _, True).
Proof.
  revert seen. induction logs as [|e logs IH]; intros seen; cbn [send_entries]; [by apply finishes_ret|].
  case_decide; [apply IH|]. apply finishes_await. intros u. apply IH.
Qed.
Lemma logs_round_finishes seen :
  finishes answer (logs_round seen)
    (λ l r, match r with inl _ => (1 ≤ length (omap sleep_of l))%nat | inr _ => True end).
Proof.
  apply finishes_await. intros []; [by apply finishes_ret|]. apply finishes_await. intros r.
  eapply finishes_bind; [apply send_entries_finishes|]. intros l seen' _.
  apply finishes_await. intros u0. apply finishes_await. intros u. apply finishes_ret. cbn.
  rewrite omap_app, length_app. cbn. lia.
Qed.

(** C27: Log streams, against any client, agent and database, for any number of steps: what is sent
    is at every moment a beginning of what the reads call for, namely each entry of a new
    replica and time once, and a heartbeat after every poll, failed or not; before every sleep,
    of two seconds, all of it has been sent; the stream ends exactly when the client is found
    to be gone, and until then it never stops polling. *)
Theorem log_stream_runs n s :
  (let '(m, s', l, o) := drive answer n stream_logs s in
   stream_run_ok (λ rs, stream_run ∅ (logs_read <$> rs)) 2 l o ∧
   NoDup (sent_keys (yields l)) ∧
   ∀ k, k ∈ sent_keys (yields l) → k ∈ log_key <$> concat (logs_read <$> polls l)) ∧
  ∀ k, ∃ n', let '(m, s', l, o) := drive answer n' stream_logs s in
    o = Some () ∨ (k ≤ length (omap sleep_of l))%nat.
Proof.
  split.
  - pose proof (stream_logs_run n ∅ s) as Hrun. unfold stream_logs.
    destruct (drive answer n (ITree.iter logs_round ∅) s) as [[[m s'] l] o]. split; [exact Hrun|].
    destruct Hrun as [[es Hes] _ _]. destruct (log_stream_exactly_once (logs_read <$> polls l)) as [Hnd Hk].
    unfold logs_sent in Hes. rewrite Hes, sent_keys_app in Hnd, Hk. apply NoDup_app in Hnd as [Hnd _].
    split; [done|]. intros k Hin. apply Hk, elem_of_app. by left.
  - intros k. destruct (iter_progress answer sleep_of logs_round logs_round_finishes k ∅ s) as [n' Hn'].
    exists n'. specialize (Hn' n' (le_n _)). unfold stream_logs.
    destruct (drive answer n' (ITree.iter logs_round ∅) s) as [[[m s'] l] o].
    destruct Hn' as [[[] ->]|]; [by left|by right].
Qed.
End log_stream.

(** ** Metric streams *)
Section metric_stream.
Context {S : Type} (answer : ∀ T, streamE Metrics metric_event T → S → S * T) (interval : Z).

Lemma stream_metrics_run n s :
  let '(m, s', l, o) := drive answer n (stream_metrics interval) s in
  stream_run_ok (fmap metric_of) interval l o.
Proof.
  apply (drive_iter_ind answer (metrics_round interval) (λ _ _ l o, stream_run_ok (fmap metric_of) interval l o)).
  clear. intros n [] s. unfold metrics_round. drive_event n s x; [by apply run_ok_partial|].
  destruct x; [unfold mret, itree_ret; rewrite drive_ret; by apply run_ok_gone|].
  drive_event n s r; [apply run_ok_partial; [by repeat constructor|]; apply prefix_nil|].
  drive_event n s u; [apply run_ok_partial; [by repeat constructor|]; apply prefix_nil|].
  drive_event n s u'; [apply run_ok_partial; [by repeat constructor|done]|].
  unfold mret, itree_ret. rewrite drive_ret. cbn [app].
  set (l := [Happened IsDisconnected false; Happened Poll r; Happened (Yield (metric_of r)) u]).
  assert (∀ l' o', stream_run_ok (fmap metric_of) interval l' o' →
    stream_run_ok (fmap metric_of) interval (l ++ Happened (Sleep interval) u' :: l') o') as Hround.
  { intros l' o'. by apply (run_ok_round interval _ _ l _ r); [repeat constructor|..]. }
  split; [by apply (Hround []), run_ok_partial|]. intros l' o' Hl'. by apply Hround.
Qed.
Lemma metrics_round_finishes u :
  finishes answer (metrics_round interval u)
    (λ l r, match r with inl _ => (1 ≤ length (omap sleep_of l))%nat | inr _ => True end).
Proof.
  apply finishes_await. intros []; [by apply finishes_ret|]. do 3 (apply finishes_await; intros ?).
  apply finishes_ret. cbn. lia.
Qed.

(** Metric streams likewise: one event per poll, the metrics read or, when reading failed, a
    heartbeat, then a sleep of the requested interval, until the client is gone. *)
Theorem metric_stream_runs n s :
  (let '(m, s', l, o) := drive answer n (stream_metrics interval) s in
   stream_run_ok (fmap metric_of) interval l o) ∧
  ∀ k, ∃ n', let '(m, s', l, o) := drive answer n' (stream_metrics interval) s in
    o = Some () ∨ (k ≤ length (omap sleep_of l))%nat.
Proof.
  split; [apply stream_metrics_run|]. intros k.
  destruct (iter_progress answer sleep_of (metrics_round interval) metrics_round_finishes k tt s) as [n' Hn'].
  exists n'. specialize (Hn' n' (le_n _)). unfold stream_metrics.
  destruct (drive answer n' _ s) as [[[m s'] l] o]. destruct Hn' as [[[] ->]|]; [by left|by right].
Qed.
End metric_stream.

(** ** The scheduler loop *)
(** How a tick ends for the loop: it returns, raises, or the task is cancelled in it. *)
Inductive tick_end := TickDone | TickFailed (e : exn) | TickCancelled.
(** What [run_scheduler_loop] awaits or reads: the monotonic clock, a tick, a sleep, in which
    it may be cancelled. *)
Inductive loopE : Type → Type :=
| Monotonic : loopE float
| TickFor (elapsed : option num) : loopE tick_end
| SleepFor (seconds : Z) : loopE bool.

Definition scheduler_round (cfg : GatewaySettings) (last_tick : option float) : itree loopE (option float + unit) :=
  started ← ITree.trigger Monotonic;
  ended ← ITree.trigger (TickFor (loop_elapsed cfg last_tick started));
  match ended with
  | TickCancelled => mret (inr tt)
  | TickDone | TickFailed _ =>
      cancelled ← ITree.trigger (SleepFor (scheduler_interval_seconds cfg));
      mret (if cancelled : bool then inr tt else inl (Some started))
  end.
Definition run_scheduler_loop (cfg : GatewaySettings) : itree loopE unit := ITree.iter (scheduler_round cfg) None.

(** *** What the loop has done *)
Section loop_observers.
Implicit Types (h : happened loopE) (l : list (happened loopE)).

(** The kind of an event. *)
Inductive loop_event := ReadsClock | Ticks | SleepsFor (seconds : Z).
Definition kind_of h : loop_event :=
  match h with Happened e _ =>
    match e with Monotonic => ReadsClock | TickFor _ => Ticks | SleepFor z => SleepsFor z end
  end.
Definition clock_of h : option float :=
  match h with Happened e x =>
    match e in loopE T return T → option float with Monotonic => Some | _ => λ _, None end x
  end.
(** The time a tick was told to meter. *)
Definition elapsed_of h : option (option num) :=
  match h with Happened e _ => match e with TickFor elapsed => Some elapsed | _ => None end end.
(** The task was cancelled in this await. *)
Definition cancelled_in h : bool :=
  match h with Happened e x =>
    match e in loopE T return T → bool with
    | Monotonic => λ _, false
    | TickFor _ => λ r, match r with TickCancelled => true | _ => false end
    | SleepFor _ => λ b, b
    end x
  end.
Definition nap_of h : option Z := match kind_of h with SleepsFor z => Some z | _ => None end.
Definition clocks l : list float := omap clock_of l.
Definition elapses l : list (option num) := omap elapsed_of l.
End loop_observers.

(** What every run of the loop is, cut off anywhere. *)
Record loop_run_ok (interval : Z) (l : list (happened loopE)) (o : option unit) : Prop := {
  (** clock, tick, sleep of one interval, again and again, whether or not a tick fails *)
  loop_rounds : ∃ n, kind_of <$> l `prefix_of` concat (replicate n [ReadsClock; Ticks; SleepsFor interval]);
  (** the first tick is told no time *)
  loop_first : ∀ e, elapses l !! O = Some e → e = None;
  (** every other the time since the tick before, but at most three intervals *)
  loop_later : ∀ i e, elapses l !! Datatypes.S i = Some e →
    ∃ t0 t1, clocks l !! i = Some t0 ∧ clocks l !! Datatypes.S i = Some t1 ∧
      e = Some (num_min (NFloat (fsub t1 t0)) (NInt (3 * interval)));
  (** the loop ends exactly when it is cancelled, at once *)
  loop_end : match o with
             | None => Forall (λ h, cancelled_in h = false) l
             | Some _ => ∃ l0 h, l = l0 ++ [h] ∧ cancelled_in h = true ∧ Forall (λ h, cancelled_in h = false) l0
             end;
}.

Section scheduler_loop.
Context {S : Type} (answer : ∀ T, loopE T → S → S * T) (cfg : GatewaySettings).
Abbreviation interval := (scheduler_interval_seconds cfg).

(** The times told to the ticks, from the readings of the clock. *)
Fixpoint gaps (last : option float) (ts : list float) : list (option num) :=
  match ts with [] => [] | t :: ts => loop_elapsed cfg last t :: gaps (Some t) ts end.
Lemma gaps_later last ts i e :
  gaps last ts !! Datatypes.S i = Some e →
  ∃ t0 t1, ts !! i = Some t0 ∧ ts !! Datatypes.S i = Some t1 ∧
    e = Some (num_min (NFloat (fsub t1 t0)) (NInt (3 * interval))).
Proof.
  revert last i. induction ts as [|t ts IH]; intros last i He; [done|]. cbn in He. destruct i as [|i].
  - destruct ts as [|t1 ts]; [done|]. injection He as <-. by exists t, t1.
  - destruct (IH _ _ He) as (t0 & t1 & H0 & H1 & ->). by exists t0, t1.
Qed.

(** The same for a run that starts after a tick at [last]. *)
Record loop_run_from (last : option float) (l : list (happened loopE)) (o : option unit) : Prop := {
  from_rounds : ∃ n, kind_of <$> l `prefix_of` concat (replicate n [ReadsClock; Ticks; SleepsFor interval]);
  from_gaps : elapses l `prefix_of` gaps last (clocks l);
  from_end : match o with
             | None => Forall (λ h, cancelled_in h = false) l
             | Some _ => ∃ l0 h, l = l0 ++ [h] ∧ cancelled_in h = true ∧ Forall (λ h, cancelled_in h = false) l0
             end;
}.

(** A run within a round. *)
Lemma loop_partial last l :
  kind_of <$> l `prefix_of` [ReadsClock; Ticks; SleepsFor interval] → elapses l `prefix_of` gaps last (clocks l) →
  Forall (λ h, cancelled_in h = false) l → loop_run_from last l None.
Proof. intros Hk Hg Hf. split; [by exists 1%nat|done|done]. Qed.
Lemma loop_cancelled last l h :
  kind_of <$> (l ++ [h]) `prefix_of` [ReadsClock; Ticks; SleepsFor interval] →
  elapses (l ++ [h]) `prefix_of` gaps last (clocks (l ++ [h])) →
  Forall (λ h, cancelled_in h = false) l → cancelled_in h = true → loop_run_from last (l ++ [h]) (Some ()).
Proof. intros Hk Hg Hf Hc. split; [by exists 1%nat|done|]. by exists l, h. Qed.

Lemma scheduler_loop_run n last s :
  let '(m, s', l, o) := drive answer n (ITree.iter (scheduler_round cfg) last) s in loop_run_from last l o.
Proof.
  apply (drive_iter_ind answer (scheduler_round cfg) (λ last _ l o, loop_run_from last l o)). clear.
  intros n last s. unfold scheduler_round.
  drive_event n s t; [apply loop_partial; [apply prefix_nil|done|done]|].
  drive_event n s r; [apply loop_partial; [by eexists|apply prefix_nil|by repeat constructor]|].
  set (l := [Happened Monotonic t; Happened (TickFor (loop_elapsed cfg last t)) r]).
  assert (r = TickCancelled ∨ r ≠ TickCancelled) as [->|Hr] by (destruct r; by (left + right)).
  { unfold mret, itree_ret. rewrite drive_ret. cbn [app].
    apply (loop_cancelled last [Happened Monotonic t]); [by eexists|by eexists|by repeat constructor|done]. }
  assert (cancelled_in (Happened (TickFor (loop_elapsed cfg last t)) r) = false) as Hc by (by destruct r).
  assert (Forall (λ h, cancelled_in h = false) l) as Hl by (by repeat constructor).
  replace (match r with TickCancelled => mret (inr tt) | _ => _ end)
    with (cancelled ← ITree.trigger (SleepFor interval); mret (if cancelled : bool then inr tt else inl (Some t)))
    by (by destruct r).
  drive_event n s b; [apply (loop_partial last l); [by eexists|by eexists|done]|].
  unfold mret, itree_ret. rewrite drive_ret. cbn [app]. destruct b.
  { apply (loop_cancelled last l); [by eexists|by eexists|done|done]. }
  assert (Forall (λ h, cancelled_in h = false) (l ++ [Happened (SleepFor interval) false])) as Hl'
    by (apply Forall_app; by repeat constructor).
  split; [apply (loop_partial last (l ++ [Happened (SleepFor interval) false])); [by eexists|by eexists|done]|].
  intros l' o' [[k Hk] Hg He]. change (loop_run_from last ((l ++ [Happened (SleepFor interval) false]) ++ l') o'). split.
  - exists (Datatypes.S k). rewrite fmap_app. cbn [replicate concat]. by apply prefix_app.
  - cbn. by apply prefix_cons.
  - destruct o' as [u|]; [|by apply Forall_app].
    destruct He as (l0 & h & -> & Hh & Hf). exists ((l ++ [Happened (SleepFor interval) false]) ++ l0), h.
    split_and!; [by rewrite <- app_assoc|done|by apply Forall_app].
Qed.

Lemma scheduler_round_finishes last :
  finishes answer (scheduler_round cfg last)
    (λ l r, match r with inl _ => (1 ≤ length (omap nap_of l))%nat | inr _ => True end).
Proof.
  apply finishes_await. intros t. apply finishes_await.
  intros []; [|..]; first [by apply finishes_ret|apply finishes_await; intros []; apply finishes_ret; [done|cbn; lia]].
Qed.

(** C28: the scheduler loop, whatever the clock reads, the ticks do and whenever it is cancelled:
    it reads the clock, ticks and sleeps exactly one interval, again and again, also after a tick
    that failed; the first tick is told no time and every later one the time since the start of
    the tick before, but never more than three intervals; it ends exactly when it is cancelled,
    in a tick or in the sleep, and until then it never stops. *)
Theorem scheduler_loop_runs n s :
  (let '(m, s', l, o) := drive answer n (run_scheduler_loop cfg) s in loop_run_ok interval l o) ∧
  ∀ k, ∃ n', let '(m, s', l, o) := drive answer n' (run_scheduler_loop cfg) s in
    o = Some () ∨ (k ≤ length (omap nap_of l))%nat.
Proof.
  split.
  - pose proof (scheduler_loop_run n None s) as Hr. unfold run_scheduler_loop.
    destruct (drive answer n _ s) as [[[m s'] l] o]. destruct Hr as [Hk Hg He]. split; [done| | |done].
    + intros e Hl. eapply prefix_lookup_Some in Hg; [|exact Hl]. by destruct (clocks l); simplify_eq/=.
    + intros i e Hl. eapply prefix_lookup_Some in Hg; [|exact Hl]. by apply (gaps_later None).
  - intros k. destruct (iter_progress answer nap_of (scheduler_round cfg) scheduler_round_finishes k None s) as [n' Hn'].
    exists n'. specialize (Hn' n' (le_n _)). unfold run_scheduler_loop.
    destruct (drive answer n' _ s) as [[[m s'] l] o]. destruct Hn' as [[[] ->]|]; [by left|by right].
Qed.
End scheduler_loop.

(** ** Examples *)
(** A client that stays for as many polls as there are answers left. *)
Definition scripted {A B} T (e : streamE A B T) : list (result exn A) → list (result exn A) * T :=
  match e in streamE _ _ T return list (result exn A) → list (result exn A) * T with
  | IsDisconnected => λ s, (s, match s with [] => true | _ => false end)
  | Poll => λ s, (tail s, match s with r :: _ => r | [] => Err (ForeignError []) end)
  | Yield _ => λ s, (s, ())
  | Sleep _ => λ s, (s, ())
  end.
Definition demo_log (replica : string) (at_ : datetime) : AgentLog :=
  {| al_agent_id := str "agt_1"; al_replica_id := str replica; al_timestamp := at_; al_level := str "info";
     al_message := []; al_source := str "stdout" |}.

(** Overlapping tails and a failed poll. *)
Example stream_logs_demo :
  let '(_, _, l, o) := drive scripted 30 stream_logs
    [Ok [demo_log "a" 1; demo_log "b" 1]; Err (ForeignError []); Ok [demo_log "b" 1; demo_log "a" 2]] in
  yields l = [LogEvent (demo_log "a" 1); LogEvent (demo_log "b" 1); Heartbeat; Heartbeat;
              LogEvent (demo_log "a" 2); Heartbeat] ∧ o = Some ().
Proof. split; vm_compute; reflexivity. Qed.

(** A loop that is told the clock and how its ticks end, and is cancelled with the last. *)
Definition scripted_loop T (e : loopE T) : list (float * tick_end) → list (float * tick_end) * T :=
  match e in loopE T return list (float * tick_end) → list (float * tick_end) * T with
  | Monotonic => λ s, (s, match s with (t, _) :: _ => t | [] => float_of_Z 0 end)
  | TickFor _ => λ s, (tail s, match s with (_, r) :: _ => r | [] => TickCancelled end)
  | SleepFor _ => λ s, (s, false)
  end.
(** A failed tick, a stall of 1000 seconds and a cancelled tick. *)
Example scheduler_loop_demo :
  let '(_, _, l, o) := drive scripted_loop 30 (run_scheduler_loop default_settings)
    [(float_of_Z 0, TickFailed ValueError); (float_of_Z 1000, TickDone); (float_of_Z 1030, TickCancelled)] in
  elapses l = [None; Some (NInt 90); Some (NFloat (float_of_Z 30))] ∧ omap nap_of l = [30; 30] ∧ o = Some ().
Proof. split_and!; vm_compute; reflexivity. Qed.
